(* ===== verification/_CoqProject ===== *)
-Q . S2P
Prelude.v
Errno.v
Bytes.v
Abi.v
Util.v
RuntimeRegistry.v
GuestMemory.v
ArmPatch.v
GuestPath.v
HostCalls.v
Descriptors.v
Directories.v
FileCalls.v
Sockets.v
ElfLoader.v
InitialStack.v
Process.v
Boot.v
Termios.v
Futex.v
GuestThread.v
GuestSignal.v
Mmap.v
ThreadLife.v
Trap.v
Time.v
Poll.v
SysCalls.v
System.v
Dispatch.v
Confinement.v
Integrity.v
Emulator.v
