(* ===== verification/Prelude.v ===== *)
(** * A verification of Linuxemu

    Linuxemu runs 32-bit ARM Linux programs on QNX without a virtual machine.  The
    guest's instructions are executed in place by the host's processor; only the
    ones the host would interpret differently, the Linux system call [svc #0] and
    the reads of the TLS register, are overwritten with an undefined instruction.
    The signal handler for that instruction looks the original up and performs it:
    a system call is translated to QNX calls.  The sources are the C files under
    [src/src]; the names below are theirs.

    ** How the parts interact

    [main] parses the command line, sets the guest's root directory, loads the
    program and its interpreter ([elf_loader.c]) into memory ([guest_memory.c]),
    patching their code ([arm_patch.c]), builds the initial stack and enters the
    guest ([runtime.c]).  From then on the trap handler ([trap.c]) runs: it asks
    the patch table what a trapped instruction was and hands system calls to
    [linux_syscall.c], which serves them over the tables of mappings, patches,
    descriptors, threads ([guest_thread.c]), signals ([guest_signal.c]), futexes
    ([linux_futex.c]) and paths ([guest_path.c]), with [linux_time.c],
    [linux_poll.c], [linux_termios.c] and [linux_socket.c] for their calls;
    [execve] starts a new emulator ([guest_process.c]).

    ** The files

    - [Prelude]: machine integers, notations, tactics and lemmas all files share.
    - [Errno]: [linux_errno_number] of [linux_abi.c], host errors as values, the
      conventions of C functions that return -1.
    - [Bytes]: little-endian words, buffers and the guest's memory, a finite map
      from addresses to bytes in which an absent address is unmapped.
    - [Abi]: the rest of [linux_abi.c]: open and status flags, [stat64], [rusage].
    - [Util]: [util.c]: alignment and exact reads.
    - [RuntimeRegistry]: the table of runtime mappings of [guest_memory.c].
    - [GuestMemory]: the rest of [guest_memory.c]: the segments of the program, the
      break, the queries on both tables.
    - [ArmPatch]: [arm_patch.c]: the patch table.
    - [GuestPath]: [guest_path.c]: guest paths below the root directory.
    - [HostCalls]: programs as finite trees of host calls ([io]), the documented
      effect of the calls on the host's table of descriptors ([host_step]), runs and
      weakest preconditions.  The next files are programs of this kind.
    - [Descriptors]: the descriptor tables of [linux_syscall.c] and the calls that
      change them; [Directories]: what [getdents64] writes, read back;
      [FileCalls]: the calls of [linux_syscall.c] that take a path;
      [Sockets]: [linux_socket.c].
    - [ElfLoader]: [elf_loader.c], over [GuestMemory], [ArmPatch] and [GuestPath].
    - [InitialStack]: [create_guest_stack] and the entry of [runtime.c].
    - [Process]: [guest_process.c] and the command line of [linuxemu.c];
      [Boot]: [main] of [linuxemu.c], over all of the above.
    - [Termios]: [linux_termios.c].
    - [Futex]: [linux_futex.c]: the waiters, and the two critical sections of a wait
      as separate steps, so that calls of other threads come in between.
    - [GuestThread]: [guest_thread.c]: one thread's record, pending signals, masks,
      waits, creation; [ThreadLife]: the threads of a process, their end, [fork].
    - [GuestSignal]: [guest_signal.c]: numbers, masks, frames, delivery, return.
    - [Mmap]: [mmap2], [mprotect] and [munmap] of [linux_syscall.c], over the
      registry, the patch table and the threads.
    - [Trap]: [trap.c]: the branches of the handler that ties patches, signals and
      system calls ([trap_branch]), and the handler over any system call layer.
    - [Time]: [linux_time.c].  [Poll]: [linux_poll.c].
    - [SysCalls]: the calls of [linux_syscall.c] that need the descriptors and the
      memory only (limits, status, waiting, names, random bytes, positions, [kill])
      and the trace messages.
    - [System]: the record of all the tables above, what a call gives back
      ([reply]), and the calls over the whole of it: [fork], [clone], [exit],
      [execve], [futex] and the signal calls with their arguments in memory.
    - [Dispatch]: [linux_syscall_dispatch], every case of its switch;
      [Confinement]: the paths and the descriptors over all of its cases;
      [Integrity]: the tables over all of its cases.
    - [Emulator]: the branches of [Trap] on the whole state, with the dispatcher for
      a call that is served, the second half of a futex wait, and the steps of a running guest.

    A C struct is a record, a static table a field of an explicit state, a function
    a definition of the same name that takes the state and gives it back.  A word is
    an integer with its wrap-around written out ([u32], [s32]).  A failing function
    gives [Err] with the [errno] it sets, or with none where the code sets none; a
    call that faults or writes past an array gives [None], [Fault] or
    [ArrayOverflow].

    ** What the theorems show

    - Tables.  The registry is sorted, disjoint and merged in every reachable state
      and each operation is its pointwise specification; the segments, the break,
      the patch table, the threads of a process and the descriptor tables keep
      their invariants under all their operations, and all of them together in
      every state a running guest reaches, under the conditions on its steps below.
    - Transparency.  Patching never changes what the guest executes; the trap
      handler performs exactly the original instruction; delivering a signal and
      returning from it restores the guest; a thread's masks survive every way a
      poll can end.
    - All or nothing.  Loading, mapping, stack creation and socket calls either
      succeed completely or leave everything as it was.
    - Containment.  A path the host gets is below the root, for the resolution
      itself and for every path of every system call, with the exceptions stated
      there: names of UNIX sockets, one form of [utimensat], the devices.
    - Composition.  Over the dispatcher: after a call the guest has its registers
      but for the result, an interrupted call with [SA_RESTART] is made again, and
      from the entry by [main] on, in every state a running guest reaches, the
      tables agree with the host and are well formed.
    - Contracts.  Pending signals are bounded queues as long as their counters have
      room, calls on descriptors meet [fd_spec], a wake of a queued futex waiter is
      conserved and not lost, a directory is listed completely when its entries fit
      the buffer.
    - Encodings.  Stack, records, sets, terminal attributes and command lines are
      read back as they were written.
    - Errors.  Theorems of kind [error] prove what a known flaw of the code does.

    ** Parameters and hypotheses

    The host is a parameter: the numbers of its macros are classes ([HostErrno],
    [HostOpen], [HostProt], [HostSignals], [HostPoll], [HostSocket] and others)
    whose laws are what the headers guarantee, its answers are records of functions
    or the branching of [io].  The hypotheses used are documented behaviour: [mmap]
    without [MAP_FIXED] returns free pages, a new descriptor is not in use, a short
    read makes progress, [fcntl (F_GETFD)] and [fcntl (F_SETFD)] fail on closed
    descriptors only.  At each trap of a running guest ([trap_premises]) its registers
    hold words and its memory bytes, it names none of the emulator's own descriptors,
    the pipes of signal waits are not in its tables, a new waiter is at an address of
    its own and a signal handler only queues signals; the 32-bit counters of the
    real-time queues do not overflow ([counters_unwrapped]).  [mmap2] is proved
    correct for an [off_t] of 64 bits.  Every theorem with hypotheses has a witness with a concrete host.  [PATH_MAX] and
    [off_t] are parameters too.

    ** Fuel

    Recursion is structural but for a few loops that take fuel: [owned_loop] (one
    turn per mapping), [resolve_links] (the code's limit of 40), [align_patch_start]
    (3), [allocate_loop] (2), [safe_components] (the length of the path), reads
    that may be short (one step per answer), [print_decimal] (15 digits),
    [parse_dirents] and [list_directory] of the reference reader (bytes and
    entries), [load_cstring] and [load_vector] (the size of the memory;
    [load_cstring_complete]).  The theorems say that the fuel is enough or that enough fuel gives
    the result.

    ** Not modelled

    The scheduling of threads, but for futexes, where steps interleave: a system
    call is one step of its thread, and the strings it names are read when it
    starts.  A store to an unmapped address of the guest succeeds in the model
    ([mem_store]), where the emulator faults; loads do fault.  A [munmap] whose
    result the code ignores is taken to succeed ([unmapped]).  The posts that
    arriving signals make to a waiter's semaphore are not counted ([fw_posts]).  What
    lies before the array of real-time rings, where wrapped counters of the first
    signal lead, has no contents.  The write-back of shared mappings; changes of the file system during
    the resolution of a path; messages on the error output other than the trace of
    system calls and the report of a fatal signal; mutexes, which protect the tables
    and hold nothing themselves; the test programs and probes, which are not part of
    the emulator. *)

From stdpp Require Export base tactics list numbers gmap.
From Stdlib Require Export ZArith Lia.
#[export] Set Default Goal Selector "!".

(** ** Notation scope of the development *)

Declare Scope emu_scope.
Delimit Scope emu_scope with emu.
Open Scope Z_scope.
Open Scope emu_scope.

(** [x & m] of C, on the non-negative integers that represent unsigned words. *)
Notation "x '.&' y" := (Z.land x y) (at level 40, left associativity) : emu_scope.
(** [x | m] of C. *)
Notation "x '.|' y" := (Z.lor x y) (at level 45, left associativity) : emu_scope.
(** [x & ~m] of C: for [0 <= x < 2^32] the complement's sign does not matter. *)
Notation "x '.&~' y" := (Z.ldiff x y) (at level 40, left associativity) : emu_scope.

(** ** Machine integers *)

Definition U32_MOD : Z := 4294967296.
Definition UINTPTR_MAX : Z := 4294967295.
Definition INT_MAX : Z := 2147483647.

(** Conversion of an integer to [uint32_t] / [uintptr_t] (ILP32). *)
Definition u32 (z : Z) : Z := z mod U32_MOD.

(** Conversion of an integer to [int32_t]. *)
Definition s32 (z : Z) : Z :=
  let r := u32 z in if r <=? INT_MAX then r else r - U32_MOD.

Definition is_u32 (z : Z) : Prop := 0 <= z <= UINTPTR_MAX.

(** The C test [(x & m) != 0]. *)
Definition has (x m : Z) : bool := negb ((x .& m) =? 0).

(** ** Tactics *)

(** Turns boolean comparisons of hypotheses and goal into propositions. *)
Ltac bprop :=
  repeat match goal with
  | H : context [Is_true _] |- _ => rewrite Is_true_true in H
  | H : (_ && _)%bool = true |- _ => apply andb_true_iff in H as [? ?]
  | H : (_ || _)%bool = false |- _ => apply orb_false_iff in H as [? ?]
  | H : (_ || _)%bool = true |- _ => apply orb_true_iff in H
  | H : (_ && _)%bool = false |- _ => apply andb_false_iff in H
  | H : negb _ = true |- _ => apply negb_true_iff in H
  | H : negb _ = false |- _ => apply negb_false_iff in H
  | H : (_ =? _) = true |- _ => apply Z.eqb_eq in H
  | H : (_ =? _) = false |- _ => apply Z.eqb_neq in H
  | H : (_ <? _) = true |- _ => apply Z.ltb_lt in H
  | H : (_ <? _) = false |- _ => apply Z.ltb_ge in H
  | H : (_ <=? _) = true |- _ => apply Z.leb_le in H
  | H : (_ <=? _) = false |- _ => apply Z.leb_gt in H
  | H : (_ =? _)%nat = true |- _ => apply Nat.eqb_eq in H
  | H : (_ =? _)%nat = false |- _ => apply Nat.eqb_neq in H
  | H : (_ <? _)%nat = true |- _ => apply Nat.ltb_lt in H
  | H : (_ <? _)%nat = false |- _ => apply Nat.ltb_ge in H
  | H : (_ <=? _)%nat = true |- _ => apply Nat.leb_le in H
  | H : (_ <=? _)%nat = false |- _ => apply Nat.leb_gt in H
  end.

(** Case analysis on the first conditional of the goal (or of a hypothesis). *)
Ltac cond :=
  match goal with
  | |- context [if ?b then _ else _] =>
      lazymatch b with context [if _ then _ else _] => fail | _ => idtac end;
      lazymatch type of b with
      | bool => let E := fresh "E" in destruct b eqn:E
      | _ => let E := fresh "E" in destruct b as [E | E]
      end
  end.

Ltac cond_in H :=
  match type of H with
  | context [if ?b then _ else _] =>
      lazymatch b with context [if _ then _ else _] => fail | _ => idtac end;
      lazymatch type of b with
      | bool => let E := fresh "E" in destruct b eqn:E
      | _ => let E := fresh "E" in destruct b as [E | E]
      end
  end.

(** [lia] after splitting the disjunctions boolean tests leave behind. *)
Ltac blia :=
  bprop; repeat (match goal with H : _ \/ _ |- _ => destruct H end; bprop); try congruence; lia.

(** Arithmetic with [mod] and [/] by constants. *)
Ltac mlia := Z.to_euclidean_division_equations; lia.

(** ** Lemmas on machine integers *)

Lemma u32_range z : 0 <= u32 z < U32_MOD.
Proof. apply Z.mod_pos_bound. done. Qed.

Lemma u32_is_u32 z : is_u32 (u32 z).
Proof. pose proof (u32_range z). unfold is_u32, UINTPTR_MAX, U32_MOD in *. lia. Qed.

Lemma u32_small z : is_u32 z -> u32 z = z.
Proof. intros []. apply Z.mod_small. unfold U32_MOD, UINTPTR_MAX in *. lia. Qed.

Lemma s32_small z : 0 <= z <= INT_MAX -> s32 z = z.
Proof.
  intros Hz. unfold s32. rewrite u32_small by (unfold is_u32, UINTPTR_MAX, INT_MAX in *; lia).
  destruct (z <=? INT_MAX) eqn:E; bprop; lia.
Qed.

Lemma s32_neg z : -2147483648 <= z < 0 -> s32 z = z.
Proof.
  intros Hz. unfold s32, u32, U32_MOD, INT_MAX.
  replace (z mod 4294967296) with (z + 4294967296) by mlia.
  destruct (_ <=? _) eqn:E; bprop; lia.
Qed.

Lemma u32_s32 z : u32 (s32 z) = u32 z.
Proof. unfold s32, u32, INT_MAX, U32_MOD. case_match; mlia. Qed.

Definition INT_MIN : Z := -2147483648.
Definition is_s32 (z : Z) : Prop := INT_MIN <= z <= INT_MAX.

Lemma s32_is_s32 z : is_s32 (s32 z).
Proof.
  unfold s32, is_s32, INT_MIN, INT_MAX. pose proof (u32_range z). unfold U32_MOD in *.
  destruct (_ <=? _) eqn:E; bprop; lia.
Qed.

(** [s32] is the number of its range that is congruent to its argument. *)
Lemma s32_unique z r : is_s32 r -> u32 r = u32 z -> s32 z = r.
Proof.
  unfold is_s32, INT_MIN, INT_MAX. intros Hr Hu. unfold s32. rewrite <- Hu. unfold u32, U32_MOD, INT_MAX.
  destruct (_ <=? _) eqn:E; bprop; mlia.
Qed.

Lemma s32_plus a b : s32 (s32 a + b) = s32 (a + b).
Proof.
  apply s32_unique; [apply s32_is_s32|]. rewrite u32_s32. pose proof (u32_s32 a) as H. unfold u32 in *.
  by rewrite (Z.add_mod (s32 a)), H, <- Z.add_mod.
Qed.

Lemma s32_minus a b : s32 (a - s32 b) = s32 (a - b).
Proof.
  apply s32_unique; [apply s32_is_s32|]. rewrite u32_s32. pose proof (u32_s32 b) as H. unfold u32 in *.
  by rewrite (Zminus_mod a (s32 b)), H, <- Zminus_mod.
Qed.

Lemma has_true x m : has x m = true <-> x .& m <> 0.
Proof. unfold has. rewrite negb_true_iff, Z.eqb_neq. done. Qed.

Lemma has_false x m : has x m = false <-> x .& m = 0.
Proof. unfold has. rewrite negb_false_iff, Z.eqb_eq. done. Qed.

Lemma land_bound_r x m : 0 <= m -> 0 <= x .& m <= m.
Proof.
  intros Hm. split; [apply Z.land_nonneg; auto|].
  apply Z.ldiff_le; [done|].
  apply Z.bits_inj'. intros i Hi. rewrite Z.ldiff_spec, Z.land_spec, Z.bits_0.
  destruct (Z.testbit x i), (Z.testbit m i); done.
Qed.

(** ** Arrays *)

Lemma nth_insert_ne {A} (l : list A) i j (x d : A) : i <> j -> nth j (<[i := x]> l) d = nth j l d.
Proof.
  intros Hij. rewrite !nth_lookup. by rewrite list_lookup_insert_ne.
Qed.

Lemma nth_insert_eq {A} (l : list A) i (x d : A) : (i < length l)%nat -> nth i (<[i := x]> l) d = x.
Proof. intros Hi. rewrite nth_lookup. by rewrite list_lookup_insert_eq. Qed.

(** ** Hint database *)

Create HintDb emu.
Create Rewrite HintDb emu.
#[export] Hint Resolve u32_range u32_small : emu.
#[export] Hint Unfold is_u32 : emu.
