(* ===== verification/Errno.v ===== *)
(** * Host error numbers and their Linux translation

    Models [linux_errno_number] of [src/src/linux_abi.c] and the two idioms the
    whole emulator builds on it: [return -(int32_t)linux_errno_number(errno)]
    and the C convention "return -1 and set [errno]".  The numeric values of
    the host's error macros come from a QNX header, so they are a parameter. *)

From S2P Require Import Prelude.

(** The host [errno] macros the source names, and any other host error. *)
Inductive errno : Set :=
| EPERM | ENOENT | ESRCH | EINTR | EIO | ENXIO | E2BIG | ENOEXEC | EBADF
| ECHILD | EAGAIN | ENOMEM | EACCES | EFAULT | EBUSY | EEXIST | EXDEV
| ENODEV | ENOTDIR | EISDIR | EINVAL | ENFILE | EMFILE | ENOTTY | EFBIG
| ENOSPC | ESPIPE | EROFS | EMLINK | EPIPE | ERANGE | ENAMETOOLONG | ENOSYS
| ENOTEMPTY | ELOOP | ENOTSOCK | EDESTADDRREQ | EMSGSIZE | EPROTOTYPE
| ENOPROTOOPT | EPROTONOSUPPORT | ESOCKTNOSUPPORT | EOPNOTSUPP
| EPFNOSUPPORT | EAFNOSUPPORT | EADDRINUSE | EADDRNOTAVAIL | ENETDOWN
| ENETUNREACH | ENETRESET | ECONNABORTED | ECONNRESET | ENOBUFS | EISCONN
| ENOTCONN | ESHUTDOWN | ETOOMANYREFS | ETIMEDOUT | ECONNREFUSED
| EHOSTDOWN | EHOSTUNREACH | EALREADY | EINPROGRESS | EOVERFLOW
| EOther (n : Z).

#[export] Instance errno_eq_dec : EqDecision errno.
Proof. solve_decision. Defined.

(** The numbers the host header gives to the macros. *)
Class HostErrno := { errno_code : errno -> Z }.

(** A failing call of the C code: [Err (Some e)] returns -1 having set [errno]
    to [e]; [Err None] returns -1 and leaves [errno] as it was. *)
Inductive result (A : Type) : Type :=
| Ok (a : A)
| Err (e : option errno).
Arguments Ok {A} _.
Arguments Err {A} _.

(** The value of [errno] after a call, given its value before. *)
Definition errno_after {A} (before : errno) (r : result A) : errno :=
  match r with Err (Some e) => e | _ => before end.

Definition is_ok {A} (r : result A) : bool :=
  match r with Ok _ => true | Err _ => false end.

(** Sequencing of C calls with the [if (f() != 0) return -1;] idiom. *)
Definition rbind {A B} (r : result A) (k : A -> result B) : result B :=
  match r with Ok a => k a | Err e => Err e end.
Notation "'letr' x ':=' r 'in' k" := (rbind r (fun x => k))
  (at level 10, x name, r at level 100, k at level 200) : emu_scope.

(** [errno = e; return -1;] *)
Definition fail_with {A} (e : errno) : result A := Err (Some e).

(** The cases of the switch of [linux_errno_number], in source order. *)
Definition errno_cases : list (errno * Z) :=
  [ (EPERM, 1); (ENOENT, 2); (ESRCH, 3); (EINTR, 4); (EIO, 5); (ENXIO, 6);
    (E2BIG, 7); (ENOEXEC, 8); (EBADF, 9); (ECHILD, 10); (EAGAIN, 11);
    (ENOMEM, 12); (EACCES, 13); (EFAULT, 14); (EBUSY, 16); (EEXIST, 17);
    (EXDEV, 18); (ENODEV, 19); (ENOTDIR, 20); (EISDIR, 21); (EINVAL, 22);
    (ENFILE, 23); (EMFILE, 24); (ENOTTY, 25); (EFBIG, 27); (ENOSPC, 28);
    (ESPIPE, 29); (EROFS, 30); (EMLINK, 31); (EPIPE, 32); (ERANGE, 34);
    (ENAMETOOLONG, 36); (ENOSYS, 38); (ENOTEMPTY, 39); (ELOOP, 40);
    (ENOTSOCK, 88); (EDESTADDRREQ, 89); (EMSGSIZE, 90); (EPROTOTYPE, 91);
    (ENOPROTOOPT, 92); (EPROTONOSUPPORT, 93); (ESOCKTNOSUPPORT, 94);
    (EOPNOTSUPP, 95); (EPFNOSUPPORT, 96); (EAFNOSUPPORT, 97);
    (EADDRINUSE, 98); (EADDRNOTAVAIL, 99); (ENETDOWN, 100);
    (ENETUNREACH, 101); (ENETRESET, 102); (ECONNABORTED, 103);
    (ECONNRESET, 104); (ENOBUFS, 105); (EISCONN, 106); (ENOTCONN, 107);
    (ESHUTDOWN, 108); (ETOOMANYREFS, 109); (ETIMEDOUT, 110);
    (ECONNREFUSED, 111); (EHOSTDOWN, 112); (EHOSTUNREACH, 113);
    (EALREADY, 114); (EINPROGRESS, 115) ].

Section linux_errno.
Context `{!HostErrno}.

Fixpoint switch_errno (cases : list (errno * Z)) (value : Z) : Z :=
  match cases with
  | [] => 5
  | (e, n) :: cases => if value =? errno_code e then n else switch_errno cases value
  end.

Definition linux_errno_number (value : Z) : Z :=
  if value =? 0 then 0 else switch_errno errno_cases value.

(** [-(int32_t)linux_errno_number(errno)] with [errno] equal to [e]. *)
Definition linux_error (e : errno) : Z := - linux_errno_number (errno_code e).

(** [return -EINVAL;] and the like: the host's number with a minus sign. *)
Definition host_negative (e : errno) : Z := - errno_code e.

(** [linux_host_result] and [linux_result]: a non-negative host result is
    passed on, a negative one becomes the translated [errno]. *)
Definition linux_host_result (result : Z) (e : errno) : Z :=
  if result <? 0 then linux_error e else result.
End linux_errno.

(** What the host header guarantees: error numbers are positive, and the
    labels of the switch are distinct (a C constraint on the source). *)
Class HostErrnoOk `{!HostErrno} : Prop := {
  errno_code_pos : forall e, 0 < errno_code e;
  errno_labels_distinct : NoDup (map (fun c => errno_code c.1) errno_cases)
}.

(** ** Properties *)

Section properties.
Context `{!HostErrno}.

Lemma switch_errno_range cases value :
  Forall (fun c => 1 <= c.2 <= 115) cases -> 1 <= switch_errno cases value <= 115.
Proof.
  induction 1 as [|[e n] cases Hn _ IH]; simpl in *; [lia|]. by case_match.
Qed.

Lemma switch_errno_label cases e n :
  NoDup (map (fun c => errno_code c.1) cases) -> (e, n) ∈ cases ->
  switch_errno cases (errno_code e) = n.
Proof.
  induction cases as [|[e' n'] cases IH]; simpl; intros Hnd Hin.
  { by apply not_elem_of_nil in Hin. }
  apply NoDup_cons in Hnd as [Hni Hnd]. apply elem_of_cons in Hin as [[= <- <-]|Hin].
  { by rewrite Z.eqb_refl. }
  destruct (errno_code e =? errno_code e') eqn:E; [|by auto].
  bprop. exfalso. apply Hni. rewrite <- E. by apply (list_elem_of_fmap_2 (fun c => errno_code c.1) _ (e, n)).
Qed.

Lemma errno_cases_range : Forall (fun c => 1 <= c.2 <= 115) errno_cases.
Proof. apply (bool_decide_unpack _). by vm_compute. Qed.
End properties.

(** A number assignment used by the witnesses of this development. *)
Module ExampleErrno.
Definition code (e : errno) : Z :=
  match e with
  | EPERM => 1 | ENOENT => 2 | ESRCH => 3 | EINTR => 4 | EIO => 5 | ENXIO => 6
  | E2BIG => 7 | ENOEXEC => 8 | EBADF => 9 | ECHILD => 10 | EAGAIN => 11
  | ENOMEM => 12 | EACCES => 13 | EFAULT => 14 | EBUSY => 16 | EEXIST => 17
  | EXDEV => 18 | ENODEV => 19 | ENOTDIR => 20 | EISDIR => 21 | EINVAL => 22
  | ENFILE => 23 | EMFILE => 24 | ENOTTY => 25 | EFBIG => 27 | ENOSPC => 28
  | ESPIPE => 29 | EROFS => 30 | EMLINK => 31 | EPIPE => 32 | ERANGE => 34
  | ENAMETOOLONG => 78 | EOVERFLOW => 79 | ENOSYS => 89 | ELOOP => 90
  | ENOTEMPTY => 93 | EOPNOTSUPP => 103 | EINPROGRESS => 236 | EALREADY => 237
  | ENOTSOCK => 238 | EDESTADDRREQ => 239 | EMSGSIZE => 240
  | EPROTOTYPE => 241 | ENOPROTOOPT => 242 | EPROTONOSUPPORT => 243
  | ESOCKTNOSUPPORT => 244 | EPFNOSUPPORT => 246 | EAFNOSUPPORT => 247
  | EADDRINUSE => 248 | EADDRNOTAVAIL => 249 | ENETDOWN => 250
  | ENETUNREACH => 251 | ENETRESET => 252 | ECONNABORTED => 253
  | ECONNRESET => 254 | ENOBUFS => 255 | EISCONN => 256 | ENOTCONN => 257
  | ESHUTDOWN => 258 | ETOOMANYREFS => 259 | ETIMEDOUT => 260
  | ECONNREFUSED => 261 | EHOSTDOWN => 264 | EHOSTUNREACH => 265
  | EOther n => 1000 + Z.abs n
  end.
Definition host_errno : HostErrno := {| errno_code := code |}.
Lemma host_errno_ok : @HostErrnoOk host_errno.
Proof.
  split.
  - intros []; simpl; lia.
  - apply (bool_decide_unpack _). by vm_compute.
Qed.
End ExampleErrno.

(** [linux_errno_number] never reports a host failure as success and only
    produces numbers a Linux guest reads as an error: the result lies in
    [0, 115] and is 0 exactly when the host value is 0; so
    [-(int32_t)linux_errno_number(errno)] of a set [errno] is in [-115, -1]. *)
Theorem linux_errno_number_sound `{!HostErrno} (value : Z) :
  0 <= linux_errno_number value <= 115 /\
  (linux_errno_number value = 0 <-> value = 0).
Proof.
  unfold linux_errno_number. destruct (value =? 0) eqn:E; bprop; [lia|].
  pose proof (switch_errno_range _ value errno_cases_range). lia.
Qed.

(** Every errno the switch names is translated to its Linux number, and
    distinct named errors stay distinct. *)
Theorem linux_errno_number_table `{!HostErrno} (Hok : HostErrnoOk) :
  (forall e n, (e, n) ∈ errno_cases -> linux_errno_number (errno_code e) = n) /\
  (forall e1 n1 e2 n2, (e1, n1) ∈ errno_cases -> (e2, n2) ∈ errno_cases ->
     linux_errno_number (errno_code e1) = linux_errno_number (errno_code e2) -> e1 = e2).
Proof.
  assert (Hnum : forall e n, (e, n) ∈ errno_cases -> linux_errno_number (errno_code e) = n).
  { intros e n Hin. unfold linux_errno_number.
    pose proof (errno_code_pos e). destruct (errno_code e =? 0) eqn:E; bprop; [lia|].
    by apply switch_errno_label; [apply errno_labels_distinct|]. }
  split; [done|]. intros e1 n1 e2 n2 H1 H2. rewrite (Hnum _ _ H1), (Hnum _ _ H2).
  intros ->. assert (Hnd : NoDup (map snd errno_cases)).
  { apply (bool_decide_unpack _). by vm_compute. }
  apply list_elem_of_lookup in H1 as [i Hi], H2 as [j Hj].
  assert (i = j) as ->; [|congruence].
  apply (NoDup_lookup _ i j n2 Hnd); by rewrite list_lookup_fmap, ?Hi, ?Hj.
Qed.

Lemma linux_errno_number_table_witness :
  @HostErrnoOk ExampleErrno.host_errno /\
  @linux_errno_number ExampleErrno.host_errno (ExampleErrno.code ENAMETOOLONG) = 36.
Proof.
  split; [apply ExampleErrno.host_errno_ok|].
  apply (proj1 (@linux_errno_number_table ExampleErrno.host_errno
    ExampleErrno.host_errno_ok) ENAMETOOLONG 36).
  apply (bool_decide_unpack _). vm_compute. exact I.
Defined.

#[export] Hint Resolve errno_code_pos : emu.

(** A failing host call always yields a negative Linux result. *)
Lemma linux_error_range `{!HostErrno} (Hok : HostErrnoOk) e : -115 <= linux_error e <= -1.
Proof.
  unfold linux_error, linux_errno_number. pose proof (errno_code_pos e).
  destruct (errno_code e =? 0) eqn:E; bprop; [lia|].
  pose proof (switch_errno_range _ (errno_code e) errno_cases_range). lia.
Qed.

(** Errors are reported as negative values. *)
Lemma linux_error_neg `{!HostErrno, !HostErrnoOk} e : linux_error e < 0.
Proof.
  unfold linux_error. destruct (linux_errno_number_sound (errno_code e)) as [Hr Hz].
  pose proof (errno_code_pos e). assert (linux_errno_number (errno_code e) <> 0); [|lia].
  intros Hzero. apply Hz in Hzero. lia.
Qed.

Lemma host_negative_neg `{!HostErrno, !HostErrnoOk} e : host_negative e < 0.
Proof. unfold host_negative. pose proof (errno_code_pos e). lia. Qed.
