(* ===== verification/Bytes.v ===== *)
(** * Little-endian bytes: guest buffers and guest memory

    The emulator and its guests are little-endian ARM.  A C buffer is a list of
    bytes ([memcpy (buffer + offset, &value, sizeof value)] is [store_le]); the
    memory the emulator and the guest share is a finite map from addresses to
    bytes, an address outside its domain being unmapped. *)

From S2P Require Import Prelude.
From stdpp Require Export list_numbers fin_maps.
Open Scope Z_scope.

Definition is_byte (b : Z) : Prop := 0 <= b < 256.

(** The [n] bytes of an integer, least significant first. *)
Definition le_bytes (n : nat) (v : Z) : list Z := Z_to_little_endian (Z.of_nat n) 8 v.
Definition le_value (bs : list Z) : Z := little_endian_to_Z 8 bs.

(** ** Buffers *)

Definition store_le (n : nat) (offset : nat) (v : Z) (buffer : list Z) : list Z :=
  list_inserts offset (le_bytes n v) buffer.

Definition load_le (n : nat) (offset : nat) (buffer : list Z) : Z :=
  le_value (take n (drop offset buffer)).

(** ** Memory *)

Definition memory := gmap Z Z.

Fixpoint mem_store (m : gmap Z Z) (a : Z) (bs : list Z) : gmap Z Z :=
  match bs with
  | [] => m
  | b :: bs => <[a := b]> (mem_store m (a + 1) bs)
  end.

(** [None] when one of the addresses is unmapped. *)
Fixpoint mem_load (m : gmap Z Z) (a : Z) (n : nat) : option (list Z) :=
  match n with
  | O => Some []
  | S n => match m !! a, mem_load m (a + 1) n with
           | Some b, Some bs => Some (b :: bs)
           | _, _ => None
           end
  end.

Definition load32 (m : gmap Z Z) (a : Z) : option Z :=
  match mem_load m a 4 with Some bs => Some (le_value bs) | None => None end.
Definition store32 (m : gmap Z Z) (a : Z) (v : Z) : gmap Z Z :=
  mem_store m a (le_bytes 4 v).

Fixpoint load_words (m : gmap Z Z) (a : Z) (n : nat) : option (list Z) :=
  match n with
  | O => Some []
  | S n => match load32 m a, load_words m (a + 4) n with
           | Some w, Some ws => Some (w :: ws)
           | _, _ => None
           end
  end.

(** Every mapped address holds a byte. *)
Definition mem_wf (m : gmap Z Z) : Prop := map_Forall (fun _ b => is_byte b) m.

(** ** Properties of the byte encoding *)

Lemma length_le_bytes n v : length (le_bytes n v) = n.
Proof. unfold le_bytes. pose proof (length_Z_to_little_endian (Z.of_nat n) 8 v). lia. Qed.

Lemma le_value_bytes n v : le_value (le_bytes n v) = v mod 2 ^ (8 * Z.of_nat n).
Proof.
  unfold le_value, le_bytes. rewrite little_endian_to_Z_to_little_endian by lia.
  f_equal. f_equal. lia.
Qed.

Lemma le_value_bytes_small n v : 0 <= v < 2 ^ (8 * Z.of_nat n) -> le_value (le_bytes n v) = v.
Proof. intros. by rewrite le_value_bytes, Z.mod_small. Qed.

Lemma le_bytes_value bs : Forall is_byte bs -> le_bytes (length bs) (le_value bs) = bs.
Proof. intros. unfold le_bytes, le_value. apply Z_to_little_endian_to_Z; [lia|lia|done]. Qed.

Lemma le_bytes_byte n v : Forall is_byte (le_bytes n v).
Proof. apply (Z_to_little_endian_bound (Z.of_nat n) 8 v); lia. Qed.

Lemma le_value_range bs :
  Forall is_byte bs -> 0 <= le_value bs < 2 ^ (8 * Z.of_nat (length bs)).
Proof.
  intros. unfold le_value. rewrite Z.mul_comm. apply little_endian_to_Z_bound; [lia|done].
Qed.

(** ** Properties of buffers *)

Lemma length_store_le n off v buf : length (store_le n off v buf) = length buf.
Proof. apply length_inserts. Qed.

Lemma load_store_le n off v buf :
  (off + n <= length buf)%nat -> load_le n off (store_le n off v buf) = v mod 2 ^ (8 * Z.of_nat n).
Proof.
  intros Hlen. unfold load_le. rewrite <- le_value_bytes. f_equal. unfold store_le.
  apply list_eq. intros i. destruct (decide (i < n)%nat) as [Hi|Hi].
  - rewrite lookup_take_lt, lookup_drop by done.
    rewrite list_lookup_inserts by (rewrite ?length_le_bytes; lia).
    f_equal. lia.
  - rewrite lookup_take_ge by lia. symmetry. apply lookup_ge_None.
    rewrite length_le_bytes. lia.
Qed.

Lemma load_store_le_ne n off n' off' v buf :
  (off + n <= off' \/ off' + n' <= off)%nat ->
  load_le n off (store_le n' off' v buf) = load_le n off buf.
Proof.
  intros Hd. unfold load_le. f_equal. apply list_eq. intros i.
  destruct (decide (i < n)%nat) as [Hi|Hi]; [|by rewrite !lookup_take_ge by lia].
  rewrite !lookup_take_lt, !lookup_drop by done. unfold store_le.
  destruct Hd; [apply list_lookup_inserts_lt; lia|].
  apply list_lookup_inserts_ge. rewrite length_le_bytes. lia.
Qed.

(** ** Properties of memory *)

Lemma mem_store_lookup_out m a bs x :
  x < a \/ a + Z.of_nat (length bs) <= x -> mem_store m a bs !! x = m !! x.
Proof.
  revert a. induction bs as [|b bs IH]; intros a Hx; simpl in *; [done|].
  rewrite lookup_insert_ne by lia. apply IH. lia.
Qed.

Lemma mem_store_lookup_in m a bs i b :
  bs !! i = Some b -> mem_store m a bs !! (a + Z.of_nat i) = Some b.
Proof.
  revert a i. induction bs as [|b' bs IH]; intros a [|i] Hi; simplify_eq/=.
  - rewrite Z.add_0_r. by rewrite lookup_insert_eq.
  - rewrite lookup_insert_ne by lia. rewrite <- (IH (a + 1) i Hi). f_equal. lia.
Qed.

Lemma mem_load_Some m a n bs :
  mem_load m a n = Some bs <->
  length bs = n /\ forall i b, bs !! i = Some b -> m !! (a + Z.of_nat i) = Some b.
Proof.
  revert a bs. induction n as [|n IH]; intros a bs; simpl.
  { split; [intros [= <-]; done|]. intros [Hl _]. by destruct bs. }
  split.
  - destruct (m !! a) eqn:Ha; [|done]. destruct (mem_load m (a + 1) n) as [bs'|] eqn:Hl; [|done].
    intros [= <-]. apply IH in Hl as [<- Hl]. split; [done|].
    intros [|i] b Hi; simplify_eq/=; [by rewrite Z.add_0_r|].
    rewrite <- (Hl i b Hi). f_equal. lia.
  - intros [Hlen Hi]. destruct bs as [|b bs]; simplify_eq/=.
    pose proof (Hi 0%nat b eq_refl) as H0. simpl in H0. rewrite Z.add_0_r in H0. rewrite H0.
    destruct (IH (a + 1) bs) as [_ IH']. rewrite IH'; [done|].
    split; [done|]. intros i b' Hb'. rewrite <- (Hi (S i) b' Hb'). f_equal. lia.
Qed.

Lemma mem_load_store m a bs : mem_load (mem_store m a bs) a (length bs) = Some bs.
Proof. apply mem_load_Some. split; [done|]. apply mem_store_lookup_in. Qed.

Lemma mem_load_ext m m' a n :
  (forall x, a <= x < a + Z.of_nat n -> m !! x = m' !! x) -> mem_load m a n = mem_load m' a n.
Proof.
  revert a. induction n as [|n IH]; intros a Hx; simpl; [done|].
  rewrite (Hx a) by lia. rewrite (IH (a + 1)); [done|]. intros. apply Hx. lia.
Qed.

Lemma mem_load_store_ne m a bs b n :
  b + Z.of_nat n <= a \/ a + Z.of_nat (length bs) <= b ->
  mem_load (mem_store m a bs) b n = mem_load m b n.
Proof. intros Hd. apply mem_load_ext. intros x Hx. apply mem_store_lookup_out. lia. Qed.

Lemma mem_load_app m a n k bs ds :
  mem_load m a n = Some bs -> mem_load m (a + Z.of_nat n) k = Some ds ->
  mem_load m a (n + k) = Some (bs ++ ds).
Proof.
  revert a bs. induction n as [|n IH]; intros a bs Hb Hd; simpl in *.
  - injection Hb as <-. by rewrite Z.add_0_r in Hd.
  - destruct (m !! a) as [b|]; [|done]. destruct (mem_load m (a + 1) n) as [bs'|] eqn:E; [|done].
    injection Hb as <-. rewrite (IH (a + 1) bs'); [done|done|].
    by replace (a + 1 + Z.of_nat n) with (a + Z.of_nat (S n)) by lia.
Qed.

Lemma load32_store32_eq m a v : is_u32 v -> load32 (store32 m a v) a = Some v.
Proof.
  intros Hv. unfold load32, store32.
  pose proof (mem_load_store m a (le_bytes 4 v)) as H. rewrite length_le_bytes in H.
  rewrite H. f_equal. apply le_value_bytes_small. unfold is_u32, UINTPTR_MAX in Hv.
  change (2 ^ (8 * Z.of_nat 4)) with 4294967296. lia.
Qed.

Lemma load32_store32_ne m a b v : b + 4 <= a \/ a + 4 <= b -> load32 (store32 m a v) b = load32 m b.
Proof.
  intros Hd. unfold load32, store32. rewrite mem_load_store_ne; [done|].
  rewrite length_le_bytes. lia.
Qed.

Lemma store32_lookup_out m a v x : x < a \/ a + 4 <= x -> store32 m a v !! x = m !! x.
Proof. intros. apply mem_store_lookup_out. rewrite length_le_bytes. lia. Qed.

Lemma mem_load_byte m a n bs : mem_wf m -> mem_load m a n = Some bs -> Forall is_byte bs.
Proof.
  intros Hwf [_ Hl]%mem_load_Some. apply Forall_lookup. intros i b Hi.
  eapply Hwf. by apply (Hl i).
Qed.

Lemma load32_u32 m a v : mem_wf m -> load32 m a = Some v -> is_u32 v.
Proof.
  unfold load32. destruct (mem_load m a 4) as [bs|] eqn:E; [|done]. intros Hwf [= <-].
  pose proof (le_value_range bs (mem_load_byte _ _ _ _ Hwf E)) as Hr.
  apply mem_load_Some in E as [Hl _]. rewrite Hl in Hr.
  change (2 ^ (8 * Z.of_nat 4)) with 4294967296 in Hr. unfold is_u32, UINTPTR_MAX. lia.
Qed.

(** Storing the word a location already holds changes nothing; storing a word
    and then the old one restores the memory. *)
Lemma mem_store_load m a n bs bs' :
  mem_load m a n = Some bs -> length bs' = n -> mem_store (mem_store m a bs') a bs = m.
Proof.
  intros [Hl Hi]%mem_load_Some Hl'. apply map_eq. intros x.
  destruct (decide (a <= x < a + Z.of_nat n)) as [Hx|Hx].
  - destruct (lookup_lt_is_Some_2 bs (Z.to_nat (x - a))) as [b Hb]; [lia|].
    replace x with (a + Z.of_nat (Z.to_nat (x - a))) by lia.
    rewrite (mem_store_lookup_in _ _ _ _ _ Hb). symmetry. by apply Hi.
  - rewrite !mem_store_lookup_out; [done|lia|lia].
Qed.

Lemma store32_restore m a v w : mem_wf m -> load32 m a = Some v -> store32 (store32 m a w) a v = m.
Proof.
  unfold load32. destruct (mem_load m a 4) as [bs|] eqn:E; [|done]. intros Hwf [= <-].
  unfold store32. assert (length bs = 4%nat) as Hl by (by apply mem_load_Some in E as []).
  replace (le_bytes 4 (le_value bs)) with bs.
  - eapply mem_store_load; [exact E|]. apply length_le_bytes.
  - rewrite <- Hl. symmetry. apply le_bytes_value. by eapply mem_load_byte.
Qed.

Lemma mem_store_wf m a bs : mem_wf m -> Forall is_byte bs -> mem_wf (mem_store m a bs).
Proof.
  intros Hwf Hbs. revert a. induction Hbs as [|b bs Hb _ IH]; intros a; simpl; [done|].
  apply map_Forall_insert_2; [done|apply IH].
Qed.

Lemma store32_wf m a v : mem_wf m -> mem_wf (store32 m a v).
Proof. intros. apply mem_store_wf; [done|apply le_bytes_byte]. Qed.

Lemma load32_mapped m a : (forall x, a <= x < a + 4 -> is_Some (m !! x)) -> is_Some (load32 m a).
Proof.
  intros Hm. unfold load32. simpl.
  destruct (Hm a) as [b0 ->]; [lia|]. destruct (Hm (a + 1)) as [b1 ->]; [lia|].
  destruct (Hm (a + 1 + 1)) as [b2 ->]; [lia|]. destruct (Hm (a + 1 + 1 + 1)) as [b3 ->]; [lia|].
  by eexists.
Qed.

Lemma store32_is_Some m a v x : is_Some (m !! x) -> is_Some (store32 m a v !! x).
Proof.
  unfold store32. generalize (le_bytes 4 v) as bs. intros bs Hx. revert a.
  induction bs as [|b bs IH]; intros a; simpl; [done|].
  destruct (decide (a = x)) as [->|Hne]; [rewrite lookup_insert_eq; by eexists|].
  by rewrite lookup_insert_ne.
Qed.

Lemma load32_bytes_mapped m a x : is_Some (load32 m a) -> a <= x < a + 4 -> is_Some (m !! x).
Proof.
  intros [v Hv] Hx. unfold load32 in Hv. destruct (mem_load m a 4) as [bs|] eqn:Eb; [|done].
  apply mem_load_Some in Eb as [Hl Hi].
  destruct (lookup_lt_is_Some_2 bs (Z.to_nat (x - a))) as [b Hb]; [lia|].
  exists b. rewrite <- (Hi _ _ Hb). f_equal. lia.
Qed.

Lemma load32_store32_is_Some m a v b : is_Some (load32 m b) -> is_Some (load32 (store32 m a v) b).
Proof.
  intros Hb. apply load32_mapped. intros x Hx. apply store32_is_Some. by eapply load32_bytes_mapped.
Qed.

#[export] Hint Resolve store32_wf mem_store_wf le_bytes_byte : emu.
#[export] Hint Rewrite length_le_bytes length_store_le : emu.

(** ** Mapping and unmapping *)

(** [mmap] with [MAP_ANON] gives zero-filled memory; [munmap] takes it away. *)
Definition mem_zero (m : gmap Z Z) (a n : Z) : gmap Z Z :=
  mem_store m a (replicate (Z.to_nat n) 0).
Definition mem_unmap (m : gmap Z Z) (a n : Z) : gmap Z Z :=
  filter (fun xb => ~ (a <= xb.1 < a + n)) m.

Definition inside (a n x : Z) : bool := (a <=? x) && (x <? a + n).

Lemma inside_spec a n x : inside a n x = true <-> a <= x < a + n.
Proof. unfold inside. rewrite andb_true_iff, Z.leb_le, Z.ltb_lt. done. Qed.

Lemma mem_store_lookup m a bs x :
  mem_store m a bs !! x =
  if inside a (Z.of_nat (length bs)) x then bs !! Z.to_nat (x - a) else m !! x.
Proof.
  unfold inside. cond; bprop.
  - destruct (lookup_lt_is_Some_2 bs (Z.to_nat (x - a))) as [b Hb]; [lia|]. rewrite Hb.
    replace x with (a + Z.of_nat (Z.to_nat (x - a))) by lia. by apply mem_store_lookup_in.
  - apply mem_store_lookup_out. lia.
Qed.

Lemma mem_zero_lookup m a n x :
  mem_zero m a n !! x = if inside a n x then Some 0 else m !! x.
Proof.
  unfold mem_zero. rewrite mem_store_lookup, length_replicate. unfold inside.
  destruct (decide (0 <= n)) as [Hn|Hn].
  - rewrite Z2Nat.id by done. cond; [|done]. bprop. apply lookup_replicate_2. lia.
  - rewrite !(proj2 (andb_false_iff _ _)); [done|rewrite !Z.ltb_ge, !Z.leb_gt; lia..].
Qed.

Lemma mem_unmap_lookup m a n x :
  mem_unmap m a n !! x = if inside a n x then None else m !! x.
Proof.
  unfold mem_unmap, inside. cond; bprop.
  - apply map_lookup_filter_None. right. intros ? _. simpl. lia.
  - destruct (m !! x) eqn:Hx.
    + apply map_lookup_filter_Some. split; [done|]. simpl. lia.
    + apply map_lookup_filter_None. by left.
Qed.

Lemma mem_zero_wf m a n : mem_wf m -> mem_wf (mem_zero m a n).
Proof.
  intros. apply mem_store_wf; [done|]. apply Forall_replicate. unfold is_byte. lia.
Qed.

(** Two memories agree outside a range. *)
Definition same_outside (a n : Z) (m m' : gmap Z Z) : Prop :=
  forall x, inside a n x = false -> m' !! x = m !! x.

(** Unmapping a range restores the memory in which the range was free. *)
Lemma mem_unmap_restore m m' a n :
  (forall x, inside a n x = true -> m !! x = None) -> same_outside a n m m' ->
  mem_unmap m' a n = m.
Proof.
  intros Hfree Hout. apply map_eq. intros x. rewrite mem_unmap_lookup.
  cond; [by rewrite Hfree|by apply Hout].
Qed.

Lemma mem_zero_outside m a n : same_outside a n m (mem_zero m a n).
Proof. intros x Hx. by rewrite mem_zero_lookup, Hx. Qed.

Lemma mem_store_outside m m' a n b bs :
  same_outside a n m m' -> a <= b -> b + Z.of_nat (length bs) <= a + n ->
  same_outside a n m (mem_store m' b bs).
Proof.
  intros Hout Hb He x Hx. rewrite mem_store_lookup. unfold inside in *.
  cond; [|by apply Hout]. bprop. lia.
Qed.
#[export] Hint Resolve mem_zero_outside mem_zero_wf : emu.
