(* ===== verification/Abi.v ===== *)
(** * Linux ABI conversions of [src/src/linux_abi.c]

    Open flags, file status flags, and the layouts of [struct stat64] and
    [struct rusage] the guest reads.  The host's [O_*] macros come from a QNX
    header and are a parameter; a macro the source guards with [#ifdef] is an
    [option]. *)

From S2P Require Import Prelude Errno Bytes.
Open Scope Z_scope.

Definition LINUX_O_ACCMODE : Z := 0x3.
Definition LINUX_O_CREAT : Z := 0x40.
Definition LINUX_O_EXCL : Z := 0x80.
Definition LINUX_O_NOCTTY : Z := 0x100.
Definition LINUX_O_TRUNC : Z := 0x200.
Definition LINUX_O_APPEND : Z := 0x400.
Definition LINUX_O_NONBLOCK : Z := 0x800.
Definition LINUX_O_DSYNC : Z := 0x1000.
Definition LINUX_O_DIRECTORY : Z := 0x4000.
Definition LINUX_O_NOFOLLOW : Z := 0x8000.
Definition LINUX_O_DIRECT : Z := 0x10000.
Definition LINUX_O_LARGEFILE : Z := 0x20000.
Definition LINUX_O_CLOEXEC : Z := 0x80000.

(** The host's [fcntl.h]. *)
Class HostOpen := {
  O_ACCMODE : Z; O_RDONLY : Z; O_WRONLY : Z; O_RDWR : Z;
  O_CREAT : Z; O_EXCL : Z; O_NOCTTY : Z; O_TRUNC : Z; O_APPEND : Z;
  O_NONBLOCK : Z; O_DSYNC : option Z; O_DIRECTORY : option Z;
  O_NOFOLLOW : option Z; O_DIRECT : option Z; O_CLOEXEC : option Z
}.

(** The known-flags mask of [linux_open_flags]. *)
Definition LINUX_O_KNOWN : Z :=
  LINUX_O_ACCMODE .| LINUX_O_CREAT .| LINUX_O_EXCL .| LINUX_O_NOCTTY
  .| LINUX_O_TRUNC .| LINUX_O_APPEND .| LINUX_O_NONBLOCK .| LINUX_O_DSYNC
  .| LINUX_O_DIRECTORY .| LINUX_O_NOFOLLOW .| LINUX_O_DIRECT
  .| LINUX_O_LARGEFILE .| LINUX_O_CLOEXEC.

(** [if ((flags & bit) != 0) result |= host;], with [host] possibly undefined. *)
Definition or_flag (flags bit : Z) (host : option Z) (result : Z) : Z :=
  match host with
  | Some h => if has flags bit then result .| h else result
  | None => result
  end.

Section flags.
Context `{!HostOpen}.

(** [None] is the return value -1. *)
Definition linux_open_flags (linux_flags : Z) : option Z :=
  if negb (linux_flags .&~ LINUX_O_KNOWN =? 0)
     || (linux_flags .& LINUX_O_ACCMODE =? LINUX_O_ACCMODE) then None
  else
    let access := linux_flags .& LINUX_O_ACCMODE in
    let result := if access =? 0 then O_RDONLY
                  else if access =? 1 then O_WRONLY else O_RDWR in
    let result := or_flag linux_flags LINUX_O_CREAT (Some O_CREAT) result in
    let result := or_flag linux_flags LINUX_O_EXCL (Some O_EXCL) result in
    let result := or_flag linux_flags LINUX_O_NOCTTY (Some O_NOCTTY) result in
    let result := or_flag linux_flags LINUX_O_TRUNC (Some O_TRUNC) result in
    let result := or_flag linux_flags LINUX_O_APPEND (Some O_APPEND) result in
    let result := or_flag linux_flags LINUX_O_NONBLOCK (Some O_NONBLOCK) result in
    let result := or_flag linux_flags LINUX_O_DSYNC O_DSYNC result in
    let result := or_flag linux_flags LINUX_O_DIRECTORY O_DIRECTORY result in
    let result := or_flag linux_flags LINUX_O_NOFOLLOW O_NOFOLLOW result in
    let result := or_flag linux_flags LINUX_O_DIRECT O_DIRECT result in
    let result := or_flag linux_flags LINUX_O_CLOEXEC O_CLOEXEC result in
    Some result.

Definition linux_status_flags (host_flags : Z) : Z :=
  let access := host_flags .& O_ACCMODE in
  let result := if access =? O_WRONLY then 1
                else if access =? O_RDWR then 2 else 0 in
  let result := if has host_flags O_APPEND then result .| LINUX_O_APPEND else result in
  let result := if has host_flags O_NONBLOCK then result .| LINUX_O_NONBLOCK else result in
  let result := match O_DSYNC with
                | Some d => if has host_flags d then result .| LINUX_O_DSYNC else result
                | None => result
                end in
  result .| LINUX_O_LARGEFILE.

(** The [O_*] flags besides the access mode, in the order of
    [linux_open_flags]; an undefined macro contributes no bit. *)
Definition host_open_bits : list Z :=
  [ O_CREAT; O_EXCL; O_NOCTTY; O_TRUNC; O_APPEND; O_NONBLOCK; default 0 O_DSYNC;
    default 0 O_DIRECTORY; default 0 O_NOFOLLOW; default 0 O_DIRECT;
    default 0 O_CLOEXEC ].
End flags.

(** What [fcntl.h] guarantees: the access modes are distinct values inside
    [O_ACCMODE], the other flags are outside it and pairwise disjoint, and the
    flags the source tests are non-zero. *)
Class HostOpenOk `{!HostOpen} : Prop := {
  accmode_in : Forall (fun f => f .& O_ACCMODE = f) [O_RDONLY; O_WRONLY; O_RDWR];
  accmode_distinct : NoDup [O_RDONLY; O_WRONLY; O_RDWR];
  open_bits_disjoint : forall i j f g,
    (O_ACCMODE :: host_open_bits) !! i = Some f ->
    (O_ACCMODE :: host_open_bits) !! j = Some g -> i <> j -> f .& g = 0;
  open_bits_nonzero :
    O_APPEND <> 0 /\ O_NONBLOCK <> 0 /\ forall d, O_DSYNC = Some d -> d <> 0
}.

(** ** [stat64] and [rusage] *)

Record host_stat := {
  st_dev : Z; st_ino : Z; st_mode : Z; st_nlink : Z; st_uid : Z; st_gid : Z;
  st_rdev : Z; st_size : Z; st_blksize : Z; st_blocks : Z; st_atime : Z;
  st_mtime : Z; st_ctime : Z
}.

Definition store_u32 (buffer : list Z) (offset : nat) (value : Z) : list Z :=
  store_le 4 offset value buffer.
Definition store_u64 (buffer : list Z) (offset : nat) (value : Z) : list Z :=
  store_le 8 offset value buffer.

(** The stores of [linux_stat64_store] in program order: width, offset, value. *)
Definition stat64_fields (status : host_stat) : list (nat * nat * Z) :=
  [ (8, 0, st_dev status); (4, 12, st_ino status); (4, 16, st_mode status);
    (4, 20, st_nlink status); (4, 24, st_uid status); (4, 28, st_gid status);
    (8, 32, st_rdev status); (8, 48, st_size status); (4, 56, st_blksize status);
    (8, 64, st_blocks status); (4, 72, st_atime status); (4, 80, st_mtime status);
    (4, 88, st_ctime status); (8, 96, st_ino status) ]%nat.

Definition store_fields (fields : list (nat * nat * Z)) (buffer : list Z) : list Z :=
  fold_left (fun buffer '(width, offset, value) =>
    if (width =? 8)%nat then store_u64 buffer offset value
    else store_u32 buffer offset value) fields buffer.

Arguments store_fields : simpl never.

(** The 104 bytes written at the guest's buffer. *)
Definition linux_stat64_store (status : host_stat) : list Z :=
  store_fields (stat64_fields status) (replicate 104 0).

Record host_rusage := {
  ru_utime_sec : Z; ru_utime_usec : Z; ru_stime_sec : Z; ru_stime_usec : Z;
  ru_maxrss : Z; ru_ixrss : Z; ru_idrss : Z; ru_isrss : Z; ru_minflt : Z;
  ru_majflt : Z; ru_nswap : Z; ru_inblock : Z; ru_oublock : Z; ru_msgsnd : Z;
  ru_msgrcv : Z; ru_nsignals : Z; ru_nvcsw : Z; ru_nivcsw : Z
}.

Definition rusage_values (usage : host_rusage) : list Z :=
  [ ru_maxrss usage; ru_ixrss usage; ru_idrss usage; ru_isrss usage;
    ru_minflt usage; ru_majflt usage; ru_nswap usage; ru_inblock usage;
    ru_oublock usage; ru_msgsnd usage; ru_msgrcv usage; ru_nsignals usage;
    ru_nvcsw usage; ru_nivcsw usage ].

(** The four time words, then [values[i]] at offset [16 + i * 4]. *)
Definition rusage_fields (usage : host_rusage) : list (nat * nat * Z) :=
  [ (4, 0, ru_utime_sec usage); (4, 4, ru_utime_usec usage);
    (4, 8, ru_stime_sec usage); (4, 12, ru_stime_usec usage) ]%nat
  ++ imap (fun i v => (4, 16 + i * 4, v)%nat) (rusage_values usage).

Definition linux_rusage_store (usage : host_rusage) : list Z :=
  store_fields (rusage_fields usage) (replicate 72 0).

(** ** Properties of the flag conversions *)

Lemma or_flag_lor flags bit host result :
  or_flag flags bit host result = result .| (if has flags bit then default 0 host else 0).
Proof. destruct host; simpl; case_match; by rewrite ?Z.lor_0_r. Qed.

Lemma if_land (b : bool) h m : h .& m = 0 -> (if b then h else 0) .& m = 0.
Proof. by destruct b. Qed.

(** [f & 2^k] is the bit or nothing. *)
Lemma land_pow2 f k : 0 <= k -> f .& 2 ^ k = if has f (2 ^ k) then 2 ^ k else 0.
Proof.
  intros Hk. unfold has. destruct (f .& 2 ^ k =? 0) eqn:E; simpl; bprop; [done|].
  apply Z.bits_inj'. intros i Hi. rewrite Z.land_spec, !Z.pow2_bits_eqb by done.
  destruct (k =? i) eqn:Ei; bprop; [|by rewrite andb_false_r]. subst i.
  rewrite andb_true_r. destruct (Z.testbit f k) eqn:Et; [done|]. destruct E.
  apply Z.bits_inj'. intros i Hi'. rewrite Z.land_spec, Z.pow2_bits_eqb, Z.bits_0 by done.
  destruct (k =? i) eqn:Ei; bprop; subst; by rewrite ?Et, ?andb_false_r.
Qed.

Section flag_properties.
Context `{!HostOpen, !HostOpenOk}.

Lemma open_bits_land i j f g :
  host_open_bits !! i = Some f -> host_open_bits !! j = Some g -> i <> j -> f .& g = 0.
Proof. intros Hf Hg Hij. apply (open_bits_disjoint (S i) (S j)); [done|done|lia]. Qed.

Lemma open_bits_accmode i f : host_open_bits !! i = Some f -> f .& O_ACCMODE = 0.
Proof. intros Hf. apply (open_bits_disjoint (S i) 0); [done|done|lia]. Qed.

(** The access mode has none of the flag bits. *)
Lemma access_land a i f :
  a .& O_ACCMODE = a -> host_open_bits !! i = Some f -> a .& f = 0.
Proof.
  intros <- Hf. rewrite <- Z.land_assoc, (Z.land_comm O_ACCMODE), (open_bits_accmode i f Hf).
  apply Z.land_0_r.
Qed.

Definition access_mode (linux_flags : Z) : Z :=
  if linux_flags .& LINUX_O_ACCMODE =? 0 then O_RDONLY
  else if linux_flags .& LINUX_O_ACCMODE =? 1 then O_WRONLY else O_RDWR.

Lemma access_mode_in f : access_mode f .& O_ACCMODE = access_mode f.
Proof.
  pose proof accmode_in as Hin. rewrite !Forall_cons in Hin. destruct Hin as (?&?&?&_).
  unfold access_mode. by repeat case_match.
Qed.

(** The Linux counterparts of [host_open_bits]. *)
Definition linux_open_bits : list Z :=
  [ LINUX_O_CREAT; LINUX_O_EXCL; LINUX_O_NOCTTY; LINUX_O_TRUNC; LINUX_O_APPEND;
    LINUX_O_NONBLOCK; LINUX_O_DSYNC; LINUX_O_DIRECTORY; LINUX_O_NOFOLLOW;
    LINUX_O_DIRECT; LINUX_O_CLOEXEC ].

Definition or_bits (f : Z) (bits hosts : list Z) (base : Z) : Z :=
  fold_left (fun r '(bit, h) => r .| (if has f bit then h else 0)) (zip bits hosts) base.

Lemma linux_open_flags_or_bits f host :
  linux_open_flags f = Some host -> host = or_bits f linux_open_bits host_open_bits (access_mode f).
Proof.
  unfold linux_open_flags. cond; [done|]. fold (access_mode f).
  intros <-%(inj Some). by rewrite !or_flag_lor.
Qed.

Lemma or_bits_land_disjoint f bits hosts base m :
  Forall (fun h => h .& m = 0) hosts -> or_bits f bits hosts base .& m = base .& m.
Proof.
  intros Hd. revert bits base. induction Hd as [|h hosts Hh _ IH]; intros [|bit bits] base; [done..|].
  unfold or_bits; simpl. fold (or_bits f bits hosts (base .| (if has f bit then h else 0))).
  by rewrite IH, Z.land_lor_distr_l, if_land, Z.lor_0_r.
Qed.

Lemma or_bits_land f bits hosts base i bit h :
  bits !! i = Some bit -> hosts !! i = Some h -> base .& h = 0 ->
  (forall j g, hosts !! j = Some g -> i <> j -> g .& h = 0) ->
  or_bits f bits hosts base .& h = if has f bit then h else 0.
Proof.
  revert bits hosts base. induction i as [|i IH]; intros [|b bits] [|g hosts] base; try done;
    simpl; intros Hb Hh Hbase Hd; simplify_eq; unfold or_bits; simpl.
  - fold (or_bits f bits hosts (base .| (if has f bit then h else 0))).
    rewrite or_bits_land_disjoint.
    + rewrite Z.land_lor_distr_l, Hbase. destruct (has f bit); by rewrite ?Z.land_diag.
    + apply Forall_lookup. intros j g Hg. by apply (Hd (S j)).
  - fold (or_bits f bits hosts (base .| (if has f b then g else 0))). apply IH; [done..| |].
    + by rewrite Z.land_lor_distr_l, Hbase, if_land by (by apply (Hd 0%nat)).
    + intros j g' Hg' Hne. apply (Hd (S j)); [done|lia].
Qed.

(** Masking the translated flags with one host bit leaves that bit alone. *)
Lemma open_flags_land f host i bit h :
  linux_open_flags f = Some host -> linux_open_bits !! i = Some bit ->
  host_open_bits !! i = Some h -> host .& h = if has f bit then h else 0.
Proof.
  intros ->%linux_open_flags_or_bits Hbit Hh. apply (or_bits_land _ _ _ _ i); [done..| |].
  - by eapply access_land; [apply access_mode_in|].
  - intros j g Hg Hne. by eapply open_bits_land.
Qed.

Lemma open_flags_has f host i bit h :
  linux_open_flags f = Some host -> linux_open_bits !! i = Some bit ->
  host_open_bits !! i = Some h -> h <> 0 -> has host h = has f bit.
Proof.
  intros Hf Hbit Hh Hnz. unfold has at 1. rewrite (open_flags_land f host i bit h) by done.
  destruct (has f bit); simpl; [|done]. apply negb_true_iff, Z.eqb_neq. done.
Qed.

Lemma open_flags_accmode f host :
  linux_open_flags f = Some host -> host .& O_ACCMODE = access_mode f.
Proof.
  intros ->%linux_open_flags_or_bits. rewrite or_bits_land_disjoint; [apply access_mode_in|].
  apply Forall_lookup. intros i h Hh. by eapply open_bits_accmode.
Qed.
End flag_properties.

(** Translating open flags to the host and the resulting file status back
    ([fcntl(F_GETFL)]) returns exactly the guest's access mode, [O_APPEND],
    [O_NONBLOCK] and (where the host has it) [O_DSYNC], plus [O_LARGEFILE]. *)
Theorem open_flags_status_roundtrip `{!HostOpen} (Hok : HostOpenOk) (f host : Z) :
  linux_open_flags f = Some host ->
  linux_status_flags host =
    f .& (LINUX_O_ACCMODE .| LINUX_O_APPEND .| LINUX_O_NONBLOCK
          .| (if O_DSYNC is Some _ then LINUX_O_DSYNC else 0)) .| LINUX_O_LARGEFILE.
Proof.
  intros Hf. destruct open_bits_nonzero as (Happ & Hnb & Hds).
  unfold linux_status_flags. rewrite (open_flags_accmode f host Hf).
  rewrite (open_flags_has f host 4 LINUX_O_APPEND O_APPEND Hf) by done.
  rewrite (open_flags_has f host 5 LINUX_O_NONBLOCK O_NONBLOCK Hf) by done.
  rewrite !Z.land_lor_distr_r.
  replace (f .& LINUX_O_APPEND) with (if has f LINUX_O_APPEND then LINUX_O_APPEND else 0)
    by (symmetry; exact (land_pow2 f 10 ltac:(lia))).
  replace (f .& LINUX_O_NONBLOCK) with (if has f LINUX_O_NONBLOCK then LINUX_O_NONBLOCK else 0)
    by (symmetry; exact (land_pow2 f 11 ltac:(lia))).
  assert (Hacc : (if access_mode f =? O_WRONLY then 1
                  else if access_mode f =? O_RDWR then 2 else 0) = f .& LINUX_O_ACCMODE).
  { pose proof accmode_distinct as Hd. rewrite !NoDup_cons in Hd.
    assert (O_RDONLY <> O_WRONLY /\ O_RDONLY <> O_RDWR /\ O_WRONLY <> O_RDWR) by set_solver.
    unfold linux_open_flags in Hf. cond_in Hf; [done|]. clear Hf. bprop.
    pose proof (land_bound_r f LINUX_O_ACCMODE ltac:(done)) as Hb.
    unfold access_mode, LINUX_O_ACCMODE in *.
    destruct (f .& 3 =? 0) eqn:E0; [|destruct (f .& 3 =? 1) eqn:E1]; bprop;
      repeat (case_match; bprop); congruence || lia. }
  rewrite Hacc.
  destruct O_DSYNC as [d|] eqn:Ed; [|by destruct (has f LINUX_O_APPEND), (has f LINUX_O_NONBLOCK);
    rewrite ?Z.land_0_r, ?Z.lor_0_r].
  rewrite (open_flags_has f host 6 LINUX_O_DSYNC d Hf);
    [|done|by unfold host_open_bits; rewrite Ed|by apply Hds].
  replace (f .& LINUX_O_DSYNC) with (if has f LINUX_O_DSYNC then LINUX_O_DSYNC else 0)
    by (symmetry; exact (land_pow2 f 12 ltac:(lia))).
  by destruct (has f LINUX_O_APPEND), (has f LINUX_O_NONBLOCK), (has f LINUX_O_DSYNC);
    rewrite ?Z.lor_0_r.
Qed.

(** A flag assignment used by the witness below. *)
Definition example_open : HostOpen := {|
  O_ACCMODE := 3; O_RDONLY := 0; O_WRONLY := 1; O_RDWR := 2; O_CREAT := 0x100;
  O_EXCL := 0x400; O_NOCTTY := 0x800; O_TRUNC := 0x200; O_APPEND := 0x8;
  O_NONBLOCK := 0x80; O_DSYNC := Some 0x20; O_DIRECTORY := None;
  O_NOFOLLOW := Some 0x100000; O_DIRECT := None; O_CLOEXEC := Some 0x2000 |}.

Lemma example_open_ok : @HostOpenOk example_open.
Proof.
  split; [by repeat constructor|apply (bool_decide_unpack _); by vm_compute| |].
  - intros i j f g Hf Hg Hij. pose proof (lookup_lt_Some _ _ _ Hf). pose proof (lookup_lt_Some _ _ _ Hg).
    simpl in *. do 12 (destruct i as [|i]; [injection Hf as <-;
      do 12 (destruct j as [|j]; [injection Hg as <-; first [done|lia]|]); lia|]); lia.
  - repeat split; [done..|]. by intros d [= <-].
Qed.

Lemma open_flags_status_roundtrip_witness :
  @linux_open_flags example_open 0x20c42 = Some 0x18a /\
  @linux_status_flags example_open 0x18a = 0x20c02.
Proof.
  split; [vm_compute; reflexivity|].
  apply (@open_flags_status_roundtrip example_open example_open_ok 0x20c42 0x18a).
  vm_compute. reflexivity.
Defined.

(** ** Properties of the structure layouts *)

(** Fields are 4 or 8 bytes wide, lie inside [len] bytes and do not overlap. *)
Definition apart (f g : nat * nat) : bool :=
  (f.2 + f.1 <=? g.2)%nat || (g.2 + g.1 <=? f.2)%nat.
Fixpoint layout_ok (len : nat) (layout : list (nat * nat)) : bool :=
  match layout with
  | [] => true
  | f :: layout =>
    ((f.1 =? 4)%nat || (f.1 =? 8)%nat) && (f.2 + f.1 <=? len)%nat
    && forallb (apart f) layout && layout_ok len layout
  end.

Lemma store_fields_cons w off v fields buf :
  (w = 4 \/ w = 8)%nat ->
  store_fields ((w, off, v) :: fields) buf = store_fields fields (store_le w off v buf).
Proof. by intros [-> | ->]. Qed.

Lemma layout_width len f layout : layout_ok len (f :: layout) = true ->
  (f.1 = 4 \/ f.1 = 8)%nat /\ (f.2 + f.1 <= len)%nat /\
  Forall (fun g => apart f g = true) layout /\ layout_ok len layout = true.
Proof.
  simpl. rewrite !andb_true_iff, orb_true_iff, !Nat.eqb_eq, Nat.leb_le.
  intros [[[? ?] Hf] ?]. repeat split; try done. apply Forall_forall.
  intros g Hg. rewrite forallb_forall in Hf. apply Hf. by apply list_elem_of_In.
Qed.

Lemma apart_iff f g : apart f g = true <-> (f.2 + f.1 <= g.2 \/ g.2 + g.1 <= f.2)%nat.
Proof. unfold apart. by rewrite orb_true_iff, !Nat.leb_le. Qed.

Lemma length_store_fields fields buf : length (store_fields fields buf) = length buf.
Proof.
  revert buf. induction fields as [|[[w off] v] fields IH]; intros buf; [done|].
  unfold store_fields. simpl. fold (store_fields fields). rewrite IH.
  case_match; apply length_store_le.
Qed.

(** A byte outside every field is not written, nor a field apart from all. *)
Lemma load_store_fields_ne fields buf n off len :
  layout_ok len (map fst fields) = true ->
  Forall (fun f => apart (n, off) f = true) (map fst fields) ->
  load_le n off (store_fields fields buf) = load_le n off buf.
Proof.
  revert buf. induction fields as [|[[w o] v] fields IH]; intros buf Hok Ha; [done|].
  apply layout_width in Hok as (Hw & _ & _ & Hok). simpl in *.
  apply Forall_cons in Ha as [Hap%apart_iff Ha]. rewrite store_fields_cons, IH by done.
  apply load_store_le_ne. simpl in Hap. lia.
Qed.

(** Reading a field back gives the value stored, truncated to its width. *)
Lemma load_store_fields fields buf w off v :
  layout_ok (length buf) (map fst fields) = true -> (w, off, v) ∈ fields ->
  load_le w off (store_fields fields buf) = v mod 2 ^ (8 * Z.of_nat w).
Proof.
  revert buf. induction fields as [|[[w' o'] v'] fields IH]; intros buf Hok Hin.
  { by apply not_elem_of_nil in Hin. }
  pose proof Hok as (Hw & Hlen & Ha & Hok')%layout_width. simpl in *.
  rewrite store_fields_cons by done. apply elem_of_cons in Hin as [[= -> -> ->]|Hin].
  - rewrite (load_store_fields_ne _ _ _ _ (length buf)) by done. apply load_store_le. lia.
  - apply IH; [by rewrite length_store_le|done].
Qed.

(** [linux_stat64_store] writes the Linux ARM [struct stat64] layout: 104
    bytes in which every field reads back as the host's value truncated to the
    field's width, no field overwriting another. *)
Theorem stat64_layout (status : host_stat) :
  length (linux_stat64_store status) = 104%nat /\
  (forall w off v, (w, off, v) ∈ stat64_fields status ->
     load_le w off (linux_stat64_store status) = v mod 2 ^ (8 * Z.of_nat w)) /\
  load_le 4 8 (linux_stat64_store status) = 0 /\ load_le 8 40 (linux_stat64_store status) = 0.
Proof.
  assert (Hok : layout_ok 104 (map fst (stat64_fields status)) = true) by done.
  split; [apply length_store_fields|]. split.
  - intros w off v Hin. by apply load_store_fields.
  - by split; unfold linux_stat64_store; rewrite (load_store_fields_ne _ _ _ _ 104)
      by (done || by repeat constructor).
Qed.

(** [linux_rusage_store] writes the 72-byte Linux [struct rusage]: the four
    time words and the fourteen counters, each at its own offset, each reading
    back as the host's value modulo 2^32. *)
Theorem rusage_layout (usage : host_rusage) :
  length (linux_rusage_store usage) = 72%nat /\
  (forall i v, ([ru_utime_sec usage; ru_utime_usec usage; ru_stime_sec usage;
                 ru_stime_usec usage] ++ rusage_values usage) !! i = Some v ->
     load_le 4 (4 * i) (linux_rusage_store usage) = u32 v).
Proof.
  split; [apply length_store_fields|]. intros i v Hi.
  apply (load_store_fields (rusage_fields usage) (replicate 72 0) 4 (4 * i) v); [done|].
  do 18 (destruct i as [|i]; [injection Hi as <-; unfold rusage_fields; simpl; set_solver|]).
  done.
Qed.
