(* ===== verification/Util.v ===== *)
(** * Alignment and exact reads: [src/src/util.c]

    [align_down] and [align_up] on 32-bit words, and [read_exact_at], the loop
    that turns short and interrupted [pread] calls into an all-or-error read. *)

From S2P Require Import Prelude Errno Bytes.
Open Scope Z_scope.

Definition align_down (value alignment : Z) : Z := value .&~ u32 (alignment - 1).
Definition align_up (value alignment : Z) : Z :=
  u32 (value + alignment - 1) .&~ u32 (alignment - 1).

(** What the host does at one [pread] call: it is interrupted, it fails, or it
    transfers some bytes, at most [n] of them. *)
Inductive pread_step : Set :=
| PInterrupted
| PFailed (e : errno)
| PTransfer (n : nat).

#[export] Instance pread_step_eq_dec : EqDecision pread_step.
Proof. solve_decision. Defined.

(** [pread (fd, cursor, length, offset)] on a file with the given contents:
    the bytes transferred, none of them at or past the end of the file. *)
Definition pread_bytes (file : list Z) (length offset n : nat) : list Z :=
  take (Nat.min n length) (drop offset file).

(** [read_exact_at]; [None] means the host steps ran out before the loop
    returned.  The result is the contents of the buffer. *)
Fixpoint read_exact_at (steps : list pread_step) (file : list Z)
    (length offset : nat) : option (result (list Z)) :=
  match length with
  | O => Some (Ok [])
  | _ =>
    match steps with
    | [] => None
    | PInterrupted :: steps => read_exact_at steps file length offset
    | PFailed e :: _ => Some (fail_with e)
    | PTransfer n :: steps =>
      match pread_bytes file length offset n with
      | [] => Some (fail_with EIO)
      | bs =>
        match read_exact_at steps file (length - List.length bs) (offset + List.length bs) with
        | Some (Ok rest) => Some (Ok (bs ++ rest))
        | other => other
        end
      end
    end
  end.

Arguments read_exact_at : simpl never.

(** ** Alignment *)

Lemma ldiff_ones v k : 0 <= k -> v .&~ (2 ^ k - 1) = v - v mod 2 ^ k.
Proof.
  intros Hk. replace (2 ^ k - 1) with (Z.ones k) by (rewrite Z.ones_equiv; lia).
  rewrite Z.ldiff_ones_r by done. rewrite Z.shiftl_mul_pow2, Z.shiftr_div_pow2 by done.
  pose proof (Z.div_mod v (2 ^ k)). lia.
Qed.

Definition is_page (p : Z) : Prop := exists k, 0 <= k < 32 /\ p = 2 ^ k.

Lemma is_page_range p : is_page p -> 1 <= p <= 2147483648.
Proof.
  intros (k & Hk & ->). split.
  - pose proof (Z.pow_pos_nonneg 2 k). lia.
  - change 2147483648 with (2 ^ 31). apply Z.pow_le_mono_r; lia.
Qed.

Lemma align_down_mod v p : is_page p -> align_down v p = v - v mod p.
Proof.
  intros Hp. pose proof (is_page_range p Hp). unfold align_down.
  rewrite u32_small by (unfold is_u32, UINTPTR_MAX; lia).
  destruct Hp as (k & Hk & ->). apply ldiff_ones. lia.
Qed.

Lemma align_up_mod v p :
  is_page p -> 0 <= v <= UINTPTR_MAX - (p - 1) ->
  align_up v p = (v + p - 1) - (v + p - 1) mod p.
Proof.
  intros Hp Hv. pose proof (is_page_range p Hp). unfold align_up.
  rewrite !u32_small by (unfold is_u32, UINTPTR_MAX in *; lia).
  destruct Hp as (k & Hk & ->). apply ldiff_ones. lia.
Qed.

(** [align_down] is the largest multiple below, [align_up] the least above. *)
Lemma align_down_spec v p :
  is_page p -> align_down v p mod p = 0 /\ align_down v p <= v < align_down v p + p.
Proof.
  intros Hp. rewrite align_down_mod by done. pose proof (is_page_range p Hp).
  pose proof (Z.mod_pos_bound v p). split; [|lia].
  rewrite Zminus_mod_idemp_r, Z.sub_diag. done.
Qed.

Lemma align_up_spec v p :
  is_page p -> 0 <= v <= UINTPTR_MAX - (p - 1) ->
  align_up v p mod p = 0 /\ v <= align_up v p < v + p.
Proof.
  intros Hp Hv. rewrite align_up_mod by done. pose proof (is_page_range p Hp).
  pose proof (Z.mod_pos_bound (v + p - 1) p). split; [|lia].
  rewrite Zminus_mod_idemp_r, Z.sub_diag. done.
Qed.

(** Two multiples of [p] less than [p] apart are equal. *)
Lemma multiples_close a b p : 0 < p -> a mod p = 0 -> b mod p = 0 -> a - p < b < a + p -> a = b.
Proof.
  intros Hp Ha Hb Hab. apply Z.mod_divide in Ha as [x ->], Hb as [y ->]; [|lia..].
  assert (x = y) as ->; [nia|done].
Qed.

Lemma align_up_mono a b p :
  is_page p -> 0 <= a -> a <= b <= UINTPTR_MAX - (p - 1) -> align_up a p <= align_up b p.
Proof.
  intros Hp Ha Hab. pose proof (is_page_range p Hp).
  destruct (align_up_spec a p) as [Hma Hba]; [done|lia|].
  destruct (align_up_spec b p) as [Hmb Hbb]; [done|lia|].
  destruct (Z.le_gt_cases (align_up a p) (align_up b p)) as [|Hgt]; [done|].
  pose proof (multiples_close (align_up a p) (align_up b p) p). lia.
Qed.

(** For a power-of-two page size [align_up] rounds up to the least multiple
    not below the value and [align_down] down to the greatest not above it,
    provided the rounded value fits in 32 bits (the guard the callers test). *)
Theorem align_rounds (v p x : Z) :
  is_page p -> 0 <= v <= UINTPTR_MAX - (p - 1) -> x mod p = 0 ->
  (align_up v p <= x <-> v <= x) /\ (x <= align_down v p <-> x <= v).
Proof.
  intros Hp Hv Hx. pose proof (is_page_range p Hp).
  destruct (align_up_spec v p Hp Hv) as [Hmu Hu]. destruct (align_down_spec v p Hp) as [Hmd Hd].
  pose proof (multiples_close (align_up v p) x p ltac:(lia) Hmu Hx).
  pose proof (multiples_close (align_down v p) x p ltac:(lia) Hmd Hx). lia.
Qed.

Lemma is_page_4096 : is_page 4096.
Proof. by exists 12. Qed.

Lemma align_rounds_witness : align_up 0x12345 4096 <= 0x13000.
Proof.
  apply (align_rounds 0x12345 4096 0x13000); [exact is_page_4096|vm_compute; split; discriminate|
    reflexivity|vm_compute; discriminate].
Defined.

(** ** Exact reads *)

Lemma pread_bytes_length file length offset n :
  List.length (pread_bytes file length offset n) =
  Nat.min (Nat.min n length) (List.length file - offset).
Proof. unfold pread_bytes. by rewrite length_take, length_drop. Qed.

Lemma read_exact_at_0 steps file offset : read_exact_at steps file 0 offset = Some (Ok []).
Proof. by destruct steps. Qed.

Lemma read_exact_at_S steps file len offset : (len <> 0)%nat ->
  read_exact_at steps file len offset =
  match steps with
  | [] => None
  | PInterrupted :: steps => read_exact_at steps file len offset
  | PFailed e :: _ => Some (fail_with e)
  | PTransfer n :: steps =>
    match pread_bytes file len offset n with
    | [] => Some (fail_with EIO)
    | bs =>
      match read_exact_at steps file (len - length bs) (offset + length bs) with
      | Some (Ok rest) => Some (Ok (bs ++ rest))
      | other => other
      end
    end
  end.
Proof. destruct steps, len; done. Qed.

(** A successful read returns exactly the requested bytes of the file. *)
Lemma read_exact_at_ok steps file len offset bs :
  read_exact_at steps file len offset = Some (Ok bs) ->
  bs = take len (drop offset file) /\ length bs = len.
Proof.
  revert len offset bs. induction steps as [|step steps IH]; intros len offset bs;
    (destruct (decide (len = 0%nat)) as [->|Hlen];
      [rewrite read_exact_at_0; by intros [= <-]|]);
    rewrite read_exact_at_S by done; [done|].
  destruct step as [|e|n]; [by apply IH|done|].
  pose proof (pread_bytes_length file len offset n) as Hpl.
  destruct (pread_bytes file len offset n) as [|b bs'] eqn:Ep; [done|].
  cbv zeta. match goal with |- context [read_exact_at ?s ?f ?l ?o] =>
    destruct (read_exact_at s f l o) as [[rest|]|] eqn:Er end; intros [= <-].
  apply IH in Er as [Hrest Hl]. rewrite app_comm_cons, length_app. split; [|simpl in *; lia].
  rewrite <- Ep, Hrest. unfold pread_bytes in Ep |- *. rewrite <- drop_drop.
  set (d := drop offset file) in *. set (k := length (b :: bs')) in *.
  replace (take (n `min` len) d) with (take k d); [|].
  - rewrite <- (take_drop k (take len d)). rewrite take_take, skipn_firstn_comm. f_equal.
    f_equal. lia.
  - apply (f_equal length) in Ep as Hk. rewrite length_take in Hk. subst k. rewrite <- Ep, length_take.
    destruct (Nat.le_ge_cases (n `min` len) (length d)); [by rewrite (Nat.min_l _ (length d)) by lia|].
    rewrite (Nat.min_r _ (length d)) by lia. by rewrite !take_ge by lia.
Qed.

(** Whatever the host answers, a read of [len] bytes returns after at most [len]
    calls that are not interrupted. *)
Lemma read_exact_at_returns steps file len offset :
  (len <= length (filter (fun s => s <> PInterrupted) steps))%nat ->
  is_Some (read_exact_at steps file len offset).
Proof.
  revert len offset. induction steps as [|s steps IH]; intros len offset Hcount;
    (destruct (decide (len = 0%nat)) as [->|Hlen]; [rewrite read_exact_at_0; by eexists|]);
    [rewrite filter_nil in Hcount; simpl in Hcount; lia|].
  rewrite read_exact_at_S by done. destruct s as [|e|n].
  { rewrite filter_cons_False in Hcount by tauto. by apply IH. }
  { by eexists. }
  rewrite filter_cons_True in Hcount by done. cbn [length] in Hcount.
  destruct (pread_bytes file len offset n) as [|b bs] eqn:Ep; [by eexists|].
  cbv zeta. destruct (IH (len - length (b :: bs))%nat (offset + length (b :: bs))%nat) as [r ->];
    [cbn [length]; lia|]. destruct r; by eexists.
Qed.

Definition is_transfer (s : pread_step) : bool :=
  match s with PTransfer (S _) => true | _ => false end.

(** [read_exact_at] on a file that holds the requested range returns exactly
    that range however the host splits or interrupts the transfer, as soon as
    the host has made [length] productive calls; it never returns short data. *)
Theorem read_exact_at_total (steps : list pread_step) (file : list Z) (len offset : nat) :
  (offset + len <= length file)%nat ->
  Forall (fun s => s = PInterrupted \/ is_transfer s = true) steps ->
  (len <= length (filter (fun s => is_transfer s = true) steps))%nat ->
  read_exact_at steps file len offset = Some (Ok (take len (drop offset file))).
Proof.
  intros Hin Hsteps Hcount.
  enough (exists bs, read_exact_at steps file len offset = Some (Ok bs)) as [bs Hbs].
  { rewrite Hbs. by apply read_exact_at_ok in Hbs as [<- _]. }
  revert len offset Hin Hcount. induction Hsteps as [|s steps Hs _ IH]; intros len offset Hin Hcount;
    (destruct (decide (len = 0%nat)) as [->|Hlen]; [exists []; apply read_exact_at_0|]);
    [rewrite filter_nil in Hcount; simpl in Hcount; lia|].
  rewrite read_exact_at_S by done. destruct Hs as [->|Hs].
  { rewrite filter_cons_False in Hcount by done. by apply IH. }
  rewrite filter_cons_True in Hcount by done. destruct s as [| |[|n]]; try done.
  pose proof (pread_bytes_length file len offset (S n)) as Hpl.
  destruct (pread_bytes file len offset (S n)) as [|b bs] eqn:Ep; [cbn [length] in Hpl; lia|].
  cbv zeta. destruct (IH (len - length (b :: bs))%nat (offset + length (b :: bs))%nat) as [rest ->];
    [cbn [length] in *; lia..|]. eauto.
Qed.

Lemma read_exact_at_total_witness :
  read_exact_at [PTransfer 1; PInterrupted; PTransfer 7; PTransfer 2] [1;2;3;4;5] 3 1
  = Some (Ok [2;3;4]).
Proof.
  apply (read_exact_at_total [PTransfer 1; PInterrupted; PTransfer 7; PTransfer 2] [1;2;3;4;5] 3 1).
  - simpl. lia.
  - repeat (apply Forall_cons_2; [first [left; reflexivity | right; reflexivity]|]).
    apply Forall_nil_2.
  - vm_compute. lia.
Defined.

