(* ===== verification/RuntimeRegistry.v ===== *)
(** * Runtime mapping registry of [src/src/guest_memory.c]

    The table of address ranges the emulator owns on behalf of the guest
    ([runtime_mappings], at most [MAX_RUNTIME_MAPPINGS] entries, with a scratch
    table of two more), and the routines that run with [runtime_mapping_lock]
    held.  The abstract specification is a partial function from addresses to
    the executable flag. *)

From S2P Require Import Prelude Errno.
From Stdlib Require Import Sorted.
Open Scope Z_scope.

Definition MAX_RUNTIME_MAPPINGS : nat := 2048.

(** [struct runtime_mapping]; the callers pass 0 or 1 for [executable]. *)
Record runtime_mapping := Mapping { rm_start : Z; rm_end : Z; rm_exec : bool }.

Definition ranges_overlap (first_start first_end second_start second_end : Z) : bool :=
  (first_start <? second_end) && (second_start <? first_end).

(** The inner [for] of [runtime_range_owned_locked]. *)
Definition covered_end (l : list runtime_mapping) (cursor : Z) : Z :=
  fold_left (fun covered x =>
    if (rm_start x <=? cursor) && (covered <? rm_end x) then rm_end x else covered)
    l cursor.

(** The [while] of [runtime_range_owned_locked]; [None] is "out of fuel". *)
Fixpoint owned_loop (fuel : nat) (l : list runtime_mapping) (cursor end_ : Z) : option bool :=
  if cursor <? end_ then
    match fuel with
    | O => None
    | S fuel =>
      if covered_end l cursor =? cursor then Some false
      else owned_loop fuel l (covered_end l cursor) end_
    end
  else Some true.

Definition runtime_range_owned_locked (l : list runtime_mapping) (start end_ : Z) : option bool :=
  owned_loop (S (length l)) l start end_.

(** The entries the first loop of [runtime_replace_locked] writes for [old]. *)
Definition split_mapping (start end_ : Z) (old : runtime_mapping) : list runtime_mapping :=
  if negb (ranges_overlap start end_ (rm_start old) (rm_end old)) then [old]
  else (if rm_start old <? start then [Mapping (rm_start old) start (rm_exec old)] else [])
       ++ (if end_ <? rm_end old then [Mapping end_ (rm_end old) (rm_exec old)] else []).

(** The scratch table after the first loop and the optional replacement. *)
Definition replacement (l : list runtime_mapping) (start end_ : Z) (add exec : bool)
  : list runtime_mapping :=
  flat_map (split_mapping start end_) l ++ (if add then [Mapping start end_ exec] else []).

(** The in-place insertion sort: [item] moves left past the entries with a
    greater start.  The sorted prefix is kept in reverse. *)
Fixpoint insert_left (item : runtime_mapping) (rev_prefix : list runtime_mapping)
  : list runtime_mapping :=
  match rev_prefix with
  | [] => [item]
  | x :: r => if rm_start item <? rm_start x then x :: insert_left item r else item :: x :: r
  end.
Definition insertion_sort (l : list runtime_mapping) : list runtime_mapping :=
  rev (fold_left (fun acc item => insert_left item acc) l []).

(** The compaction loop: an entry that continues the last one kept is merged. *)
Definition compact_step (acc : list runtime_mapping) (x : runtime_mapping)
  : list runtime_mapping :=
  match acc with
  | [] => [x]
  | p :: r => if (rm_end p =? rm_start x) && eqb (rm_exec p) (rm_exec x)
              then Mapping (rm_start p) (rm_end x) (rm_exec p) :: r else x :: acc
  end.
Definition compact (l : list runtime_mapping) : list runtime_mapping :=
  rev (fold_left compact_step l []).

(** [None] is the return value -1, the registry left as it was. *)
Definition runtime_replace_locked (l : list runtime_mapping) (start end_ : Z)
    (add exec : bool) : option (list runtime_mapping) :=
  let compacted := compact (insertion_sort (replacement l start end_ add exec)) in
  if (MAX_RUNTIME_MAPPINGS <? length compacted)%nat then None else Some compacted.

(** [length == 0 || length > UINTPTR_MAX - address] *)
Definition bad_range (address length : Z) : bool :=
  (length =? 0) || (UINTPTR_MAX - address <? length).

Definition guest_memory_runtime_owned (l : list runtime_mapping) (address length : Z)
  : option bool :=
  if bad_range address length then Some false
  else runtime_range_owned_locked l address (address + length).

Definition guest_memory_runtime_map (l : list runtime_mapping) (address length : Z)
    (executable : bool) : result unit * list runtime_mapping :=
  if bad_range address length then (fail_with EINVAL, l)
  else match runtime_replace_locked l address (address + length) true executable with
       | Some l' => (Ok tt, l')
       | None => (fail_with ENOMEM, l)
       end.

(** The return values of [guest_memory_runtime_protect]: 0 or 1 without error. *)
Inductive protect_result : Set := Protected | NotOwned.

Definition guest_memory_runtime_protect (l : list runtime_mapping) (address length : Z)
    (executable : bool) : result protect_result * list runtime_mapping :=
  if bad_range address length then (fail_with EINVAL, l)
  else match runtime_range_owned_locked l address (address + length) with
       | Some true =>
         match runtime_replace_locked l address (address + length) true executable with
         | Some l' => (Ok Protected, l')
         | None => (fail_with ENOMEM, l)
         end
       | _ => (Ok NotOwned, l)
       end.

(** The result of the replacement is not looked at. *)
Definition guest_memory_runtime_unmap (l : list runtime_mapping) (address length : Z)
  : list runtime_mapping :=
  if bad_range address length then l
  else match runtime_replace_locked l address (address + length) false false with
       | Some l' => l'
       | None => l
       end.

(** ** Abstract specification *)

Definition in_range (a s e : Z) : bool := (s <=? a) && (a <? e).
Definition covers (a : Z) (x : runtime_mapping) : bool := in_range a (rm_start x) (rm_end x).

(** Who owns an address: [None], or the executable flag of its mapping. *)
Fixpoint owner (l : list runtime_mapping) (a : Z) : option bool :=
  match l with
  | [] => None
  | x :: l => if covers a x then Some (rm_exec x) else owner l a
  end.

(** The specification of an update of the abstract ownership function. *)
Definition owner_update (f : Z -> option bool) (start end_ : Z) (new : option bool)
  : Z -> option bool := fun a => if in_range a start end_ then new else f a.

(** Non-empty, ordered, disjoint and maximally merged ranges. *)
Definition before (x y : runtime_mapping) : Prop := rm_end x <= rm_start y.
Definition mergeable (x y : runtime_mapping) : Prop :=
  rm_end x = rm_start y /\ rm_exec x = rm_exec y.
Fixpoint canonical (l : list runtime_mapping) : Prop :=
  match l with
  | x :: (y :: _) as l' => ~ mergeable x y /\ canonical l'
  | _ => True
  end.
Record registry_wf (l : list runtime_mapping) : Prop := {
  wf_nonempty : Forall (fun x => rm_start x < rm_end x) l;
  wf_ordered : StronglySorted before l;
  wf_canonical : canonical l;
  wf_bounds : Forall (fun x => 0 <= rm_start x /\ rm_end x <= UINTPTR_MAX) l;
  wf_count : (length l <= MAX_RUNTIME_MAPPINGS)%nat
}.

(** ** Ranges apart from each other *)

Definition sep (x y : runtime_mapping) : Prop := before x y \/ before y x.
Definition nonempty (x : runtime_mapping) : Prop := rm_start x < rm_end x.
Fixpoint apart_all (l : list runtime_mapping) : Prop :=
  match l with [] => True | x :: l => Forall (sep x) l /\ apart_all l end.

#[export] Hint Unfold sep before nonempty : emu.

Lemma sep_sym x y : sep x y -> sep y x.
Proof. unfold sep. tauto. Qed.

Lemma apart_all_perm l l' : l ≡ₚ l' -> apart_all l -> apart_all l'.
Proof.
  induction 1 as [|x l l' Hp IH|x y l|l1 l2 l3 _ IH1 _ IH2]; simpl; [done|..].
  - intros [Hf ?]. split; [by rewrite <- Hp|auto].
  - rewrite !Forall_cons. intros [[? ?] [? ?]]. by repeat split; [apply sep_sym|..].
  - auto.
Qed.

Lemma sorted_apart l : StronglySorted before l -> apart_all l.
Proof.
  induction 1 as [|x l Hs IH Hf]; simpl; [done|]. split; [|done].
  eapply Forall_impl; [exact Hf|]. by left.
Qed.

Lemma apart_sorted l :
  Forall nonempty l -> apart_all l ->
  StronglySorted (fun x y => rm_start x <= rm_start y) l -> StronglySorted before l.
Proof.
  intros Hne Hap Hs. induction Hs as [|x l Hs IH Hf]; [constructor|].
  destruct Hap as [Hx Hap]. apply Forall_cons in Hne as [Hnx Hne].
  constructor; [auto|]. rewrite Forall_forall in *. intros y Hy.
  specialize (Hx y Hy). specialize (Hf y Hy). specialize (Hne y Hy).
  unfold sep, before, nonempty in *. lia.
Qed.

(** ** Ownership *)

Lemma owner_app l1 l2 a :
  owner (l1 ++ l2) a = match owner l1 a with Some e => Some e | None => owner l2 a end.
Proof. induction l1 as [|x l1 IH]; simpl; [done|]. by destruct (covers a x). Qed.

Lemma owner_Some l a e :
  apart_all l -> owner l a = Some e <-> exists x, x ∈ l /\ covers a x = true /\ rm_exec x = e.
Proof.
  induction l as [|y l IH]; simpl; intros Hap.
  { split; [done|]. by intros (x & Hx%not_elem_of_nil & _). }
  destruct Hap as [Hy Hap]. specialize (IH Hap). destruct (covers a y) eqn:E.
  - split; [intros [= <-]; exists y; rewrite elem_of_cons; auto|]. intros (x & Hx & Hc & <-).
    apply elem_of_cons in Hx as [->|Hx]; [done|]. exfalso.
    rewrite Forall_forall in Hy. specialize (Hy x Hx).
    unfold covers, in_range, sep, before in *. bprop. lia.
  - rewrite IH. split; intros (x & Hx & Hc & He); exists x; [rewrite elem_of_cons; auto|].
    apply elem_of_cons in Hx as [->|Hx]; [congruence|done].
Qed.

Lemma owner_perm l l' a : apart_all l -> l ≡ₚ l' -> owner l a = owner l' a.
Proof.
  intros Hap Hp. pose proof (apart_all_perm _ _ Hp Hap) as Hap'.
  apply option_eq. intros e. rewrite !owner_Some by done. by setoid_rewrite Hp.
Qed.

(** ** The split loop *)

Lemma owner_split s e x a : s < e ->
  owner (split_mapping s e x) a = if in_range a s e then None else owner [x] a.
Proof.
  intros Hse. unfold split_mapping, ranges_overlap, covers, in_range; simpl; unfold covers, in_range.
  repeat (case_match; simplify_eq/=; unfold covers, in_range in *; simpl in * ); bprop; try done; lia.
Qed.

Lemma owner_replacement l s e add exec a : s < e ->
  owner (replacement l s e add exec) a =
  owner_update (owner l) s e (if add then Some exec else None) a.
Proof.
  intros Hse. unfold replacement, owner_update. rewrite owner_app.
  assert (Hfm : owner (flat_map (split_mapping s e) l) a
                = if in_range a s e then None else owner l a).
  { induction l as [|x l IH]; simpl; [by case_match|].
    rewrite owner_app, owner_split, IH by done. simpl.
    destruct (in_range a s e), (covers a x); done. }
  rewrite Hfm. destruct add; simpl; unfold covers; simpl;
    destruct (in_range a s e); by destruct (owner l a).
Qed.

Lemma split_sub s e x y : s < e -> nonempty x -> y ∈ split_mapping s e x ->
  nonempty y /\ rm_start x <= rm_start y /\ rm_end y <= rm_end x /\ sep y (Mapping s e true).
Proof.
  intros Hse Hx. unfold split_mapping, ranges_overlap, nonempty, sep, before in *. simpl.
  repeat case_match; bprop; rewrite ?elem_of_app, ?elem_of_cons, ?elem_of_nil;
    intros Hy; destruct_or?; simplify_eq/=; try done; lia.
Qed.

Lemma split_apart s e x : s < e -> nonempty x -> apart_all (split_mapping s e x).
Proof.
  intros Hse Hx. unfold split_mapping, ranges_overlap, nonempty in *.
  repeat case_match; simpl; unfold sep, before; simpl;
    rewrite ?Forall_cons, ?Forall_nil; bprop; simpl; intuition lia.
Qed.

Lemma apart_all_app l1 l2 :
  apart_all l1 -> apart_all l2 -> (forall x y, x ∈ l1 -> y ∈ l2 -> sep x y) -> apart_all (l1 ++ l2).
Proof.
  induction l1 as [|x l1 IH]; simpl; intros H1 H2 Hs; [done|]. destruct H1 as [Hx H1].
  split; [|apply IH; set_solver]. apply Forall_app. split; [done|].
  apply Forall_forall. set_solver.
Qed.

Lemma elem_of_split s e l y :
  y ∈ flat_map (split_mapping s e) l <-> exists x, x ∈ l /\ y ∈ split_mapping s e x.
Proof.
  rewrite list_elem_of_In, in_flat_map. by setoid_rewrite list_elem_of_In.
Qed.

Lemma replacement_apart l s e add exec : s < e ->
  Forall nonempty l -> apart_all l ->
  Forall nonempty (replacement l s e add exec) /\ apart_all (replacement l s e add exec).
Proof.
  intros Hse Hne Hap. unfold replacement. rewrite Forall_forall in Hne. split.
  - apply Forall_app. split; [|destruct add; by repeat constructor].
    apply Forall_forall. intros y (x & Hx & Hy)%elem_of_split.
    by apply (split_sub s e x y Hse (Hne x Hx)).
  - apply apart_all_app; [|by destruct add; simpl|].
    + induction l as [|x l IH]; simpl; [done|]. destruct Hap as [Hx Hap].
      apply apart_all_app; [apply split_apart; set_solver|apply IH; set_solver|].
      intros y z Hy (x' & Hx' & Hz)%elem_of_split.
      rewrite Forall_forall in Hx. specialize (Hx x' Hx').
      destruct (split_sub s e x y Hse) as (_&?&?&_); [set_solver..|].
      destruct (split_sub s e x' z Hse) as (_&?&?&_); [set_solver..|].
      unfold sep, before in *. lia.
    + intros y z (x & Hx & Hy)%elem_of_split Hz.
      destruct (split_sub s e x y Hse (Hne x Hx) Hy) as (_&_&_&Hs).
      destruct add; [|set_solver]. by apply elem_of_cons in Hz as [->|?%not_elem_of_nil].
Qed.

(** ** The insertion sort *)

Definition start_ge (x y : runtime_mapping) : Prop := rm_start y <= rm_start x.

Lemma insert_left_perm item l : insert_left item l ≡ₚ item :: l.
Proof.
  induction l as [|x l IH]; simpl; [done|]. case_match; [|done]. rewrite IH. constructor.
Qed.

Lemma insert_left_sorted item l : StronglySorted start_ge l -> StronglySorted start_ge (insert_left item l).
Proof.
  unfold start_ge. induction 1 as [|x l Hs IH Hf]; simpl; [by repeat constructor|].
  destruct (rm_start item <? rm_start x) eqn:E; bprop.
  - constructor; [done|]. rewrite insert_left_perm. constructor; [lia|done].
  - constructor; [by constructor|]. constructor; [lia|].
    eapply Forall_impl; [exact Hf|]. simpl. lia.
Qed.

Lemma sort_fold l acc :
  fold_left (fun acc item => insert_left item acc) l acc ≡ₚ l ++ acc /\
  (StronglySorted start_ge acc ->
   StronglySorted start_ge (fold_left (fun acc item => insert_left item acc) l acc)).
Proof.
  revert acc. induction l as [|x l IH]; intros acc; simpl; [done|].
  destruct (IH (insert_left x acc)) as [Hp Hs]. split; [|eauto using insert_left_sorted].
  rewrite Hp, insert_left_perm. by rewrite Permutation_middle.
Qed.

Lemma sorted_rev l :
  StronglySorted start_ge l -> StronglySorted (fun x y => rm_start x <= rm_start y) (rev l).
Proof.
  induction 1 as [|x l Hs IH Hf]; simpl; [constructor|].
  revert IH. assert (Hf' : Forall (start_ge x) (rev l)).
  { eapply Permutation_Forall; [apply Permutation_rev|done]. }
  revert Hf'. generalize (rev l). intros k. induction k as [|y k IHk]; simpl; intros Hk Hsk.
  { by repeat constructor. }
  apply Forall_cons in Hk as [Hy Hk]. inversion Hsk as [|? ? Hsk' Hfk]; subst.
  constructor; [auto|]. apply Forall_app. split; [done|]. by repeat constructor.
Qed.

Lemma insertion_sort_spec l :
  insertion_sort l ≡ₚ l /\ StronglySorted (fun x y => rm_start x <= rm_start y) (insertion_sort l).
Proof.
  unfold insertion_sort. destruct (sort_fold l []) as [Hp Hs]. rewrite app_nil_r in Hp. split.
  - by rewrite <- Permutation_rev.
  - apply sorted_rev, Hs. constructor.
Qed.

(** ** The compaction loop *)

Definition mergeb (p x : runtime_mapping) : bool :=
  (rm_end p =? rm_start x) && eqb (rm_exec p) (rm_exec x).
Definition merge (p x : runtime_mapping) : runtime_mapping :=
  Mapping (rm_start p) (rm_end x) (rm_exec p).

(** The loop as a recursive function on the entries not yet visited. *)
Fixpoint compact_from (p : runtime_mapping) (l : list runtime_mapping) : list runtime_mapping :=
  match l with
  | [] => [p]
  | x :: l => if mergeb p x then compact_from (merge p x) l else p :: compact_from x l
  end.

Lemma compact_fold l p acc :
  rev (fold_left compact_step l (p :: acc)) = rev acc ++ compact_from p l.
Proof.
  revert p acc. induction l as [|x l IH]; intros p acc; simpl; [done|].
  unfold mergeb. destruct (_ && _)%bool; rewrite IH; [done|]. simpl. by rewrite <- app_assoc.
Qed.

Lemma compact_cons p l : compact (p :: l) = compact_from p l.
Proof. unfold compact. simpl. by rewrite compact_fold. Qed.

Lemma mergeb_spec p x : mergeb p x = true <-> mergeable p x.
Proof. unfold mergeb, mergeable. by rewrite andb_true_iff, Z.eqb_eq, eqb_true_iff. Qed.

(** Merging keeps the covered set, the order and the bounds. *)
Lemma merge_sorted p x l : mergeable p x -> nonempty p -> nonempty x ->
  StronglySorted before (p :: x :: l) ->
  StronglySorted before (merge p x :: l) /\ nonempty (merge p x).
Proof.
  intros [He _] Hp Hx Hs. inversion Hs as [|? ? Hs' Hf]; subst.
  inversion Hs' as [|? ? Hs'' Hf']; subst. split; [|unfold nonempty, merge in *; simpl in *; lia].
  constructor; [done|]. eapply Forall_impl; [exact Hf'|]. by unfold before.
Qed.

Lemma merge_covers p x a : mergeable p x -> nonempty p -> nonempty x ->
  covers a (merge p x) = covers a p || covers a x.
Proof.
  intros [He _] Hp Hx. unfold covers, in_range, merge, nonempty in *; simpl.
  apply eq_true_iff_eq. rewrite orb_true_iff, !andb_true_iff, !Z.leb_le, !Z.ltb_lt. lia.
Qed.

Lemma compact_from_owner p l a :
  StronglySorted before (p :: l) -> Forall nonempty (p :: l) ->
  owner (compact_from p l) a = owner (p :: l) a.
Proof.
  revert p. induction l as [|x l IH]; intros p Hs Hne; [done|].
  pose proof Hne as [Hp [Hx Hl]%Forall_cons]%Forall_cons. cbn [compact_from].
  destruct (mergeb p x) eqn:E.
  - apply mergeb_spec in E. destruct (merge_sorted p x l E Hp Hx Hs) as [Hs' Hne'].
    rewrite IH by (done || by constructor). simpl. rewrite (merge_covers p x) by done.
    destruct E as [_ E]. destruct (covers a p); simpl; [done|]. destruct (covers a x); simpl; congruence.
  - cbn [owner]. rewrite IH; [done|by inversion Hs|by constructor].
Qed.

(** What a compacted list looks like, given that its source is ordered. *)
Lemma compact_from_wf p l :
  StronglySorted before (p :: l) -> Forall nonempty (p :: l) ->
  Forall nonempty (compact_from p l) /\ StronglySorted before (compact_from p l) /\
  canonical (compact_from p l) /\ (length (compact_from p l) <= S (length l))%nat /\
  (exists y k, compact_from p l = y :: k /\ rm_start y = rm_start p /\ rm_exec y = rm_exec p) /\
  forall z, rm_end z <= rm_start p -> Forall (before z) (compact_from p l).
Proof.
  revert p. induction l as [|x l IH]; intros p Hs Hne.
  { simpl. repeat split; [done|done|lia|by exists p, []|]. intros z Hz. by repeat constructor. }
  pose proof Hne as [Hp [Hx Hl]%Forall_cons]%Forall_cons. cbn [compact_from].
  destruct (mergeb p x) eqn:E.
  - apply mergeb_spec in E. destruct (merge_sorted p x l E Hp Hx Hs) as [Hs' Hne'].
    destruct (IH (merge p x)) as (?&?&?&?&?&?); [done|by constructor|].
    repeat split; try done. cbn [length]. lia.
  - inversion Hs as [|? ? Hs' Hf]; subst.
    destruct (IH x Hs') as (H1&H2&H3&H4&(y&k&Hk&Hy&Hey)&H6); [by constructor|].
    apply Forall_cons in Hf as [Hpx _].
    split_and!; [by constructor|by constructor; [|apply H6]| |cbn [length]; lia|by eauto|].
    + rewrite Hk in *. simpl. split; [|done]. intros [Hm1 Hm2].
      assert (mergeb p x = true); [|congruence]. apply mergeb_spec. split; congruence.
    + intros z Hz. constructor; [done|]. apply H6. unfold before, nonempty in *. lia.
Qed.

Lemma compact_wf l :
  StronglySorted before l -> Forall nonempty l ->
  Forall nonempty (compact l) /\ StronglySorted before (compact l) /\ canonical (compact l) /\
  (length (compact l) <= length l)%nat /\ forall a, owner (compact l) a = owner l a.
Proof.
  destruct l as [|p l]; intros Hs Hne; [by repeat constructor|]. rewrite compact_cons.
  destruct (compact_from_wf p l Hs Hne) as (?&?&?&?&_&_). split_and!; try done.
  intros a. by apply compact_from_owner.
Qed.

(** The bounds of a list's ranges, preserved by every stage. *)
Definition within (lo hi : Z) (x : runtime_mapping) : Prop := lo <= rm_start x /\ rm_end x <= hi.

Lemma compact_from_within lo hi p l :
  Forall (within lo hi) (p :: l) -> Forall (within lo hi) (compact_from p l).
Proof.
  revert p. induction l as [|x l IH]; intros p Hw; [done|]. cbn [compact_from].
  apply Forall_cons in Hw as [Hp [Hx Hl]%Forall_cons]. unfold within in *.
  case_match; [apply IH|constructor; [done|apply IH]]; constructor; try done; simpl; lia.
Qed.

Lemma replacement_within lo hi l s e add exec :
  s < e -> lo <= s -> e <= hi -> Forall nonempty l -> Forall (within lo hi) l ->
  Forall (within lo hi) (replacement l s e add exec).
Proof.
  intros Hse Hlo Hhi Hne Hw. rewrite Forall_forall in Hne, Hw. apply Forall_app. split.
  - apply Forall_forall. intros y (x & Hx & Hy)%elem_of_split. specialize (Hw x Hx).
    destruct (split_sub s e x y Hse (Hne x Hx) Hy) as (_&?&?&_). unfold within in *. lia.
  - destruct add; by repeat constructor.
Qed.

(** ** The number of scratch entries *)

Lemma split_length s e x :
  (length (split_mapping s e x) <= 2)%nat /\
  (length (split_mapping s e x) = 2%nat -> rm_start x < s /\ e < rm_end x).
Proof.
  unfold split_mapping, ranges_overlap. repeat case_match; bprop; simpl; lia.
Qed.

Lemma split_total s e l :
  s < e -> apart_all l ->
  (length (flat_map (split_mapping s e) l) <= S (length l))%nat /\
  ((forall x, x ∈ l -> ~ (rm_start x < s /\ e < rm_end x)) ->
   (length (flat_map (split_mapping s e) l) <= length l)%nat).
Proof.
  intros Hse. induction l as [|x l IH]; simpl; intros Hap; [lia|]. destruct Hap as [Hx Hap].
  destruct (IH Hap) as [IH1 IH2]. rewrite length_app. destruct (split_length s e x) as [Hl2 Hl].
  split.
  - destruct (decide (length (split_mapping s e x) = 2%nat)) as [H2|H2]; [|lia].
    specialize (Hl H2). assert (Hnot : forall y, y ∈ l -> ~ (rm_start y < s /\ e < rm_end y)).
    { intros y Hy. rewrite Forall_forall in Hx. specialize (Hx y Hy). unfold sep, before in Hx. lia. }
    specialize (IH2 Hnot). lia.
  - intros Hnot. pose proof (Hnot x (list_elem_of_here x l)).
    assert ((length (flat_map (split_mapping s e) l) <= length l)%nat); [|lia].
    apply IH2. intros y Hy. apply Hnot. by constructor.
Qed.

(** ** Update of the registry *)

Lemma runtime_replace_wf l s e add exec l' :
  registry_wf l -> 0 <= s < e -> e <= UINTPTR_MAX ->
  runtime_replace_locked l s e add exec = Some l' ->
  registry_wf l' /\
  forall a, owner l' a = owner_update (owner l) s e (if add then Some exec else None) a.
Proof.
  intros [Hne Hord _ Hb _] Hse He. unfold runtime_replace_locked. cond; [done|]. bprop.
  intros [= <-]. pose proof (sorted_apart _ Hord) as Hap.
  destruct (replacement_apart l s e add exec) as [Hrne Hrap]; [lia|done|done|].
  destruct (insertion_sort_spec (replacement l s e add exec)) as [Hp Hs].
  set (r := replacement l s e add exec) in *. set (k := insertion_sort r) in *.
  assert (Hkne : Forall nonempty k) by (by rewrite Hp).
  assert (Hkap : apart_all k) by (by eapply apart_all_perm; [symmetry; exact Hp|]).
  assert (Hkb : Forall (within 0 UINTPTR_MAX) k).
  { rewrite Hp. apply replacement_within; [lia|lia|lia|done|done]. }
  destruct (compact_wf k) as (?&?&?&?&Hown); [by apply apart_sorted|done|].
  split; [split; try done|].
  - destruct k as [|p k']; [done|]. rewrite compact_cons. by apply compact_from_within.
  - intros a. rewrite Hown, (owner_perm k r a Hkap Hp). apply owner_replacement. lia.
Qed.

(** ** Coverage of a range *)

Lemma covered_end_fold l cursor c :
  c <= fold_left (fun covered x =>
    if (rm_start x <=? cursor) && (covered <? rm_end x) then rm_end x else covered) l c /\
  (forall x, x ∈ l -> rm_start x <= cursor -> rm_end x <=
    fold_left (fun covered x =>
      if (rm_start x <=? cursor) && (covered <? rm_end x) then rm_end x else covered) l c) /\
  (fold_left (fun covered x =>
     if (rm_start x <=? cursor) && (covered <? rm_end x) then rm_end x else covered) l c = c \/
   exists x, x ∈ l /\ rm_start x <= cursor /\ rm_end x =
     fold_left (fun covered x =>
       if (rm_start x <=? cursor) && (covered <? rm_end x) then rm_end x else covered) l c).
Proof.
  revert c. induction l as [|y l IH]; intros c; simpl.
  { split_and!; [lia| |by left]. intros x Hx. by apply not_elem_of_nil in Hx. }
  destruct (rm_start y <=? cursor) eqn:E1; simpl;
    [destruct (c <? rm_end y) eqn:E2|]; bprop.
  - destruct (IH (rm_end y)) as (H1 & H2 & H3). split_and!; [lia| |].
    + intros x [->|Hx]%elem_of_cons ?; [lia|by apply H2].
    + right. destruct H3 as [H3|(x & ? & ?)]; [exists y|exists x]; rewrite elem_of_cons; auto.
  - destruct (IH c) as (H1 & H2 & H3). split_and!; [lia| |].
    + intros x [->|Hx]%elem_of_cons ?; [lia|by apply H2].
    + destruct H3 as [H3|(x & ? & ?)]; [by left|right; exists x; rewrite elem_of_cons; auto].
  - destruct (IH c) as (H1 & H2 & H3). split_and!; [lia| |].
    + intros x [->|Hx]%elem_of_cons ?; [lia|by apply H2].
    + destruct H3 as [H3|(x & ? & ?)]; [by left|right; exists x; rewrite elem_of_cons; auto].
Qed.

Definition owned (l : list runtime_mapping) (a : Z) : Prop :=
  exists x, x ∈ l /\ rm_start x <= a < rm_end x.

Lemma covered_end_spec l cursor :
  cursor <= covered_end l cursor /\
  (covered_end l cursor = cursor -> ~ owned l cursor) /\
  (forall a, cursor <= a < covered_end l cursor -> owned l a) /\
  (cursor < covered_end l cursor -> exists x, x ∈ l /\ rm_end x = covered_end l cursor).
Proof.
  destruct (covered_end_fold l cursor cursor) as (H1 & H2 & H3). fold (covered_end l cursor) in *.
  split_and!; [done| | |].
  - intros Heq (x & Hx & Hr). specialize (H2 x Hx). lia.
  - intros a Ha. destruct H3 as [H3|(x & Hx & ? & Hend)]; [lia|]. exists x. split; [done|lia].
  - intros Hlt. destruct H3 as [H3|(x & Hx & ? & Hend)]; [lia|]. by exists x.
Qed.

(** The mappings that end after the cursor: the measure of the [while]. *)
Definition ahead (l : list runtime_mapping) (cursor : Z) : nat :=
  length (filter (fun x => cursor < rm_end x) l).

Lemma ahead_decreases l c c' x : x ∈ l -> rm_end x = c' -> c < c' -> (ahead l c' < ahead l c)%nat.
Proof.
  unfold ahead. intros Hx <- Hc. induction l as [|y l IH]; [by apply not_elem_of_nil in Hx|].
  assert (Hle : forall k : list runtime_mapping,
    (length (filter (fun z => (rm_end x < rm_end z)%Z) k) <=
     length (filter (fun z => (c < rm_end z)%Z) k))%nat).
  { induction k as [|z k IHk]; [done|]. rewrite !filter_cons. repeat case_decide; simpl; lia. }
  rewrite !filter_cons. apply elem_of_cons in Hx as [<-|Hx].
  - rewrite decide_False by lia. rewrite decide_True by lia. simpl. specialize (Hle l). lia.
  - specialize (IH Hx). repeat case_decide; simpl; lia.
Qed.

Lemma owned_loop_spec l end_ fuel cursor :
  (ahead l cursor < fuel)%nat ->
  exists b, owned_loop fuel l cursor end_ = Some b /\
    (b = true <-> forall a, cursor <= a < end_ -> owned l a).
Proof.
  revert cursor. induction fuel as [|fuel IH]; intros cursor Hf; [lia|]. simpl.
  destruct (cursor <? end_) eqn:Ec; bprop; [|exists true; split; [done|]; split; [lia|done]].
  destruct (covered_end_spec l cursor) as (H1 & H2 & H3 & H4).
  destruct (covered_end l cursor =? cursor) eqn:E; bprop.
  { exists false. split; [done|]. split; [done|]. intros Hall. destruct (H2 E). apply Hall. lia. }
  destruct H4 as (x & Hx & Hxe); [lia|].
  destruct (IH (covered_end l cursor)) as (b & -> & Hb).
  { pose proof (ahead_decreases l cursor _ x Hx Hxe). lia. }
  exists b. split; [done|]. rewrite Hb. split; intros Hall a Ha.
  - destruct (Z.lt_ge_cases a (covered_end l cursor)); [apply H3; lia|apply Hall; lia].
  - apply Hall. lia.
Qed.

Lemma owned_owner l a : apart_all l -> owned l a <-> is_Some (owner l a).
Proof.
  intros Hap. unfold owned, is_Some. setoid_rewrite owner_Some; [|done].
  unfold covers, in_range. split.
  - intros (x & Hx & Hr). exists (rm_exec x), x. split_and!; [done| |done].
    apply andb_true_iff. rewrite Z.leb_le, Z.ltb_lt. lia.
  - intros (e & x & Hx & Hc & _). bprop. by exists x.
Qed.

(** ** Ranges inside one mapping *)

Lemma apart_all_sep l x y : apart_all l -> x ∈ l -> y ∈ l -> x = y \/ sep x y.
Proof.
  induction l as [|z l IH]; intros Hap Hx Hy; [set_solver|]. destruct Hap as [Hz Hap].
  rewrite Forall_forall in Hz.
  apply elem_of_cons in Hx as [->|Hx], Hy as [->|Hy]; auto using sep_sym.
Qed.

(** A well-formed registry holds no two adjacent mappings it could merge. *)
Lemma canonical_no_merge l x y :
  Forall nonempty l -> StronglySorted before l -> canonical l -> x ∈ l -> y ∈ l ->
  ~ mergeable x y.
Proof.
  intros Hne Hs. induction Hs as [|z l Hs IH Hz]; intros Hc Hx Hy [He Hxy]; [set_solver|].
  apply Forall_cons in Hne as [Hnz Hne].
  assert (Hc' : canonical l) by (destruct l; [done|apply Hc]).
  rewrite Forall_forall in Hz. assert (Hin : forall w, w ∈ l -> nonempty w)
    by (by apply Forall_forall). unfold before, nonempty in *.
  apply elem_of_cons in Hx as [->|Hx], Hy as [->|Hy].
  - lia.
  - destruct l as [|w l]; [set_solver|]. apply elem_of_cons in Hy as [->|Hy].
    { apply (proj1 Hc). by split. }
    inversion Hs as [|? ? _ Hw]; subst. rewrite Forall_forall in Hw. specialize (Hw y Hy).
    pose proof (Hz w ltac:(set_solver)). pose proof (Hin w ltac:(set_solver)).
    unfold before in *. lia.
  - specialize (Hz x Hx). specialize (Hin x Hx). lia.
  - eapply IH; try done.
Qed.

(** In a well-formed registry a range whose addresses all carry the same flag
    lies in one mapping. *)
Lemma single_mapping l a n e :
  registry_wf l -> 0 < n ->
  (forall x, a <= x < a + n -> owner l x = Some e) <->
  exists y, y ∈ l /\ rm_exec y = e /\ rm_start y <= a /\ a + n <= rm_end y.
Proof.
  intros [Hne Hs Hc _ _] Hn. pose proof (sorted_apart _ Hs) as Hap.
  assert (Hcov : forall x, owner l x = Some e <->
    exists y, y ∈ l /\ rm_start y <= x < rm_end y /\ rm_exec y = e).
  { intros x. rewrite (owner_Some l x e Hap). unfold covers, in_range.
    by setoid_rewrite andb_true_iff; setoid_rewrite Z.leb_le; setoid_rewrite Z.ltb_lt. }
  setoid_rewrite Hcov. split.
  - intros Hall. destruct (Hall a ltac:(lia)) as (y & Hy & Hya & He).
    exists y. split_and!; [done|done|lia|].
    destruct (Z.le_gt_cases (a + n) (rm_end y)) as [|Hgt]; [done|]. exfalso.
    destruct (Hall (rm_end y) ltac:(lia)) as (z & Hz & Hzy & Hez).
    apply (canonical_no_merge l y z Hne Hs Hc Hy Hz). split; [|congruence].
    destruct (apart_all_sep l y z Hap Hy Hz) as [->|[Hb|Hb]]; unfold before in *; lia.
  - intros (y & Hy & He & ? & ?) x Hx. exists y. split_and!; [done|lia|lia|done].
Qed.

(** ** Properties *)

Lemma bad_range_false address length :
  bad_range address length = false <-> length <> 0 /\ address + length <= UINTPTR_MAX.
Proof. unfold bad_range. rewrite orb_false_iff, Z.eqb_neq, Z.ltb_ge. lia. Qed.

(** The first loop of [runtime_replace_locked] and the replacement never
    write past the scratch table: with a well-formed registry at most
    [MAX_RUNTIME_MAPPINGS + 2] entries are produced, the size of
    [runtime_mapping_scratch]. *)
Theorem replacement_fits_scratch (l : list runtime_mapping) (s e : Z) (add exec : bool) :
  registry_wf l -> s < e ->
  (length (replacement l s e add exec) <= MAX_RUNTIME_MAPPINGS + 2)%nat.
Proof.
  intros [_ Hord _ _ Hc] Hse. unfold replacement. rewrite length_app.
  destruct (split_total s e l Hse (sorted_apart _ Hord)) as [Hlen _].
  destruct add; cbn [length]; lia.
Qed.

(** An update is refused only when the registry is all but full. *)
Lemma runtime_replace_None l s e add exec :
  registry_wf l -> s < e -> runtime_replace_locked l s e add exec = None ->
  (MAX_RUNTIME_MAPPINGS <= length l + 1)%nat.
Proof.
  intros [Hne Hord _ _ Hc] Hse. unfold runtime_replace_locked. cond; [|done]. bprop. intros _.
  pose proof (sorted_apart _ Hord) as Hap.
  destruct (replacement_apart l s e add exec Hse Hne Hap) as [Hrne Hrap].
  destruct (insertion_sort_spec (replacement l s e add exec)) as [Hp Hs].
  set (k := insertion_sort _) in *.
  destruct (compact_wf k) as (_&_&_&Hlen&_).
  { apply apart_sorted; [by rewrite Hp|by eapply apart_all_perm; [symmetry; exact Hp|]|done]. }
  { by rewrite Hp. }
  pose proof (Permutation_length Hp) as Hk. unfold replacement in Hk at 1.
  rewrite length_app in Hk.
  destruct (split_total s e l Hse Hap) as [Hl _]. destruct add; cbn [length] in *; lia.
Qed.

(** [guest_memory_runtime_map]: on success exactly the addresses of the range
    become owned with the given flag; on failure the registry is untouched. *)
Lemma runtime_map_spec (l : list runtime_mapping) (address len : Z) (exec : bool) :
  registry_wf l -> is_u32 address -> 0 <= len ->
  match guest_memory_runtime_map l address len exec with
  | (Ok _, l') => registry_wf l' /\ bad_range address len = false /\
      forall a, owner l' a = owner_update (owner l) address (address + len) (Some exec) a
  | (Err e, l') => l' = l /\
      ((e = Some EINVAL /\ bad_range address len = true) \/
       (e = Some ENOMEM /\ (MAX_RUNTIME_MAPPINGS <= length l + 1)%nat))
  end.
Proof.
  intros Hwf [Ha _] Hl. unfold guest_memory_runtime_map.
  destruct (bad_range address len) eqn:Eb; [split; [done|by left]|].
  pose proof (proj1 (bad_range_false _ _) Eb).
  destruct (runtime_replace_locked _ _ _ _ _) as [l'|] eqn:E.
  - destruct (runtime_replace_wf l address (address + len) true exec l' Hwf) as [Hwf' Ho];
      [lia|lia|done|]. done.
  - split; [done|]. right. split; [done|].
    eapply (runtime_replace_None l address (address + len) true exec); [done|lia|done].
Qed.

(** The coverage loop on a valid range, decided by the owner function. *)
Lemma range_owned_owner l start end_ :
  registry_wf l -> exists b, runtime_range_owned_locked l start end_ = Some b /\
    (b = true <-> forall a, start <= a < end_ -> is_Some (owner l a)).
Proof.
  intros [_ Hord _ _ _].
  destruct (owned_loop_spec l end_ (S (length l)) start) as (b & Hb & Hiff).
  { unfold ahead. pose proof (length_filter (fun x => start < rm_end x) l). lia. }
  exists b. split; [done|]. rewrite Hiff. pose proof (sorted_apart _ Hord) as Hap.
  by setoid_rewrite (owned_owner l); [|done].
Qed.

Lemma runtime_owned_spec l address len :
  registry_wf l -> 0 <= len ->
  exists b, guest_memory_runtime_owned l address len = Some b /\
    (b = true <-> len <> 0 /\ address + len <= UINTPTR_MAX /\
       forall a, address <= a < address + len -> is_Some (owner l a)).
Proof.
  intros Hwf Hlen. unfold guest_memory_runtime_owned.
  destruct (bad_range address len) eqn:Eb.
  { exists false. split; [done|]. split; [done|]. intros (H1 & H2 & _).
    by rewrite (proj2 (bad_range_false _ _) (conj H1 H2)) in Eb. }
  pose proof (proj1 (bad_range_false _ _) Eb) as [Hb1 Hb2].
  destruct (range_owned_owner l address (address + len) Hwf) as (b & Hb & Hiff).
  exists b. split; [done|]. rewrite Hiff. tauto.
Qed.

(** [guest_memory_runtime_owned] always terminates and answers 1 exactly
    when the range is non-empty, does not wrap, and every one of its addresses
    is owned, however many mappings it spans. *)
Theorem runtime_owned_correct (l : list runtime_mapping) (address len : Z) :
  registry_wf l -> 0 <= len ->
  exists b, guest_memory_runtime_owned l address len = Some b /\
    (b = true <-> len <> 0 /\ address + len <= UINTPTR_MAX /\
       forall a, address <= a < address + len -> is_Some (owner l a)).
Proof. intros Hwf Hlen. exact (runtime_owned_spec l address len Hwf Hlen). Qed.

(** ** The registry as a state machine *)

Inductive registry_op : Set :=
| OpMap (address length : Z) (executable : bool)
| OpProtect (address length : Z) (executable : bool)
| OpUnmap (address length : Z).

Definition run_op (op : registry_op) (l : list runtime_mapping) : list runtime_mapping :=
  match op with
  | OpMap a n x => (guest_memory_runtime_map l a n x).2
  | OpProtect a n x => (guest_memory_runtime_protect l a n x).2
  | OpUnmap a n => guest_memory_runtime_unmap l a n
  end.

(** The arguments are [uintptr_t] and [size_t]. *)
Definition op_args_ok (op : registry_op) : Prop :=
  match op with
  | OpMap a n _ | OpProtect a n _ | OpUnmap a n => is_u32 a /\ is_u32 n
  end.

Inductive registry_reachable : list runtime_mapping -> Prop :=
| reach_empty : registry_reachable []
| reach_op op l : registry_reachable l -> op_args_ok op -> registry_reachable (run_op op l).

Lemma registry_wf_nil : registry_wf [].
Proof. split; try done; [constructor|unfold MAX_RUNTIME_MAPPINGS; simpl; lia]. Qed.

Lemma run_op_wf op l : registry_wf l -> op_args_ok op -> registry_wf (run_op op l).
Proof.
  intros IH Hargs.
  assert (Hrep : forall a n add x l', is_u32 a -> is_u32 n -> bad_range a n = false ->
    runtime_replace_locked l a (a + n) add x = Some l' -> registry_wf l').
  { intros a n add x l' [? _] [? _] [? ?]%bad_range_false Hr.
    eapply runtime_replace_wf; [exact IH| | |exact Hr]; lia. }
  destruct op as [a n x|a n x|a n], Hargs as [Ha Hn]; simpl;
    unfold guest_memory_runtime_map, guest_memory_runtime_protect, guest_memory_runtime_unmap;
    repeat (case_match; simplify_eq/=); eauto.
Qed.

(** The abstract registry: a partial function from addresses to the executable
    flag, changed pointwise.  [owned_all] is what a protect call requires. *)
Definition owned_all (f : Z -> option bool) (address length : Z) : Prop :=
  forall a, address <= a < address + length -> is_Some (f a).

Inductive abstract_step : registry_op -> (Z -> option bool) -> (Z -> option bool) -> Prop :=
| abs_bad op a n f :
    op = OpUnmap a n \/ (exists x, op = OpMap a n x \/ op = OpProtect a n x) ->
    n = 0 \/ UINTPTR_MAX < a + n -> abstract_step op f f
| abs_map a n x f f' : n <> 0 -> a + n <= UINTPTR_MAX ->
    (forall i, f' i = owner_update f a (a + n) (Some x) i) -> abstract_step (OpMap a n x) f f'
| abs_protect a n x f f' : n <> 0 -> a + n <= UINTPTR_MAX -> owned_all f a n ->
    (forall i, f' i = owner_update f a (a + n) (Some x) i) -> abstract_step (OpProtect a n x) f f'
| abs_protect_hole a n x f : n <> 0 -> a + n <= UINTPTR_MAX -> ~ owned_all f a n ->
    abstract_step (OpProtect a n x) f f
| abs_unmap a n f f' : n <> 0 -> a + n <= UINTPTR_MAX ->
    (forall i, f' i = owner_update f a (a + n) None i) -> abstract_step (OpUnmap a n) f f'.

Lemma bad_range_true address length :
  bad_range address length = true <-> length = 0 \/ UINTPTR_MAX < address + length.
Proof. unfold bad_range. rewrite orb_true_iff, Z.eqb_eq, Z.ltb_lt. lia. Qed.

(** What a replacement inside an operation does, refused or not. *)
Lemma replace_step l a n add x :
  registry_wf l -> is_u32 a -> is_u32 n -> bad_range a n = false ->
  match runtime_replace_locked l a (a + n) add x with
  | Some l' => forall i, owner l' i =
      owner_update (owner l) a (a + n) (if add then Some x else None) i
  | None => (MAX_RUNTIME_MAPPINGS <= length l + 1)%nat
  end.
Proof.
  intros Hwf [? _] [? _] [? ?]%bad_range_false. destruct (runtime_replace_locked _ _ _ _ _) eqn:E.
  - eapply runtime_replace_wf; [exact Hwf| | |exact E]; lia.
  - by eapply runtime_replace_None; [done| |exact E]; lia.
Qed.

(** [guest_memory_runtime_unmap] on a valid range: the range is no longer owned,
    or the registry was all but full and nothing happened. *)
Lemma runtime_unmap_spec l a n :
  registry_wf l -> is_u32 a -> is_u32 n -> bad_range a n = false ->
  registry_wf (guest_memory_runtime_unmap l a n) /\
  ((forall i, owner (guest_memory_runtime_unmap l a n) i =
      owner_update (owner l) a (a + n) None i) \/
   (guest_memory_runtime_unmap l a n = l /\ (MAX_RUNTIME_MAPPINGS <= length l + 1)%nat)).
Proof.
  intros Hwf Ha Hn Hb. split; [by apply (run_op_wf (OpUnmap a n))|].
  pose proof (replace_step l a n false false Hwf Ha Hn Hb).
  unfold guest_memory_runtime_unmap. rewrite Hb. case_match; [by left|by right].
Qed.

(** C2: the registry refines the pointwise specification: every map, protect
    or unmap call with 32-bit arguments either performs the abstract step on the
    owner function (empty and wrapping ranges change nothing, protect requires
    the whole range to be owned), or leaves the registry as it was because at
    least [MAX_RUNTIME_MAPPINGS - 1] entries are in use. *)
Theorem registry_op_refines (op : registry_op) (l : list runtime_mapping) :
  registry_wf l -> op_args_ok op ->
  abstract_step op (owner l) (owner (run_op op l)) \/
  (run_op op l = l /\ (MAX_RUNTIME_MAPPINGS <= length l + 1)%nat).
Proof.
  intros Hwf Hargs.
  destruct op as [a n x|a n x|a n], Hargs as [Ha Hn]; simpl;
    unfold guest_memory_runtime_map, guest_memory_runtime_protect, guest_memory_runtime_unmap;
    (destruct (bad_range a n) eqn:Eb;
      [left; eapply abs_bad; [eauto|by apply bad_range_true]|]);
    pose proof (proj1 (bad_range_false _ _) Eb) as [Hn0 Hle].
  - pose proof (replace_step l a n true x Hwf Ha Hn Eb). case_match; simpl; [left|by right].
    by apply abs_map.
  - destruct (range_owned_owner l a (a + n) Hwf) as (b & -> & Hiff).
    destruct b; [|left; apply abs_protect_hole; [done|done|]; by intros Hall; apply Hiff in Hall].
    pose proof (replace_step l a n true x Hwf Ha Hn Eb). case_match; simpl; [left|by right].
    apply abs_protect; [done|done|exact (proj1 Hiff eq_refl)|done].
  - pose proof (replace_step l a n false false Hwf Ha Hn Eb). case_match; simpl; [left|by right].
    by apply abs_unmap.
Qed.

(** C1: in every state the registry reaches through map, protect and unmap
    calls, in any order and with any 32-bit arguments, the mappings are
    non-empty, sorted, pairwise disjoint, maximally merged, inside the 32-bit
    address space and at most [MAX_RUNTIME_MAPPINGS]. *)
Theorem registry_reachable_wf (l : list runtime_mapping) :
  registry_reachable l -> registry_wf l.
Proof.
  induction 1; [apply registry_wf_nil|by apply run_op_wf].
Qed.

Lemma registry_reachable_wf_witness :
  registry_wf [Mapping 0x10000 0x12000 true; Mapping 0x12000 0x13000 false;
               Mapping 0x14000 0x15000 false].
Proof.
  change [Mapping 0x10000 0x12000 true; Mapping 0x12000 0x13000 false;
          Mapping 0x14000 0x15000 false]
    with (run_op (OpUnmap 0x13000 0x1000) (run_op (OpProtect 0x10000 0x2000 true)
            (run_op (OpMap 0x10000 0x5000 false) []))).
  apply registry_reachable_wf. repeat constructor; vm_compute; discriminate.
Defined.

Lemma one_mapping_wf : registry_wf [Mapping 0x10000 0x15000 false].
Proof.
  apply (run_op_wf (OpMap 0x10000 0x5000 false) []); [apply registry_wf_nil|].
  by repeat constructor.
Qed.

Lemma replacement_fits_scratch_witness :
  (length (replacement [Mapping 0x10000 0x15000 false] 0x12000 0x13000 true true)
   <= MAX_RUNTIME_MAPPINGS + 2)%nat.
Proof.
  apply replacement_fits_scratch; [apply one_mapping_wf|vm_compute; reflexivity].
Defined.

Lemma registry_op_refines_witness :
  owner (run_op (OpMap 0x12000 0x1000 true) [Mapping 0x10000 0x15000 false]) 0x12fff = Some true.
Proof.
  destruct (registry_op_refines (OpMap 0x12000 0x1000 true) [Mapping 0x10000 0x15000 false]
    one_mapping_wf) as [Hstep|[_ Hfull]].
  - split; split; vm_compute; discriminate.
  - inversion Hstep as [op a n f Hop Hbad| | | |]; simplify_eq;
      [exfalso|match goal with Hf : forall i, _ = owner_update _ _ _ _ i |- _ =>
                 exact (Hf 0x12fff) end].
    destruct Hop as [|(? & [|])]; simplify_eq. vm_compute in Hbad. intuition discriminate.
  - vm_compute in Hfull. lia.
Defined.

Lemma runtime_owned_correct_witness :
  guest_memory_runtime_owned [Mapping 0x10000 0x15000 false] 0x14000 0x2000 = Some false.
Proof.
  destruct (runtime_owned_correct [Mapping 0x10000 0x15000 false] 0x14000 0x2000
    one_mapping_wf) as (b & Hb & Hiff); [vm_compute; discriminate|].
  rewrite Hb. destruct b; [|reflexivity]. exfalso.
  destruct (proj1 Hiff eq_refl) as (_ & _ & Hall). destruct (Hall 0x15000) as [e He].
  - vm_compute. split; [discriminate|reflexivity].
  - vm_compute in He. discriminate.
Defined.

(** ** A full registry *)

(** [n] three-page mappings with a page between neighbours. *)
Definition full_registry (n : nat) : list runtime_mapping :=
  map (fun i => Mapping (0x10000 + 0x4000 * Z.of_nat i) (0x13000 + 0x4000 * Z.of_nat i) false)
    (seq 0 n).

Lemma full_registry_wf n : (n <= 2048)%nat -> registry_wf (full_registry n).
Proof.
  intros Hn. unfold full_registry. split.
  - apply Forall_map, Forall_forall. intros i _. simpl. lia.
  - generalize 0%nat. intros k. clear Hn. revert k.
    induction n as [|n IH]; intros k; simpl; constructor; [apply IH|].
    apply Forall_map, Forall_forall. intros i Hi%elem_of_seq. unfold before. simpl. lia.
  - generalize 0%nat. intros k. clear Hn. revert k.
    induction n as [|[|n] IH]; intros k; [done|done|]. split; [|apply (IH (S k))].
    unfold mergeable. simpl. lia.
  - apply Forall_map, Forall_forall. intros i Hi%elem_of_seq. unfold UINTPTR_MAX. simpl. lia.
  - rewrite length_map, length_seq. done.
Qed.

(** When the registry is full, unmapping the middle of a mapping needs one
    entry too many, [runtime_replace_locked] fails and
    [guest_memory_runtime_unmap] (which returns nothing) keeps the range owned,
    although [linux_munmap_runtime] has already unmapped it on the host. *)
Theorem unmap_full_registry_keeps_ownership :
  exists l address len, registry_wf l /\ bad_range address len = false /\
    owner l address = Some false /\
    runtime_replace_locked l address (address + len) false false = None /\
    guest_memory_runtime_unmap l address len = l.
Proof.
  exists (full_registry 2048), 0x11000, 0x1000. split; [by apply full_registry_wf|].
  assert (Hn : runtime_replace_locked (full_registry 2048) 0x11000 (0x11000 + 0x1000) false false
               = None) by (vm_compute; reflexivity).
  assert (Hu : forall l, runtime_replace_locked l 0x11000 (0x11000 + 0x1000) false false = None ->
               guest_memory_runtime_unmap l 0x11000 0x1000 = l).
  { intros l Hl. unfold guest_memory_runtime_unmap.
    replace (bad_range 0x11000 0x1000) with false by done. by rewrite Hl. }
  split; [vm_compute; reflexivity|]. split; [vm_compute; reflexivity|].
  split; [exact Hn|exact (Hu _ Hn)].
Qed.
