(* ===== verification/GuestMemory.v ===== *)
(** * Load segments and program break: [src/src/guest_memory.c]

    The table of ELF segments mapped for the guest ([load_segments]), the
    protections they get once patched, and the program break.  The state is the
    record [guest_memory]; the bytes of the address space are a separate memory
    (see [Bytes]).  The placement [mmap] chooses is a parameter of every
    operation that maps memory. *)

From S2P Require Import Prelude Errno Bytes Util RuntimeRegistry.
Open Scope Z_scope.

Definition MAX_LOAD_SEGMENTS : nat := 32.
Definition GUEST_MIN_ADDRESS : Z := 0x00010000.
Definition GUEST_MAX_ADDRESS : Z := 0x70000000.

Definition PF_X : Z := 1.
Definition PF_W : Z := 2.
Definition PF_R : Z := 4.

(** The host's protection bits ([<sys/mman.h>]). *)
Class HostProt := { PROT_NONE : Z; PROT_READ : Z; PROT_WRITE : Z; PROT_EXEC : Z }.

(** [struct load_segment] *)
Record load_segment := Segment { map_start : Z; map_length : Z; final_protection : Z }.

(** [Elf32_Phdr] *)
Record elf_phdr := Phdr {
  p_type : Z; p_offset : Z; p_vaddr : Z; p_paddr : Z;
  p_filesz : Z; p_memsz : Z; p_flags : Z; p_align : Z }.

(** The static variables of the file. *)
Record guest_memory := GuestMemory {
  load_segments : list load_segment;
  page_size : Z;
  current_break : Z;
  minimum_break : Z;
  break_mapping_end : Z;
  runtime_mappings : list runtime_mapping }.

Definition with_segments (s : guest_memory) (l : list load_segment) : guest_memory :=
  GuestMemory l (page_size s) (current_break s) (minimum_break s) (break_mapping_end s)
    (runtime_mappings s).
Definition with_break (s : guest_memory) (cur mapping_end : Z) (l : list runtime_mapping)
  : guest_memory :=
  GuestMemory (load_segments s) (page_size s) cur (minimum_break s) mapping_end l.

(** The answer of [mmap (hint, length, ...)] without [MAP_FIXED]. *)
Inductive mmap_result : Set :=
| MmapFailed (e : errno)
| MmapAt (address : Z).

Definition segment_end (x : load_segment) : Z := u32 (map_start x + map_length x).

Definition validate_load_range (l : list load_segment) (start end_ : Z) : result unit :=
  if (start <? GUEST_MIN_ADDRESS) || (end_ <=? start) || (GUEST_MAX_ADDRESS <? end_)
  then fail_with ENOEXEC
  else if existsb (fun x => ranges_overlap start end_ (map_start x) (segment_end x)) l
  then fail_with ENOEXEC
  else Ok tt.

Section prot.
Context `{HostProt}.

Definition protection_from_flags (flags : Z) : Z :=
  let protection := PROT_NONE in
  let protection := if has flags PF_R then protection .| PROT_READ else protection in
  let protection := if has flags PF_W then protection .| PROT_WRITE else protection in
  if has flags PF_X then protection .| PROT_EXEC else protection.

Definition guest_memory_initialize (s : guest_memory) (host_page_size : Z)
  : result unit * guest_memory :=
  if (host_page_size <=? 0) || has (u32 host_page_size) (u32 (u32 host_page_size - 1))
  then (fail_with EINVAL, s)
  else (Ok tt, GuestMemory (load_segments s) (u32 host_page_size) (current_break s)
                 (minimum_break s) (break_mapping_end s) (runtime_mappings s)).

(** The first condition of [guest_memory_map_load_segment]. *)
Definition bad_segment_header (h : elf_phdr) (load_bias file_size : Z) : bool :=
  (p_memsz h <? p_filesz h) || (file_size <? 0) ||
  (negb (p_filesz h =? 0) &&
     ((file_size <? p_offset h) || (file_size - p_offset h <? p_filesz h))) ||
  (UINTPTR_MAX - p_vaddr h <? load_bias).

(** The range of pages of a segment, or [None] when it does not fit the address
    space. *)
Definition segment_pages (s : guest_memory) (h : elf_phdr) (load_bias : Z) : option (Z * Z) :=
  let segment_start := load_bias + p_vaddr h in
  if UINTPTR_MAX - segment_start <? p_memsz h then None
  else if UINTPTR_MAX - u32 (page_size s - 1) <? segment_start + p_memsz h then None
  else Some (align_down segment_start (page_size s),
             align_up (segment_start + p_memsz h) (page_size s)).

(** The two [memset] calls after the read. *)
Definition clear_margins (m : gmap Z Z) (h : elf_phdr) (segment_start start : Z) : gmap Z Z :=
  let m := if p_filesz h <? p_memsz h
           then mem_zero m (segment_start + p_filesz h) (p_memsz h - p_filesz h) else m in
  if negb (segment_start =? start) then mem_zero m start (segment_start - start) else m.

(** [guest_memory_map_load_segment]; [file] is what [fd] reads, [steps] what the
    host does at each [pread], and [None] that [steps] ran out. *)
Definition guest_memory_map_load_segment (mmap : Z -> Z -> mmap_result)
    (steps : list pread_step) (file : list Z) (s : guest_memory) (m : gmap Z Z)
    (h : elf_phdr) (load_bias file_size : Z)
  : option (result unit * guest_memory * gmap Z Z) :=
  if bad_segment_header h load_bias file_size then Some (fail_with ENOEXEC, s, m)
  else let segment_start := load_bias + p_vaddr h in
  match segment_pages s h load_bias with
  | None => Some (fail_with ENOEXEC, s, m)
  | Some (start, end_) =>
    match validate_load_range (load_segments s) start end_ with
    | Err e => Some (Err e, s, m)
    | Ok _ =>
      if (length (load_segments s) =? MAX_LOAD_SEGMENTS)%nat then Some (fail_with E2BIG, s, m)
      else match mmap start (end_ - start) with
      | MmapFailed e => Some (fail_with e, s, m)
      | MmapAt mapping =>
        let mapped := mem_zero m mapping (end_ - start) in
        if negb (mapping =? start)
        then Some (fail_with EEXIST, s, mem_unmap mapped mapping (end_ - start))
        else match read_exact_at steps file (Z.to_nat (p_filesz h)) (Z.to_nat (p_offset h)) with
        | None => None
        | Some (Err e) => Some (Err e, s, mem_unmap mapped mapping (end_ - start))
        | Some (Ok bytes) =>
          Some (Ok tt,
            with_segments s (load_segments s ++
              [Segment start (end_ - start) (protection_from_flags (p_flags h))]),
            clear_margins (mem_store mapped segment_start bytes) h segment_start start)
        end
      end
    end
  end.

(** Calls [guest_memory_finalize] makes to the host. *)
Inductive protect_call : Set :=
| Mprotect (start length protection : Z)
| MsyncInvalidateIcache (start length : Z).

(** [guest_memory_finalize]: the result and the calls made, in order; [host]
    answers a call with [None] (success) or an error. *)
Fixpoint guest_memory_finalize (host : protect_call -> option errno) (l : list load_segment)
  : result unit * list protect_call :=
  match l with
  | [] => (Ok tt, [])
  | x :: rest =>
    let protect := Mprotect (map_start x) (map_length x) (final_protection x) in
    let sync := MsyncInvalidateIcache (map_start x) (map_length x) in
    match host protect with
    | Some e => (fail_with e, [protect])
    | None =>
      if has (final_protection x) PROT_EXEC then
        match host sync with
        | Some e => (fail_with e, [protect; sync])
        | None => let (r, calls) := guest_memory_finalize host rest in
                  (r, protect :: sync :: calls)
        end
      else let (r, calls) := guest_memory_finalize host rest in (r, protect :: calls)
    end
  end.

Definition guest_memory_is_executable (s : guest_memory) (address length : Z) : bool :=
  if UINTPTR_MAX - address <? length then false
  else existsb (fun x => has (final_protection x) PROT_EXEC && (map_start x <=? address) &&
                         (address + length <=? segment_end x)) (load_segments s)
    || existsb (fun x => rm_exec x && (rm_start x <=? address) &&
                         (address + length <=? rm_end x)) (runtime_mappings s).

Definition guest_memory_segment_count (s : guest_memory) : nat := length (load_segments s).

(** [guest_memory_rollback]: the segments past [segment_count], last first, are
    unmapped and dropped. *)
Fixpoint unmap_segments (rev_dropped : list load_segment) (m : gmap Z Z) : gmap Z Z :=
  match rev_dropped with
  | [] => m
  | x :: rest => unmap_segments rest (mem_unmap m (map_start x) (map_length x))
  end.
Definition guest_memory_rollback (s : guest_memory) (m : gmap Z Z) (segment_count : nat)
  : guest_memory * gmap Z Z :=
  (with_segments s (take segment_count (load_segments s)),
   unmap_segments (rev (drop segment_count (load_segments s))) m).

Definition guest_memory_range_owned (s : guest_memory) (address length : Z) : option bool :=
  if bad_range address length then Some false
  else if existsb (fun x => (map_start x <=? address) &&
                            (address + length <=? segment_end x)) (load_segments s)
  then Some true
  else runtime_range_owned_locked (runtime_mappings s) address (address + length).

(** ** The program break *)

Definition guest_brk_initialize (s : guest_memory) (initial_break : Z)
  : result unit * guest_memory :=
  if (initial_break <? GUEST_MIN_ADDRESS) || (GUEST_MAX_ADDRESS <=? initial_break)
  then (fail_with ENOEXEC, s)
  else (Ok tt, GuestMemory (load_segments s) (page_size s) initial_break initial_break
                 (align_up initial_break (page_size s)) (runtime_mappings s)).

(** [guest_brk_set]: the value returned, the state and the memory after it. *)
Definition guest_brk_set (mmap : Z -> Z -> mmap_result) (s : guest_memory) (m : gmap Z Z)
    (requested : Z) : Z * guest_memory * gmap Z Z :=
  let keep := (current_break s, s, m) in
  if requested =? 0 then keep
  else if requested <? minimum_break s then keep
  else if requested <? current_break s then
    let new_end := align_up requested (page_size s) in
    if new_end <? break_mapping_end s then
      let n := break_mapping_end s - new_end in
      (requested,
       with_break s requested new_end (guest_memory_runtime_unmap (runtime_mappings s) new_end n),
       mem_unmap m new_end n)
    else (requested, with_break s requested (break_mapping_end s) (runtime_mappings s), m)
  else if (GUEST_MAX_ADDRESS <=? requested) || (UINTPTR_MAX - u32 (page_size s - 1) <? requested)
  then keep
  else
    let new_end := align_up requested (page_size s) in
    let old_end := break_mapping_end s in
    if old_end <? new_end then
      let n := new_end - old_end in
      match mmap old_end n with
      | MmapFailed _ => keep
      | MmapAt mapping =>
        let mapped := mem_zero m mapping n in
        if negb (mapping =? old_end) then (current_break s, s, mem_unmap mapped mapping n)
        else match guest_memory_runtime_map (runtime_mappings s) old_end n false with
             | (Err _, l) => (current_break s,
                              with_break s (current_break s) old_end l,
                              mem_unmap mapped mapping n)
             | (Ok _, l) => (requested, with_break s requested new_end l, mapped)
             end
      end
    else (requested, with_break s requested old_end (runtime_mappings s), m).
End prot.

(** ** The segment table *)

(** The pages of a segment lie inside the guest's part of the address space. *)
Definition segment_ok (p : Z) (x : load_segment) : Prop :=
  GUEST_MIN_ADDRESS <= map_start x /\ 0 < map_length x /\
  map_start x + map_length x <= GUEST_MAX_ADDRESS /\
  map_start x mod p = 0 /\ map_length x mod p = 0.

Definition seg_before (x y : load_segment) : Prop :=
  map_start x + map_length x <= map_start y.
Definition seg_sep (x y : load_segment) : Prop := seg_before x y \/ seg_before y x.

Record segments_wf (s : guest_memory) : Prop := {
  sw_page : is_page (page_size s);
  sw_ok : Forall (segment_ok (page_size s)) (load_segments s);
  sw_sep : ForallOrdPairs seg_sep (load_segments s);
  sw_count : (length (load_segments s) <= MAX_LOAD_SEGMENTS)%nat }.

(** [mmap] without [MAP_FIXED] returns a range in which nothing is mapped. *)
Definition mmap_fresh (mmap : Z -> Z -> mmap_result) (m : gmap Z Z) : Prop :=
  forall hint n a, mmap hint n = MmapAt a -> forall x, inside a n x = true -> m !! x = None.

(** The fields of a program header are 32-bit words. *)
Definition phdr_ok (h : elf_phdr) : Prop :=
  is_u32 (p_offset h) /\ is_u32 (p_vaddr h) /\ is_u32 (p_filesz h) /\ is_u32 (p_memsz h).

Lemma segment_end_ok p x : segment_ok p x -> segment_end x = map_start x + map_length x.
Proof.
  unfold segment_ok, GUEST_MIN_ADDRESS, GUEST_MAX_ADDRESS. intros ?. apply u32_small.
  unfold is_u32, UINTPTR_MAX. lia.
Qed.

Lemma validate_load_range_ok p l start end_ :
  Forall (segment_ok p) l -> validate_load_range l start end_ = Ok tt ->
  GUEST_MIN_ADDRESS <= start < end_ /\ end_ <= GUEST_MAX_ADDRESS /\
  Forall (fun x => map_start x + map_length x <= start \/ end_ <= map_start x) l.
Proof.
  intros Hl. unfold validate_load_range. cond; [done|]. destruct (existsb _ l) eqn:Ex; [done|].
  intros _. bprop. split; [lia|]. split; [lia|].
  apply Forall_forall. intros x Hx. rewrite Forall_forall in Hl. specialize (Hl x Hx).
  rewrite <- not_true_iff_false, existsb_exists in Ex.
  destruct (ranges_overlap start end_ (map_start x) (segment_end x)) eqn:Eo.
  { exfalso. apply Ex. exists x. split; [by apply list_elem_of_In|done]. }
  unfold ranges_overlap in Eo. rewrite (segment_end_ok p x Hl) in Eo. bprop.
  destruct Hl as (_ & ? & _). destruct Eo; bprop; lia.
Qed.

(** The pages of an accepted segment cover it and are whole pages. *)
Lemma segment_pages_ok s h bias start end_ :
  is_page (page_size s) -> is_u32 bias -> phdr_ok h ->
  segment_pages s h bias = Some (start, end_) ->
  0 <= start <= bias + p_vaddr h /\ bias + p_vaddr h + p_memsz h <= end_ /\
  start mod page_size s = 0 /\ end_ mod page_size s = 0.
Proof.
  intros Hp [Hb _] (_ & [Hv _] & _ & [Hm _]). unfold segment_pages.
  pose proof (is_page_range _ Hp). rewrite u32_small by (unfold is_u32, UINTPTR_MAX; lia).
  repeat cond; [done..|]. intros [= <- <-]. bprop.
  destruct (align_down_spec (bias + p_vaddr h) _ Hp) as [Hd Hdr].
  destruct (align_up_spec (bias + p_vaddr h + p_memsz h) _ Hp) as [Hu Hur]; [lia|].
  repeat split; try done; try lia. rewrite align_down_mod by done.
  pose proof (Z.mod_le (bias + p_vaddr h) (page_size s)). lia.
Qed.

Lemma ForallOrdPairs_snoc {A} (R : A -> A -> Prop) l x :
  ForallOrdPairs R l -> Forall (fun y => R y x) l -> ForallOrdPairs R (l ++ [x]).
Proof.
  induction 1 as [|y l Hy _ IH]; simpl; intros Hx; [repeat constructor|].
  inversion Hx; subst. constructor; [|by apply IH]. apply Forall_app. by split; [|constructor].
Qed.

Lemma segments_wf_snoc s start end_ prot :
  segments_wf s -> validate_load_range (load_segments s) start end_ = Ok tt ->
  (length (load_segments s) <> MAX_LOAD_SEGMENTS)%nat ->
  start mod page_size s = 0 -> end_ mod page_size s = 0 ->
  segments_wf (with_segments s (load_segments s ++ [Segment start (end_ - start) prot])).
Proof.
  intros [Hp Hok Hsep Hc] Hv Hn Hs He.
  destruct (validate_load_range_ok _ _ _ _ Hok Hv) as (Hr1 & Hr2 & Hd).
  split; simpl; [done| | |rewrite length_app; simpl; lia].
  - apply Forall_app. split; [done|]. apply Forall_singleton. unfold segment_ok. simpl.
    rewrite Zminus_mod, Hs, He. repeat split; try done; lia.
  - apply ForallOrdPairs_snoc; [done|]. eapply Forall_impl; [exact Hd|].
    intros x Hx. unfold seg_sep, seg_before. simpl in *. lia.
Qed.

(** The bytes of a mapped segment: file contents, then zeros up to the pages. *)
Lemma segment_contents m h start n bytes a x :
  phdr_ok h -> start <= a -> p_filesz h <= p_memsz h -> a + p_memsz h <= start + n ->
  length bytes = Z.to_nat (p_filesz h) ->
  clear_margins (mem_store (mem_zero m start n) a bytes) h a start !! x =
  if inside a (p_filesz h) x then bytes !! Z.to_nat (x - a)
  else if inside start n x then Some 0 else m !! x.
Proof.
  intros (_ & _ & [Hf _] & [Hm _]) Hs Hfm Hend Hlen. unfold clear_margins.
  assert (Hbase : forall y, mem_store (mem_zero m start n) a bytes !! y =
    if inside a (p_filesz h) y then bytes !! Z.to_nat (y - a)
    else if inside start n y then Some 0 else m !! y).
  { intros y. rewrite mem_store_lookup, mem_zero_lookup, Hlen, Z2Nat.id by done. done. }
  destruct (p_filesz h <? p_memsz h), (negb (a =? start)); bprop;
    rewrite ?mem_zero_lookup, Hbase; unfold inside;
    repeat cond; try done; blia.
Qed.

Lemma take_drop_lookup {A} (file : list A) n off i :
  (i < n)%nat -> take n (drop off file) !! i = file !! (off + i)%nat.
Proof. intros. by rewrite lookup_take_lt, lookup_drop. Qed.

(** ** Mapping a segment *)

(** The relation of the states around a call of [guest_memory_map_load_segment]
    that returned 0. *)
Definition segment_mapped `{HostProt} (file : list Z) (h : elf_phdr) (bias : Z)
    (s : guest_memory) (m : gmap Z Z) (s' : guest_memory) (m' : gmap Z Z) : Prop :=
  let a := bias + p_vaddr h in
  exists start n,
    s' = with_segments s (load_segments s ++
           [Segment start n (protection_from_flags (p_flags h))]) /\
    start <= a /\ p_filesz h <= p_memsz h /\ a + p_memsz h <= start + n /\
    (p_filesz h = 0 \/ p_offset h + p_filesz h <= Z.of_nat (length file)) /\
    (forall x, inside start n x = true -> m !! x = None) /\
    forall x, m' !! x =
      if inside a (p_filesz h) x then file !! Z.to_nat (p_offset h + (x - a))
      else if inside start n x then Some 0 else m !! x.

Lemma map_load_segment_returns `{HostProt} mmap steps file s m h bias file_size :
  (Z.to_nat (p_filesz h) <= length (filter (fun x => x <> PInterrupted) steps))%nat ->
  is_Some (guest_memory_map_load_segment mmap steps file s m h bias file_size).
Proof.
  intros Hsteps. unfold guest_memory_map_load_segment.
  destruct (read_exact_at_returns steps file (Z.to_nat (p_filesz h)) (Z.to_nat (p_offset h)) Hsteps)
    as [r Er]. rewrite Er. repeat case_match; by eexists.
Qed.

Lemma map_load_segment_cases `{HostProt} mmap steps file s m h bias file_size r s' m' :
  segments_wf s -> phdr_ok h -> is_u32 bias -> mmap_fresh mmap m ->
  guest_memory_map_load_segment mmap steps file s m h bias file_size = Some (r, s', m') ->
  match r with
  | Err _ => s' = s /\ m' = m
  | Ok _ => segments_wf s' /\ segment_mapped file h bias s m s' m'
  end.
Proof.
  intros Hwf Hh Hb Hfresh. unfold guest_memory_map_load_segment.
  destruct (bad_segment_header h bias file_size) eqn:Eh; [by intros; simplify_eq|].
  destruct (segment_pages s h bias) as [[start end_]|] eqn:Ep; [|by intros; simplify_eq].
  destruct (validate_load_range (load_segments s) start end_) as [[]|e] eqn:Ev;
    [|by intros; simplify_eq].
  destruct (length (load_segments s) =? MAX_LOAD_SEGMENTS)%nat eqn:Ec; [by intros; simplify_eq|].
  destruct (mmap start (end_ - start)) as [e|mapping] eqn:Em; [by intros; simplify_eq|].
  pose proof (Hfresh _ _ _ Em) as Hfree.
  assert (Hun : mem_unmap (mem_zero m mapping (end_ - start)) mapping (end_ - start) = m)
    by (apply mem_unmap_restore; auto with emu).
  destruct (mapping =? start) eqn:Ea; simpl; [|rewrite Hun; by intros; simplify_eq].
  destruct (read_exact_at _ _ _ _) as [[bytes|e]|] eqn:Er; [|rewrite Hun; by intros; simplify_eq|done].
  bprop. subst mapping. intros Heq. injection Heq as <- <- <-.
  destruct (segment_pages_ok _ _ _ _ _ (sw_page _ Hwf) Hb Hh Ep) as (Hs & He & Hsm & Hem).
  unfold bad_segment_header in Eh. bprop.
  split; [by apply segments_wf_snoc|].
  exists start, (end_ - start). split; [done|]. split; [lia|]. split; [lia|]. split; [lia|].
  destruct (read_exact_at_ok _ _ _ _ _ Er) as [-> Hlen].
  split; [rewrite length_take, length_drop in Hlen; destruct Hh as ([] & _ & [] & _); lia|].
  split; [done|]. intros x.
  rewrite segment_contents by (try done; lia). unfold inside at 1 3. cond; [|done]. bprop.
  rewrite take_drop_lookup by lia. f_equal. destruct Hh as ([] & _). lia.
Qed.

(** C23: [guest_memory_map_load_segment] always returns (after at most
    [p_filesz] uninterrupted reads).  When it fails, the segment table and the
    whole memory are as before.  When it succeeds, the table stays well formed
    and gains the segment's pages, whose bytes are the file's [p_filesz] bytes
    at the segment's address and zeros elsewhere (the bss and both page
    margins), and no other byte of memory has changed. *)
Theorem map_load_segment_correct `{HostProt} (mmap : Z -> Z -> mmap_result)
    (steps : list pread_step) (file : list Z) (s : guest_memory) (m : gmap Z Z) (h : elf_phdr)
    (bias file_size : Z) :
  segments_wf s -> phdr_ok h -> is_u32 bias -> mmap_fresh mmap m ->
  (Z.to_nat (p_filesz h) <= length (filter (fun x => x <> PInterrupted) steps))%nat ->
  exists r s' m',
    guest_memory_map_load_segment mmap steps file s m h bias file_size = Some (r, s', m') /\
    segments_wf s' /\
    match r with
    | Err _ => s' = s /\ m' = m
    | Ok _ => segment_mapped file h bias s m s' m'
    end.
Proof.
  intros Hwf Hh Hb Hfresh Hsteps.
  destruct (map_load_segment_returns mmap steps file s m h bias file_size Hsteps)
    as [[[r s'] m'] E].
  pose proof (map_load_segment_cases _ _ _ _ _ _ _ _ _ _ _ Hwf Hh Hb Hfresh E) as Hc.
  exists r, s', m'. split; [done|]. destruct r; [done|]. by destruct Hc as [-> ->].
Qed.

(** ** Rolling a load back *)

Definition in_segment (x : Z) (g : load_segment) : Prop :=
  inside (map_start g) (map_length g) x = true.

#[export] Instance in_segment_dec x g : Decision (in_segment x g).
Proof. unfold in_segment. apply _. Defined.

(** What the loader does between two counts of segments: it maps segments, each
    with a placement of its own, and writes (patches) inside segments it has
    mapped. *)
Inductive load_run `{HostProt} (s : guest_memory) (m : gmap Z Z)
  : guest_memory -> gmap Z Z -> Prop :=
| run_start : load_run s m s m
| run_map mmap steps file h bias file_size s1 m1 s2 m2 :
    load_run s m s1 m1 -> phdr_ok h -> is_u32 bias -> mmap_fresh mmap m1 ->
    guest_memory_map_load_segment mmap steps file s1 m1 h bias file_size = Some (Ok tt, s2, m2) ->
    load_run s m s2 m2
| run_write g s1 m1 m2 :
    load_run s m s1 m1 -> g ∈ drop (guest_memory_segment_count s) (load_segments s1) ->
    same_outside (map_start g) (map_length g) m1 m2 -> load_run s m s1 m2.

(** Memory differs from the initial one only in the new segments, where nothing
    was mapped initially. *)
Record run_inv (s : guest_memory) (m : gmap Z Z) (s' : guest_memory) (m' : gmap Z Z) : Prop := {
  run_wf : segments_wf s';
  run_new : exists new, s' = with_segments s (load_segments s ++ new) /\
    (forall x g, g ∈ new -> in_segment x g -> m !! x = None) /\
    forall x, (forall g, g ∈ new -> ~ in_segment x g) -> m' !! x = m !! x }.

Lemma with_segments_id s : with_segments s (load_segments s) = s.
Proof. by destruct s. Qed.

Lemma drop_new s new :
  drop (guest_memory_segment_count s) (load_segments s ++ new) = new.
Proof. unfold guest_memory_segment_count. by rewrite drop_app_length. Qed.

Lemma segment_mapped_inv `{HostProt} s m s1 m1 s2 m2 file h bias :
  run_inv s m s1 m1 -> phdr_ok h -> segments_wf s2 -> segment_mapped file h bias s1 m1 s2 m2 ->
  run_inv s m s2 m2.
Proof.
  intros [_ (new & -> & Hfree & Hsame)] (_ & _ & [? _] & _) Hwf
    (start & n & -> & Hs & Hfm & He & _ & Hfr & Hx).
  split; [done|]. eexists (new ++ [_]). cbn [load_segments with_segments].
  split; [by rewrite app_assoc|]. split.
  - intros x g [Hg|Hg%list_elem_of_singleton]%elem_of_app Hin; [by eapply Hfree|]. subst g.
    destruct (decide (Exists (in_segment x) new)) as [(g & Hg & Hgx)%Exists_exists|Hne].
    + by eapply Hfree.
    + rewrite <- Hsame; [by apply Hfr|]. intros g Hg Hgx. apply Hne, Exists_exists. eauto.
  - intros x Hnot. rewrite Hx.
    assert (Ho : inside start n x = false).
    { apply not_true_iff_false. intros Hin. eapply (Hnot (Segment start n _)); [|exact Hin].
      apply elem_of_app. right. by apply list_elem_of_singleton. }
    rewrite Ho. replace (inside (bias + p_vaddr h) (p_filesz h) x) with false.
    + apply Hsame. set_solver.
    + symmetry. unfold inside in *. apply not_true_iff_false. intros Ht. blia.
Qed.

Lemma load_run_inv `{HostProt} s m s' m' : segments_wf s -> load_run s m s' m' -> run_inv s m s' m'.
Proof.
  intros Hwf. induction 1 as [|mmap steps file h bias fs s1 m1 s2 m2 _ IH Hh Hb Hf Hc
                              |g s1 m1 m2 _ IH Hg Hout].
  - split; [done|]. exists []. rewrite app_nil_r, with_segments_id. split; [done|].
    split; [set_solver|done].
  - pose proof (map_load_segment_cases _ _ _ _ _ _ _ _ _ _ _ (run_wf _ _ _ _ IH) Hh Hb Hf Hc)
      as [Hwf2 Hm]. by eapply segment_mapped_inv.
  - destruct IH as [Hwf1 (new & -> & Hfree & Hsame)]. split; [done|]. exists new.
    split; [done|]. split; [done|]. cbn [load_segments with_segments] in Hg.
    rewrite drop_new in Hg. intros x Hnot. rewrite Hout; [by apply Hsame|].
    apply not_true_iff_false. intros Hin. by eapply Hnot.
Qed.

Lemma unmap_segments_lookup l m x :
  unmap_segments l m !! x = if existsb (fun g => inside (map_start g) (map_length g) x) l
                            then None else m !! x.
Proof.
  revert m. induction l as [|g l IH]; intros m; simpl; [done|].
  rewrite IH, mem_unmap_lookup. by destruct (inside _ _ x), (existsb _ l).
Qed.

(** After any successful part of a load (segments mapped, contents patched),
    [guest_memory_rollback] to the segment count read before it restores the
    segment table and every byte of memory. *)
Theorem rollback_restores `{HostProt} (s s' : guest_memory) (m m' : gmap Z Z) :
  segments_wf s -> load_run s m s' m' ->
  guest_memory_rollback s' m' (guest_memory_segment_count s) = (s, m).
Proof.
  intros Hwf Hrun. destruct (load_run_inv _ _ _ _ Hwf Hrun) as [_ (new & -> & Hfree & Hsame)].
  unfold guest_memory_rollback. cbn [load_segments with_segments]. rewrite drop_new. f_equal.
  - unfold guest_memory_segment_count. rewrite take_app_length. by destruct s.
  - apply map_eq. intros x. rewrite unmap_segments_lookup.
    destruct (existsb _ _) eqn:He.
    + apply existsb_exists in He as (g & Hg%in_rev%list_elem_of_In & Hx).
      symmetry. by eapply Hfree.
    + apply Hsame. intros g Hg Hx. rewrite <- not_true_iff_false, existsb_exists in He.
      apply He. exists g. split; [|done]. by apply in_rev; rewrite rev_involutive; apply list_elem_of_In.
Qed.

(** ** Executable ranges *)

(** [guest_memory_is_executable] on a non-empty range: it answers 1 exactly
    when the range does not wrap and either lies in one executable load segment
    or every address of it is owned as executable in the runtime registry.  (The
    code looks for one containing mapping; the registry being merged, that is
    the pointwise condition.) *)
Theorem is_executable_correct `{HostProt} (s : guest_memory) (a n : Z) :
  registry_wf (runtime_mappings s) -> Forall (segment_ok (page_size s)) (load_segments s) -> 0 < n ->
  guest_memory_is_executable s a n = true <->
  a + n <= UINTPTR_MAX /\
  ((exists g, g ∈ load_segments s /\ has (final_protection g) PROT_EXEC = true /\
      map_start g <= a /\ a + n <= map_start g + map_length g) \/
   forall x, a <= x < a + n -> owner (runtime_mappings s) x = Some true).
Proof.
  intros Hwf Hok Hn. rewrite (single_mapping _ a n true Hwf Hn).
  unfold guest_memory_is_executable. cond; bprop.
  { split; [done|]. intros [? _]. lia. }
  rewrite orb_true_iff, !existsb_exists.
  assert (Hseg : (exists g, In g (load_segments s) /\
      has (final_protection g) PROT_EXEC && (map_start g <=? a) && (a + n <=? segment_end g) = true)
    <-> exists g, g ∈ load_segments s /\ has (final_protection g) PROT_EXEC = true /\
      map_start g <= a /\ a + n <= map_start g + map_length g).
  { rewrite Forall_forall in Hok.
    split; intros (g & Hg & Hr); exists g.
    - apply list_elem_of_In in Hg. rewrite (segment_end_ok _ g (Hok g Hg)) in Hr. by bprop.
    - split; [by apply list_elem_of_In|]. rewrite (segment_end_ok _ g (Hok g Hg)).
      rewrite !andb_true_iff, !Z.leb_le. tauto. }
  assert (Hrun : (exists x, In x (runtime_mappings s) /\
      rm_exec x && (rm_start x <=? a) && (a + n <=? rm_end x) = true)
    <-> exists y, y ∈ runtime_mappings s /\ rm_exec y = true /\ rm_start y <= a /\ a + n <= rm_end y).
  { split; intros (y & Hy & Hr); exists y; (split; [by apply list_elem_of_In|]); [by bprop|].
    rewrite !andb_true_iff, !Z.leb_le. tauto. }
  rewrite Hseg, Hrun. intuition lia.
Qed.

(** ** The program break *)

Record brk_wf (s : guest_memory) : Prop := {
  brk_page : is_page (page_size s);
  brk_range : GUEST_MIN_ADDRESS <= minimum_break s <= current_break s /\
              current_break s < GUEST_MAX_ADDRESS;
  brk_end : break_mapping_end s = align_up (current_break s) (page_size s);
  brk_registry : registry_wf (runtime_mappings s) }.

(** Below [GUEST_MAX_ADDRESS] rounding up to a page cannot overflow. *)
Lemma brk_align v p :
  is_page p -> 0 <= v < GUEST_MAX_ADDRESS ->
  v <= align_up v p < v + p /\ align_up v p < U32_MOD.
Proof.
  intros Hp Hv. pose proof (is_page_range p Hp).
  destruct (align_up_spec v p Hp) as [_ ?]; unfold GUEST_MAX_ADDRESS, UINTPTR_MAX, U32_MOD in *; lia.
Qed.

(** The memory between two break positions: grown with zeros or unmapped. *)
Definition brk_memory (old_end new_end : Z) (m m' : gmap Z Z) : Prop :=
  forall x, m' !! x =
    if inside old_end (new_end - old_end) x then Some 0
    else if inside new_end (old_end - new_end) x then None else m !! x.

Lemma brk_memory_refl e m : brk_memory e e m m.
Proof. intros x. unfold inside. repeat cond; done || blia. Qed.

Lemma brk_memory_grow e e' m : e <= e' -> brk_memory e e' m (mem_zero m e (e' - e)).
Proof. intros He x. rewrite mem_zero_lookup. unfold inside. repeat cond; done || blia. Qed.

Lemma brk_memory_shrink e e' m : e' <= e -> brk_memory e e' m (mem_unmap m e' (e - e')).
Proof. intros He x. rewrite mem_unmap_lookup. unfold inside. repeat cond; done || blia. Qed.

Definition brk_frame (s s' : guest_memory) : Prop :=
  minimum_break s' = minimum_break s /\ page_size s' = page_size s /\
  load_segments s' = load_segments s.

(** The states a call can end in, with the conditions of its branches. *)
Inductive brk_outcome (mmap : Z -> Z -> mmap_result) (s : guest_memory) (m : gmap Z Z)
    (requested : Z) : Z * guest_memory * gmap Z Z -> Prop :=
| brk_kept : brk_outcome mmap s m requested (current_break s, s, m)
| brk_moved l m' :
    minimum_break s <= requested < GUEST_MAX_ADDRESS ->
    let new_end := align_up requested (page_size s) in
    registry_wf l -> brk_memory (break_mapping_end s) new_end m m' ->
    ((forall a, owner l a = if inside (break_mapping_end s) (new_end - break_mapping_end s) a
                            then Some false
                            else if inside new_end (break_mapping_end s - new_end) a
                            then None else owner (runtime_mappings s) a) \/
     (requested < current_break s /\ l = runtime_mappings s /\
      (MAX_RUNTIME_MAPPINGS <= length (runtime_mappings s) + 1)%nat)) ->
    brk_outcome mmap s m requested (requested, with_break s requested new_end l, m').

(** Moving the break inside the mapped pages changes nothing but the break. *)
Lemma brk_moved_in_page mmap s m requested :
  brk_wf s -> minimum_break s <= requested < GUEST_MAX_ADDRESS ->
  align_up requested (page_size s) = break_mapping_end s ->
  brk_outcome mmap s m requested
    (requested, with_break s requested (break_mapping_end s) (runtime_mappings s), m).
Proof.
  intros Hwf Hq He. rewrite <- He at 1.
  apply brk_moved; [done|apply Hwf|rewrite He; apply brk_memory_refl|left].
  intros a. rewrite He. unfold inside. repeat cond; done || blia.
Qed.

Lemma brk_end_range s : brk_wf s -> 0 <= break_mapping_end s <= UINTPTR_MAX.
Proof.
  intros [Hp Hr He _]. rewrite He. unfold GUEST_MIN_ADDRESS in Hr.
  destruct (brk_align (current_break s) _ Hp); unfold U32_MOD, UINTPTR_MAX in *; lia.
Qed.

Lemma brk_shrink_outcome mmap s m requested :
  brk_wf s -> minimum_break s <= requested < current_break s ->
  align_up requested (page_size s) < break_mapping_end s ->
  brk_outcome mmap s m requested
    (let new_end := align_up requested (page_size s) in
     let n := break_mapping_end s - new_end in
     (requested,
      with_break s requested new_end (guest_memory_runtime_unmap (runtime_mappings s) new_end n),
      mem_unmap m new_end n)).
Proof.
  intros Hwf Hq Hlt. pose proof (brk_end_range s Hwf) as Hend. destruct Hwf as [Hp Hr He Hreg].
  assert (Hmin : 0 < GUEST_MIN_ADDRESS) by done.
  pose proof (brk_align requested _ Hp ltac:(lia)) as Hal.
  destruct (runtime_unmap_spec (runtime_mappings s) (align_up requested (page_size s))
    (break_mapping_end s - align_up requested (page_size s))) as [Hwf' Ho];
    [done|unfold is_u32; lia..|apply bad_range_false; lia|].
  apply brk_moved; [lia|done|apply brk_memory_shrink; lia|].
  destruct Ho as [Ho|Ho]; [left|right; split; [lia|done]].
  intros a. rewrite Ho. unfold owner_update, in_range, inside. repeat cond; done || blia.
Qed.

Lemma brk_set_outcome mmap s m requested :
  brk_wf s -> is_u32 requested -> mmap_fresh mmap m ->
  brk_outcome mmap s m requested (guest_brk_set mmap s m requested).
Proof.
  intros Hwf Hq Hfresh. pose proof (brk_end_range s Hwf) as Hend. pose proof Hwf as [Hp Hr He Hreg].
  assert (Hmin : 0 < GUEST_MIN_ADDRESS) by done. pose proof (is_page_range _ Hp) as Hpg.
  assert (Hmax : GUEST_MAX_ADDRESS <= UINTPTR_MAX - 2147483647) by done. unfold guest_brk_set.
  cond; [constructor|]. cond; [constructor|]. bprop. cond; bprop.
  { pose proof (align_up_mono requested (current_break s) _ Hp ltac:(lia) ltac:(lia)) as Hmono.
    cond; bprop; [apply brk_shrink_outcome; done || lia|].
    apply brk_moved_in_page; [done|lia|lia]. }
  cond; [constructor|]. bprop.
  pose proof (align_up_mono (current_break s) requested _ Hp ltac:(lia) ltac:(lia)) as Hmono.
  pose proof (brk_align requested _ Hp ltac:(lia)) as Hal. unfold U32_MOD in Hal.
  cond; bprop; [|apply brk_moved_in_page; [done|lia|lia]].
  set (n := align_up requested (page_size s) - break_mapping_end s).
  destruct (mmap (break_mapping_end s) n) as [e|mapping] eqn:Em; [constructor|].
  assert (Hun : mem_unmap (mem_zero m mapping n) mapping n = m)
    by (apply mem_unmap_restore; [by eapply Hfresh|auto with emu]).
  rewrite Hun. destruct (mapping =? break_mapping_end s) eqn:Ea; bprop; simpl; [|constructor].
  pose proof (runtime_map_spec (runtime_mappings s) (break_mapping_end s) n false Hreg)
    as Hmap. specialize (Hmap ltac:(unfold is_u32; lia) ltac:(lia)).
  destruct (guest_memory_runtime_map _ _ _ _) as [[[]|e] l].
  - destruct Hmap as (Hl & _ & Ho). subst mapping n.
    apply brk_moved; [lia|done|apply brk_memory_grow; lia|left].
    intros a. rewrite Ho. unfold owner_update, in_range, inside. repeat cond; done || blia.
  - destruct Hmap as [-> _]. replace (with_break s _ _ _) with s by (by destruct s). constructor.
Qed.

(** C29: [guest_brk_set] preserves the break invariant (the mapped heap ends at
    the break rounded up to a page) and returns the break in force.  Either
    nothing changed, or the break is the requested address, which lies between
    the initial break and [GUEST_MAX_ADDRESS], and memory changed exactly
    between the two mapping ends: new pages read as zero, released pages are
    unmapped. *)
Theorem brk_set_correct (mmap : Z -> Z -> mmap_result) (s : guest_memory) (m : gmap Z Z)
    (requested : Z) :
  brk_wf s -> is_u32 requested -> mmap_fresh mmap m ->
  let '(r, s', m') := guest_brk_set mmap s m requested in
  brk_wf s' /\ brk_frame s s' /\ r = current_break s' /\
  ((s' = s /\ m' = m) \/
   (r = requested /\ minimum_break s <= requested < GUEST_MAX_ADDRESS /\
    brk_memory (break_mapping_end s) (break_mapping_end s') m m')).
Proof.
  intros Hwf Hq Hfresh. pose proof (brk_set_outcome mmap s m requested Hwf Hq Hfresh) as Ho.
  inversion Ho as [Heq|l m' Hr new_end Hl Hm _ Heq].
  - split; [done|]. split; [done|]. split; [done|by left].
  - destruct Hwf as [Hp Hr0 He Hreg]. split; [split; simpl; done || lia|]. split; [done|].
    split; [done|by right].
Qed.

(** Growing the break is granted whenever the host maps the pages where
    they are asked for and the registry is not nearly full: the request becomes
    the break and the new pages are owned by the guest, not executable. *)
Theorem brk_set_grows (mmap : Z -> Z -> mmap_result) (s : guest_memory) (m : gmap Z Z)
    (requested : Z) :
  brk_wf s -> current_break s <= requested < GUEST_MAX_ADDRESS ->
  (forall n, mmap (break_mapping_end s) n = MmapAt (break_mapping_end s)) ->
  (length (runtime_mappings s) + 1 < MAX_RUNTIME_MAPPINGS)%nat ->
  let '(r, s', m') := guest_brk_set mmap s m requested in
  r = requested /\ current_break s' = requested /\
  forall x, break_mapping_end s <= x < break_mapping_end s' ->
    owner (runtime_mappings s') x = Some false /\ m' !! x = Some 0.
Proof.
  intros Hwf Hq Hmm Hroom. pose proof (brk_end_range s Hwf) as Hend.
  pose proof Hwf as [Hp Hr He Hreg]. pose proof (is_page_range _ Hp) as Hpg.
  assert (Hmin : 0 < GUEST_MIN_ADDRESS) by done.
  assert (Hmax : GUEST_MAX_ADDRESS <= UINTPTR_MAX - 2147483647) by done. unfold guest_brk_set.
  rewrite (proj2 (Z.eqb_neq requested 0)) by lia.
  rewrite (proj2 (Z.ltb_ge requested (minimum_break s))) by lia.
  rewrite (proj2 (Z.ltb_ge requested (current_break s))) by lia.
  rewrite u32_small by (unfold is_u32, UINTPTR_MAX; lia).
  rewrite (proj2 (Z.leb_gt GUEST_MAX_ADDRESS requested)), (proj2 (Z.ltb_ge _ requested)) by lia.
  simpl. cond; bprop; [|split; [done|]; split; [done|]; simpl; lia].
  pose proof (brk_align requested _ Hp ltac:(lia)) as Hal. unfold U32_MOD in Hal.
  rewrite Hmm, Z.eqb_refl. simpl.
  set (n := align_up requested (page_size s) - break_mapping_end s) in *.
  pose proof (runtime_map_spec (runtime_mappings s) (break_mapping_end s) n false Hreg) as Hmap.
  specialize (Hmap ltac:(unfold is_u32; lia) ltac:(lia)).
  destruct (guest_memory_runtime_map _ _ _ _) as [[[]|e] l].
  - destruct Hmap as (Hl & _ & Ho). split; [done|]. split; [done|]. simpl. intros x Hx.
    rewrite Ho, mem_zero_lookup. unfold owner_update, in_range, inside. repeat cond; done || blia.
  - destruct Hmap as [_ [[_ Hb]|[_ Hfull]]]; [|lia].
    rewrite (proj2 (bad_range_false _ _)) in Hb; [done|]. unfold n, UINTPTR_MAX in *. lia.
Qed.

(** ** Page size and final protections *)

Lemma land_pred_pow2 p : 0 < p -> p .& (p - 1) = 0 <-> p = 2 ^ Z.log2 p.
Proof.
  intros Hp. pose proof (Z.log2_spec p Hp) as [Hl Hu]. pose proof (Z.log2_nonneg p). split.
  - intros Hz. destruct (Z.eq_dec p (2 ^ Z.log2 p)) as [|Hne]; [done|]. exfalso.
    assert (Hlog : Z.log2 (p - 1) = Z.log2 p) by (apply Z.log2_unique; lia).
    pose proof (Z.bit_log2 p Hp) as H1. pose proof (Z.bit_log2 (p - 1)) as H2.
    rewrite Hlog in H2. specialize (H2 ltac:(pose proof (Z.pow_pos_nonneg 2 (Z.log2 p)); lia)).
    apply (f_equal (fun z => Z.testbit z (Z.log2 p))) in Hz.
    by rewrite Z.land_spec, H1, H2, Z.bits_0 in Hz.
  - intros ->. set (k := Z.log2 p) in *.
    replace (2 ^ k - 1) with (Z.ones k) by (rewrite Z.ones_equiv; lia).
    rewrite Z.land_ones by lia. apply Z.mod_same. pose proof (Z.pow_pos_nonneg 2 k). lia.
Qed.

(** [guest_memory_initialize] accepts exactly the positive powers of two, so
    every later rounding works with a real page size; otherwise it fails with
    [EINVAL] and keeps the state. *)
Theorem initialize_accepts_pages (s : guest_memory) (p : Z) :
  p <= INT_MAX ->
  (exists s', guest_memory_initialize s p = (Ok tt, s') /\ page_size s' = p /\ is_page p /\
     load_segments s' = load_segments s /\ runtime_mappings s' = runtime_mappings s) \/
  (guest_memory_initialize s p = (fail_with EINVAL, s) /\ ~ is_page p).
Proof.
  intros Hmax. unfold guest_memory_initialize, INT_MAX in *. destruct (p <=? 0) eqn:E0; bprop; simpl.
  { right. split; [done|]. intros Hp%is_page_range. lia. }
  rewrite !u32_small by (unfold is_u32, UINTPTR_MAX; rewrite ?u32_small;
    unfold is_u32, UINTPTR_MAX; lia).
  destruct (has p (p - 1)) eqn:Eh.
  - right. split; [done|]. intros (k & Hk & ->).
    apply has_true in Eh. apply Eh, land_pred_pow2; [lia|]. by rewrite Z.log2_pow2 by lia.
  - left. eexists. split; [done|]. split_and!; simpl; try done.
    apply has_false, land_pred_pow2 in Eh; [|lia]. exists (Z.log2 p).
    split; [|done]. split; [apply Z.log2_nonneg|]. apply Z.log2_lt_pow2; lia.
Qed.

Definition segment_calls `{HostProt} (x : load_segment) : list protect_call :=
  Mprotect (map_start x) (map_length x) (final_protection x) ::
  (if has (final_protection x) PROT_EXEC
   then [MsyncInvalidateIcache (map_start x) (map_length x)] else []).

(** [guest_memory_finalize] gives each segment its final protection in
    table order and invalidates the instruction cache of every executable one
    right after.  It returns 0 exactly when all these calls succeed; otherwise
    it stops at the first call that fails and reports its error. *)
Theorem finalize_calls `{HostProt} (host : protect_call -> option errno) (l : list load_segment) :
  match guest_memory_finalize host l with
  | (Ok _, calls) => calls = flat_map segment_calls l /\ Forall (fun c => host c = None) calls
  | (Err e, calls) => exists done failed rest err,
      calls = done ++ [failed] /\ flat_map segment_calls l = calls ++ rest /\
      Forall (fun c => host c = None) done /\ host failed = Some err /\ e = Some err
  end.
Proof.
  induction l as [|x l IH]; simpl; [done|]. set (tail := flat_map segment_calls l) in *.
  clearbody tail.
  destruct (host (Mprotect _ _ _)) as [err|] eqn:E1.
  { eexists [], _, _, err. by rewrite app_nil_l. }
  destruct (has (final_protection x) PROT_EXEC); simpl.
  - destruct (host (MsyncInvalidateIcache _ _)) as [err|] eqn:E2.
    { eexists [_], _, _, err. split; [done|]. split; [done|]. by repeat constructor. }
    destruct (guest_memory_finalize host l) as [[?|e] calls].
    + destruct IH as [-> IH]. split; [done|]. by repeat constructor.
    + destruct IH as (dn & fl & rest & err & -> & -> & Hd & Hf & ->).
      eexists (_ :: _ :: dn), fl, rest, err. split; [done|]. split; [done|]. by repeat constructor.
  - destruct (guest_memory_finalize host l) as [[?|e] calls].
    + destruct IH as [-> IH]. split; [done|]. by repeat constructor.
    + destruct IH as (dn & fl & rest & err & -> & -> & Hd & Hf & ->).
      eexists (_ :: dn), fl, rest, err. split; [done|]. split; [done|]. by repeat constructor.
Qed.

(** ** Witnesses *)

Module GuestMemoryExamples.

#[local] Instance example_prot : HostProt :=
  {| PROT_NONE := 0; PROT_READ := 0x100; PROT_WRITE := 0x200; PROT_EXEC := 0x400 |}.

Definition s0 : guest_memory := GuestMemory [] 16 0x20000 0x10008 0x20000 [].
(** Places every mapping where it is asked for. *)
Definition place (hint n : Z) : mmap_result := MmapAt hint.
Definition text : elf_phdr := Phdr 1 2 0x10004 0 3 9 5 16.

Lemma s0_wf : segments_wf s0.
Proof.
  split; [by exists 4|constructor|constructor|vm_compute; lia].
Defined.

Lemma text_ok : phdr_ok text.
Proof. repeat split; vm_compute; discriminate. Defined.

Lemma place_fresh : mmap_fresh place ∅.
Proof. intros hint n a _ x _. apply lookup_empty. Defined.

(** The state part of a result. *)
Definition state_of (o : option (result unit * guest_memory * gmap Z Z)) : guest_memory :=
  match o with Some (_, s, _) => s | None => s0 end.
Definition ok_of (o : option (result unit * guest_memory * gmap Z Z)) : bool :=
  match o with Some (Ok _, _, _) => true | _ => false end.

Lemma map_load_segment_correct_witness :
  exists s' m', guest_memory_map_load_segment place [PTransfer 2; PInterrupted; PTransfer 9; PTransfer 1]
    [9;8;7;6;5;4] s0 ∅ text 0 6 = Some (Ok tt, s', m') /\ segments_wf s' /\
    m' !! 0x10005 = Some 6 /\ m' !! 0x10007 = Some 0.
Proof.
  destruct (map_load_segment_correct place [PTransfer 2; PInterrupted; PTransfer 9; PTransfer 1]
    [9;8;7;6;5;4] s0 ∅ text 0 6 s0_wf text_ok) as (r & s' & m' & E & Hwf & Hm).
  - split; vm_compute; discriminate.
  - exact place_fresh.
  - vm_compute. lia.
  - exists s', m'. destruct r as [[]|e]; [|apply (f_equal ok_of) in E; vm_compute in E; discriminate].
    split; [exact E|]. split; [exact Hwf|]. destruct Hm as (start & n & Hs' & _ & _ & _ & _ & _ & Hx).
    assert (Hseg : start = 0x10000 /\ n = 16).
    { apply (f_equal state_of) in E. rewrite Hs' in E. vm_compute in E. injection E. auto. }
    destruct Hseg as [-> ->]. split; rewrite Hx; vm_compute; reflexivity.
Defined.

Lemma rollback_restores_witness :
  exists s' m', load_run s0 ∅ s' m' /\ guest_memory_segment_count s' = 1%nat /\
    guest_memory_rollback s' m' (guest_memory_segment_count s0) = (s0, ∅).
Proof.
  destruct (map_load_segment_returns place [PTransfer 3; PTransfer 1; PTransfer 1]
    [9;8;7;6;5;4] s0 ∅ text 0 6) as [[[r s'] m'] E]; [vm_compute; lia|].
  assert (Hr : load_run s0 ∅ s' m').
  { apply (run_map s0 ∅ place [PTransfer 3; PTransfer 1; PTransfer 1] [9;8;7;6;5;4] text 0 6
      s0 ∅ s' m'); [apply run_start|exact text_ok| |exact place_fresh|].
    - split; vm_compute; discriminate.
    - destruct r as [[]|e]; [exact E|]. apply (f_equal ok_of) in E. vm_compute in E. discriminate. }
  exists s', m'. split; [exact Hr|]. split.
  - apply (f_equal state_of) in E. simpl in E. rewrite <- E. vm_compute. reflexivity.
  - exact (rollback_restores s0 s' ∅ m' s0_wf Hr).
Defined.

Definition s1 : guest_memory :=
  GuestMemory [] 16 0x20000 0x10008 0x20000 [Mapping 0x10000 0x15000 false].

Lemma is_executable_correct_witness : guest_memory_is_executable s1 0x10000 4 = false.
Proof.
  destruct (guest_memory_is_executable s1 0x10000 4) eqn:E; [exfalso|reflexivity].
  apply (is_executable_correct s1 0x10000 4 one_mapping_wf) in E as [_ [(g & Hg & _)|Hall]].
  - by apply not_elem_of_nil in Hg.
  - assert (Hin : 0x10000 <= 0x10000 < 0x10000 + 4) by lia.
    specialize (Hall 0x10000 Hin). vm_compute in Hall. discriminate.
  - constructor.
  - lia.
Defined.

Lemma s1_brk_wf : brk_wf s1.
Proof.
  split; [by exists 4|vm_compute; repeat split; discriminate|reflexivity|exact one_mapping_wf].
Defined.

Lemma brk_set_correct_witness :
  exists r s' m', guest_brk_set place s1 ∅ 0x20011 = (r, s', m') /\ brk_wf s' /\
    r = current_break s'.
Proof.
  pose proof (brk_set_correct place s1 ∅ 0x20011 s1_brk_wf) as H.
  destruct (guest_brk_set place s1 ∅ 0x20011) as [[r s'] m'].
  destruct H as (Hwf & _ & Hr & _).
  - split; vm_compute; discriminate.
  - exact place_fresh.
  - exists r, s', m'. split; [reflexivity|]. split; [exact Hwf|exact Hr].
Defined.

Lemma brk_set_grows_witness : (guest_brk_set place s1 ∅ 0x20011).1.1 = 0x20011.
Proof.
  pose proof (brk_set_grows place s1 ∅ 0x20011 s1_brk_wf) as H.
  destruct (guest_brk_set place s1 ∅ 0x20011) as [[r s'] m'].
  apply H.
  - vm_compute. split; [discriminate|reflexivity].
  - reflexivity.
  - vm_compute. lia.
Defined.

Lemma initialize_accepts_pages_witness :
  exists s', guest_memory_initialize s0 4096 = (Ok tt, s') /\ page_size s' = 4096.
Proof.
  destruct (initialize_accepts_pages s0 4096) as [(s' & Hs & Hp & _)|[H _]].
  - vm_compute. discriminate.
  - exists s'. split; [exact Hs|exact Hp].
  - vm_compute in H. discriminate.
Defined.

End GuestMemoryExamples.
