(* ===== verification/ArmPatch.v ===== *)
(** * Instruction patching: [src/src/arm_patch.c]

    Guest code is run in place.  The instructions the host cannot execute for a
    guest, the Linux system call [svc #0] and the reads of the TLS register
    [TPIDRURO], are overwritten with an undefined instruction and remembered in
    a table of [MAX_PATCHES] records, from which the trap handler ([trap.c])
    gets them back.  The state is the table (a list, oldest record first) and
    the memory. *)

From S2P Require Import Prelude Errno Bytes Util.
Open Scope Z_scope.

Definition MAX_PATCHES : nat := 4096.
Definition ARM_LINUX_SVC_0 : Z := 0xef000000.
Definition ARM_TPIDRURO_MASK : Z := 0xffff0fff.
Definition ARM_TPIDRURO_READ : Z := 0xee1d0f70.
Definition ARM_UDF_TRAP : Z := 0xe7f000f0.

(** [struct patch_record] *)
Record patch_record := Patch { pr_address : Z; pr_original : Z }.

(** The negation of the condition under which [arm_patch_range] continues. *)
Definition needs_patch (word : Z) : bool :=
  negb (negb (word =? ARM_LINUX_SVC_0) && negb ((word .& ARM_TPIDRURO_MASK) =? ARM_TPIDRURO_READ)).

(** The loop of [arm_patch_range] over [n] words; [None] is a fault on an
    unmapped word. *)
Fixpoint patch_words (n : nat) (address : Z) (p : list patch_record) (m : gmap Z Z)
  : option (result unit * list patch_record * gmap Z Z) :=
  match n with
  | O => Some (Ok tt, p, m)
  | S n =>
    match load32 m address with
    | None => None
    | Some word =>
      if negb (needs_patch word) then patch_words n (address + 4) p m
      else if (length p =? MAX_PATCHES)%nat then Some (fail_with E2BIG, p, m)
      else patch_words n (address + 4) (p ++ [Patch address word])
             (store32 m address ARM_UDF_TRAP)
    end
  end.

Definition arm_patch_range (p : list patch_record) (m : gmap Z Z) (start length : Z)
  : option (result unit * list patch_record * gmap Z Z) :=
  if has start 3 || has length 3 || (UINTPTR_MAX - start <? length)
  then Some (fail_with ENOEXEC, p, m)
  else patch_words (Z.to_nat (length / 4)) start p m.

(** The first record of the address. *)
Fixpoint arm_patch_original (p : list patch_record) (address : Z) : option Z :=
  match p with
  | [] => None
  | r :: p => if pr_address r =? address then Some (pr_original r) else arm_patch_original p address
  end.

Definition arm_patch_count (p : list patch_record) : nat := length p.

(** The records outside the range are moved down in order. *)
Definition arm_patch_forget_range (p : list patch_record) (address length : Z)
  : list patch_record :=
  let end_ := if UINTPTR_MAX - address <? length then UINTPTR_MAX else address + length in
  List.filter (fun r => (pr_address r <? address) || (end_ <=? pr_address r)) p.

(** The dropped records are written back, last first. *)
Fixpoint restore_patches (rev_dropped : list patch_record) (m : gmap Z Z) : gmap Z Z :=
  match rev_dropped with
  | [] => m
  | r :: rest => restore_patches rest (store32 m (pr_address r) (pr_original r))
  end.
Definition arm_patch_rollback (p : list patch_record) (m : gmap Z Z) (retained_count : nat)
  : list patch_record * gmap Z Z :=
  (take retained_count p, restore_patches (rev (drop retained_count p)) m).

(** ** Patching the sections of a mapped file *)

Definition EM_ARM : Z := 40.
Definition SHT_PROGBITS : Z := 1.
Definition SHF_EXECINSTR : Z := 4.
Definition EHDR_SIZE : nat := 52.
Definition SHDR_SIZE : nat := 40.

(** The fields of [Elf32_Shdr] the code reads, at their offsets. *)
Record section_header := Shdr { sh_type : Z; sh_flags : Z; sh_offset : Z; sh_size : Z }.
Definition read_section (bytes : list Z) : section_header :=
  Shdr (load_le 4 4 bytes) (load_le 4 8 bytes) (load_le 4 16 bytes) (load_le 4 20 bytes).

Definition read_sections (shnum : nat) (table : list Z) : list section_header :=
  map (fun i => read_section (take SHDR_SIZE (drop (i * SHDR_SIZE) table))) (seq 0 shnum).

(** The header is that of a little-endian 32-bit ARM ELF file with sections. *)
Definition arm_elf_with_sections (header : list Z) : bool :=
  bool_decide (take 6 header = [0x7f; 0x45; 0x4c; 0x46; 1; 1]) &&
  (load_le 2 18 header =? EM_ARM) && negb (load_le 2 48 header =? 0) &&
  (load_le 2 46 header =? Z.of_nat SHDR_SIZE).

(** The [while] that moves [patch_start] to a word boundary of the mapping; it
    makes at most three steps. *)
Fixpoint align_patch_start (fuel : nat) (address mapping_start patch_start patch_end : Z) : Z :=
  match fuel with
  | O => patch_start
  | S fuel =>
    if (patch_start <? patch_end) &&
       has (u32 (address + (patch_start - mapping_start))) 3
    then align_patch_start fuel address mapping_start (patch_start + 1) patch_end
    else patch_start
  end.

(** The part of a section the loop body patches: file positions
    [patch_start .. patch_end), or [None] when the section is skipped. *)
Definition section_patch (x : section_header) (address mapping_start mapping_end : Z)
  : option (Z * Z) :=
  let section_start := sh_offset x in
  let section_end := section_start + sh_size x in
  if negb (sh_type x =? SHT_PROGBITS) || negb (has (sh_flags x) SHF_EXECINSTR) ||
     (sh_size x =? 0) || (section_end <? section_start) ||
     (mapping_end <=? section_start) || (section_end <=? mapping_start)
  then None
  else
    let patch_start := if mapping_start <? section_start then section_start else mapping_start in
    let patch_end := if section_end <? mapping_end then section_end else mapping_end in
    let patch_start := align_patch_start 3 address mapping_start patch_start patch_end in
    let patch_end := patch_end - ((patch_end - patch_start) .& 3) in
    if patch_start <? patch_end then Some (patch_start, patch_end) else None.

Fixpoint patch_sections (sections : list section_header) (address mapping_start mapping_end : Z)
    (p : list patch_record) (m : gmap Z Z) : option (result unit * list patch_record * gmap Z Z) :=
  match sections with
  | [] => Some (Ok tt, p, m)
  | x :: rest =>
    match section_patch x address mapping_start mapping_end with
    | None => patch_sections rest address mapping_start mapping_end p m
    | Some (patch_start, patch_end) =>
      match arm_patch_range p m (u32 (address + (patch_start - mapping_start)))
              (patch_end - patch_start) with
      | Some (Ok _, p, m) => patch_sections rest address mapping_start mapping_end p m
      | other => other
      end
    end
  end.

(** What the host answers during [arm_patch_elf_mapping]: the file size or an
    error of [fstat], whether [malloc] succeeds, and the two reads. *)
Record elf_host := ElfHost {
  fstat_size : option Z;
  malloc_ok : bool;
  header_steps : list pread_step;
  table_steps : list pread_step }.

(** The part of [arm_patch_elf_mapping] before the loop: [Ok None] when it
    returns 0 without patching, [Err] when it returns -1, the section table
    otherwise; [None] is the end of the read steps. *)
Definition elf_sections (host : elf_host) (file : list Z) (fd offset length : Z)
  : option (result (option (list section_header))) :=
  let skip := Some (Ok None) in
  if (fd <? 0) || (offset <? 0) || (length =? 0) || (2 ^ 64 - 1 - offset <? length) then skip
  else match fstat_size host with
  | None => skip
  | Some st_size =>
    if st_size <? 0 then skip
    else match read_exact_at (header_steps host) file EHDR_SIZE 0 with
    | None => None
    | Some (Err _) => skip
    | Some (Ok header) =>
      if negb (arm_elf_with_sections header) then skip
      else
        let shnum := Z.to_nat (load_le 2 48 header) in
        let shoff := load_le 4 32 header in
        let table_size := Z.of_nat (shnum * SHDR_SIZE) in
        if (st_size <? shoff) || (st_size - shoff <? table_size) then skip
        else if negb (malloc_ok host) then Some (fail_with ENOMEM)
        else match read_exact_at (table_steps host) file (Z.to_nat table_size) (Z.to_nat shoff) with
        | None => None
        | Some (Err e) => Some (Err e)
        | Some (Ok table) => Some (Ok (Some (read_sections shnum table)))
        end
    end
  end.

(** [arm_patch_elf_mapping]; [None] is a fault, or the end of the read steps. *)
Definition arm_patch_elf_mapping (host : elf_host) (file : list Z) (fd offset address length : Z)
    (p : list patch_record) (m : gmap Z Z) : option (result unit * list patch_record * gmap Z Z) :=
  match elf_sections host file fd offset length with
  | None => None
  | Some (Err e) => Some (Err e, p, m)
  | Some (Ok None) => Some (Ok tt, p, m)
  | Some (Ok (Some sections)) =>
    patch_sections sections address offset (offset + length) p m
  end.

(** ** The table and the memory agree *)

(** What a guest instruction fetch means to the trap handler: the remembered
    instruction where there is one, the memory otherwise. *)
Definition fetch (p : list patch_record) (m : gmap Z Z) (a : Z) : option Z :=
  match arm_patch_original p a with Some w => Some w | None => load32 m a end.

Definition patch_ok (m : gmap Z Z) (r : patch_record) : Prop :=
  pr_address r mod 4 = 0 /\ needs_patch (pr_original r) = true /\
  load32 m (pr_address r) = Some ARM_UDF_TRAP.

(** Every record is of an aligned word that now holds the trap, no word has two
    records, and the table is within its array. *)
Record patches_wf (p : list patch_record) (m : gmap Z Z) : Prop := {
  pw_ok : Forall (patch_ok m) p;
  pw_nodup : NoDup (pr_address <$> p);
  pw_count : (length p <= MAX_PATCHES)%nat }.

Lemma needs_patch_true w :
  needs_patch w = true <-> w = ARM_LINUX_SVC_0 \/ w .& ARM_TPIDRURO_MASK = ARM_TPIDRURO_READ.
Proof.
  unfold needs_patch. rewrite negb_true_iff, andb_false_iff, !negb_false_iff, !Z.eqb_eq. done.
Qed.

Lemma original_app p q a :
  arm_patch_original (p ++ q) a =
  match arm_patch_original p a with Some w => Some w | None => arm_patch_original q a end.
Proof. induction p as [|r p IH]; simpl; [done|]. by destruct (pr_address r =? a). Qed.

Lemma original_Some p a w : arm_patch_original p a = Some w -> Patch a w ∈ p.
Proof.
  induction p as [|[b v] p IH]; simpl; [done|]. cond; bprop; [|set_solver].
  intros [= ->]. subst. apply list_elem_of_here.
Qed.

Lemma original_unique p r :
  NoDup (pr_address <$> p) -> r ∈ p -> arm_patch_original p (pr_address r) = Some (pr_original r).
Proof.
  induction p as [|r' p IH]; intros Hnd Hr; [set_solver|]. simpl.
  apply NoDup_cons in Hnd as [Hn Hnd]. apply elem_of_cons in Hr as [->|Hr].
  - by rewrite Z.eqb_refl.
  - destruct (pr_address r' =? pr_address r) eqn:E; [|by apply IH]. bprop. exfalso. apply Hn.
    rewrite E. apply list_elem_of_fmap. eauto.
Qed.

Lemma original_none p m a w :
  Forall (patch_ok m) p -> load32 m a = Some w -> needs_patch w = true ->
  arm_patch_original p a = None.
Proof.
  intros Hok Hl Hw. destruct (arm_patch_original p a) as [v|] eqn:E; [|done].
  apply original_Some in E. rewrite Forall_forall in Hok. destruct (Hok _ E) as (_ & _ & Hu).
  simpl in Hu. rewrite Hl in Hu. injection Hu as ->. done.
Qed.

(** Aligned words are equal or apart. *)
Lemma aligned_apart a b : a mod 4 = 0 -> b mod 4 = 0 -> a = b \/ b + 4 <= a \/ a + 4 <= b.
Proof. intros. mlia. Qed.

(** One patched word keeps the invariant and every fetch. *)
Lemma patch_one p m a w :
  patches_wf p m -> mem_wf m -> a mod 4 = 0 -> load32 m a = Some w -> needs_patch w = true ->
  (length p < MAX_PATCHES)%nat ->
  patches_wf (p ++ [Patch a w]) (store32 m a ARM_UDF_TRAP) /\
  forall b, b mod 4 = 0 ->
    fetch (p ++ [Patch a w]) (store32 m a ARM_UDF_TRAP) b = fetch p m b.
Proof.
  intros [Hok Hnd Hc] Hm Ha Hl Hw Hlt. pose proof (original_none _ _ _ _ Hok Hl Hw) as Hno.
  assert (Hu : load32 (store32 m a ARM_UDF_TRAP) a = Some ARM_UDF_TRAP)
    by (apply load32_store32_eq; by split; vm_compute).
  split; [split|].
  - apply Forall_app. split; [|by apply Forall_singleton].
    eapply Forall_impl; [exact Hok|]. intros r (Hr & Hn & Hlr). split_and!; [done..|].
    destruct (aligned_apart a (pr_address r) Ha Hr) as [<-|Hd]; [done|].
    by rewrite load32_store32_ne.
  - rewrite fmap_app. apply NoDup_app. split_and!; [done| |apply NoDup_singleton].
    intros b Hb Hb'. apply list_elem_of_singleton in Hb'. simpl in Hb'. subst b.
    apply list_elem_of_fmap in Hb as (r & -> & Hr). by rewrite original_unique in Hno.
  - rewrite length_app. simpl. lia.
  - intros b Hb. unfold fetch. rewrite original_app. simpl.
    destruct (aligned_apart a b Ha Hb) as [<-|Hd].
    + by rewrite Hno, Z.eqb_refl, Hl.
    + rewrite (proj2 (Z.eqb_neq a b)) by lia. rewrite load32_store32_ne by done.
      by destruct (arm_patch_original p b).
Qed.

(** ** The patching loop *)

Lemma patch_words_total n a p m :
  (forall x, a <= x < a + 4 * Z.of_nat n -> is_Some (m !! x)) -> is_Some (patch_words n a p m).
Proof.
  revert a p m. induction n as [|n IH]; intros a p m Hm; [by eexists|]. cbn [patch_words].
  destruct (load32_mapped m a) as [w ->]; [intros x Hx; apply Hm; lia|].
  repeat cond; [apply IH; intros; apply Hm; lia|by eexists|].
  apply IH. intros x Hx. apply store32_is_Some, Hm. lia.
Qed.

Lemma patch_words_inv n a p m r p' m' :
  patches_wf p m -> mem_wf m -> a mod 4 = 0 -> patch_words n a p m = Some (r, p', m') ->
  patches_wf p' m' /\ mem_wf m' /\ forall b, b mod 4 = 0 -> fetch p' m' b = fetch p m b.
Proof.
  revert a p m. induction n as [|n IH]; intros a p m Hwf Hm Ha; cbn [patch_words].
  { intros Heq. injection Heq as <- <- <-. done. }
  destruct (load32 m a) as [w|] eqn:Hl; [|done].
  assert (Ha' : (a + 4) mod 4 = 0) by mlia.
  cond; [by apply IH|]. bprop. cond.
  { intros Heq. injection Heq as <- <- <-. done. }
  bprop. pose proof (pw_count _ _ Hwf).
  destruct (patch_one p m a w) as [Hwf' Hf]; [done..|lia|]. intros Hp.
  apply IH in Hp as (H1 & H2 & H3); [|done|auto with emu|done].
  split_and!; [done..|]. intros b Hb. by rewrite H3, Hf.
Qed.

Lemma restore_patches_app p q m :
  restore_patches (p ++ q) m = restore_patches q (restore_patches p m).
Proof. revert m. induction p as [|r p IH]; intros m; simpl; [done|]. by rewrite IH. Qed.

(** Whatever the outcome, writing the new records back restores the memory. *)
Lemma patch_words_undo n a p m r p' m' :
  mem_wf m -> patch_words n a p m = Some (r, p', m') ->
  exists new, p' = p ++ new /\ restore_patches (rev new) m' = m.
Proof.
  revert a p m. induction n as [|n IH]; intros a p m Hm; cbn [patch_words].
  { intros Heq. injection Heq as <- <- <-. exists []. by rewrite app_nil_r. }
  destruct (load32 m a) as [w|] eqn:Hl; [|done].
  cond; [by apply IH|]. cond.
  { intros Heq. injection Heq as <- <- <-. exists []. by rewrite app_nil_r. }
  intros Hp. apply IH in Hp as (new & -> & Hu); [|auto with emu].
  exists (Patch a w :: new). split; [by rewrite <- app_assoc|]. simpl.
  rewrite restore_patches_app, Hu. simpl. by apply store32_restore.
Qed.

(** The new records are of words of the range. *)
Lemma patch_words_range n a p m r p' m' :
  patch_words n a p m = Some (r, p', m') ->
  exists new, p' = p ++ new /\
    Forall (fun r => a <= pr_address r < a + 4 * Z.of_nat n) new.
Proof.
  revert a p m. induction n as [|n IH]; intros a p m; cbn [patch_words].
  { intros Heq. injection Heq as <- <- <-. exists []. by rewrite app_nil_r. }
  destruct (load32 m a) as [w|] eqn:Hl; [|done].
  cond; [|cond].
  - intros (new & -> & Hf)%IH. exists new. split; [done|].
    eapply Forall_impl; [exact Hf|]. simpl. lia.
  - intros Heq. injection Heq as <- <- <-. exists []. by rewrite app_nil_r.
  - intros (new & -> & Hf)%IH. exists (Patch a w :: new). split; [by rewrite <- app_assoc|].
    constructor; [simpl; lia|]. eapply Forall_impl; [exact Hf|]. simpl. lia.
Qed.

(** A word that needs no patch (any more). *)
Definition clean (m : gmap Z Z) (a : Z) : Prop :=
  exists w, load32 m a = Some w /\ needs_patch w = false.

Lemma clean_store m a b :
  a mod 4 = 0 -> b mod 4 = 0 -> a = b \/ clean m b -> clean (store32 m a ARM_UDF_TRAP) b.
Proof.
  intros Ha Hb Hc. destruct (aligned_apart a b Ha Hb) as [<-|Hd].
  - exists ARM_UDF_TRAP. split; [|done]. apply load32_store32_eq. by split; vm_compute.
  - destruct Hc as [->|(w & Hl & Hw)]; [lia|]. exists w. by rewrite load32_store32_ne.
Qed.

(** Patching makes the words of the range clean and leaves clean words clean. *)
Lemma patch_words_clean n a p m r p' m' :
  a mod 4 = 0 -> patch_words n a p m = Some (r, p', m') ->
  (forall b, b mod 4 = 0 -> clean m b -> clean m' b) /\
  (r = Ok tt -> forall b, b mod 4 = 0 -> a <= b < a + 4 * Z.of_nat n -> clean m' b).
Proof.
  revert a p m. induction n as [|n IH]; intros a p m Ha; cbn [patch_words].
  { intros Heq. injection Heq as <- <- <-. split; [done|]. intros. lia. }
  destruct (load32 m a) as [w|] eqn:Hl; [|done].
  assert (Ha' : (a + 4) mod 4 = 0) by mlia.
  cond; bprop.
  - intros Hp. apply IH in Hp as [Hk Hc]; [|done]. split; [done|]. intros Hr b Hb Hin.
    destruct (aligned_apart a b Ha Hb) as [<-|Hd]; [apply Hk; [done|by exists w]|].
    apply Hc; [done|done|lia].
  - cond; [intros Heq; injection Heq as <- <- <-; by split|].
    intros Hp. apply IH in Hp as [Hk Hc]; [|done]. split.
    + intros b Hb Hcb. apply Hk, clean_store; auto.
    + intros Hr b Hb Hin. destruct (aligned_apart a b Ha Hb) as [<-|Hd].
      * apply Hk, clean_store; auto.
      * apply Hc; [done|done|lia].
Qed.

(** ** [arm_patch_range] *)

Lemma has_3 x : has x 3 = false <-> x mod 4 = 0.
Proof. rewrite has_false. change 3 with (Z.ones 2). by rewrite Z.land_ones. Qed.

Lemma arm_patch_range_cases p m start len r p' m' :
  arm_patch_range p m start len = Some (r, p', m') ->
  (r = fail_with ENOEXEC /\ p' = p /\ m' = m) \/
  (start mod 4 = 0 /\ len mod 4 = 0 /\ start + len <= UINTPTR_MAX /\
   patch_words (Z.to_nat (len / 4)) start p m = Some (r, p', m')).
Proof.
  unfold arm_patch_range. cond; [intros Heq; injection Heq as <- <- <-; by left|].
  right. bprop. split_and!; [by apply has_3..|lia|done].
Qed.

(** The words of the range are mapped. *)
Definition mapped (m : gmap Z Z) (start len : Z) : Prop :=
  forall x, start <= x < start + len -> is_Some (m !! x).

Lemma arm_patch_range_returns p m start len :
  0 <= len -> mapped m start len -> is_Some (arm_patch_range p m start len).
Proof.
  intros Hlen Hm. unfold arm_patch_range. cond; [by eexists|]. bprop.
  apply patch_words_total. intros x Hx. apply Hm. mlia.
Qed.

Lemma arm_patch_range_inv p m start len r p' m' :
  patches_wf p m -> mem_wf m -> arm_patch_range p m start len = Some (r, p', m') ->
  patches_wf p' m' /\ mem_wf m' /\ forall b, b mod 4 = 0 -> fetch p' m' b = fetch p m b.
Proof.
  intros Hwf Hm [(_ & -> & ->)|(Hs & _ & _ & Hp)]%arm_patch_range_cases; [done|].
  by eapply patch_words_inv.
Qed.

Lemma arm_patch_range_clean p m start len r p' m' :
  0 <= len -> arm_patch_range p m start len = Some (r, p', m') ->
  (forall b, b mod 4 = 0 -> clean m b -> clean m' b) /\
  (r = Ok tt -> forall b, b mod 4 = 0 -> start <= b < start + len -> clean m' b).
Proof.
  intros Hlen [(-> & -> & ->)|(Hs & Hl & _ & Hp)]%arm_patch_range_cases; [by split|].
  apply patch_words_clean in Hp as [Hk Hc]; [|done]. split; [done|].
  intros Hr b Hb Hin. apply Hc; [done|done|mlia].
Qed.

Lemma arm_patch_range_undo p m start len r p' m' :
  mem_wf m -> arm_patch_range p m start len = Some (r, p', m') ->
  exists new, p' = p ++ new /\ restore_patches (rev new) m' = m.
Proof.
  intros Hm [(_ & -> & ->)|(_ & _ & _ & Hp)]%arm_patch_range_cases.
  - exists []. by rewrite app_nil_r.
  - by eapply patch_words_undo.
Qed.

Lemma arm_patch_range_range p m start len r p' m' :
  0 <= len -> arm_patch_range p m start len = Some (r, p', m') ->
  exists new, p' = p ++ new /\ Forall (fun r => start <= pr_address r < start + len) new.
Proof.
  intros Hlen [(_ & -> & ->)|(_ & _ & _ & Hp)]%arm_patch_range_cases.
  - exists []. by rewrite app_nil_r.
  - apply patch_words_range in Hp as (new & -> & Hf). exists new. split; [done|].
    eapply Forall_impl; [exact Hf|]. simpl. intros x. mlia.
Qed.

Lemma rollback_undo p new m m' :
  restore_patches (rev new) m' = m -> arm_patch_rollback (p ++ new) m' (arm_patch_count p) = (p, m).
Proof.
  intros Hu. unfold arm_patch_rollback, arm_patch_count.
  by rewrite take_app_length, drop_app_length, Hu.
Qed.

(** C14: patching is invisible to the guest.  On a mapped range
    [arm_patch_range] returns; whatever it returns, the table and memory stay
    consistent and every aligned instruction fetch, as the trap handler
    resolves it, is what it was.  When it returns 0, no word of the range is a
    system call or a TLS read any more. *)
Theorem patch_range_transparent (p : list patch_record) (m : gmap Z Z) (start len : Z) :
  patches_wf p m -> mem_wf m -> 0 <= len -> mapped m start len ->
  exists r p' m', arm_patch_range p m start len = Some (r, p', m') /\
    patches_wf p' m' /\ (forall a, a mod 4 = 0 -> fetch p' m' a = fetch p m a) /\
    (r = Ok tt -> forall a, a mod 4 = 0 -> start <= a < start + len -> clean m' a).
Proof.
  intros Hwf Hm Hlen Hmap.
  destruct (arm_patch_range_returns p m start len Hlen Hmap) as [[[r p'] m'] E].
  exists r, p', m'. destruct (arm_patch_range_inv _ _ _ _ _ _ _ Hwf Hm E) as (Hwf' & _ & Hf).
  destruct (arm_patch_range_clean _ _ _ _ _ _ _ Hlen E) as [_ Hc]. done.
Qed.

(** [arm_patch_rollback] to the count read before [arm_patch_range] undoes
    it exactly, whether it succeeded or stopped with a full table: the same
    records and every byte of memory. *)
Theorem patch_rollback_inverse (p : list patch_record) (m : gmap Z Z) (start len : Z) :
  mem_wf m -> 0 <= len -> mapped m start len ->
  exists r p' m', arm_patch_range p m start len = Some (r, p', m') /\
    arm_patch_rollback p' m' (arm_patch_count p) = (p, m).
Proof.
  intros Hm Hlen Hmap.
  destruct (arm_patch_range_returns p m start len Hlen Hmap) as [[[r p'] m'] E].
  exists r, p', m'. split; [done|].
  destruct (arm_patch_range_undo _ _ _ _ _ _ _ Hm E) as (new & -> & Hu). by apply rollback_undo.
Qed.

(** ** Forgetting a range *)

Lemma original_filter f p a :
  (forall r, r ∈ p -> pr_address r = a -> f r = true) ->
  arm_patch_original (List.filter f p) a = arm_patch_original p a.
Proof.
  induction p as [|r p IH]; intros Hf; simpl; [done|].
  assert (IH' : arm_patch_original (List.filter f p) a = arm_patch_original p a)
    by (apply IH; set_solver).
  destruct (pr_address r =? a) eqn:E; bprop.
  - rewrite Hf by set_solver. simpl. by rewrite (proj2 (Z.eqb_eq _ _) E).
  - destruct (f r); simpl; [|done]. by rewrite (proj2 (Z.eqb_neq _ _) E).
Qed.

Lemma original_filter_out f p a :
  (forall r, r ∈ p -> pr_address r = a -> f r = false) ->
  arm_patch_original (List.filter f p) a = None.
Proof.
  induction p as [|r p IH]; intros Hf; simpl; [done|].
  assert (IH' : arm_patch_original (List.filter f p) a = None) by (apply IH; set_solver).
  destruct (f r) eqn:Efr; simpl; [|done]. destruct (pr_address r =? a) eqn:E; bprop; [|done].
  rewrite Hf in Efr; [done|set_solver|done].
Qed.

Lemma filter_nodup f (p : list patch_record) :
  NoDup (pr_address <$> p) -> NoDup (pr_address <$> List.filter f p).
Proof.
  induction p as [|r p IH]; simpl; [done|]. intros [Hn Hnd]%NoDup_cons.
  destruct (f r); [|by apply IH]. apply NoDup_cons. split; [|by apply IH].
  intros (r' & Hr' & Hin%list_elem_of_In)%list_elem_of_fmap. apply Hn.
  apply list_elem_of_fmap. exists r'. split; [done|]. apply filter_In in Hin as [Hin _].
  by apply list_elem_of_In.
Qed.

Lemma forget_range_spec p m m' a n :
  patches_wf p m -> Forall (fun r => is_u32 (pr_address r)) p -> a mod 4 = 0 -> n mod 4 = 0 ->
  same_outside a n m m' ->
  patches_wf (arm_patch_forget_range p a n) m' /\
  forall b, b mod 4 = 0 ->
    (a <= b < a + n -> b <= UINTPTR_MAX -> arm_patch_original (arm_patch_forget_range p a n) b = None) /\
    (b < a \/ a + n <= b -> fetch (arm_patch_forget_range p a n) m' b = fetch p m b).
Proof.
  intros [Hok Hnd Hc] H32 Ha Hn Hout. unfold arm_patch_forget_range, is_u32 in *.
  set (e := if UINTPTR_MAX - a <? n then UINTPTR_MAX else a + n).
  set (f := fun r => (pr_address r <? a) || (e <=? pr_address r)).
  assert (He : forall b, b mod 4 = 0 -> b <= UINTPTR_MAX -> e <= b <-> a + n <= b).
  { intros b Hb Hbm. subst e. unfold UINTPTR_MAX in *. cond; bprop; mlia. }
  assert (Hload : forall b, b mod 4 = 0 -> b < a \/ a + n <= b -> load32 m' b = load32 m b).
  { intros b Hb Hd. unfold load32. rewrite (mem_load_ext m' m); [done|]. intros x Hx.
    apply Hout. unfold inside. apply not_true_iff_false. intros Ht. bprop. mlia. }
  assert (Hf : forall r, r ∈ p -> f r = true <-> pr_address r < a \/ a + n <= pr_address r).
  { intros r Hr. subst f. simpl. rewrite orb_true_iff, Z.ltb_lt, Z.leb_le.
    rewrite Forall_forall in Hok, H32. destruct (Hok r Hr) as [Hal _]. specialize (H32 r Hr).
    rewrite He; [done|done|lia]. }
  split; [split|].
  - apply Forall_forall. intros r [Hr Hfr]%list_elem_of_In%filter_In. apply list_elem_of_In in Hr.
    apply Hf in Hfr; [|done]. rewrite Forall_forall in Hok. destruct (Hok r Hr) as (H1 & H2 & H3).
    split_and!; [done..|]. by rewrite Hload.
  - by apply filter_nodup.
  - etransitivity; [apply filter_length_le|done].
  - intros b Hb. split.
    + intros Hin _. apply original_filter_out. intros r Hr <-. apply not_true_iff_false.
      rewrite Hf by done. lia.
    + intros Hd. unfold fetch. rewrite original_filter by (intros r Hr <-; by apply Hf).
      by rewrite Hload.
Qed.

(** [arm_patch_forget_range] is what makes it sound to change the memory of
    a page range: when the bytes of a word-aligned range are replaced or
    unmapped and the range forgotten, the table is consistent with the new
    memory, nothing of the range is remembered, and fetches outside it are
    unchanged; a range reaching past the top of the address space is cut
    there. *)
Theorem forget_range_correct (p : list patch_record) (m m' : gmap Z Z) (a n : Z) :
  patches_wf p m -> Forall (fun r => is_u32 (pr_address r)) p -> a mod 4 = 0 -> n mod 4 = 0 ->
  same_outside a n m m' ->
  patches_wf (arm_patch_forget_range p a n) m' /\
  forall b, b mod 4 = 0 ->
    (a <= b < a + n -> b <= UINTPTR_MAX -> arm_patch_original (arm_patch_forget_range p a n) b = None) /\
    (b < a \/ a + n <= b -> fetch (arm_patch_forget_range p a n) m' b = fetch p m b).
Proof.
  intros Hwf H32 Ha Hn Hout. exact (forget_range_spec p m m' a n Hwf H32 Ha Hn Hout).
Qed.

(** ** The sections of a mapping *)

Lemma align_patch_start_spec k address ms ps pe :
  0 <= address + (ps - ms) -> address + (pe - ms) <= UINTPTR_MAX -> ps <= pe ->
  (address + (ps - ms)) mod 4 = 0 \/ 4 - (address + (ps - ms)) mod 4 <= Z.of_nat k ->
  let s := align_patch_start k address ms ps pe in
  ps <= s <= pe /\ (s = pe \/ (address + (s - ms)) mod 4 = 0) /\
  (forall f, ps <= f < s -> (address + (f - ms)) mod 4 <> 0).
Proof.
  revert ps. induction k as [|k IH]; intros ps H0 Hmax Hle Hk; cbn [align_patch_start].
  { split_and!; [lia|done| |intros; lia]. right. destruct Hk as [Hk|Hk]; [done|mlia]. }
  unfold UINTPTR_MAX in *.
  destruct (ps <? pe) eqn:E1; bprop; simpl; [|split_and!; [lia|lia|left; lia|intros; lia]].
  rewrite u32_small by (unfold is_u32, UINTPTR_MAX; lia).
  destruct (has _ 3) eqn:E2.
  - assert (Hne : (address + (ps - ms)) mod 4 <> 0).
    { intros Hz%has_3. congruence. }
    destruct (IH (ps + 1)) as (H1 & H2 & H3); [lia|lia|lia| |].
    { destruct Hk as [Hk|Hk]; [done|]. mlia. }
    split_and!; [lia|lia|done|]. intros f Hf. destruct (Z.eq_dec f ps) as [->|]; [done|].
    apply H3. lia.
  - apply has_3 in E2. split_and!; [lia|lia|by right|intros; lia].
Qed.

(** A section whose code is patched. *)
Definition is_code (x : section_header) : bool :=
  (sh_type x =? SHT_PROGBITS) && has (sh_flags x) SHF_EXECINSTR.

Lemma land_3 x : x .& 3 = x mod 4.
Proof. change 3 with (Z.ones 2). by rewrite Z.land_ones. Qed.

(** The patched part is whole words inside the mapping, and contains every
    aligned word of a code section that the mapping shows. *)
Lemma section_patch_spec x address ms me :
  0 <= sh_offset x -> 0 <= sh_size x -> 0 <= address -> ms < me ->
  address + (me - ms) <= UINTPTR_MAX ->
  (forall ps pe, section_patch x address ms me = Some (ps, pe) ->
     ms <= ps < pe /\ pe <= me /\ (address + (ps - ms)) mod 4 = 0 /\ (pe - ps) mod 4 = 0) /\
  (forall f, is_code x = true -> sh_offset x <= f -> f + 4 <= sh_offset x + sh_size x ->
     ms <= f -> f + 4 <= me -> (address + (f - ms)) mod 4 = 0 ->
     exists ps pe, section_patch x address ms me = Some (ps, pe) /\ ps <= f /\ f + 4 <= pe).
Proof.
  intros Ho Hs Ha Hm Hmax. unfold section_patch, is_code.
  destruct (_ || _) eqn:Eskip.
  { split; [done|]. intros f [Ht Hx]%andb_true_iff ? ? ? ? ?. exfalso.
    rewrite Ht, Hx in Eskip. simpl in Eskip. blia. }
  bprop. set (ps0 := if ms <? sh_offset x then _ else _).
  set (pe0 := if _ <? me then _ else _).
  assert (Hps0 : ps0 = Z.max ms (sh_offset x)) by (subst ps0; cond; bprop; lia).
  assert (Hpe0 : pe0 = Z.min me (sh_offset x + sh_size x)) by (subst pe0; cond; bprop; lia).
  destruct (align_patch_start_spec 3 address ms ps0 pe0) as (Hr1 & Hr2 & Hr3);
    [lia|lia|lia|mlia|]. set (s := align_patch_start 3 address ms ps0 pe0) in *.
  cbv zeta in *. rewrite land_3. split.
  - intros ps pe. cond; [|done]. bprop. intros [= <- <-].
    destruct Hr2 as [->|Hr2]; [rewrite Z.sub_diag in *; simpl in *; mlia|].
    split_and!; [mlia|mlia|mlia|done|mlia].
  - intros f _ Hf1 Hf2 Hf3 Hf4 Hal.
    assert (Hsf : s <= f).
    { destruct (Z.le_gt_cases s f) as [|Hgt]; [done|]. destruct (Hr3 f); [lia|done]. }
    destruct Hr2 as [Hr2|Hr2]; [lia|].
    assert (f + 4 <= pe0 - (pe0 - s) mod 4) by (clear -Hr2 Hal Hsf Hf2 Hf4 Hpe0; mlia).
    rewrite (proj2 (Z.ltb_lt _ _)) by lia. eauto.
Qed.

Lemma patch_words_mapped n a p m r p' m' x :
  patch_words n a p m = Some (r, p', m') -> is_Some (m !! x) -> is_Some (m' !! x).
Proof.
  revert a p m. induction n as [|n IH]; intros a p m; cbn [patch_words].
  { intros Heq. by injection Heq as <- <- <-. }
  destruct (load32 m a) as [w|]; [|done]. cond; [by apply IH|]. cond.
  { intros Heq. by injection Heq as <- <- <-. }
  intros Hp Hx. eapply IH; [done|]. by apply store32_is_Some.
Qed.

Lemma arm_patch_range_mapped p m start len r p' m' a n :
  arm_patch_range p m start len = Some (r, p', m') -> mapped m a n -> mapped m' a n.
Proof.
  intros [(_ & _ & ->)|(_ & _ & _ & Hp)]%arm_patch_range_cases Hm; [done|].
  intros x Hx. eapply patch_words_mapped; [done|]. by apply Hm.
Qed.

(** What every run of the section loop guarantees, and what a complete one adds. *)
Record sections_result (sections : list section_header) (address ms me : Z)
    (p : list patch_record) (m : gmap Z Z) (r : result unit) (p' : list patch_record)
    (m' : gmap Z Z) : Prop := {
  sr_wf : patches_wf p' m';
  sr_fetch : forall a, a mod 4 = 0 -> fetch p' m' a = fetch p m a;
  sr_keep : forall a, a mod 4 = 0 -> clean m a -> clean m' a;
  sr_undo : exists new, p' = p ++ new /\ restore_patches (rev new) m' = m;
  sr_range : exists new, p' = p ++ new /\
    Forall (fun r => address <= pr_address r < address + (me - ms)) new;
  sr_wf_bytes : mem_wf m';
  sr_mapped : forall a n, mapped m a n -> mapped m' a n;
  sr_clean : r = Ok tt -> forall x f, x ∈ sections -> is_code x = true ->
    sh_offset x <= f -> f + 4 <= sh_offset x + sh_size x -> ms <= f -> f + 4 <= me ->
    (address + (f - ms)) mod 4 = 0 -> clean m' (address + (f - ms)) }.

Definition section_nonneg (x : section_header) : Prop := 0 <= sh_offset x /\ 0 <= sh_size x.

Section sections.
Context (address ms me : Z).
Hypothesis address_nonneg : 0 <= address.
Hypothesis mapping_nonempty : ms < me.
Hypothesis mapping_fits : address + (me - ms) <= UINTPTR_MAX.

Lemma patch_sections_spec sections p m :
  Forall section_nonneg sections -> patches_wf p m -> mem_wf m -> mapped m address (me - ms) ->
  exists r p' m', patch_sections sections address ms me p m = Some (r, p', m') /\
    sections_result sections address ms me p m r p' m'.
Proof.
  intros Hsec. revert p m. induction Hsec as [|x sections [Ho Hs] _ IH]; intros p m Hwf Hm Hmap.
  { exists (Ok tt), p, m. split; [done|]. split; try done; [| |set_solver];
      exists []; by rewrite app_nil_r. }
  cbn [patch_sections].
  destruct (section_patch_spec x address ms me Ho Hs address_nonneg mapping_nonempty mapping_fits)
    as [Hin Hcov].
  destruct (section_patch x address ms me) as [[ps pe]|].
  2:{ destruct (IH p m Hwf Hm Hmap) as (r & p' & m' & E & [R1 R2 R3 R4 Rr Rb Rm R5]).
      exists r, p', m'. split; [done|]. split; try done. intros Hr y f Hy Hcode ? ? ? ? ?.
      apply elem_of_cons in Hy as [->|Hy]; [|by eapply R5].
      destruct (Hcov f) as (? & ? & ? & _); done. }
  destruct (Hin ps pe eq_refl) as (Hps & Hpe & Hal & Hlen).
  rewrite u32_small by (unfold is_u32; lia).
  destruct (arm_patch_range_returns p m (address + (ps - ms)) (pe - ps)) as [[[r1 p1] m1] E1];
    [lia|intros a Ha; apply Hmap; lia|]. rewrite E1.
  destruct (arm_patch_range_inv _ _ _ _ _ _ _ Hwf Hm E1) as (Hwf1 & Hm1 & Hf1).
  destruct (arm_patch_range_undo _ _ _ _ _ _ _ Hm E1) as (new1 & -> & Hu1).
  assert (Hrg1 : Forall (fun r => address <= pr_address r < address + (me - ms)) new1).
  { destruct (arm_patch_range_range p m (address + (ps - ms)) (pe - ps) _ _ _ ltac:(lia) E1)
      as (n1 & ->%app_inv_head & Hf). eapply Forall_impl; [exact Hf|]. simpl. lia. }
  destruct (arm_patch_range_clean p m (address + (ps - ms)) (pe - ps) _ _ _ ltac:(lia) E1)
    as [Hk1 Hc1].
  destruct r1 as [[]|e].
  2:{ exists (Err e), (p ++ new1), m1. split; [done|]. split; try done; [eauto| |].
      - exists new1. by split.
      - intros a n. by apply (arm_patch_range_mapped _ _ _ _ _ _ _ a n E1). }
  destruct (IH (p ++ new1) m1 Hwf1 Hm1 (arm_patch_range_mapped _ _ _ _ _ _ _ _ _ E1 Hmap))
    as (r & p' & m' & E & [R1 R2 R3 (new & -> & Hu) (new' & Hn' & Hrg) Rb Rm R5]).
  exists r, ((p ++ new1) ++ new), m'. split; [done|]. split; try done.
  - intros a Ha. by rewrite R2, Hf1.
  - intros a Ha Hc. by apply R3, Hk1.
  - exists (new1 ++ new). rewrite app_assoc. split; [done|].
    by rewrite rev_app_distr, restore_patches_app, Hu, Hu1.
  - exists (new1 ++ new). rewrite app_assoc. split; [done|]. apply app_inv_head in Hn' as ->.
    by apply Forall_app.
  - intros a n Ha. apply Rm. by apply (arm_patch_range_mapped _ _ _ _ _ _ _ a n E1).
  - intros Hr y f Hy Hcode Hf1' Hf2 Hf3 Hf4 Hf5.
    apply elem_of_cons in Hy as [->|Hy]; [|by eapply R5].
    destruct (Hcov f) as (ps' & pe' & Heq & Hp1 & Hp2); [done..|]. injection Heq as <- <-.
    apply R3; [done|]. apply Hc1; [done|done|lia].
Qed.
End sections.

Lemma load_le_nonneg n off buf : Forall is_byte buf -> 0 <= load_le n off buf.
Proof.
  intros Hb. unfold load_le. apply le_value_range. by apply Forall_take, Forall_drop.
Qed.

Lemma load_le_bound n off buf :
  Forall is_byte buf -> load_le n off buf < 2 ^ (8 * Z.of_nat n).
Proof.
  intros Hb. unfold load_le. eapply Z.lt_le_trans.
  - apply le_value_range. by apply Forall_take, Forall_drop.
  - apply Z.pow_le_mono_r; [done|]. rewrite length_take. lia.
Qed.

Lemma elf_sections_nonneg host file fd offset len sections :
  Forall is_byte file -> elf_sections host file fd offset len = Some (Ok (Some sections)) ->
  Forall section_nonneg sections /\ 0 <= offset /\ len <> 0.
Proof.
  intros Hb. unfold elf_sections.
  destruct (_ || _) eqn:E; [done|]. bprop. repeat (case_match; try done).
  intros Heq. injection Heq as <-. split; [|lia]. unfold read_sections.
  match goal with Hr : read_exact_at (table_steps host) _ _ _ = _ |- _ =>
    apply read_exact_at_ok in Hr as [-> _] end.
  apply Forall_map, Forall_forall. intros i _.
  split; apply load_le_nonneg; repeat first [apply Forall_take|apply Forall_drop]; done.
Qed.

(** The host answers every read: enough uninterrupted calls for the header and
    for the largest possible table. *)
Definition elf_host_answers (host : elf_host) : Prop :=
  (EHDR_SIZE <= length (filter (fun x => x <> PInterrupted) (header_steps host)))%nat /\
  65535 * Z.of_nat SHDR_SIZE <=
    Z.of_nat (length (filter (fun x => x <> PInterrupted) (table_steps host))).

Lemma elf_sections_returns host file fd offset len :
  Forall is_byte file -> elf_host_answers host -> is_Some (elf_sections host file fd offset len).
Proof.
  intros Hb [Hh Ht]. unfold elf_sections. cond; [by eexists|].
  destruct (fstat_size host) as [st|]; [|by eexists]. cond; [by eexists|].
  destruct (read_exact_at_returns (header_steps host) file EHDR_SIZE 0 Hh) as [[header|e] Eh];
    rewrite Eh; [|by eexists].
  cond; [by eexists|]. cbv zeta. cond; [by eexists|]. cond; [by eexists|].
  destruct (read_exact_at_returns (table_steps host) file
    (Z.to_nat (Z.of_nat (Z.to_nat (load_le 2 48 header) * SHDR_SIZE)))
    (Z.to_nat (load_le 4 32 header))) as [[table|e] Et]; [|rewrite Et; by eexists..].
  rewrite Nat2Z.id. apply read_exact_at_ok in Eh as [-> _].
  pose proof (load_le_bound 2 48 (take EHDR_SIZE (drop 0 file))
    ltac:(by apply Forall_take, Forall_drop)) as Hnum.
  change (2 ^ (8 * Z.of_nat 2)) with 65536 in Hnum. unfold SHDR_SIZE in *. lia.
Qed.

(** What a call guarantees whatever it returns, and the code it covers. *)
Record elf_patched (host : elf_host) (file : list Z) (fd offset address len : Z)
    (p : list patch_record) (m : gmap Z Z) (r : result unit) (p' : list patch_record)
    (m' : gmap Z Z) : Prop := {
  ep_wf : patches_wf p' m';
  ep_bytes : mem_wf m';
  ep_fetch : forall a, a mod 4 = 0 -> fetch p' m' a = fetch p m a;
  ep_new : exists new, p' = p ++ new /\ restore_patches (rev new) m' = m /\
    Forall (fun r => address <= pr_address r < address + len) new;
  ep_mapped : forall a n, mapped m a n -> mapped m' a n;
  ep_clean : r = Ok tt -> forall sections x f,
    elf_sections host file fd offset len = Some (Ok (Some sections)) -> x ∈ sections ->
    is_code x = true -> sh_offset x <= f -> f + 4 <= sh_offset x + sh_size x ->
    offset <= f -> f + 4 <= offset + len -> (address + (f - offset)) mod 4 = 0 ->
    clean m' (address + (f - offset)) }.

Lemma elf_mapping_spec host file fd offset address len p m :
  Forall is_byte file -> elf_host_answers host -> 0 <= address -> 0 <= len ->
  address + len <= UINTPTR_MAX -> patches_wf p m -> mem_wf m -> mapped m address len ->
  exists r p' m', arm_patch_elf_mapping host file fd offset address len p m = Some (r, p', m') /\
    elf_patched host file fd offset address len p m r p' m'.
Proof.
  intros Hb Hans Ha Hlen Hmax Hwf Hm Hmap. unfold arm_patch_elf_mapping.
  destruct (elf_sections_returns host file fd offset len Hb Hans) as [o Eo]. rewrite Eo.
  assert (Hsame : forall r, (forall l, o <> Ok (Some l)) ->
    elf_patched host file fd offset address len p m r p m).
  { intros r Hno. split; try done; [exists []; by rewrite app_nil_r|]. rewrite Eo.
    intros _ l x f Heq. injection Heq as Heq. by apply Hno in Heq. }
  destruct o as [[sections|]|e].
  - destruct (elf_sections_nonneg _ _ _ _ _ _ Hb Eo) as (Hsec & Hoff & Hne).
    destruct (patch_sections_spec address offset (offset + len) Ha ltac:(lia) ltac:(lia)
      sections p m Hsec Hwf Hm)
      as (r & p' & m' & E & [R1 R2 _ (new & -> & Hu) (new' & Hn' & Hrg) Rb Rm R5]).
    { by replace (offset + len - offset) with len by lia. }
    exists r, (p ++ new), m'. split; [done|]. split; try done.
    + exists new. split; [done|]. split; [done|]. apply app_inv_head in Hn' as ->.
      by replace (offset + len - offset) with len in Hrg by lia.
    + rewrite Eo. intros Hr l x f Heq. injection Heq as <-. by apply R5.
  - exists (Ok tt), p, m. split; [done|]. by apply Hsame.
  - exists (Err e), p, m. split; [done|]. by apply Hsame.
Qed.

(** [arm_patch_elf_mapping] on a mapped file range always returns; the
    table and memory stay consistent, fetches are unchanged, and rolling back
    undoes it.  When it returns 0 on an ARM ELF file, every aligned word that
    the mapping shows of an executable [PROGBITS] section, whatever the
    alignment of the section and however the mapping cuts it, is free of system
    calls and TLS reads. *)
Theorem elf_mapping_patched (host : elf_host) (file : list Z) (fd offset address len : Z)
    (p : list patch_record) (m : gmap Z Z) :
  Forall is_byte file -> elf_host_answers host -> 0 <= address -> 0 <= len ->
  address + len <= UINTPTR_MAX -> patches_wf p m -> mem_wf m -> mapped m address len ->
  exists r p' m', arm_patch_elf_mapping host file fd offset address len p m = Some (r, p', m') /\
    patches_wf p' m' /\ (forall a, a mod 4 = 0 -> fetch p' m' a = fetch p m a) /\
    arm_patch_rollback p' m' (arm_patch_count p) = (p, m) /\
    (r = Ok tt -> forall sections x f,
      elf_sections host file fd offset len = Some (Ok (Some sections)) -> x ∈ sections ->
      is_code x = true -> sh_offset x <= f -> f + 4 <= sh_offset x + sh_size x ->
      offset <= f -> f + 4 <= offset + len -> (address + (f - offset)) mod 4 = 0 ->
      clean m' (address + (f - offset))).
Proof.
  intros Hb Hans Ha Hlen Hmax Hwf Hm Hmap.
  destruct (elf_mapping_spec host file fd offset address len p m Hb Hans Ha Hlen Hmax Hwf Hm Hmap)
    as (r & p' & m' & E & [E1 _ E2 (new & -> & Hu & _) _ E3]).
  exists r, (p ++ new), m'. split_and!; [done..|by apply rollback_undo|exact E3].
Qed.

(** Without a [forget] in between, the table can go stale.  When the guest
    rewrites a patched word with another instruction that needs patching and
    makes the page executable again ([linux_mprotect_runtime] calls
    [arm_patch_range] without forgetting the range first), the word is patched
    a second time but [arm_patch_original] still answers the old instruction. *)
Theorem repatch_after_rewrite_is_stale :
  exists p m a w p' m', patches_wf p m /\ mem_wf m /\ needs_patch w = true /\
    arm_patch_range p (store32 m a w) a 4 = Some (Ok tt, p', m') /\
    load32 m' a = Some ARM_UDF_TRAP /\
    fetch p (store32 m a w) a <> Some w /\ arm_patch_original p' a <> Some w.
Proof.
  set (m := store32 ∅ 0x10000 ARM_UDF_TRAP).
  assert (Hwf : mem_wf m) by (apply store32_wf, map_Forall_empty).
  assert (Hu : load32 m 0x10000 = Some ARM_UDF_TRAP) by (by apply load32_store32_eq).
  exists [Patch 0x10000 ARM_LINUX_SVC_0], m, 0x10000, ARM_TPIDRURO_READ.
  do 2 eexists. split.
  { split; [by apply Forall_singleton|apply NoDup_singleton|unfold MAX_PATCHES; simpl; lia]. }
  split; [done|]. split; [done|]. split; [vm_compute; reflexivity|].
  split; [vm_compute; reflexivity|]. by split.
Qed.

(** ** Undoing patches *)

(** The memory with the records from the [k]-th on written back: for [k = 0] the
    bytes the guest's program consists of. *)
Definition undo (k : nat) (p : list patch_record) (m : gmap Z Z) : gmap Z Z :=
  restore_patches (rev (drop k p)) m.

Lemma restore_lookup_ext l m m' x :
  m !! x = m' !! x -> restore_patches l m !! x = restore_patches l m' !! x.
Proof.
  revert m m'. induction l as [|r l IH]; intros m m' Hx; simpl; [done|].
  apply IH. unfold store32. rewrite !mem_store_lookup. by destruct (inside _ _ x).
Qed.

Lemma restore_out l m x :
  (forall r, r ∈ l -> inside (pr_address r) 4 x = false) -> restore_patches l m !! x = m !! x.
Proof.
  revert m. induction l as [|r l IH]; intros m Hr; simpl; [done|].
  rewrite IH by (intros; apply Hr; set_solver). unfold store32.
  rewrite mem_store_lookup, length_le_bytes. change (Z.of_nat 4) with 4.
  by rewrite Hr by apply list_elem_of_here.
Qed.

Lemma load32_Some_mapped m a v x :
  load32 m a = Some v -> inside a 4 x = true -> is_Some (m !! x).
Proof.
  unfold load32. destruct (mem_load m a 4) as [bs|] eqn:E; [|done]. intros _ [? ?]%inside_spec.
  apply mem_load_Some in E as [Hl Hb].
  destruct (lookup_lt_is_Some_2 bs (Z.to_nat (x - a))) as [b Hi]; [lia|].
  exists b. rewrite <- (Hb _ _ Hi). f_equal. lia.
Qed.

(** A patched word is mapped, so undoing touches no unmapped address. *)
Lemma undo_out k p m m' x : patches_wf p m -> m !! x = None -> undo k p m' !! x = m' !! x.
Proof.
  intros [Hok _ _] Hx. unfold undo. rewrite restore_out; [done|]. intros r Hr.
  apply not_true_iff_false. intros Hin.
  assert (Hp : r ∈ p).
  { apply list_elem_of_In, in_rev, list_elem_of_In in Hr. by apply (subseteq_drop k p). }
  rewrite Forall_forall in Hok. destruct (Hok r Hp) as (_ & _ & Hl).
  destruct (load32_Some_mapped _ _ _ x Hl Hin). congruence.
Qed.

Lemma undo_unmapped k p m x : patches_wf p m -> m !! x = None -> undo k p m !! x = None.
Proof. intros Hp Hx. by rewrite (undo_out k p m). Qed.

Lemma undo_all p m : undo (length p) p m = m.
Proof. unfold undo. by rewrite drop_all. Qed.

Lemma undo_app k p new m :
  (k <= length p)%nat -> undo k (p ++ new) m = undo k p (restore_patches (rev new) m).
Proof.
  intros Hk. unfold undo. rewrite drop_app_le by done.
  by rewrite rev_app_distr, restore_patches_app.
Qed.

Lemma patches_wf_ext p m m' :
  patches_wf p m -> (forall x, is_Some (m !! x) -> m' !! x = m !! x) -> patches_wf p m'.
Proof.
  intros [Hok Hnd Hc] Hx. split; [|done..]. eapply Forall_impl; [exact Hok|].
  intros r (Ha & Hn & Hl). split_and!; [done..|]. rewrite <- Hl. unfold load32.
  rewrite (mem_load_ext m' m); [done|]. intros x Hin. apply Hx.
  eapply load32_Some_mapped; [exact Hl|]. apply inside_spec. lia.
Qed.

Lemma clean_ext m m' a :
  clean m a -> (forall x, is_Some (m !! x) -> m' !! x = m !! x) -> clean m' a.
Proof.
  intros (w & Hl & Hw) Hx. exists w. split; [|done]. rewrite <- Hl. unfold load32.
  rewrite (mem_load_ext m' m); [done|]. intros x Hin. apply Hx.
  eapply load32_Some_mapped; [exact Hl|]. apply inside_spec. lia.
Qed.

(** ** Witnesses *)

Module ArmPatchExamples.

(** A system call followed by a move. *)
Definition m0 : gmap Z Z := store32 (store32 ∅ 0x10000 ARM_LINUX_SVC_0) 0x10004 0xe1a00000.

Lemma m0_wf : mem_wf m0.
Proof. apply store32_wf, store32_wf, map_Forall_empty. Qed.

Lemma m0_mapped : mapped m0 0x10000 8.
Proof.
  intros x Hx. assert (Hc : x = 0x10000 \/ x = 0x10001 \/ x = 0x10002 \/ x = 0x10003 \/
    x = 0x10004 \/ x = 0x10005 \/ x = 0x10006 \/ x = 0x10007) by lia.
  destruct Hc as [->|[->|[->|[->|[->|[->|[->| ->]]]]]]]; vm_compute; eexists; reflexivity.
Qed.

Lemma empty_patches_wf m : patches_wf [] m.
Proof. split; [constructor|constructor|simpl; lia]. Qed.

Lemma patch_range_transparent_witness :
  exists p' m', arm_patch_range [] m0 0x10000 8 = Some (Ok tt, p', m') /\ clean m' 0x10000 /\
    fetch p' m' 0x10000 = Some ARM_LINUX_SVC_0.
Proof.
  destruct (patch_range_transparent [] m0 0x10000 8 (empty_patches_wf m0) m0_wf)
    as (r & p' & m' & E & _ & Hf & Hc); [lia|exact m0_mapped|].
  exists p', m'. destruct r as [[]|e].
  - split; [exact E|]. split.
    + apply Hc; [reflexivity|reflexivity|lia].
    + rewrite Hf; [vm_compute; reflexivity|reflexivity].
  - apply (f_equal (fun o => match o with Some (Ok _, _, _) => true | _ => false end)) in E.
    vm_compute in E. discriminate.
Defined.

Lemma patch_rollback_inverse_witness :
  exists r p' m', arm_patch_range [] m0 0x10000 8 = Some (r, p', m') /\
    arm_patch_rollback p' m' 0 = ([], m0).
Proof.
  apply (patch_rollback_inverse [] m0 0x10000 8 m0_wf); [lia|exact m0_mapped].
Defined.

Definition m1 : gmap Z Z := store32 m0 0x10000 ARM_UDF_TRAP.

Lemma m1_patches_wf : patches_wf [Patch 0x10000 ARM_LINUX_SVC_0] m1.
Proof.
  split; [|apply NoDup_singleton|unfold MAX_PATCHES; simpl; lia].
  apply Forall_singleton. split; [reflexivity|]. split; [reflexivity|].
  apply load32_store32_eq. by split; vm_compute.
Qed.

Lemma forget_range_correct_witness :
  arm_patch_original (arm_patch_forget_range [Patch 0x10000 ARM_LINUX_SVC_0] 0x10000 4) 0x10000
  = None.
Proof.
  destruct (forget_range_correct [Patch 0x10000 ARM_LINUX_SVC_0] m1 m0 0x10000 4 m1_patches_wf)
    as [_ Hb].
  - apply Forall_singleton. split; vm_compute; discriminate.
  - reflexivity.
  - reflexivity.
  - intros x Hx. unfold m1. rewrite store32_lookup_out; [reflexivity|].
    unfold inside in Hx. apply andb_false_iff in Hx as [Hx|Hx]; [left|right]; lia.
  - apply Hb; [reflexivity|lia|vm_compute; discriminate].
Defined.

(** An ARM ELF file with one code section: the two words of [m0] at offset 52. *)
Definition file0 : list Z :=
  [0x7f; 0x45; 0x4c; 0x46; 1; 1] ++ replicate 10 0 ++ [2; 0; 40; 0] ++ replicate 12 0 ++
  [60; 0; 0; 0] ++ replicate 10 0 ++ [40; 0; 1; 0; 0; 0] ++
  le_bytes 4 ARM_LINUX_SVC_0 ++ le_bytes 4 0xe1a00000 ++
  [0; 0; 0; 0; 1; 0; 0; 0; 4; 0; 0; 0; 0; 0; 0; 0; 52; 0; 0; 0; 8; 0; 0; 0] ++ replicate 16 0.

Definition host0 : elf_host :=
  ElfHost (Some 100) true (replicate 52 (PTransfer 1))
    (PTransfer 40 :: replicate (Z.to_nat (65535 * 40)) (PTransfer 1)).

Lemma filter_transfers n :
  filter (fun x => x <> PInterrupted) (replicate n (PTransfer 1)) = replicate n (PTransfer 1).
Proof. induction n as [|n IH]; [done|]. simpl. rewrite filter_cons_True by done. by rewrite IH. Qed.

Lemma host0_answers : elf_host_answers host0.
Proof.
  split; unfold host0; cbn [header_steps table_steps].
  - rewrite filter_transfers, length_replicate. reflexivity.
  - rewrite filter_cons_True by done. cbn [length]. rewrite filter_transfers, length_replicate.
    unfold SHDR_SIZE. lia.
Qed.

Lemma elf_mapping_patched_witness :
  exists r p' m', arm_patch_elf_mapping host0 file0 3 52 0x10000 8 [] m0 = Some (r, p', m') /\
    patches_wf p' m' /\ arm_patch_rollback p' m' 0 = ([], m0) /\
    (r = Ok tt -> clean m' 0x10000).
Proof.
  destruct (elf_mapping_patched host0 file0 3 52 0x10000 8 [] m0)
    as (r & p' & m' & E & Hwf & _ & Hr & Hc).
  - unfold file0. repeat (apply Forall_app_2 || apply Forall_replicate || apply le_bytes_byte);
      repeat (apply Forall_cons_2 || apply Forall_nil_2); split; (discriminate || reflexivity).
  - exact host0_answers.
  - lia.
  - lia.
  - vm_compute. discriminate.
  - apply empty_patches_wf.
  - exact m0_wf.
  - exact m0_mapped.
  - exists r, p', m'. split; [exact E|]. split; [exact Hwf|]. split; [exact Hr|].
    intros Hok. apply (Hc Hok [Shdr 1 4 52 8] (Shdr 1 4 52 8) 52).
    + vm_compute. reflexivity.
    + apply list_elem_of_here.
    + reflexivity.
    + simpl. lia.
    + simpl. lia.
    + lia.
    + lia.
    + reflexivity.
Defined.

End ArmPatchExamples.
