(* ===== verification/GuestPath.v ===== *)
(** * Guest paths: [src/src/guest_path.c]

    Guest paths are normalised lexically, then symbolic links are resolved
    component by component inside the guest root, and the result is prefixed
    with the root to give a host path.  A C string is the list of its
    characters; [PATH_MAX] and the host's file system are parameters.  A buffer
    of [size] bytes holds a string of fewer than [size] characters. *)

From S2P Require Import Prelude Errno.
From Stdlib Require Import Ascii String.
From stdpp Require Import strings.
Open Scope nat_scope.

Definition cstr := list ascii.
Definition chars (s : string) : list ascii := list_ascii_of_string s.
Definition slash : ascii := "/".

(** The bytes of a string in memory, without its final zero. *)
Definition bytes_of (s : list ascii) : list Z := map (fun c => Z.of_N (N_of_ascii c)) s.

Lemma bytes_of_inj s s' : bytes_of s = bytes_of s' -> s = s'.
Proof.
  revert s'. induction s as [|c s IH]; intros [|c' s'] H; simplify_eq/=; [done|].
  f_equal; [|by apply IH].
  by rewrite <- (ascii_N_embedding c), H, ascii_N_embedding.
Qed.

#[global] Instance ascii_eq_dec : EqDecision ascii.
Proof. unfold EqDecision, Decision. apply ascii_dec. Defined.

(** What [lstat] reports of a path. *)
Inductive lstat_result : Set :=
| LstatError (e : errno)
| LstatLink
| LstatOther.

(** What [stat] reports of a path. *)
Inductive stat_result : Set :=
| StatError (e : errno)
| StatDir
| StatOther.

(** The host's file system while a path is resolved. *)
Record host_fs := HostFs {
  fs_lstat : list ascii -> lstat_result;
  fs_readlink : list ascii -> result (list ascii);
  fs_stat : list ascii -> stat_result;
  fs_realpath : list ascii -> result (list ascii) }.

(** A call returns, or writes past the end of the array [components]. *)
Inductive outcome (A : Type) : Type :=
| Returns (r : result A)
| ArrayOverflow.
Arguments Returns {A} _.
Arguments ArrayOverflow {A}.

(** The static variables of the file. *)
Record path_state := PathState { root_path : list ascii; guest_cwd : list ascii }.

Section path.
Context (PATH_MAX : nat) (fs : host_fs).

(** ** Lexical normalisation *)

(** The end of a component in the loop of [normalize_guest_path]: [word] holds
    its characters in reverse, [stack] the components so far, last first. *)
Definition push_component (word : list ascii) (stack : list (list ascii))
  : option (list (list ascii)) :=
  match word with
  | [] => Some stack
  | _ =>
    if decide (rev word = chars ".") then Some stack
    else if decide (rev word = chars "..") then Some (tail stack)
    else if (length stack =? PATH_MAX / 2)%nat then None
    else Some (rev word :: stack)
  end.

(** The loop over [combined]; [None] is a write past [components]. *)
Fixpoint scan (cursor word : list ascii) (stack : list (list ascii)) : option (list (list ascii)) :=
  match cursor with
  | [] => push_component word stack
  | c :: rest =>
    if decide (c = slash) then
      match push_component word stack with
      | Some stack => scan rest [] stack
      | None => None
      end
    else scan rest (c :: word) stack
  end.

(** The output loop: [out] is what has been written. *)
Fixpoint emit (components : list (list ascii)) (out : list ascii) (size : nat)
  : result (list ascii) :=
  match components with
  | [] => Ok out
  | c :: rest =>
    let separator := match rest with [] => [] | _ => [slash] end in
    if (size <=? length out + length c + length separator)%nat then fail_with ENAMETOOLONG
    else emit rest (out ++ c ++ separator) size
  end.

(** The contents of [combined]. *)
Definition combine (cwd path : list ascii) : list ascii :=
  match path with
  | c :: _ => if decide (c = slash) then path else cwd ++ slash :: path
  | [] => []
  end.

(** [path] is [None] for a null pointer. *)
Definition normalize_guest_path (cwd : list ascii) (path : option (list ascii)) (size : nat)
  : outcome (list ascii) :=
  match path with
  | None | Some [] => Returns (fail_with ENOENT)
  | Some path =>
    if (PATH_MAX * 2 <=? length (combine cwd path))%nat then Returns (fail_with ENAMETOOLONG)
    else match scan (combine cwd path) [] [] with
         | None => ArrayOverflow
         | Some stack =>
           if (size <? 2)%nat then Returns (fail_with ERANGE)
           else Returns (emit (rev stack) [slash] size)
         end
  end.

(** ** Devices *)

Inductive device_result : Set := NotDevice | Device (path : list ascii) | DeviceError (e : errno).

Definition resolve_guest_device (guest_path : list ascii) (host_path_size : nat) : device_result :=
  if decide (guest_path = chars "/dev/null") then
    if (host_path_size <? length (chars "/dev/null") + 1)%nat then DeviceError ENAMETOOLONG
    else Device (chars "/dev/null")
  else NotDevice.

(** ** Symbolic links *)

(** What the body of the component loop decides: the next parent, the end of
    the loop, an error, or a link to follow: the new path to normalise. *)
Inductive visit_result : Set :=
| VNext (parent : list ascii)
| VStop
| VFail (e : option errno)
| VLink (combined : list ascii).

(** The path that replaces the one being walked when [component] is a link to
    [target]; [rest] is what follows the component ([None] when it is last). *)
Definition follow_link (parent target : list ascii) (rest : option (list ascii)) : list ascii :=
  let tail := match rest with None => [] | Some r => slash :: r end in
  match target with
  | c :: _ => if decide (c = slash) then target ++ tail
              else (match parent with [] => [slash] | _ => parent end) ++ slash :: target ++ tail
  | [] => (match parent with [] => [slash] | _ => parent end) ++ slash :: target ++ tail
  end.

Definition visit (root : list ascii) (allow_missing_leaf : bool) (parent component : list ascii)
    (rest : option (list ascii)) : visit_result :=
  let last := match rest with None => true | Some _ => false end in
  let host_candidate := root ++ parent ++ slash :: component in
  if (PATH_MAX <? length component + 1)%nat then VFail (Some ENAMETOOLONG)
  else if (PATH_MAX <=? length host_candidate)%nat then VFail (Some ENAMETOOLONG)
  else match fs_lstat fs host_candidate with
  | LstatError e =>
    if allow_missing_leaf && last && bool_decide (e = ENOENT) then VStop else VFail (Some e)
  | LstatLink =>
    match fs_readlink fs host_candidate with
    | Err e => VFail e
    | Ok target => VLink (follow_link parent (take (PATH_MAX - 1) target) rest)
    end
  | LstatOther =>
    if (PATH_MAX - length parent <=? 1 + length component)%nat then VFail (Some ENAMETOOLONG)
    else VNext (parent ++ slash :: component)
  end.

(** The component loop; [word] holds the current component in reverse. *)
Fixpoint walk (root : list ascii) (allow_missing_leaf : bool) (cursor word parent : list ascii)
  : visit_result :=
  match cursor with
  | [] =>
    match word with
    | [] => VStop
    | _ => match visit root allow_missing_leaf parent (rev word) None with
           | VNext _ => VStop
           | other => other
           end
    end
  | c :: cursor =>
    if decide (c = slash) then
      match visit root allow_missing_leaf parent (rev word) (Some cursor) with
      | VNext parent => walk root allow_missing_leaf cursor [] parent
      | other => other
      end
    else walk root allow_missing_leaf cursor (c :: word) parent
  end.

(** The code from [restart]; [links_left] is [40 - link_count]. *)
Fixpoint resolve_links (st : path_state) (allow_missing_leaf : bool) (links_left : nat)
    (current : list ascii) : outcome (list ascii) :=
  match walk (root_path st) allow_missing_leaf (tail current) [] [] with
  | VNext _ | VStop => Returns (Ok current)
  | VFail e => Returns (Err e)
  | VLink combined =>
    match links_left with
    | O => Returns (fail_with ELOOP)
    | S links_left =>
      if (PATH_MAX * 2 <=? length combined)%nat then Returns (Err None)
      else match normalize_guest_path (guest_cwd st) (Some combined) PATH_MAX with
           | Returns (Ok current) => resolve_links st allow_missing_leaf links_left current
           | other => other
           end
    end
  end.

Definition resolve_guest_symlinks (st : path_state) (normalized : list ascii)
    (allow_missing_leaf : bool) (resolved_size : nat) : outcome (list ascii) :=
  if (PATH_MAX <? length normalized + 1)%nat then Returns (fail_with ENAMETOOLONG)
  else match resolve_links st allow_missing_leaf 40 normalized with
       | Returns (Ok current) =>
         if (resolved_size <? length current + 1)%nat then Returns (fail_with ENAMETOOLONG)
         else Returns (Ok current)
       | other => other
       end.

(** ** The interface of the file *)

(** Runs the continuation on the value of a call that returned 0. *)
Definition obind {A B} (o : outcome A) (k : A -> outcome B) : outcome B :=
  match o with
  | Returns (Ok x) => k x
  | Returns (Err e) => Returns (Err e)
  | ArrayOverflow => ArrayOverflow
  end.
Notation "'leto' x := o 'in' k" := (obind o (fun x => k))
  (at level 10, x name, o at level 100, k at level 200) : emu_scope.

Definition guest_path_initialize (st : path_state) (root : option (list ascii))
  : result unit * path_state :=
  match root with
  | None | Some [] => (fail_with ENOENT, st)
  | Some root =>
    match fs_realpath fs root with
    | Err e => (Err e, st)
    | Ok path => (Ok tt, PathState path (guest_cwd st))
    end
  end.

Definition guest_path_resolve (st : path_state) (path : option (list ascii))
    (allow_missing_leaf : bool) (host_path_size : nat) : outcome (list ascii) :=
  if decide (root_path st = []) then Returns (Err None)
  else leto guest_path := normalize_guest_path (guest_cwd st) path PATH_MAX in
  match resolve_guest_device guest_path host_path_size with
  | Device path => Returns (Ok path)
  | DeviceError e => Returns (fail_with e)
  | NotDevice =>
    leto resolved := resolve_guest_symlinks st guest_path allow_missing_leaf PATH_MAX in
    let candidate := root_path st ++ resolved in
    if (PATH_MAX <=? length candidate)%nat then Returns (fail_with ENAMETOOLONG)
    else if (host_path_size <? length candidate + 1)%nat then Returns (fail_with ENAMETOOLONG)
    else Returns (Ok candidate)
  end.

(** [strrchr (parent, '/')]: what precedes and what follows the last slash. *)
Fixpoint split_last (s : list ascii) : option (list ascii * list ascii) :=
  match s with
  | [] => None
  | c :: s =>
    match split_last s with
    | Some (before, after) => Some (c :: before, after)
    | None => if decide (c = slash) then Some ([], s) else None
    end
  end.

Definition guest_path_resolve_nofollow (st : path_state) (path : option (list ascii))
    (host_path_size : nat) : outcome (list ascii) :=
  if decide (root_path st = []) then Returns (Err None)
  else leto guest_path := normalize_guest_path (guest_cwd st) path PATH_MAX in
  match resolve_guest_device guest_path host_path_size with
  | Device path => Returns (Ok path)
  | DeviceError e => Returns (fail_with e)
  | NotDevice =>
    if decide (guest_path = [slash]) then
      if (host_path_size <? length (root_path st) + 1)%nat then Returns (fail_with ENAMETOOLONG)
      else Returns (Ok (root_path st))
    else
      match split_last guest_path with
      | None => Returns (Err None) (* not reached: a normalised path has a slash *)
      | Some (before, leaf) =>
        let parent := match before with [] => [slash] | _ => before end in
        leto resolved_parent := resolve_guest_symlinks st parent false PATH_MAX in
        let separator := if decide (resolved_parent = [slash]) then [] else [slash] in
        let host_path := root_path st ++ resolved_parent ++ separator ++ leaf in
        if (host_path_size <=? length host_path)%nat then Returns (fail_with ENAMETOOLONG)
        else Returns (Ok host_path)
      end
  end.

(** [strncmp (directory, root_path, root_length) == 0] and the next character
    ends a component: the directory as a guest path, or [None]. *)
Definition guest_directory (root directory : list ascii) : option (list ascii) :=
  if decide (take (length root) directory = root) then
    match drop (length root) directory with
    | [] => Some [slash]
    | c :: rest => if decide (c = slash) then Some (c :: rest) else None
    end
  else None.

Definition guest_path_resolve_at (st : path_state) (host_directory path : option (list ascii))
    (allow_missing_leaf nofollow : bool) (host_path_size : nat) : outcome (list ascii) :=
  let resolve p := if nofollow then guest_path_resolve_nofollow st (Some p) host_path_size
                   else guest_path_resolve st (Some p) allow_missing_leaf host_path_size in
  match path with
  | None | Some [] => Returns (fail_with ENOENT)
  | Some ((c :: _) as path) =>
    if decide (c = slash) then resolve path
    else match host_directory with
    | None => Returns (fail_with EBADF)
    | Some directory =>
      if decide (root_path st = []) then Returns (fail_with EBADF)
      else match guest_directory (root_path st) directory with
      | None => Returns (fail_with EACCES)
      | Some guest_dir =>
        let combined := guest_dir ++ slash :: path in
        if (PATH_MAX * 2 <=? length combined)%nat then Returns (fail_with ENAMETOOLONG)
        else resolve combined
      end
    end
  end.

(** The characters copied, without the final zero, which the return value counts. *)
Definition guest_path_getcwd (st : path_state) (size : nat) : result (list ascii * nat) :=
  let length := (List.length (guest_cwd st) + 1)%nat in
  if (size <? length)%nat then fail_with ERANGE else Ok (guest_cwd st, length).

Definition guest_path_readlink (st : path_state) (path : option (list ascii)) (size : nat)
  : outcome (list ascii) :=
  leto candidate := guest_path_resolve_nofollow st path PATH_MAX in
  match fs_readlink fs candidate with
  | Ok target => Returns (Ok (take size target))
  | Err e => Returns (Err e)
  end.

Definition guest_path_chdir (st : path_state) (path : option (list ascii))
  : outcome unit * path_state :=
  match normalize_guest_path (guest_cwd st) path PATH_MAX with
  | ArrayOverflow => (ArrayOverflow, st)
  | Returns (Err e) => (Returns (Err e), st)
  | Returns (Ok normalized) =>
    match resolve_guest_symlinks st normalized false PATH_MAX with
    | ArrayOverflow => (ArrayOverflow, st)
    | Returns (Err e) => (Returns (Err e), st)
    | Returns (Ok resolved) =>
      let host_path := root_path st ++ resolved in
      if (PATH_MAX <=? length host_path)%nat then (Returns (fail_with ENAMETOOLONG), st)
      else match fs_stat fs host_path with
      | StatError e => (Returns (fail_with e), st)
      | StatOther => (Returns (fail_with ENOTDIR), st)
      | StatDir => (Returns (Ok tt), PathState (root_path st) resolved)
      end
    end
  end.

Definition guest_path_fchdir (st : path_state) (host_path : option (list ascii))
  : outcome unit * path_state :=
  match host_path with
  | None => (Returns (fail_with EBADF), st)
  | Some host_path =>
    if decide (root_path st = []) then (Returns (fail_with EBADF), st)
    else match guest_directory (root_path st) host_path with
         | None => (Returns (fail_with EACCES), st)
         | Some path => guest_path_chdir st (Some path)
         end
  end.

End path.


(** ** Canonical paths *)

(** A component of a normalised path. *)
Definition good (c : list ascii) : Prop :=
  c <> [] /\ (slash ∉ c) /\ c <> chars "." /\ c <> chars "..".

(** Each component after a slash. *)
Definition flat (components : list (list ascii)) : list ascii :=
  concat (map (cons slash) components).
Definition path_of (components : list (list ascii)) : list ascii :=
  match components with [] => [slash] | _ => flat components end.

Definition canonical_path (s : list ascii) : Prop :=
  exists components, Forall good components /\ s = path_of components.

Lemma flat_app p q : flat (p ++ q) = flat p ++ flat q.
Proof. unfold flat. by rewrite map_app, concat_app. Qed.

Lemma flat_length components :
  Forall good components -> (2 * length components <= length (flat components))%nat.
Proof.
  induction 1 as [|c l (Hne & _) _ IH]; [done|]. unfold flat in *. simpl. rewrite length_app.
  destruct c; [done|]. simpl. lia.
Qed.

(** What [emit] writes after the initial slash. *)
Fixpoint joined (components : list (list ascii)) : list ascii :=
  match components with
  | [] => []
  | [c] => c
  | c :: rest => c ++ slash :: joined rest
  end.

Lemma joined_flat components : path_of components = slash :: joined components.
Proof.
  destruct components as [|c l]; [done|]. simpl. unfold flat. simpl. f_equal.
  revert c. induction l as [|d l IH]; intros c; simpl; [by rewrite app_nil_r|].
  f_equal. f_equal. apply (IH d).
Qed.

Lemma emit_spec components out size :
  (length out < size)%nat ->
  emit components out size =
  if (length (out ++ joined components) <? size)%nat then Ok (out ++ joined components)
  else fail_with ENAMETOOLONG.
Proof.
  revert out. induction components as [|c rest IH]; intros out Ho; simpl.
  { rewrite app_nil_r. rewrite (proj2 (Nat.ltb_lt _ _)) by done. done. }
  destruct rest as [|d rest].
  - simpl. rewrite app_nil_r, length_app, Nat.add_0_r.
    destruct (size <=? _)%nat eqn:E; bprop.
    + by rewrite (proj2 (Nat.ltb_ge _ _)) by lia.
    + by rewrite (proj2 (Nat.ltb_lt _ _)) by lia.
  - destruct (size <=? _)%nat eqn:E; bprop.
    + rewrite (proj2 (Nat.ltb_ge _ _)); [done|]. rewrite !length_app. simpl in *.
      lia.
    + rewrite IH by (rewrite !length_app; simpl in *; lia).
      by replace ((out ++ c ++ [slash]) ++ joined (d :: rest))
        with (out ++ c ++ slash :: joined (d :: rest)) by (by rewrite <- !app_assoc).
Qed.

Section lemmas.
Context (PATH_MAX : nat) (fs : host_fs).

(** ** The scanning loop *)

Lemma push_good word stack stack' :
  slash ∉ word -> Forall good stack -> push_component PATH_MAX word stack = Some stack' ->
  Forall good stack'.
Proof.
  intros Hw Hs. unfold push_component. destruct word as [|c word]; [by intros [= <-]|].
  repeat cond; [by intros [= <-]|intros [= <-]; destruct Hs; [constructor|done]|done|].
  intros [= <-]. constructor; [|done]. split_and!; try done.
  - intros Hn. by apply app_nil in Hn as [_ ?].
  - intros Hin. apply Hw. by apply list_elem_of_In, in_rev, list_elem_of_In.
Qed.

Lemma scan_good cursor word stack stack' :
  slash ∉ word -> Forall good stack -> scan PATH_MAX cursor word stack = Some stack' ->
  Forall good stack'.
Proof.
  revert word stack. induction cursor as [|c cursor IH]; intros word stack Hw Hs; simpl.
  { by apply push_good. }
  cond.
  - destruct (push_component _ word stack) as [st|] eqn:Ep; [|done].
    apply IH; [set_solver|by eapply push_good].
  - apply IH; [set_solver|done].
Qed.

(** After the leading slash, the components kept are at most half the characters read. *)
Lemma scan_overflow cursor word stack n :
  (2 * length stack + 1 + length word <= n)%nat -> scan PATH_MAX cursor word stack = None ->
  (PATH_MAX < n + length cursor)%nat.
Proof.
  assert (Hpush : forall word stack n, (2 * length stack + 1 + length word <= n)%nat ->
    match push_component PATH_MAX word stack with
    | None => (PATH_MAX < n)%nat
    | Some stack' => (2 * length stack' <= n)%nat
    end).
  { intros w st k Hk. unfold push_component. destruct w as [|c w]; [lia|].
    repeat cond; bprop; cbn [length] in *; try lia.
    - destruct st; simpl in *; lia.
    - pose proof (Nat.div_mod PATH_MAX 2). pose proof (Nat.mod_upper_bound PATH_MAX 2). lia. }
  revert word stack n. induction cursor as [|c cursor IH]; intros word stack n Hn; simpl.
  { intros He. specialize (Hpush word stack n Hn). rewrite He in Hpush. lia. }
  cond.
  - specialize (Hpush word stack n Hn). destruct (push_component _ word stack) as [st|]; [|lia].
    intros He. apply (IH _ _ (S n)) in He; simpl in *; lia.
  - intros He. apply (IH _ _ (S n)) in He; simpl in *; lia.
Qed.

(** Scanning a component without slash, then scanning a flattened path. *)
Lemma scan_word c rest word stack :
  slash ∉ c -> scan PATH_MAX (c ++ rest) word stack = scan PATH_MAX rest (rev c ++ word) stack.
Proof.
  revert word. induction c as [|x c IH]; intros word Hc; [done|]. simpl.
  rewrite decide_False by set_solver. rewrite IH by set_solver. by rewrite <- app_assoc.
Qed.

Lemma push_good_eq c stack :
  good c -> (length stack < PATH_MAX / 2)%nat ->
  push_component PATH_MAX (rev c) stack = Some (c :: stack).
Proof.
  intros (Hne & _ & H1 & H2) Hl. unfold push_component. rewrite rev_involutive.
  destruct (rev c) as [|x w] eqn:E.
  { apply (f_equal (@rev _)) in E. rewrite rev_involutive in E. done. }
  rewrite !decide_False by done. by rewrite (proj2 (Nat.eqb_neq _ _)) by lia.
Qed.

Lemma scan_flat components c stack :
  Forall good components -> good c ->
  (length stack + 1 + length components <= PATH_MAX / 2)%nat ->
  scan PATH_MAX (flat components) (rev c) stack = Some (rev components ++ c :: stack).
Proof.
  intros Hg. revert c stack. induction Hg as [|d l Hd _ IH]; intros c stack Hc Hl.
  { apply push_good_eq; [done|cbn [length] in Hl; lia]. }
  cbn [length] in Hl. unfold flat. simpl. rewrite push_good_eq by (done || lia).
  rewrite scan_word by apply Hd. rewrite app_nil_r. fold (flat l).
  rewrite IH by (done || (cbn [length]; lia)). by rewrite <- app_assoc.
Qed.

Lemma scan_path_of components :
  Forall good components -> (length components <= PATH_MAX / 2)%nat ->
  scan PATH_MAX (path_of components) [] [] = Some (rev components).
Proof.
  intros Hg Hl. destruct Hg as [|c l Hc Hg]; [done|]. simpl. unfold flat. simpl.
  rewrite scan_word by apply Hc. rewrite app_nil_r. fold (flat l).
  rewrite scan_flat by (done || (cbn [length] in *; lia)). done.
Qed.

(** ** Normalisation *)

Lemma normalize_Ok cwd path size s :
  normalize_guest_path PATH_MAX cwd path size = Returns (Ok s) ->
  exists components, Forall good components /\ s = path_of components /\ (length s < size)%nat.
Proof.
  unfold normalize_guest_path. destruct path as [[|c path]|]; [done| |done].
  cond; [done|]. destruct (scan _ _ _ _) as [stack|] eqn:Es; [|done]. cond; [done|]. bprop.
  rewrite emit_spec by (simpl; lia). cond; [|done]. bprop. intros Heq. injection Heq as <-.
  exists (rev stack). split; [|split; [by rewrite joined_flat|done]].
  apply Forall_rev. by eapply scan_good; [| |exact Es]; [set_solver|].
Qed.

(** A path whose combined form fits in [PATH_MAX] characters is safe. *)
Lemma normalize_no_overflow cwd path size :
  (forall p, path = Some p -> (length (combine cwd p) <= PATH_MAX)%nat /\
     exists r, combine cwd p = slash :: r) ->
  normalize_guest_path PATH_MAX cwd path size <> ArrayOverflow.
Proof.
  unfold normalize_guest_path. destruct path as [[|c path]|]; [done| |done]. intros Hp.
  destruct (Hp _ eq_refl) as [Hlen [r Hr]].
  cond; [done|]. destruct (scan _ _ _ _) as [stack|] eqn:Es; [cond; done|].
  exfalso. rewrite Hr in Es, Hlen. simpl in Es, Hlen.
  apply (scan_overflow r [] [] 1) in Es; simpl in *; lia.
Qed.

Lemma path_of_slash components : exists r, path_of components = slash :: r.
Proof. rewrite joined_flat. eauto. Qed.

Lemma combine_slash cwd p :
  (exists r, cwd = slash :: r) -> p <> [] -> exists r, combine cwd p = slash :: r.
Proof.
  intros [r ->] Hp. destruct p as [|c p]; [done|]. simpl. cond; [subst; eauto|]. eauto.
Qed.

Lemma normalize_nonempty cwd p size :
  p <> [] -> normalize_guest_path PATH_MAX cwd (Some p) size =
  if (PATH_MAX * 2 <=? length (combine cwd p))%nat then Returns (fail_with ENAMETOOLONG)
  else match scan PATH_MAX (combine cwd p) [] [] with
       | None => ArrayOverflow
       | Some stack => if (size <? 2)%nat then Returns (fail_with ERANGE)
                       else Returns (emit (rev stack) [slash] size)
       end.
Proof. by destruct p. Qed.

Lemma normalize_canonical_id cwd size components :
  Forall good components -> (length (path_of components) < size)%nat -> (size <= PATH_MAX)%nat ->
  normalize_guest_path PATH_MAX cwd (Some (path_of components)) size =
  Returns (Ok (path_of components)).
Proof.
  intros Hg Hlen Hsize. destruct (path_of_slash components) as [r Hr].
  assert (Hc : combine cwd (path_of components) = path_of components) by (by rewrite Hr).
  assert (Hcount : (length components <= PATH_MAX / 2)%nat).
  { apply Nat.div_le_lower_bound; [done|]. pose proof (flat_length _ Hg).
    destruct components; simpl in *; lia. }
  rewrite normalize_nonempty by (by rewrite Hr). rewrite Hc.
  rewrite (proj2 (Nat.leb_gt _ _)) by lia. rewrite scan_path_of by done.
  rewrite (proj2 (Nat.ltb_ge size 2)) by (rewrite Hr in Hlen; simpl in Hlen; lia).
  rewrite rev_involutive, emit_spec by (simpl; rewrite Hr in Hlen; simpl in Hlen; lia).
  replace ([slash] ++ joined components) with (path_of components) by apply joined_flat.
  by rewrite (proj2 (Nat.ltb_lt _ _) Hlen).
Qed.

(** One component too many. *)
Lemma scan_too_many k stack :
  (length stack + k = PATH_MAX / 2)%nat ->
  scan PATH_MAX (flat (replicate k (chars "a"))) (chars "a") stack = None.
Proof.
  assert (Ha : good (chars "a")) by (split_and!; try done; set_solver).
  revert stack. induction k as [|k IH]; intros stack Hk.
  { cbn -[Nat.div]. rewrite (proj2 (Nat.eqb_eq _ _)) by lia. done. }
  unfold flat. cbn [replicate map concat app scan]. rewrite decide_True by done.
  pose proof (push_good_eq (chars "a") stack Ha ltac:(lia)) as Hp.
  change (rev (chars "a")) with (chars "a") in Hp. rewrite Hp. rewrite scan_word by apply Ha.
  apply IH. cbn [length]. lia.
Qed.

End lemmas.

(** A normalised guest path is canonical: it starts with a slash, fits its
    buffer, and its components are non-empty, contain no slash and are neither
    [.] nor [..]; and normalising it again, from any working directory, gives
    it back. *)
Theorem normalize_canonical (PATH_MAX : nat) (cwd : list ascii) (path : option (list ascii))
    (size : nat) (s : list ascii) :
  (size <= PATH_MAX)%nat -> normalize_guest_path PATH_MAX cwd path size = Returns (Ok s) ->
  canonical_path s /\ (length s < size)%nat /\
  forall cwd', normalize_guest_path PATH_MAX cwd' (Some s) size = Returns (Ok s).
Proof.
  intros Hsize (comps & Hg & -> & Hlen)%normalize_Ok. split; [by exists comps|]. split; [done|].
  intros cwd'. by apply normalize_canonical_id.
Qed.

(** C33: the array of components is large enough for every combined path of at
    most [PATH_MAX] characters, and for no longer bound: [PATH_MAX / 2 + 1]
    one-letter components, a path of at most [PATH_MAX + 2] characters that the
    length check ([PATH_MAX * 2]) accepts, are written past its end. *)
Theorem normalize_array_bound (PATH_MAX : nat) (cwd : list ascii) :
  (3 <= PATH_MAX)%nat -> canonical_path cwd ->
  (forall path size, (length (combine cwd path) <= PATH_MAX)%nat ->
     normalize_guest_path PATH_MAX cwd (Some path) size <> ArrayOverflow) /\
  exists path, (length path <= PATH_MAX + 2)%nat /\ (length path < PATH_MAX * 2)%nat /\
    forall size, normalize_guest_path PATH_MAX cwd (Some path) size = ArrayOverflow.
Proof.
  intros Hmax (comps & _ & ->). split.
  - intros path size Hlen. destruct path as [|c path]; [done|]. apply normalize_no_overflow.
    intros p [= <-]. split; [done|]. apply combine_slash; [apply path_of_slash|done].
  - exists (flat (replicate (S (PATH_MAX / 2)) (chars "a"))).
    assert (Hlen : forall n, length (flat (replicate n (chars "a"))) = (2 * n)%nat).
    { induction n as [|n IH]; [done|]. unfold flat in *. cbn [replicate map concat].
      rewrite length_app, IH. simpl. lia. }
    pose proof (Nat.div_mod PATH_MAX 2). pose proof (Nat.mod_upper_bound PATH_MAX 2).
    rewrite Hlen. split; [lia|]. split; [lia|]. intros size.
    set (p := flat _). assert (Hp : exists r, p = slash :: r) by (by eexists).
    rewrite normalize_nonempty by (by destruct Hp as [r ->]).
    replace (combine (path_of comps) p) with p by (by destruct Hp as [r ->]).
    rewrite (proj2 (Nat.leb_gt _ _)) by (subst p; rewrite Hlen; lia).
    subst p. change (scan PATH_MAX (flat (replicate (S (PATH_MAX / 2)) (chars "a"))) [] [])
      with (scan PATH_MAX (flat (replicate (PATH_MAX / 2) (chars "a"))) (chars "a") []).
    by rewrite scan_too_many.
Qed.

(** ** Symbolic links *)

Section links.
Context (PATH_MAX : nat) (fs : host_fs).

(** No prefix of the path is a symbolic link of the host; the path exists, but
    for its last component when [missing] allows it. *)
Definition no_links (root : list ascii) (missing : bool) (components : list (list ascii)) : Prop :=
  forall i, (i < length components)%nat ->
    fs_lstat fs (root ++ flat (take (S i) components)) = LstatOther \/
    (missing = true /\ S i = length components /\
     fs_lstat fs (root ++ flat (take (S i) components)) = LstatError ENOENT).

Lemma visit_next root missing parent c rest parent' :
  visit PATH_MAX fs root missing parent c rest = VNext parent' ->
  parent' = parent ++ slash :: c /\ fs_lstat fs (root ++ parent ++ slash :: c) = LstatOther.
Proof. unfold visit. repeat case_match; try done. by intros [= <-]. Qed.

Lemma visit_stop root missing parent c rest :
  visit PATH_MAX fs root missing parent c rest = VStop ->
  missing = true /\ rest = None /\ fs_lstat fs (root ++ parent ++ slash :: c) = LstatError ENOENT.
Proof.
  unfold visit. repeat case_match; try done; bprop; simplify_eq/=.
  intros _. split_and!; [done|done|]. by match goal with H : bool_decide _ = true |- _ =>
    apply bool_decide_eq_true in H as <- end.
Qed.

Lemma walk_word root missing c rest word parent :
  slash ∉ c ->
  walk PATH_MAX fs root missing (c ++ rest) word parent =
  walk PATH_MAX fs root missing rest (rev c ++ word) parent.
Proof.
  revert word. induction c as [|x c IH]; intros word Hc; [done|]. simpl.
  rewrite decide_False by set_solver. rewrite IH by set_solver. by rewrite <- app_assoc.
Qed.

Lemma walk_not_next root missing cursor word parent parent' :
  walk PATH_MAX fs root missing cursor word parent <> VNext parent'.
Proof.
  revert word parent. induction cursor as [|c cursor IH]; intros word parent; simpl.
  - destruct word; [done|]. by case_match.
  - cond; [|apply IH]. case_match; done || apply IH.
Qed.

(** A walk that ends normally has met no link. *)
Lemma walk_stop root missing done components :
  Forall good components ->
  walk PATH_MAX fs root missing (joined components) [] (flat done) = VStop ->
  forall i, (i < length components)%nat ->
    fs_lstat fs (root ++ flat (done ++ take (S i) components)) = LstatOther \/
    (missing = true /\ S i = length components /\
     fs_lstat fs (root ++ flat (done ++ take (S i) components)) = LstatError ENOENT).
Proof.
  intros Hg. revert done. induction Hg as [|c rest Hc Hg IH]; intros done Hw i Hi; [simpl in Hi; lia|].
  assert (Hone : flat done ++ slash :: c = flat (done ++ [c]))
    by (rewrite flat_app; unfold flat; simpl; by rewrite app_nil_r).
  destruct rest as [|d rest].
  - assert (i = 0)%nat as -> by (simpl in Hi; lia). cbn [take joined] in *.
    rewrite <- (app_nil_r c) in Hw. rewrite walk_word in Hw by apply Hc. rewrite app_nil_r in Hw.
    cbn [walk] in Hw. destruct (rev c) as [|x w] eqn:Er.
    { destruct Hc as [Hne _]. destruct Hne. rewrite <- (rev_involutive c), Er. done. }
    rewrite <- Er, rev_involutive in Hw. rewrite <- Hone.
    destruct (visit _ _ _ _ _ _ _) eqn:Ev; try done.
    + left. by apply visit_next in Ev as [_ ?].
    + right. apply visit_stop in Ev as (? & _ & ?). done.
  - change (joined (c :: d :: rest)) with (c ++ slash :: joined (d :: rest)) in Hw.
    rewrite walk_word in Hw by apply Hc. rewrite app_nil_r in Hw. cbn [walk] in Hw.
    rewrite decide_True, rev_involutive in Hw by done.
    destruct (visit _ _ _ _ _ _ _) eqn:Ev; try done.
    2:{ by apply visit_stop in Ev as (_ & ? & _). }
    apply visit_next in Ev as [-> Hl]. rewrite Hone in Hw, Hl. destruct i as [|i].
    { left. exact Hl. }
    destruct (IH (done ++ [c]) Hw i) as [Hi'|(? & ? & Hi')]; [simpl in *; lia|left|right];
      rewrite <- app_assoc in Hi'; [exact Hi'|]. split_and!; [done|simpl in *; lia|exact Hi'].
Qed.

(** A resolved path is canonical and free of links. *)
Lemma resolve_links_Ok st missing n current s components :
  Forall good components -> current = path_of components -> (length current < PATH_MAX)%nat ->
  resolve_links PATH_MAX fs st missing n current = Returns (Ok s) ->
  exists comps, Forall good comps /\ s = path_of comps /\ (length s < PATH_MAX)%nat /\
    no_links (root_path st) missing comps.
Proof.
  revert current components. induction n as [|n IH]; intros current comps Hg -> Hlen;
    cbn [resolve_links]; rewrite joined_flat; cbn [tail];
    destruct (walk _ _ _ _ _ _ _) as [p| |e|combined] eqn:Ew;
    try (by apply walk_not_next in Ew); try done.
  1,2: intros Heq; injection Heq as <-; exists comps; rewrite <- joined_flat; split_and!; try done;
    intros i Hi; exact (walk_stop _ _ [] comps Hg Ew i Hi).
  cond; [done|]. destruct (normalize_guest_path _ _ _ _) as [[cur|e]|] eqn:En; try done.
  apply normalize_Ok in En as (comps' & Hg' & -> & Hl'). by apply IH with comps'.
Qed.

Lemma resolve_symlinks_Ok st normalized missing size s :
  canonical_path normalized ->
  resolve_guest_symlinks PATH_MAX fs st normalized missing size = Returns (Ok s) ->
  exists comps, Forall good comps /\ s = path_of comps /\ (length s < PATH_MAX)%nat /\
    no_links (root_path st) missing comps.
Proof.
  intros (comps & Hg & Hn). unfold resolve_guest_symlinks. cond; [done|]. bprop.
  destruct (resolve_links _ _ _ _ _ _) as [[cur|]|] eqn:Er; try done. cond; [done|].
  intros Heq. injection Heq as <-. eapply resolve_links_Ok; [exact Hg|exact Hn|lia|exact Er].
Qed.

(** ** Containment *)

Lemma split_last_none s : slash ∉ s -> split_last s = None.
Proof.
  induction s as [|c s IH]; intros Hs; [done|]. simpl. rewrite IH by set_solver.
  by rewrite decide_False by set_solver.
Qed.

Lemma split_last_app a b : slash ∉ b -> split_last (a ++ slash :: b) = Some (a, b).
Proof.
  intros Hb. induction a as [|c a IH]; simpl; [by rewrite split_last_none|]. by rewrite IH.
Qed.

Lemma path_of_snoc l c : path_of (l ++ [c]) = flat l ++ slash :: c.
Proof.
  destruct l as [|d l]; [unfold path_of, flat; simpl; by rewrite app_nil_r|].
  change (path_of ((d :: l) ++ [c])) with (flat ((d :: l) ++ [c])). rewrite flat_app.
  unfold flat at 2. simpl. by rewrite app_nil_r.
Qed.

Lemma path_of_parent l : match flat l with [] => [slash] | _ => flat l end = path_of l.
Proof. by destruct l. Qed.

Lemma path_of_root l : Forall good l -> path_of l = [slash] <-> l = [].
Proof.
  intros Hg. split; [|by intros ->]. destruct Hg as [|c l (Hne & _) _]; [done|].
  unfold path_of, flat. simpl. intros Heq. by destruct c.
Qed.

(** What a resolved host path can be: the null device, the root, or a canonical
    path below the root of which no prefix is a symbolic link ([nofollow]: no
    proper prefix), so that the host finds it without leaving the root. *)
Definition contained (root : list ascii) (missing nofollow : bool) (h : list ascii) : Prop :=
  h = chars "/dev/null" \/ (nofollow = true /\ h = root) \/
  exists comps, Forall good comps /\ h = root ++ path_of comps /\
    if nofollow then no_links root false (take (length comps - 1) comps)
    else no_links root missing comps.

Lemma device_cases g size h :
  resolve_guest_device g size = Device h -> h = chars "/dev/null" /\ (length h < size)%nat.
Proof.
  unfold resolve_guest_device. cond; [|done]. cond; [done|]. intros [= <-]. bprop.
  split; [done|]. simpl in *. lia.
Qed.

Lemma resolve_contained st path missing size h :
  guest_path_resolve PATH_MAX fs st path missing size = Returns (Ok h) ->
  contained (root_path st) missing false h /\ (length h < size)%nat.
Proof.
  unfold guest_path_resolve. cond; [done|].
  destruct (normalize_guest_path _ _ _ _) as [[g|]|] eqn:En; try done. cbn [obind].
  destruct (resolve_guest_device g size) eqn:Ed; try done.
  2:{ intros Heq. injection Heq as <-. apply device_cases in Ed as [-> ?]. split; [by left|done]. }
  apply normalize_Ok in En as (comps & Hg & -> & _).
  destruct (resolve_guest_symlinks _ _ _ _ _ _) as [[s|]|] eqn:Er; try done. cbn [obind].
  cbv zeta. repeat (cond; [done|]). intros Heq. injection Heq as <-. bprop. split; [|lia].
  apply resolve_symlinks_Ok in Er as (comps' & Hg' & -> & _ & Hn); [|by exists comps].
  right. right. by exists comps'.
Qed.

Lemma resolve_nofollow_contained st path missing size h :
  guest_path_resolve_nofollow PATH_MAX fs st path size = Returns (Ok h) ->
  contained (root_path st) missing true h /\ (length h < size)%nat.
Proof.
  unfold guest_path_resolve_nofollow. cond; [done|].
  destruct (normalize_guest_path _ _ _ _) as [[g|]|] eqn:En; try done. cbn [obind].
  destruct (resolve_guest_device g size) eqn:Ed; try done.
  2:{ intros Heq. injection Heq as <-. apply device_cases in Ed as [-> ?]. split; [by left|done]. }
  cond.
  { cond; [done|]. intros Heq. injection Heq as <-. bprop. split; [right; by left|lia]. }
  apply normalize_Ok in En as (comps & Hg & -> & _).
  destruct comps as [|leaf init _] using rev_ind; [done|].
  apply Forall_app in Hg as [Hgi Hgl]. rewrite Forall_singleton in Hgl.
  rewrite path_of_snoc, split_last_app by apply Hgl. rewrite path_of_parent.
  destruct (resolve_guest_symlinks _ _ _ _ _ _) as [[s|]|] eqn:Er; try done. cbn [obind].
  cbv zeta. destruct (size <=? _)%nat eqn:El; [done|]. intros Heq. injection Heq as <-. bprop.
  split; [|done]. apply resolve_symlinks_Ok in Er as (pc & Hg' & -> & _ & Hn); [|by exists init].
  right. right. exists (pc ++ [leaf]).
  split; [apply Forall_app; by split; [|apply Forall_singleton]|]. split.
  - f_equal. rewrite path_of_snoc. case_decide as Hs.
    + apply path_of_root in Hs as ->; done.
    + destruct pc; [done|]. done.
  - rewrite length_app. simpl. replace (length pc + 1 - 1)%nat with (length pc) by lia.
    by rewrite take_app_length.
Qed.

End links.

Lemma resolve_at_spec (PATH_MAX : nat) (fs : host_fs) (st : path_state)
    (host_directory path : option (list ascii)) (missing nofollow : bool) (size : nat)
    (h : list ascii) :
  guest_path_resolve_at PATH_MAX fs st host_directory path missing nofollow size =
    Returns (Ok h) ->
  contained fs (root_path st) missing nofollow h /\ (length h < size)%nat.
Proof.
  assert (Hres : forall p, (if nofollow then guest_path_resolve_nofollow PATH_MAX fs st (Some p) size
    else guest_path_resolve PATH_MAX fs st (Some p) missing size) = Returns (Ok h) ->
    contained fs (root_path st) missing nofollow h /\ (length h < size)%nat).
  { intros p. destruct nofollow; [apply resolve_nofollow_contained|apply resolve_contained]. }
  unfold guest_path_resolve_at. destruct path as [[|c path]|]; [done| |done].
  repeat (case_match; try done); apply Hres.
Qed.

(** C15: guest paths cannot leave the root.  Whatever the path, the directory it
    is relative to and the flags, when [guest_path_resolve_at] succeeds the
    host path fits its buffer and is the null device, the root itself, or the
    root followed by a canonical path (no [.] or [..]) none of whose prefixes
    is a symbolic link; with [nofollow], none of its proper prefixes.  All
    components exist, but for the last when the caller allows it. *)
Theorem resolve_at_contained (PATH_MAX : nat) (fs : host_fs) (st : path_state)
    (host_directory path : option (list ascii)) (missing nofollow : bool) (size : nat)
    (h : list ascii) :
  guest_path_resolve_at PATH_MAX fs st host_directory path missing nofollow size =
    Returns (Ok h) ->
  contained fs (root_path st) missing nofollow h /\ (length h < size)%nat.
Proof. apply resolve_at_spec. Qed.

(** Changing directory keeps the working directory canonical.  On success
    it is a canonical path below the root, free of symbolic links, that the
    host reports as a directory; on failure nothing changes. *)
Theorem chdir_correct (PATH_MAX : nat) (fs : host_fs) (st : path_state)
    (path : option (list ascii)) :
  match guest_path_chdir PATH_MAX fs st path with
  | (Returns (Ok _), st') => root_path st' = root_path st /\
      exists comps, Forall good comps /\ guest_cwd st' = path_of comps /\
        no_links fs (root_path st) false comps /\
        fs_stat fs (root_path st ++ guest_cwd st') = StatDir
  | (_, st') => st' = st
  end.
Proof.
  unfold guest_path_chdir.
  destruct (normalize_guest_path _ _ _ _) as [[g|]|] eqn:En; try done.
  apply normalize_Ok in En as (comps & Hg & -> & _).
  destruct (resolve_guest_symlinks _ _ _ _ _ _) as [[s|]|] eqn:Er; try done.
  apply resolve_symlinks_Ok in Er as (comps' & Hg' & -> & _ & Hn); [|by exists comps].
  cbv zeta. cond; [done|]. destruct (fs_stat _ _) eqn:Es; try done.
  split; [done|]. exists comps'. done.
Qed.

(** ** Witnesses *)

Module GuestPathExamples.

(** [/r/l] is a link to [../../a/b]; everything else is a directory. *)
Definition fs0 : host_fs := HostFs
  (fun p => if decide (p = chars "/r/l") then LstatLink else LstatOther)
  (fun p => Ok (chars "../../a/b"))
  (fun p => StatDir)
  (fun p => Ok p).
Definition st0 : path_state := PathState (chars "/r") (chars "/").

Example link_stays_inside :
  guest_path_resolve_at 64 fs0 st0 (Some (chars "/r")) (Some (chars "l/./c")) false false 64
  = Returns (Ok (chars "/r/a/b/c")).
Proof. vm_compute. reflexivity. Qed.

(** A link to itself is given up after 40 links. *)
Example self_link :
  guest_path_resolve 64
    (HostFs (fun p => LstatLink) (fun p => Ok (chars "/l")) (fun p => StatDir) (fun p => Ok p))
    st0 (Some (chars "l")) false 64 = Returns (fail_with ELOOP).
Proof. vm_compute. reflexivity. Qed.

Lemma normalize_canonical_witness :
  canonical_path (chars "/a/c") /\
  normalize_guest_path 64 (chars "/z") (Some (chars "/a/c")) 64 = Returns (Ok (chars "/a/c")).
Proof.
  destruct (normalize_canonical 64 (chars "/a") (Some (chars "b/..//./c")) 64 (chars "/a/c"))
    as (H1 & _ & H2).
  - lia.
  - vm_compute. reflexivity.
  - split; [exact H1|apply H2].
Defined.

Lemma normalize_array_bound_witness :
  exists path, (length path <= 10)%nat /\
    normalize_guest_path 8 (chars "/") (Some path) 8 = ArrayOverflow.
Proof.
  destruct (normalize_array_bound 8 (chars "/")) as [_ (path & Hl & _ & Ho)].
  - lia.
  - exists []. split; [constructor|reflexivity].
  - exists path. split; [exact Hl|apply Ho].
Defined.

Lemma resolve_at_contained_witness : contained fs0 (chars "/r") false false (chars "/r/a/b/c").
Proof.
  destruct (resolve_at_contained 64 fs0 st0 (Some (chars "/r")) (Some (chars "l/./c")) false false 64
    (chars "/r/a/b/c")) as [H _].
  - vm_compute. reflexivity.
  - exact H.
Defined.

End GuestPathExamples.
