(* ===== verification/HostCalls.v ===== *)
(** * Calls of the host: programs as trees of host calls

    The system call handlers of [src/src/linux_syscall.c] and
    [src/src/linux_socket.c] are sequences of host calls with the code's own
    decisions between them.  A handler is a finite tree ([io]): it returns, stops
    with a fault, or makes a host call and goes on with the answer.  What the host
    may answer, and how a call changes the host's table of descriptors, is the
    relation [host_step]: the documented behaviour of the descriptor calls and no
    promise about anything else. *)

From Stdlib Require Import Ascii String.
From S2P Require Import Prelude Errno Bytes Abi GuestPath.
Open Scope Z_scope.

(** ** Data of the calls *)

(** An entry of a directory; [d_offset] is what [telldir] answers after it. *)
Record dirent := Dirent { d_ino : Z; d_name : list ascii; d_offset : Z }.

(** A [DIR]: its own descriptor and the entries not read yet. *)
Record stream := Stream { ds_fd : Z; ds_left : list dirent }.

(** The members of the host's [struct flock] the code uses. *)
Inductive lock_type : Set := F_RDLCK | F_WRLCK | F_UNLCK.
Inductive lock_command : Set := F_GETLK | F_SETLK | F_SETLKW.
Record flock := Flock { l_type : lock_type; l_whence : Z; l_start : Z; l_len : Z; l_pid : Z }.

#[export] Instance lock_type_eq_dec : EqDecision lock_type.
Proof. solve_decision. Defined.
#[export] Instance dirent_eq_dec : EqDecision dirent.
Proof. solve_decision. Defined.
#[export] Instance stream_eq_dec : EqDecision stream.
Proof. solve_decision. Defined.

(** Address families, and the socket options the emulator translates (each stands
    for its level and its name). *)
Inductive domain : Set := AF_UNIX | AF_INET | AF_INET6.
Inductive socket_option_name : Set :=
| SO_DEBUG | SO_REUSEADDR | SO_TYPE | SO_ERROR | SO_DONTROUTE | SO_BROADCAST | SO_SNDBUF | SO_RCVBUF
| SO_KEEPALIVE | SO_OOBINLINE | SO_LINGER | SO_REUSEPORT | SO_RCVLOWAT | SO_SNDLOWAT | SO_RCVTIMEO
| SO_SNDTIMEO | SO_ACCEPTCONN
| IP_TOS | IP_TTL | IP_HDRINCL | IP_OPTIONS | IP_MULTICAST_IF | IP_MULTICAST_TTL | IP_MULTICAST_LOOP
| IP_ADD_MEMBERSHIP | IP_DROP_MEMBERSHIP
| TCP_NODELAY | TCP_MAXSEG | TCP_KEEPALIVE.

(** A [struct sockaddr_storage], byte by byte, and the length the host gives it. *)
Record sockaddr := Sockaddr { sa_bytes : list Z; sa_length : Z }.

(** What [recvmsg] answers: its value, the bytes it has put into the vectors (at
    the guest's addresses), [msg_name] with [msg_namelen], and [msg_flags]. *)
Record received := Received {
  rm_count : Z; rm_writes : list (Z * list Z); rm_name : sockaddr; rm_flags : Z }.

(** The numbers a process can ask for that no call can refuse. *)
Inductive identity : Set :=
| ProcessId | ParentId | ProcessGroup | UserId | GroupId | EffectiveUserId | EffectiveGroupId.

(** The host's [RLIMIT_*]. *)
Inductive resource : Set :=
| RLIMIT_CPU | RLIMIT_FSIZE | RLIMIT_DATA | RLIMIT_STACK | RLIMIT_CORE | RLIMIT_RSS | RLIMIT_NPROC
| RLIMIT_NOFILE | RLIMIT_AS.

(** The members of [struct statvfs] the code uses. *)
Record statvfs := Statvfs {
  f_bsize : Z; f_frsize : Z; f_blocks : Z; f_bfree : Z; f_bavail : Z; f_files : Z; f_ffree : Z;
  f_flag : Z; f_namemax : Z }.

#[export] Instance resource_eq_dec : EqDecision resource.
Proof. solve_decision. Defined.
#[export] Instance domain_eq_dec : EqDecision domain.
Proof. solve_decision. Defined.
#[export] Instance socket_option_name_eq_dec : EqDecision socket_option_name.
Proof. solve_decision. Defined.

(** A host call and the type of its answer.  The bytes of a [Write] are those at
    the guest's pointer, [None] when they are not all mapped (the host then
    answers as it likes).  An answer [inl e] or [Some e] is the
    return value -1 with [errno = e]. *)
Inductive host_call : Set -> Set :=
| Open (path : list ascii) (flags mode : Z) : host_call (errno + Z)
| Close (fd : Z) : host_call (option errno)
| Pipe : host_call (errno + Z * Z)
| DupFd (fd minimum : Z) : host_call (errno + Z)
| Dup (fd : Z) : host_call (errno + Z)
| Dup2 (source destination : Z) : host_call (errno + Z)
| GetFd (fd : Z) : host_call (errno + Z)
| SetFd (fd : Z) (cloexec : bool) : host_call (option errno)
| GetFl (fd : Z) : host_call (errno + Z)
| SetFl (fd flags : Z) : host_call (option errno)
| Lock (fd : Z) (command : lock_command) (lock : flock) : host_call (errno + flock)
| Opendir (path : list ascii) : host_call (errno + stream)
| Closedir (directory : stream) : host_call unit
| ReaddirEnd (directory : stream) : host_call (option errno)
| Strdup (text : list ascii) : host_call (option (list ascii))
| Malloc (size : Z) : host_call bool
| Read (fd length : Z) : host_call (errno + list Z)
| Write (fd length : Z) (bytes : option (list Z)) : host_call (errno + Z)
| Stat (path : list ascii) : host_call (errno + host_stat)
| Lstat (path : list ascii) : host_call (errno + host_stat)
| Mkdir (path : list ascii) (mode : Z) : host_call (option errno)
| Rmdir (path : list ascii) : host_call (option errno)
| Unlink (path : list ascii) : host_call (option errno)
| Rename (old new : list ascii) : host_call (option errno)
| Access (path : list ascii) (mode : Z) : host_call (option errno)
| Link (old new : list ascii) : host_call (option errno)
| Symlink (target path : list ascii) : host_call (option errno)
| Chmod (path : list ascii) (mode : Z) : host_call (option errno)
| Utime (path : list ascii) (times : option (Z * Z)) : host_call (option errno)
| Readlink (path : list ascii) (size : Z) : host_call (errno + list ascii)
| CurrentTime : host_call (errno + Z)
| Socket (family : domain) (type protocol : Z) : host_call (errno + Z)
| Socketpair (family : domain) (type protocol : Z) : host_call (errno + Z * Z)
| Bind (fd : Z) (address : sockaddr) : host_call (option errno)
| Connect (fd : Z) (address : sockaddr) : host_call (option errno)
| Getsockname (fd : Z) : host_call (errno + sockaddr)
| Getpeername (fd : Z) : host_call (errno + sockaddr)
| Listen (fd backlog : Z) : host_call (option errno)
| Shutdown (fd how : Z) : host_call (option errno)
| Accept (fd : Z) (address_wanted : bool) : host_call (errno + Z * sockaddr)
| Send (fd length flags : Z) (bytes : option (list Z)) : host_call (errno + Z)
| Sendto (fd length flags : Z) (bytes : option (list Z)) (address : sockaddr) : host_call (errno + Z)
| Recv (fd length flags : Z) : host_call (errno + list Z)
| Recvfrom (fd length flags : Z) (address_wanted : bool) : host_call (errno + list Z * sockaddr)
| Setsockopt (fd : Z) (name : socket_option_name) (value : option (list Z)) (length : Z)
  : host_call (option errno)
| Getsockopt (fd : Z) (name : socket_option_name) (length : Z) : host_call (errno + list Z * Z)
| Sendmsg (fd flags vectors count : Z) (name : option sockaddr) : host_call (errno + Z)
| Recvmsg (fd flags vectors count : Z) (name_wanted : bool) : host_call (errno + received)
| Identity (who : identity) : host_call Z
| Umask (mode : Z) : host_call Z
| Getpgid (process : Z) : host_call (errno + Z)
| Setpgid (process group : Z) : host_call (option errno)
| Setsid : host_call (errno + Z)
| Setuid (user : Z) : host_call (option errno)
| Setgid (group : Z) : host_call (option errno)
| Getrlimit (what : resource) : host_call (errno + Z * Z)
| Setrlimit (what : resource) (current maximum : Z) : host_call (option errno)
| Fork : host_call (errno + Z)
| Waitpid (process options : Z) : host_call (errno + Z * Z)
| ChildrenUsage : host_call (errno + host_rusage)
| Uname : host_call (errno + list ascii)
| Kill (process signal : Z) : host_call (option errno)
| Pread (fd length offset : Z) : host_call (errno + list Z)
| Pwrite (fd length offset : Z) (bytes : option (list Z)) : host_call (errno + Z)
| Readv (fd vectors count : Z) : host_call (errno + Z * list (Z * list Z))
| Fsync (fd : Z) : host_call (option errno)
| Ftruncate (fd length : Z) : host_call (option errno)
| Lseek (fd offset whence : Z) : host_call (errno + Z)
| Fstat (fd : Z) : host_call (errno + host_stat)
| Fstatvfs (fd : Z) : host_call (errno + statvfs).

(** ** Programs *)

Inductive io (A : Type) : Type :=
| Ret (a : A)
| Call {B : Set} (c : host_call B) (k : B -> io A)
| Fault.
Arguments Ret {A} a.
Arguments Call {A B} c k.
Arguments Fault {A}.

Fixpoint bind {A B} (p : io A) (f : A -> io B) : io B :=
  match p with
  | Ret a => f a
  | Call c k => Call c (fun b => bind (k b) f)
  | Fault => Fault
  end.

Notation "x '<-' p ';;' q" := (bind p (fun x => q))
  (at level 20, p at level 99, q at level 200) : emu_scope.
Notation "x '<~' c ';;' q" := (Call c (fun x => q))
  (at level 20, c at level 99, q at level 200) : emu_scope.

(** A value read from guest memory, or a fault when it is not mapped. *)
Definition load_or_fault {A} (o : option A) : io A :=
  match o with Some a => Ret a | None => Fault end.

(** ** The host's table of descriptors *)

(** What a descriptor refers to.  Both ends of a pipe carry its number. *)
Inductive object : Set :=
| OFile (path : list ascii)
| ODirectory (path : list ascii)
| OPipeRead (pipe : Z)
| OPipeWrite (pipe : Z)
| OOther.

#[export] Instance object_eq_dec : EqDecision object.
Proof. solve_decision. Defined.

Notation host := (gmap Z object) (only parsing).

(** A descriptor the host hands out: not negative and not in use. *)
Definition free (h : host) (fd : Z) : Prop := 0 <= fd /\ h !! fd = None.

(** No descriptor refers to the pipe. *)
Definition new_pipe (h : host) (pipe : Z) : Prop :=
  forall fd o, h !! fd = Some o -> o <> OPipeRead pipe /\ o <> OPipeWrite pipe.

(** A call that gives a new descriptor for the object, or fails. *)
Definition gives (h : host) (o : object) (answer : errno + Z) (h' : host) : Prop :=
  match answer with
  | inl _ => h' = h
  | inr fd => free h fd /\ h' = <[fd := o]> h
  end.

(** The answers the host may give and its table afterwards. *)
Definition host_step {B : Set} (c : host_call B) (h : host) : B -> host -> Prop :=
  match c in host_call B return B -> host -> Prop with
  | Open path _ _ => fun answer h' => gives h (OFile path) answer h'
  | Close fd => fun _ h' => h' = delete fd h
  | Pipe => fun answer h' =>
      match answer with
      | inl _ => h' = h
      | inr (r, w) => free h r /\ free h w /\ r <> w /\
          exists pipe, new_pipe h pipe /\
            h' = <[r := OPipeRead pipe]> (<[w := OPipeWrite pipe]> h)
      end
  | DupFd fd minimum => fun answer h' =>
      match answer with
      | inl _ => h' = h
      | inr new => minimum <= new /\ exists o, h !! fd = Some o /\ gives h o answer h'
      end
  | Dup fd => fun answer h' =>
      match answer with
      | inl _ => h' = h
      | inr _ => exists o, h !! fd = Some o /\ gives h o answer h'
      end
  | Dup2 source destination => fun answer h' =>
      match answer with
      | inl _ => h' = h
      | inr fd => fd = destination /\ 0 <= destination /\
          exists o, h !! source = Some o /\ h' = <[destination := o]> h
      end
  | GetFd fd => fun answer h' => h' = h /\
      match answer with
      | inl _ => h !! fd = None
      | inr flags => 0 <= flags /\ is_Some (h !! fd)
      end
  | SetFd fd _ => fun answer h' => h' = h /\ (answer = None <-> is_Some (h !! fd))
  | GetFl fd => fun answer h' => h' = h /\ forall flags, answer = inr flags -> 0 <= flags
  | Opendir path => fun answer h' =>
      match answer with
      | inl _ => h' = h
      | inr directory => free h (ds_fd directory) /\
          h' = <[ds_fd directory := ODirectory path]> h
      end
  | Closedir directory => fun _ h' => h' = delete (ds_fd directory) h
  | Strdup text => fun answer h' => h' = h /\ (answer = Some text \/ answer = None)
  | Read fd length => fun answer h' => h' = h /\
      forall bytes, answer = inr bytes ->
        Z.of_nat (List.length bytes) <= length /\ Forall is_byte bytes
  | Write fd length _ => fun answer h' => h' = h /\
      forall n, answer = inr n -> 0 <= n <= length
  | Pread fd length _ => fun answer h' => h' = h /\
      forall bytes, answer = inr bytes ->
        Z.of_nat (List.length bytes) <= length /\ Forall is_byte bytes
  | Pwrite fd length _ _ => fun answer h' => h' = h /\
      forall n, answer = inr n -> 0 <= n <= length
  | Readlink path size => fun answer h' => h' = h /\
      forall target, answer = inr target -> Z.of_nat (List.length target) <= size
  | Socket _ _ _ => fun answer h' => gives h OOther answer h'
  | Accept _ _ => fun answer h' =>
      match answer with
      | inl _ => h' = h
      | inr (fd, _) => gives h OOther (inr fd) h'
      end
  | Socketpair _ _ _ => fun answer h' =>
      match answer with
      | inl _ => h' = h
      | inr (a, b) => free h a /\ free h b /\ a <> b /\ h' = <[a := OOther]> (<[b := OOther]> h)
      end
  | _ => fun _ h' => h' = h
  end.

(** A run of a program: every call answered as the host may. *)
Inductive runs {A} : io A -> host -> A -> host -> Prop :=
| run_ret a h : runs (Ret a) h a h
| run_call {B : Set} (c : host_call B) (k : B -> io A) (b : B) h h1 a h2 :
    host_step c h b h1 -> runs (k b) h1 a h2 -> runs (Call c k) h a h2.

(** ** Weakest preconditions *)

(** Every run from [h] that does not fault ends in [Q]. *)
Fixpoint wp {A} (p : io A) (h : host) (Q : A -> host -> Prop) : Prop :=
  match p with
  | Ret a => Q a h
  | Call c k => forall b h', host_step c h b h' -> wp (k b) h' Q
  | Fault => True
  end.

(** The program ends in [Q] whatever the host answers: it never faults, and the host
    has an answer to every call it makes. *)
Fixpoint always {A} (p : io A) (h : host) (Q : A -> host -> Prop) : Prop :=
  match p with
  | Ret a => Q a h
  | Call c k => (exists b h', host_step c h b h') /\
      forall b h', host_step c h b h' -> always (k b) h' Q
  | Fault => False
  end.

(** Every call the program can make satisfies [P], as long as the answers satisfy
    [ok]. *)
Fixpoint calls {A} (ok : forall B : Set, host_call B -> B -> Prop)
    (P : forall B : Set, host_call B -> Prop) (p : io A) : Prop :=
  match p with
  | Ret _ | Fault => True
  | Call c k => P _ c /\ forall b, ok _ c b -> calls ok P (k b)
  end.

(** Every end of the program satisfies [Q], as long as the answers satisfy [ok]. *)
Fixpoint ends {A} (ok : forall B : Set, host_call B -> B -> Prop) (p : io A) (Q : A -> Prop) : Prop :=
  match p with
  | Ret a => Q a
  | Call c k => forall b, ok _ c b -> ends ok (k b) Q
  | Fault => True
  end.

Lemma wp_runs {A} (p : io A) h Q a h' : wp p h Q -> runs p h a h' -> Q a h'.
Proof. intros Hwp Hrun. induction Hrun; simpl in *; eauto. Qed.

Lemma runs_wp {A} (p : io A) h (Q : A -> host -> Prop) :
  (forall a h', runs p h a h' -> Q a h') -> wp p h Q.
Proof.
  revert h. induction p as [a|B c k IH|]; intros h HQ; simpl; [apply HQ; constructor| |done].
  intros b h' Hstep. apply IH. intros a h'' Hrun. apply HQ. by econstructor.
Qed.

Lemma wp_mono {A} (p : io A) h (Q R : A -> host -> Prop) :
  wp p h Q -> (forall a h', Q a h' -> R a h') -> wp p h R.
Proof. revert h. induction p; simpl; eauto. Qed.

Lemma wp_bind {A B} (p : io A) (f : A -> io B) h (Q : B -> host -> Prop) :
  wp p h (fun a h' => wp (f a) h' Q) -> wp (bind p f) h Q.
Proof. revert h. induction p; simpl; eauto. Qed.

Lemma always_ends {A} (p : io A) h Q : always p h Q -> exists a h', runs p h a h' /\ Q a h'.
Proof.
  revert h. induction p as [a|B c k IH|]; simpl; [eauto using run_ret| |done].
  intros h [(b & h1 & Hstep) Hk]. destruct (IH b h1 (Hk b h1 Hstep)) as (a & h2 & Hrun & HQ).
  exists a, h2. split; [by econstructor|done].
Qed.

Lemma always_mono {A} (p : io A) h (Q R : A -> host -> Prop) :
  always p h Q -> (forall a h', Q a h' -> R a h') -> always p h R.
Proof.
  intros Hp HQR. revert h Hp. induction p as [a|B c k IH|]; simpl; [eauto| |done].
  intros h [He Hk]. split; [done|]. eauto.
Qed.

Lemma always_bind {A B} (p : io A) (f : A -> io B) h (Q : B -> host -> Prop) :
  always p h (fun a h' => always (f a) h' Q) -> always (bind p f) h Q.
Proof.
  revert h. induction p as [a|C c k IH|]; simpl; [done| |done]. intros h [He Hk]. split; [done|]. eauto.
Qed.

Lemma calls_bind {A B} ok P (p : io A) (f : A -> io B) :
  calls ok P p -> (forall a, calls ok P (f a)) -> calls ok P (bind p f).
Proof.
  intros Hp Hf. induction p as [a|C c k IH|]; simpl in *; [done| |done].
  destruct Hp as [Hc Hk]. split; [done|]. intros b Hb. by apply IH, Hk.
Qed.

Lemma calls_mono {A} (ok ok' : forall B : Set, host_call B -> B -> Prop)
    (P R : forall B : Set, host_call B -> Prop) (p : io A) :
  calls ok P p -> (forall B (c : host_call B), P B c -> R B c) ->
  (forall B (c : host_call B) b, ok' B c b -> ok B c b) -> calls ok' R p.
Proof.
  intros Hp HPR Hok. induction p as [a|B c k IH|]; simpl in *; [done| |done].
  destruct Hp as [Hc Hk]. split; [by apply HPR|]. intros b Hb. by apply IH, Hk, Hok.
Qed.

Lemma calls_and {A} ok (P R : forall B : Set, host_call B -> Prop) (p : io A) :
  calls ok P p -> calls ok R p -> calls ok (fun B c => P B c /\ R B c) p.
Proof.
  intros HP HR. induction p as [a|B c k IH|]; simpl in *; [done| |done].
  destruct HP as [? HP], HR as [? HR]. split; [done|]. intros b Hb. by apply IH; [apply HP|apply HR].
Qed.

Lemma ends_bind {A B} ok (p : io A) (f : A -> io B) (Q : B -> Prop) :
  ends ok p (fun a => ends ok (f a) Q) -> ends ok (bind p f) Q.
Proof. induction p; simpl; eauto. Qed.

Lemma ends_mono {A} ok (p : io A) (Q R : A -> Prop) :
  ends ok p Q -> (forall a, Q a -> R a) -> ends ok p R.
Proof. induction p; simpl; eauto. Qed.

Lemma ends_true {A} ok (p : io A) (Q : A -> Prop) : (forall a, Q a) -> ends ok p Q.
Proof. intros HQ. induction p; simpl; eauto. Qed.

Lemma ends_runs {A} (p : io A) (Q : A -> Prop) h a h' :
  ends (fun _ _ _ => True) p Q -> runs p h a h' -> Q a.
Proof. intros Hends Hrun. induction Hrun; simpl in *; eauto. Qed.

Lemma runs_bind {A B} (p : io A) (f : A -> io B) h b h' :
  runs (bind p f) h b h' <-> exists a h1, runs p h a h1 /\ runs (f a) h1 b h'.
Proof.
  split.
  - intros Hrun.
    refine (wp_runs _ _ (fun b h' => exists a h1, runs p h a h1 /\ runs (f a) h1 b h') _ _ _ Hrun).
    apply wp_bind, runs_wp. intros a h1 H1. apply runs_wp. eauto.
  - intros (a & h1 & H1 & H2). induction H1; simpl; [done|]. econstructor; eauto.
Qed.

Create HintDb wp.
#[export] Hint Resolve wp_bind calls_bind : wp.

(** Executes a program with the answers of a function, for closed examples: the
    table is threaded by the function itself. *)
Section execute.
Context (answer : forall B : Set, host_call B -> host -> B * host).

Fixpoint execute {A} (p : io A) (h : host) : option (A * host) :=
  match p with
  | Ret a => Some (a, h)
  | Call c k => let '(b, h') := answer _ c h in execute (k b) h'
  | Fault => None
  end.

Lemma execute_runs {A} (p : io A) h a h' :
  (forall (B : Set) (c : host_call B) h, host_step c h (answer _ c h).1 (answer _ c h).2) ->
  execute p h = Some (a, h') -> runs p h a h'.
Proof.
  intros Hlaw. revert h. induction p as [x|B c k IH|]; intros h; simpl.
  - intros [= <- <-]. constructor.
  - pose proof (Hlaw B c h) as Hstep. destruct (answer B c h) as [b h1]. intros Hex.
    econstructor; [exact Hstep|]. by apply IH.
  - done.
Qed.
End execute.
