(* ===== verification/Descriptors.v ===== *)
(** * Descriptors: the tables of [src/src/linux_syscall.c]

    The emulator keeps three tables beside the host's descriptors: the host path
    behind a descriptor (for the [...at] calls), the [DIR] that serves its
    [getdents64], and the hidden write end of the pipe that stands for an
    eventfd.  An array of 256 entries is a map whose missing entries are null;
    that no other index is used is part of the invariant. *)

From Stdlib Require Import Ascii String.
From S2P Require Import Prelude Errno Bytes Abi GuestPath HostCalls.
Open Scope Z_scope.

Definition MAX_TRACKED_FDS : Z := 256.
Definition LINUX_AT_FDCWD : Z := -100.
Definition LINUX_EFD_SEMAPHORE : Z := 0x1.
Definition LINUX_EOPNOTSUPP : Z := 95.

(** The host's [whence] values. *)
Class HostSeek := { SEEK_SET : Z; SEEK_END : Z }.

Record fd_state := FdState {
  fd_paths : gmap Z (list ascii);
  directory_streams : gmap Z stream;
  eventfd_write_peers : gmap Z Z;
  fd_memory : gmap Z Z }.

Definition set_paths (f : gmap Z (list ascii) -> gmap Z (list ascii)) (st : fd_state) : fd_state :=
  FdState (f (fd_paths st)) (directory_streams st) (eventfd_write_peers st) (fd_memory st).
Definition set_streams (f : gmap Z stream -> gmap Z stream) (st : fd_state) : fd_state :=
  FdState (fd_paths st) (f (directory_streams st)) (eventfd_write_peers st) (fd_memory st).
Definition set_peers (f : gmap Z Z -> gmap Z Z) (st : fd_state) : fd_state :=
  FdState (fd_paths st) (directory_streams st) (f (eventfd_write_peers st)) (fd_memory st).
Definition set_memory (f : gmap Z Z -> gmap Z Z) (st : fd_state) : fd_state :=
  FdState (fd_paths st) (directory_streams st) (eventfd_write_peers st) (f (fd_memory st)).

(** [fd >= 0 && fd < MAX_TRACKED_FDS] *)
Definition tracked (fd : Z) : bool := (0 <=? fd) && (fd <? MAX_TRACKED_FDS).

(** ** Eventfds *)

(** The entry of an eventfd is its write end plus one; zero is none. *)
Definition write_peer (st : fd_state) (fd : Z) : Z := default 0 (eventfd_write_peers st !! fd).

Definition is_wake_eventfd (st : fd_state) (fd : Z) : bool :=
  tracked fd && negb (write_peer st fd =? 0).

Definition release_wake_eventfd (fd : Z) (st : fd_state) : io fd_state :=
  if is_wake_eventfd st fd then
    let peer := write_peer st fd - 1 in
    _ <~ Close peer;; Ret (set_peers (delete fd) st)
  else Ret st.

Section descriptors.
Context `{!HostErrno, !HostOpen, !HostSeek}.
Context (PATH_MAX : nat) (fs : host_fs) (off_t : Z -> Z).

(** A path that could not be resolved: [errno] was set, or is the one from before. *)
Definition path_error (errno_before : Z) (e : option errno) : Z :=
  match e with
  | Some e => linux_error e
  | None => - linux_errno_number errno_before
  end.

(** [linux_host_result] of a call that answers 0 or fails. *)
Definition done_or_error (answer : option errno) : Z :=
  match answer with None => 0 | Some e => linux_error e end.

Definition value_or_error (answer : errno + Z) : Z :=
  match answer with inr v => v | inl e => linux_error e end.

(** ** Paths relative to a descriptor *)

Definition directory_path (st : fd_state) (directory_fd : Z) (guest_path : option (list ascii))
  : result (option (list ascii)) :=
  let absolute := match guest_path with Some (c :: _) => bool_decide (c = slash) | _ => false end in
  if absolute || (directory_fd =? LINUX_AT_FDCWD) then Ok None
  else if negb (tracked directory_fd) then fail_with EBADF
  else match fd_paths st !! directory_fd with
       | None => fail_with EBADF
       | Some path => Ok (Some path)
       end.

Definition resolve_at (st : fd_state) (ps : path_state) (directory_fd : Z)
    (guest_path : option (list ascii)) (allow_missing_leaf nofollow : bool) : outcome (list ascii) :=
  match directory_path st directory_fd guest_path with
  | Err e => Returns (Err e)
  | Ok (Some base) =>
    guest_path_resolve_at PATH_MAX fs ps (Some base) guest_path allow_missing_leaf nofollow PATH_MAX
  | Ok None =>
    if nofollow then guest_path_resolve_nofollow PATH_MAX fs ps guest_path PATH_MAX
    else guest_path_resolve PATH_MAX fs ps guest_path allow_missing_leaf PATH_MAX
  end.

(** Goes on with the host path, or returns the error of its resolution. *)
Definition with_path {A} (errno_before : Z) (o : outcome (list ascii)) (failed : Z -> A)
    (k : list ascii -> io A) : io A :=
  match o with
  | Returns (Ok host_path) => k host_path
  | Returns (Err e) => Ret (failed (path_error errno_before e))
  | ArrayOverflow => Fault
  end.

(** ** Opening and closing *)

(** [free(fd_paths[fd]); fd_paths[fd] = strdup(text);] *)
Definition set_fd_path (fd : Z) (text : list ascii) (st : fd_state) : io fd_state :=
  copy <~ Strdup text;;
  Ret (set_paths (fun paths => match copy with
                               | Some path => <[fd := path]> paths
                               | None => delete fd paths
                               end) st).

Definition linux_open_path (errno_before : Z) (st : fd_state) (ps : path_state) (directory_fd : Z)
    (guest_path : option (list ascii)) (flags mode : Z) : io (Z * fd_state) :=
  match linux_open_flags flags with
  | None => Ret (host_negative EINVAL, st)
  | Some host_flags =>
    let nofollow := has flags LINUX_O_NOFOLLOW
      || (flags .& (LINUX_O_CREAT .| LINUX_O_EXCL) =? (LINUX_O_CREAT .| LINUX_O_EXCL)) in
    with_path errno_before (resolve_at st ps directory_fd guest_path (has host_flags O_CREAT) nofollow)
      (fun e => (e, st))
      (fun host_path =>
        answer <~ Open host_path host_flags (mode .& 0xfff);;
        match answer with
        | inl e => Ret (linux_error e, st)
        | inr fd => st <- (if tracked fd then set_fd_path fd host_path st else Ret st);; Ret (fd, st)
        end)
  end.

Definition close_stream (fd : Z) (st : fd_state) : io fd_state :=
  match directory_streams st !! fd with
  | None => Ret st
  | Some directory => _ <~ Closedir directory;; Ret (set_streams (delete fd) st)
  end.

Definition linux_close_fd (fd : Z) (st : fd_state) : io (Z * fd_state) :=
  st <- (if tracked fd then
           st <- close_stream fd st;;
           st <- release_wake_eventfd fd st;;
           Ret (set_paths (delete fd) st)
         else Ret st);;
  answer <~ Close fd;;
  Ret (done_or_error answer, st).

(** ** Duplicating *)

Definition copy_fd_path (source destination : Z) (st : fd_state) : io fd_state :=
  if negb (tracked destination) then Ret st
  else
    st <- close_stream destination st;;
    match (if tracked source then fd_paths st !! source else None) with
    | Some path => set_fd_path destination path st
    | None => Ret (set_paths (delete destination) st)
    end.

(** The case [LINUX_NR_DUP] of the dispatcher. *)
Definition linux_dup (fd : Z) (st : fd_state) : io (Z * fd_state) :=
  if is_wake_eventfd st fd then Ret (- LINUX_EOPNOTSUPP, st)
  else
    answer <~ Dup fd;;
    match answer with
    | inl e => Ret (linux_error e, st)
    | inr result => st <- copy_fd_path fd result st;; Ret (result, st)
    end.

(** The case [LINUX_NR_DUP2]. *)
Definition linux_dup2 (source destination : Z) (st : fd_state) : io (Z * fd_state) :=
  if source =? destination then
    answer <~ GetFd source;;
    Ret (match answer with inl e => linux_error e | inr _ => source end, st)
  else if is_wake_eventfd st source then Ret (- LINUX_EOPNOTSUPP, st)
  else
    answer <~ GetFd source;;
    match answer with
    | inl e => Ret (linux_error e, st)
    | inr _ =>
      st <- release_wake_eventfd destination st;;
      answer <~ Dup2 source destination;;
      match answer with
      | inl e => Ret (linux_error e, st)
      | inr result =>
        st <- (if negb (source =? result) then copy_fd_path source result st else Ret st);;
        Ret (result, st)
      end
    end.

(** The case [LINUX_NR_DUP3]. *)
Definition linux_dup3 (source destination flags : Z) (st : fd_state) : io (Z * fd_state) :=
  if (source =? destination) || negb (flags .&~ LINUX_O_CLOEXEC =? 0)
  then Ret (host_negative EINVAL, st)
  else if is_wake_eventfd st source then Ret (- LINUX_EOPNOTSUPP, st)
  else
    answer <~ GetFd source;;
    match answer with
    | inl e => Ret (linux_error e, st)
    | inr _ =>
      st <- release_wake_eventfd destination st;;
      answer <~ Dup2 source destination;;
      match answer with
      | inl e => Ret (linux_error e, st)
      | inr result =>
        if has flags LINUX_O_CLOEXEC then
          failed <~ SetFd destination true;;
          match failed with
          | Some e => Ret (linux_error e, st)
          | None => st <- copy_fd_path source destination st;; Ret (result, st)
          end
        else st <- copy_fd_path source destination st;; Ret (result, st)
      end
    end.

(** ** Locks *)

(** An integer of [n] bytes read as a signed one. *)
Definition signed (n : nat) (v : Z) : Z :=
  if v <? 2 ^ (8 * Z.of_nat n - 1) then v else v - 2 ^ (8 * Z.of_nat n).

Definition lock_of_guest (type : Z) : option lock_type :=
  if type =? 0 then Some F_RDLCK else if type =? 1 then Some F_WRLCK
  else if type =? 2 then Some F_UNLCK else None.

Definition lock_to_guest (type : lock_type) : Z :=
  match type with F_RDLCK => 0 | F_WRLCK => 1 | F_UNLCK => 2 end.

(** The 32 bytes of [struct linux_flock64] after the members were assigned. *)
Definition flock64_store (guest : list Z) (lock : flock) : list Z :=
  store_le 4 24 (l_pid lock)
    (store_le 8 16 (l_len lock)
      (store_le 8 8 (l_start lock)
        (store_le 2 2 (l_whence lock)
          (store_le 2 0 (lock_to_guest (l_type lock)) guest)))).

(** Commands 12, 13 and 14. *)
Definition linux_lock (fd command argument : Z) (st : fd_state) : io (Z * fd_state) :=
  guest <- load_or_fault (mem_load (fd_memory st) argument 32);;
  match lock_of_guest (signed 2 (load_le 2 0 guest)) with
  | None => Ret (host_negative EINVAL, st)
  | Some type =>
    let whence := signed 2 (load_le 2 2 guest) in
    if (whence <? SEEK_SET) || (SEEK_END <? whence) then Ret (host_negative EINVAL, st)
    else
      let lock := Flock type whence (off_t (signed 8 (load_le 8 8 guest)))
                    (off_t (signed 8 (load_le 8 16 guest))) 0 in
      answer <~ Lock fd (if command =? 12 then F_GETLK
                         else if command =? 13 then F_SETLK else F_SETLKW) lock;;
      match answer with
      | inl e => Ret (linux_error e, st)
      | inr lock =>
        if command =? 12
        then Ret (0, set_memory (fun m => mem_store m argument (flock64_store guest lock)) st)
        else Ret (0, st)
      end
  end.

(** ** [fcntl64] *)

(** The duplicate of commands 0 and 1030. *)
Definition duplicate (fd command argument : Z) : io (errno + Z) :=
  answer <~ DupFd fd argument;;
  match answer with
  | inr result =>
    if command =? 1030 then
      failed <~ SetFd result true;;
      match failed with
      | Some e => _ <~ Close result;; Ret (inl e)
      | None => Ret (inr result)
      end
    else Ret (inr result)
  | inl e => Ret (inl e)
  end.

Definition linux_fcntl64 (fd command argument : Z) (st : fd_state) : io (Z * fd_state) :=
  let duplicates := (command =? 0) || (command =? 1030) in
  if duplicates && is_wake_eventfd st fd then Ret (- LINUX_EOPNOTSUPP, st)
  else if duplicates then
    answer <- duplicate fd command (s32 argument);;
    match answer with
    | inl e => Ret (linux_error e, st)
    | inr result => st <- copy_fd_path fd result st;; Ret (result, st)
    end
  else if command =? 1 then answer <~ GetFd fd;; Ret (value_or_error answer, st)
  else if command =? 2 then
    answer <~ SetFd fd (has argument 1);; Ret (done_or_error answer, st)
  else if command =? 3 then
    answer <~ GetFl fd;;
    Ret (match answer with inr flags => linux_status_flags flags | inl e => linux_error e end, st)
  else if command =? 4 then
    answer <~ GetFl fd;;
    match answer with
    | inl e => Ret (linux_error e, st)
    | inr current =>
      match linux_open_flags (argument .& (LINUX_O_APPEND .| LINUX_O_NONBLOCK)) with
      | None => Ret (host_negative EINVAL, st)
      | Some requested =>
        let settable := O_APPEND .| O_NONBLOCK in
        answer <~ SetFl fd ((current .&~ settable) .| (requested .& settable));;
        Ret (done_or_error answer, st)
      end
    end
  else if (command =? 12) || (command =? 13) || (command =? 14)
  then linux_lock fd command argument st
  else Ret (host_negative EINVAL, st).

(** ** Pipes and eventfds *)

(** The part [linux_pipe] and [linux_eventfd2] share: the flags of both ends;
    [Some e] after an error, the ends being closed. *)
Definition configure_pipe (r w : Z) (nonblock cloexec : bool) : io (option errno) :=
  let abandon e := _ <~ Close r;; _ <~ Close w;; Ret (Some e) in
  let close_on_exec :=
    if cloexec then
      answer <~ SetFd r true;;
      match answer with
      | Some e => abandon e
      | None =>
        answer <~ SetFd w true;;
        match answer with Some e => abandon e | None => Ret None end
      end
    else Ret None in
  if nonblock && negb (O_NONBLOCK =? 0) then
    answer <~ SetFl r O_NONBLOCK;;
    match answer with
    | Some e => abandon e
    | None =>
      answer <~ SetFl w O_NONBLOCK;;
      match answer with Some e => abandon e | None => close_on_exec end
    end
  else close_on_exec.

Definition linux_pipe (guest_descriptors flags : Z) (st : fd_state) : io (Z * fd_state) :=
  if negb (flags .&~ (LINUX_O_NONBLOCK .| LINUX_O_CLOEXEC) =? 0)
  then Ret (host_negative EINVAL, st)
  else
    answer <~ Pipe;;
    match answer with
    | inl e => Ret (linux_error e, st)
    | inr (r, w) =>
      failed <- configure_pipe r w (has flags LINUX_O_NONBLOCK) (has flags LINUX_O_CLOEXEC);;
      match failed with
      | Some e => Ret (linux_error e, st)
      | None =>
        st <- copy_fd_path (-1) r st;;
        st <- copy_fd_path (-1) w st;;
        Ret (0, set_memory (fun m => mem_store m guest_descriptors (le_bytes 4 r ++ le_bytes 4 w)) st)
      end
    end.

Definition linux_eventfd2 (initial_value flags : Z) (st : fd_state) : io (Z * fd_state) :=
  if negb (flags .&~ (LINUX_EFD_SEMAPHORE .| LINUX_O_NONBLOCK .| LINUX_O_CLOEXEC) =? 0)
  then Ret (host_negative EINVAL, st)
  else if negb (initial_value =? 0) || negb (flags =? LINUX_O_NONBLOCK .| LINUX_O_CLOEXEC)
  then Ret (- LINUX_EOPNOTSUPP, st)
  else
    answer <~ Pipe;;
    match answer with
    | inl e => Ret (linux_error e, st)
    | inr (r, w) =>
      if negb (tracked r) then _ <~ Close r;; _ <~ Close w;; Ret (host_negative EMFILE, st)
      else
        failed <- configure_pipe r w (has flags LINUX_O_NONBLOCK) (has flags LINUX_O_CLOEXEC);;
        match failed with
        | Some e => Ret (linux_error e, st)
        | None => st <- copy_fd_path (-1) r (set_peers (insert r (w + 1)) st);; Ret (r, st)
        end
    end.

(** ** Reading and writing *)

Definition host_read (fd buffer length : Z) (st : fd_state) : io (Z * fd_state) :=
  answer <~ Read fd length;;
  match answer with
  | inl e => Ret (linux_error e, st)
  | inr bytes => Ret (s32 (Z.of_nat (List.length bytes)), set_memory (fun m => mem_store m buffer bytes) st)
  end.

(** The case [LINUX_NR_READ] with [linux_eventfd_read]. *)
Definition linux_read (fd buffer length : Z) (st : fd_state) : io (Z * fd_state) :=
  if is_wake_eventfd st fd then
    if length <? 8 then Ret (host_negative EINVAL, st) else host_read fd buffer 8 st
  else host_read fd buffer length st.

Definition linux_eventfd_write (fd buffer length : Z) (st : fd_state) : io (Z * fd_state) :=
  if length <? 8 then Ret (host_negative EINVAL, st)
  else
    bytes <- load_or_fault (mem_load (fd_memory st) buffer 8);;
    if negb (le_value bytes =? 1) then Ret (host_negative EINVAL, st)
    else answer <~ Write (write_peer st fd - 1) 8 (Some bytes);; Ret (value_or_error answer, st).

(** The case [LINUX_NR_WRITE]. *)
Definition linux_write (fd buffer length : Z) (st : fd_state) : io (Z * fd_state) :=
  if is_wake_eventfd st fd then linux_eventfd_write fd buffer length st
  else
    answer <~ Write fd length (mem_load (fd_memory st) buffer (Z.to_nat length));;
    Ret (value_or_error answer, st).

(** The first loop of [linux_writev_compat]: [None] when the total exceeds
    [INT_MAX]. *)
Fixpoint total_length (m : gmap Z Z) (vectors : Z) (count : nat) (total : Z) : io (option Z) :=
  match count with
  | O => Ret (Some total)
  | S count =>
    len <- load_or_fault (load32 m (vectors + 4));;
    if INT_MAX - total <? len then Ret None else total_length m (vectors + 8) count (total + len)
  end.

(** The second loop: the contents of [buffer]. *)
Fixpoint gather (m : gmap Z Z) (vectors : Z) (count : nat) : option (list Z) :=
  match count with
  | O => Some []
  | S count =>
    match load32 m vectors, load32 m (vectors + 4) with
    | Some base, Some len =>
      match mem_load m base (Z.to_nat len), gather m (vectors + 8) count with
      | Some bytes, Some rest => Some (bytes ++ rest)
      | _, _ => None
      end
    | _, _ => None
    end
  end.

Definition linux_writev_compat (descriptor vectors count : Z) (st : fd_state) : io (Z * fd_state) :=
  if (count <? 0) || (1024 <? count) then Ret (host_negative EINVAL, st)
  else
    sum <- total_length (fd_memory st) vectors (Z.to_nat count) 0;;
    match sum with
    | None => Ret (host_negative EINVAL, st)
    | Some total =>
      if total =? 0 then Ret (0, st)
      else
        allocated <~ Malloc total;;
        if negb allocated then Ret (host_negative ENOMEM, st)
        else
          bytes <- load_or_fault (gather (fd_memory st) vectors (Z.to_nat count));;
          answer <~ Write descriptor total (Some bytes);; Ret (value_or_error answer, st)
    end.

(** ** Directories *)

Definition record_length (entry : dirent) : Z :=
  (19 + (Z.of_nat (List.length (d_name entry)) + 1) + 7) .&~ 7.

(** The bytes of one [struct linux_dirent64]. *)
Definition record_bytes (entry : dirent) : list Z :=
  let n := record_length entry in
  list_inserts 19 (bytes_of (d_name entry) ++ [0])
    (store_le 1 18 0
      (store_le 2 16 n
        (store_le 8 8 (d_offset entry)
          (store_le 8 0 (d_ino entry) (replicate (Z.to_nat n) 0))))).

(** The loop of [linux_getdents64]: the entries left, what was used of the
    buffer, the memory and [errno]. *)
Fixpoint fill_entries (directory : stream) (unread : list dirent) (buffer capacity used : Z) (m : gmap Z Z)
  : io (list dirent * Z * gmap Z Z * option errno) :=
  match unread with
  | [] => error <~ ReaddirEnd directory;; Ret ([], used, m, error)
  | entry :: rest =>
    if capacity - used <? record_length entry then Ret (unread, used, m, None)
    else fill_entries directory rest buffer capacity (used + record_length entry)
           (mem_store m (buffer + used) (record_bytes entry))
  end.

Definition read_directory (fd buffer capacity : Z) (directory : stream) (st : fd_state)
  : io (Z * fd_state) :=
  filled <- fill_entries directory (ds_left directory) buffer capacity 0 (fd_memory st);;
  let '(unread, used, m, error) := filled in
  let st := set_memory (fun _ => m)
    (set_streams (insert fd (Stream (ds_fd directory) unread)) st) in
  match error with
  | Some e => if used =? 0 then Ret (linux_error e, st) else Ret (s32 used, st)
  | None => Ret (s32 used, st)
  end.

Definition linux_getdents64 (fd buffer capacity : Z) (st : fd_state) : io (Z * fd_state) :=
  if negb (tracked fd) then Ret (host_negative EBADF, st)
  else match directory_streams st !! fd with
  | Some directory => read_directory fd buffer capacity directory st
  | None =>
    match fd_paths st !! fd with
    | None => Ret (host_negative EBADF, st)
    | Some path =>
      answer <~ Opendir path;;
      match answer with
      | inl e => Ret (linux_error e, st)
      | inr directory => read_directory fd buffer capacity directory st
      end
    end
  end.

(** The case [LINUX_NR_FCHDIR]. *)
Definition linux_fchdir (errno_before : Z) (ps : path_state) (fd : Z) (st : fd_state)
  : io (Z * path_state) :=
  match (if tracked fd then fd_paths st !! fd else None) with
  | None => Ret (host_negative EBADF, ps)
  | Some path =>
    match guest_path_fchdir PATH_MAX fs ps (Some path) with
    | (Returns (Ok _), ps) => Ret (0, ps)
    | (Returns (Err e), ps) => Ret (path_error errno_before e, ps)
    | (ArrayOverflow, _) => Fault
    end
  end.

End descriptors.

(** ** The calls on descriptors *)

Inductive fd_call : Set :=
| COpen (directory_fd : Z) (guest_path : option (list ascii)) (flags mode : Z)
| CClose (fd : Z)
| CDup (fd : Z)
| CDup2 (source destination : Z)
| CDup3 (source destination flags : Z)
| CFcntl (fd command argument : Z)
| CPipe (guest_descriptors flags : Z)
| CEventfd (initial_value flags : Z)
| CRead (fd buffer length : Z)
| CWrite (fd buffer length : Z)
| CWritev (fd vectors count : Z)
| CGetdents (fd buffer capacity : Z).

Section serve.
Context `{!HostErrno, !HostOpen, !HostSeek}.
Context (PATH_MAX : nat) (fs : host_fs) (off_t : Z -> Z) (errno_before : Z) (ps : path_state).

Definition serve (c : fd_call) (st : fd_state) : io (Z * fd_state) :=
  match c with
  | COpen directory_fd guest_path flags mode =>
      linux_open_path PATH_MAX fs errno_before st ps directory_fd guest_path flags mode
  | CClose fd => linux_close_fd fd st
  | CDup fd => linux_dup fd st
  | CDup2 source destination => linux_dup2 source destination st
  | CDup3 source destination flags => linux_dup3 source destination flags st
  | CFcntl fd command argument => linux_fcntl64 off_t fd command argument st
  | CPipe guest_descriptors flags => linux_pipe guest_descriptors flags st
  | CEventfd initial_value flags => linux_eventfd2 initial_value flags st
  | CRead fd buffer length => linux_read fd buffer length st
  | CWrite fd buffer length => linux_write fd buffer length st
  | CWritev fd vectors count => linux_writev_compat fd vectors count st
  | CGetdents fd buffer capacity => linux_getdents64 fd buffer capacity st
  end.
End serve.

(** The descriptors a call names. *)
Definition named (c : fd_call) : list Z :=
  match c with
  | COpen directory_fd _ _ _ => [directory_fd]
  | CClose fd | CDup fd | CFcntl fd _ _ | CRead fd _ _ | CWrite fd _ _ | CWritev fd _ _
  | CGetdents fd _ _ => [fd]
  | CDup2 source destination | CDup3 source destination _ => [source; destination]
  | CPipe _ _ | CEventfd _ _ => []
  end.

(** ** The invariant of the tables *)

(** The descriptors the emulator keeps for itself. *)
Definition internal (st : fd_state) (fd : Z) : Prop :=
  (exists e, eventfd_write_peers st !! e = Some (fd + 1)) \/
  (exists d s, directory_streams st !! d = Some s /\ ds_fd s = fd).

(** A host path inside the root, or the null device. *)
Definition inside (root : list ascii) (path : list ascii) : Prop :=
  path = chars "/dev/null" \/ path = root \/
  exists components, Forall good components /\ path = root ++ path_of components.

(** The tables agree with the host's descriptors; [hole] is a descriptor the host
    has just replaced, whose entries are still the old ones. *)
Record tables_wf (root : list ascii) (hole : option Z) (st : fd_state) (h : host) : Prop := {
  tw_path : forall fd p, fd_paths st !! fd = Some p ->
    tracked fd = true /\ inside root p /\ (hole <> Some fd -> h !! fd = Some (OFile p));
  tw_peer : forall fd p, eventfd_write_peers st !! fd = Some p ->
    tracked fd = true /\ p <> 0 /\ hole <> Some fd /\
    exists n, h !! fd = Some (OPipeRead n) /\ h !! (p - 1) = Some (OPipeWrite n);
  tw_peer_inj : forall fd fd' p, eventfd_write_peers st !! fd = Some p ->
    eventfd_write_peers st !! fd' = Some p -> fd = fd';
  tw_stream : forall fd s, directory_streams st !! fd = Some s ->
    tracked fd = true /\
    exists p, h !! ds_fd s = Some (ODirectory p) /\ (hole <> Some fd -> h !! fd = Some (OFile p));
  tw_stream_inj : forall fd fd' s s', directory_streams st !! fd = Some s ->
    directory_streams st !! fd' = Some s' -> ds_fd s = ds_fd s' -> fd = fd';
  tw_no_leak : forall fd p, h !! fd = Some (ODirectory p) ->
    exists d s, directory_streams st !! d = Some s /\ ds_fd s = fd }.

(** ** The abstract specification *)

(** The descriptors the guest sees are those of the host but for the internal ones. *)
Definition view (st : fd_state) (h : host) (V : gmap Z object) : Prop :=
  forall fd o, V !! fd = Some o <-> h !! fd = Some o /\ ~ internal st fd.

(** The descriptors that are eventfds. *)
Definition eventfds (st : fd_state) : gset Z := dom (eventfd_write_peers st).

(** A state of the specification: the guest's descriptors, which of them are
    eventfds, and its memory. *)
Record fd_view := FdView { v_open : gmap Z object; v_events : gset Z; v_memory : gmap Z Z }.

Definition duplicated (v : fd_view) (source fd : Z) (v' : fd_view) : Prop :=
  exists o, v_open v !! source = Some o /\ source ∉ v_events v /\
    v' = FdView (<[fd := o]> (v_open v)) (v_events v ∖ {[fd]}) (v_memory v).

(** A duplicate in a new descriptor, not below [minimum].  An eventfd cannot be
    duplicated. *)
Definition new_spec (v : fd_view) (source minimum r : Z) (v' : fd_view) : Prop :=
  if decide (source ∈ v_events v) then r = - LINUX_EOPNOTSUPP /\ v' = v
  else (r < 0 /\ v' = v) \/
       (0 <= r /\ minimum <= r /\ v_open v !! r = None /\ duplicated v source r v').

(** A duplicate in the descriptor [d].  When the host refuses it after all, an
    eventfd at [d] has become a plain pipe. *)
Definition over_spec (v : fd_view) (source d r : Z) (v' : fd_view) : Prop :=
  if decide (source ∈ v_events v) then r = - LINUX_EOPNOTSUPP /\ v' = v
  else (r = d /\ duplicated v source d v') \/ (r < 0 /\ v' = v) \/
       (r < 0 /\ is_Some (v_open v !! source) /\
          v' = FdView (v_open v) (v_events v ∖ {[d]}) (v_memory v)).

(** What a call returns and does: [r] is its value.  A failing [open] returns 0
    when the failure has set no [errno] and none was set before. *)
Definition fd_spec `{!HostErrno} (root : list ascii) (errno_before : Z) (c : fd_call) (v : fd_view)
    (r : Z) (v' : fd_view) : Prop :=
  match c with
  | COpen _ _ _ _ => (v' = v /\ (r < 0 \/ (r = 0 /\ errno_before = 0))) \/
      (0 <= r /\ v_open v !! r = None /\ exists path, inside root path /\
         v' = FdView (<[r := OFile path]> (v_open v)) (v_events v) (v_memory v))
  | CClose fd => r <= 0 /\ v' = FdView (delete fd (v_open v)) (v_events v ∖ {[fd]}) (v_memory v)
  | CDup fd => new_spec v fd 0 r v'
  | CDup2 source destination =>
      if source =? destination
      then v' = v /\ match v_open v !! source with Some _ => r = source | None => r < 0 end
      else over_spec v source destination r v'
  | CDup3 source destination flags =>
      if (source =? destination) || negb (flags .&~ LINUX_O_CLOEXEC =? 0)
      then v' = v /\ r = host_negative EINVAL
      else over_spec v source destination r v'
  | CFcntl fd command argument =>
      if (command =? 0) || (command =? 1030) then new_spec v fd (s32 argument) r v'
      else v_open v' = v_open v /\ v_events v' = v_events v /\ (command <> 12 -> v' = v)
  | CPipe guest_descriptors _ => (r < 0 /\ v' = v) \/
      (r = 0 /\ exists a b n, a <> b /\ v_open v !! a = None /\ v_open v !! b = None /\
         v' = FdView (<[a := OPipeRead n]> (<[b := OPipeWrite n]> (v_open v))) (v_events v)
                (mem_store (v_memory v) guest_descriptors (le_bytes 4 a ++ le_bytes 4 b)))
  | CEventfd initial_value flags => (r < 0 /\ v' = v) \/
      (initial_value = 0 /\ flags = LINUX_O_NONBLOCK .| LINUX_O_CLOEXEC /\
       tracked r = true /\ v_open v !! r = None /\ exists n,
         v' = FdView (<[r := OPipeRead n]> (v_open v)) ({[r]} ∪ v_events v) (v_memory v))
  | CRead fd buffer length => (r < 0 /\ v' = v) \/
      exists bytes, r = s32 (Z.of_nat (List.length bytes)) /\ Z.of_nat (List.length bytes) <= length /\
        (fd ∈ v_events v -> 8 <= length /\ Z.of_nat (List.length bytes) <= 8) /\
        v' = FdView (v_open v) (v_events v) (mem_store (v_memory v) buffer bytes)
  | CWrite fd buffer length => v' = v /\ (r < 0 \/ (0 <= r <= length /\
      (fd ∈ v_events v ->
         r <= 8 /\ exists bytes, mem_load (v_memory v) buffer 8 = Some bytes /\ le_value bytes = 1)))
  | CWritev _ _ _ => v' = v
  | CGetdents _ _ _ => v_open v' = v_open v /\ v_events v' = v_events v
  end.

(** ** Changes of the tables *)

Section wf.
Context (root : list ascii).
Notation wf := (tables_wf root).
Implicit Types (st : fd_state) (h : host) (o : object).

Definition not_directory (o : object) : Prop := forall p, o <> ODirectory p.

Lemma fresh_untracked st h fd :
  wf None st h -> h !! fd = None ->
  fd_paths st !! fd = None /\ eventfd_write_peers st !! fd = None /\
  directory_streams st !! fd = None /\ ~ internal st fd.
Proof.
  intros Hwf Hfd. split_and!.
  - destruct (fd_paths st !! fd) eqn:E; [|done]. apply (tw_path _ _ _ _ Hwf) in E as (_ & _ & E).
    rewrite E in Hfd; done.
  - destruct (eventfd_write_peers st !! fd) eqn:E; [|done].
    apply (tw_peer _ _ _ _ Hwf) in E as (_ & _ & _ & n & E & _). by rewrite E in Hfd.
  - destruct (directory_streams st !! fd) eqn:E; [|done].
    apply (tw_stream _ _ _ _ Hwf) in E as (_ & p & _ & E). rewrite E in Hfd; done.
  - intros [[e E]|(d & s & E & <-)].
    + apply (tw_peer _ _ _ _ Hwf) in E as (_ & _ & _ & n & _ & E).
      replace (fd + 1 - 1) with fd in E by lia. congruence.
    + apply (tw_stream _ _ _ _ Hwf) in E as (_ & p & E & _). congruence.
Qed.

Lemma peer_internal st fd p : eventfd_write_peers st !! fd = Some p -> internal st (p - 1).
Proof. intros E. left. exists fd. rewrite E. f_equal. lia. Qed.

Lemma stream_internal st fd s : directory_streams st !! fd = Some s -> internal st (ds_fd s).
Proof. intros E. right. by exists fd, s. Qed.

(** The host replaces what a descriptor refers to. *)
Lemma wf_replace st h d o :
  wf None st h -> ~ internal st d -> eventfd_write_peers st !! d = None -> not_directory o ->
  wf (Some d) st (<[d := o]> h).
Proof.
  intros Hwf Hd Hpeer Ho. destruct Hwf as [Hp He Hei Hs Hsi Hl]. split; try done.
  - intros fd p E. destruct (Hp _ _ E) as (? & ? & Hx). split_and!; [done|done|].
    intros Hne. rewrite lookup_insert_ne by congruence. auto.
  - intros fd p E. destruct (He _ _ E) as (? & ? & _ & n & H1 & H2).
    assert (d <> fd) by congruence.
    assert (d <> p - 1) by (intros ->; by eapply Hd, peer_internal).
    split_and!; [done|done|congruence|]. exists n. by rewrite !lookup_insert_ne by done.
  - intros fd s E. destruct (Hs _ _ E) as (? & p & H1 & H2). split; [done|]. exists p.
    assert (d <> ds_fd s) by (intros ->; by eapply Hd, stream_internal).
    rewrite lookup_insert_ne by done. split; [done|].
    intros Hne. rewrite lookup_insert_ne by congruence. auto.
  - intros fd p E. apply lookup_insert_Some in E as [[_ E]|[_ E]]; [by apply Ho in E|eauto].
Qed.

(** The entries of the replaced descriptor are right again. *)
Lemma wf_fill st h d :
  wf (Some d) st h -> (forall p, fd_paths st !! d = Some p -> h !! d = Some (OFile p)) ->
  directory_streams st !! d = None -> wf None st h.
Proof.
  intros [Hp He Hei Hs Hsi Hl] Hd Hn. split; try done.
  - intros fd p E. destruct (Hp _ _ E) as (? & ? & Hx). split_and!; [done|done|]. intros _.
    destruct (decide (fd = d)) as [->|]; [auto|]. apply Hx. congruence.
  - intros fd p E. destruct (He _ _ E) as (? & ? & _ & ?). done.
  - intros fd s E. destruct (Hs _ _ E) as (? & p & H1 & H2). split; [done|]. exists p.
    split; [done|]. intros _. apply H2. congruence.
Qed.

Lemma wf_fresh st h fd o :
  wf None st h -> h !! fd = None -> not_directory o -> wf None st (<[fd := o]> h).
Proof.
  intros Hwf Hfd Ho. destruct (fresh_untracked _ _ _ Hwf Hfd) as (Hp & He & Hs & Hi).
  apply wf_fill with fd; [by apply wf_replace|congruence|done].
Qed.

Lemma wf_insert_path hole st h d p :
  wf hole st h -> tracked d = true -> inside root p -> h !! d = Some (OFile p) ->
  wf hole (set_paths (insert d p) st) h.
Proof.
  intros [Hp He Hei Hs Hsi Hl] Ht Hi Hd. split; try done. simpl. intros fd q E.
  apply lookup_insert_Some in E as [[-> ->]|[_ E]]; [done|by apply Hp].
Qed.

Lemma wf_delete_path hole st h d : wf hole st h -> wf hole (set_paths (delete d) st) h.
Proof.
  intros [Hp He Hei Hs Hsi Hl]. split; try done. simpl. intros fd q E.
  apply lookup_delete_Some in E as [_ E]. by apply Hp.
Qed.

Lemma wf_delete_stream hole st h d s :
  wf hole st h -> directory_streams st !! d = Some s ->
  wf hole (set_streams (delete d) st) (delete (ds_fd s) h).
Proof.
  intros [Hp He Hei Hs Hsi Hl] Hd. destruct (Hs _ _ Hd) as (_ & q & Hq & _). split; simpl.
  - intros fd p E. destruct (Hp _ _ E) as (? & ? & Hx). split_and!; [done|done|]. intros Hne.
    rewrite lookup_delete_ne; [auto|]. intros <-. rewrite Hx in Hq; done.
  - intros fd p E. destruct (He _ _ E) as (? & ? & ? & n & H1 & H2). split_and!; try done. exists n.
    rewrite !lookup_delete_ne by congruence. done.
  - done.
  - intros fd s' E. apply lookup_delete_Some in E as [Hne E].
    destruct (Hs _ _ E) as (? & p & H1 & H2). split; [done|]. exists p.
    rewrite lookup_delete_ne by (intros Heq; by apply Hne, (Hsi _ _ _ _ Hd E)). split; [done|].
    intros Hh. rewrite lookup_delete_ne; [auto|]. intros <-. rewrite H2 in Hq; done.
  - intros fd fd' s1 s2 E1 E2. apply lookup_delete_Some in E1 as [_ E1], E2 as [_ E2]. eauto.
  - intros fd p E. apply lookup_delete_Some in E as [Hne E].
    destruct (Hl _ _ E) as (d' & s' & Hs' & <-). exists d', s'. split; [|done].
    rewrite lookup_delete_ne; [done|]. congruence.
Qed.

Lemma wf_delete_peer st h d p :
  wf None st h -> eventfd_write_peers st !! d = Some p ->
  wf None (set_peers (delete d) st) (delete (p - 1) h).
Proof.
  intros [Hp He Hei Hs Hsi Hl] Hd. destruct (He _ _ Hd) as (_ & _ & _ & n & H1 & H2). split; simpl.
  - intros fd q E. destruct (Hp _ _ E) as (? & ? & Hx). split_and!; [done|done|]. intros Hne.
    rewrite lookup_delete_ne; [auto|]. intros <-. rewrite Hx in H2; done.
  - intros fd q E. apply lookup_delete_Some in E as [Hne E].
    destruct (He _ _ E) as (? & ? & ? & n' & H3 & H4). split_and!; try done. exists n'.
    rewrite !lookup_delete_ne; [done| |congruence].
    intros Heq. apply Hne. assert (p = q) as -> by lia. eauto.
  - intros fd fd' q E1 E2. apply lookup_delete_Some in E1 as [_ E1], E2 as [_ E2]. eauto.
  - intros fd s E. destruct (Hs _ _ E) as (? & q & H3 & H4). split; [done|]. exists q.
    rewrite lookup_delete_ne by congruence. split; [done|]. intros Hh.
    rewrite lookup_delete_ne; [auto|]. intros <-. rewrite H4 in H2; done.
  - done.
  - intros fd q E. apply lookup_delete_Some in E as [_ E]. eauto.
Qed.

(** The host closes a descriptor of which the tables know nothing. *)
Lemma wf_close st h fd :
  wf None st h -> fd_paths st !! fd = None -> eventfd_write_peers st !! fd = None ->
  directory_streams st !! fd = None -> ~ internal st fd -> wf None st (delete fd h).
Proof.
  intros [Hp He Hei Hs Hsi Hl] Np Ne Ns Ni. split; try done.
  - intros x p E. destruct (Hp _ _ E) as (? & ? & Hx). split_and!; [done|done|]. intros Hne.
    rewrite lookup_delete_ne by congruence. auto.
  - intros x p E. destruct (He _ _ E) as (? & ? & ? & n & H1 & H2). split_and!; try done. exists n.
    rewrite !lookup_delete_ne; [done|intros ->; by eapply Ni, peer_internal|congruence].
  - intros x s E. destruct (Hs _ _ E) as (? & p & H1 & H2). split; [done|]. exists p.
    rewrite lookup_delete_ne by (intros ->; by eapply Ni, stream_internal). split; [done|].
    intros Hh. rewrite lookup_delete_ne by congruence. auto.
  - intros x p E. apply lookup_delete_Some in E as [_ E]. eauto.
Qed.

Lemma wf_set_memory hole st h f : wf hole st h -> wf hole (set_memory f st) h.
Proof. by intros []. Qed.

End wf.

(** ** Changes the guest does not see *)

(** From [st] and [h] to [st'] and [h'] only internal descriptors went away. *)
Record unseen (st : fd_state) (h : host) (st' : fd_state) (h' : host) : Prop := {
  un_memory : fd_memory st' = fd_memory st;
  un_internal : forall fd, internal st' fd -> internal st fd;
  un_host : forall fd, ~ internal st fd -> h' !! fd = h !! fd;
  un_view : forall V, view st h V -> view st' h' V }.

Lemma unseen_refl st h st' :
  fd_memory st' = fd_memory st -> eventfd_write_peers st' = eventfd_write_peers st ->
  directory_streams st' = directory_streams st -> unseen st h st' h.
Proof.
  intros Hm Hp Hs. assert (Hi : forall fd, internal st' fd <-> internal st fd).
  { intros fd. unfold internal. by rewrite Hp, Hs. }
  split; [done|apply Hi|done|]. intros V HV fd o. by rewrite Hi.
Qed.

Lemma unseen_trans st1 h1 st2 h2 st3 h3 :
  unseen st1 h1 st2 h2 -> unseen st2 h2 st3 h3 -> unseen st1 h1 st3 h3.
Proof.
  intros [M1 I1 H1 V1] [M2 I2 H2 V2]. split; [congruence|auto| |auto].
  intros fd Hfd. rewrite H2 by auto. auto.
Qed.

Lemma unseen_stream st h d s :
  directory_streams st !! d = Some s -> unseen st h (set_streams (delete d) st) (delete (ds_fd s) h).
Proof.
  intros Hd. assert (Hi : forall fd, internal (set_streams (delete d) st) fd -> internal st fd).
  { intros fd [?|(d' & s' & E & ?)]; [by left|]. right. exists d', s'.
    simpl in E. by apply lookup_delete_Some in E as [_ E]. }
  assert (Hx : forall fd, internal st fd -> fd <> ds_fd s -> internal (set_streams (delete d) st) fd).
  { intros fd [?|(d' & s' & E & ?)] Hne; [by left|]. right. exists d', s'. split; [|done].
    simpl. rewrite lookup_delete_ne; [done|]. congruence. }
  pose proof (stream_internal _ _ _ Hd) as Hin. split; [done|done| |].
  - intros fd Hfd. rewrite lookup_delete_ne; [done|]. by intros <-.
  - intros V HV fd o. rewrite (HV fd o). rewrite lookup_delete_Some. split.
    + intros [H1 H2]. split; [|auto]. split; [by intros <-|done].
    + intros [[H1 H2] H3]. split; [done|]. intros H4. apply H3, Hx; [done|congruence].
Qed.

Lemma unseen_peer st h d p :
  eventfd_write_peers st !! d = Some p -> unseen st h (set_peers (delete d) st) (delete (p - 1) h).
Proof.
  intros Hd. assert (Hi : forall fd, internal (set_peers (delete d) st) fd -> internal st fd).
  { intros fd [[e E]|?]; [|by right]. left. exists e.
    simpl in E. by apply lookup_delete_Some in E as [_ E]. }
  assert (Hx : forall fd, internal st fd -> fd <> p - 1 -> internal (set_peers (delete d) st) fd).
  { intros fd [[e E]|?] Hne; [|by right]. left. exists e.
    simpl. rewrite lookup_delete_ne; [done|]. intros <-. rewrite Hd in E. injection E. lia. }
  pose proof (peer_internal _ _ _ Hd) as Hin. split; [done|done| |].
  - intros fd Hfd. rewrite lookup_delete_ne; [done|]. by intros <-.
  - intros V HV fd o. rewrite (HV fd o). rewrite lookup_delete_Some. split.
    + intros [H1 H2]. split; [|auto]. split; [by intros <-|done].
    + intros [[H1 H2] H3]. split; [done|]. intros H4. apply H3, Hx; [done|congruence].
Qed.

(** Changes of the host the guest sees. *)
Lemma view_insert st h V fd o :
  view st h V -> ~ internal st fd -> view st (<[fd := o]> h) (<[fd := o]> V).
Proof.
  intros HV Hfd x o'. rewrite !lookup_insert_Some, (HV x o'). naive_solver.
Qed.

Lemma view_delete st h V fd : view st h V -> view st (delete fd h) (delete fd V).
Proof. intros HV x o. rewrite !lookup_delete_Some, (HV x o). naive_solver. Qed.

Lemma view_none st h V fd : view st h V -> h !! fd = None -> V !! fd = None.
Proof.
  intros HV Hfd. destruct (V !! fd) as [o|] eqn:E; [|done]. apply HV in E as [E _]. congruence.
Qed.

Lemma view_some st h V fd o : view st h V -> h !! fd = Some o -> ~ internal st fd -> V !! fd = Some o.
Proof. intros HV ??. by apply HV. Qed.

(** ** The helpers *)

Section helpers.
Context (root : list ascii).
Implicit Types (st : fd_state) (h : host).

Lemma close_stream_ok hole d st h :
  tables_wf root hole st h ->
  wp (close_stream d st) h (fun st' h' =>
    tables_wf root hole st' h' /\ directory_streams st' !! d = None /\
    fd_paths st' = fd_paths st /\ eventfd_write_peers st' = eventfd_write_peers st /\
    unseen st h st' h').
Proof.
  intros Hwf. unfold close_stream. destruct (directory_streams st !! d) as [s|] eqn:E; simpl.
  - intros _ h' ->. split_and!; [by apply wf_delete_stream|apply lookup_delete_eq|done|done|].
    by apply unseen_stream.
  - split_and!; [done|done|done|done|]. by apply unseen_refl.
Qed.

Lemma wake_peer hole st h fd :
  tables_wf root hole st h ->
  is_wake_eventfd st fd = true <-> is_Some (eventfd_write_peers st !! fd).
Proof.
  intros Hwf. unfold is_wake_eventfd, write_peer.
  destruct (eventfd_write_peers st !! fd) as [p|] eqn:E; simpl.
  - apply (tw_peer _ _ _ _ Hwf) in E as (-> & Hp & _). rewrite (proj2 (Z.eqb_neq p 0) Hp). naive_solver.
  - rewrite andb_false_r. split; [done|]. by intros [].
Qed.

Lemma release_ok fd st h :
  tables_wf root None st h ->
  wp (release_wake_eventfd fd st) h (fun st' h' =>
    tables_wf root None st' h' /\ eventfd_write_peers st' = delete fd (eventfd_write_peers st) /\
    fd_paths st' = fd_paths st /\ directory_streams st' = directory_streams st /\
    unseen st h st' h').
Proof.
  intros Hwf. unfold release_wake_eventfd. pose proof (wake_peer _ _ _ fd Hwf) as Hw.
  destruct (is_wake_eventfd st fd) eqn:E; simpl.
  - intros _ h' ->. destruct (proj1 Hw eq_refl) as [p Hp]. unfold write_peer. rewrite Hp. simpl.
    split_and!; [by apply wf_delete_peer|done|done|done|by apply unseen_peer].
  - split_and!; [done| |done|done|by apply unseen_refl].
    rewrite delete_id; [done|]. destruct (eventfd_write_peers st !! fd) eqn:Ep; [|done].
    by discriminate (proj2 Hw (ex_intro _ _ eq_refl)).
Qed.

Lemma set_fd_path_ok hole d p st h :
  tables_wf root hole st h -> tracked d = true -> inside root p -> h !! d = Some (OFile p) ->
  wp (set_fd_path d p st) h (fun st' h' => h' = h /\ tables_wf root hole st' h /\
    (forall q, fd_paths st' !! d = Some q -> q = p) /\
    directory_streams st' = directory_streams st /\
    eventfd_write_peers st' = eventfd_write_peers st /\ unseen st h st' h).
Proof.
  intros Hwf Ht Hi Hd. simpl. intros b h' [-> [->| ->]].
  - split_and!; [done|by apply wf_insert_path| |done|done|by apply unseen_refl].
    simpl. intros q. rewrite lookup_insert_eq. congruence.
  - split_and!; [done|by apply wf_delete_path| |done|done|by apply unseen_refl].
    simpl. intros q. by rewrite lookup_delete_eq.
Qed.

(** [copy_fd_path] makes the tables right for a descriptor the host has replaced. *)
Lemma copy_fd_path_ok source d st h :
  tables_wf root (Some d) st h -> ~ internal st d -> source <> d ->
  (forall p, fd_paths st !! source = Some p -> h !! d = Some (OFile p)) ->
  wp (copy_fd_path source d st) h (fun st' h' => tables_wf root None st' h' /\
    eventfd_write_peers st' = eventfd_write_peers st /\ unseen st h st' h').
Proof.
  intros Hwf Hd Hne Hsrc. unfold copy_fd_path. destruct (tracked d) eqn:Ht; simpl.
  2:{ split_and!; [|done|by apply unseen_refl]. apply wf_fill with d; [done| |].
      - intros p E. apply (tw_path _ _ _ _ Hwf) in E as [E _]. congruence.
      - destruct (directory_streams st !! d) eqn:E; [|done].
        apply (tw_stream _ _ _ _ Hwf) in E as [E _]. congruence. }
  apply wp_bind. eapply wp_mono; [by apply close_stream_ok|].
  intros st1 h1 (Hwf1 & Hs1 & Hp1 & He1 & Hu1).
  assert (Hd1 : h1 !! d = h !! d) by (by apply (un_host _ _ _ _ Hu1)).
  destruct (if tracked source then fd_paths st1 !! source else None) as [p|] eqn:Ep.
  - assert (Hp : fd_paths st !! source = Some p) by (destruct (tracked source); congruence).
    eapply wp_mono; [apply (set_fd_path_ok (Some d)); [done|done| |]|].
    + by apply (tw_path _ _ _ _ Hwf) in Hp as (_ & ? & _).
    + rewrite Hd1. auto.
    + intros st2 h2 (-> & Hwf2 & Hq & Hs2 & He2 & Hu2). split_and!.
      * apply wf_fill with d; [done| |congruence]. intros q Eq. apply Hq in Eq as ->. rewrite Hd1. auto.
      * congruence.
      * by eapply unseen_trans.
  - cbn [wp]. split_and!; [|done|].
    + apply wf_fill with d; [by apply wf_delete_path| |done]. simpl. intros q.
      by rewrite lookup_delete_eq.
    + eapply unseen_trans; [done|]. by apply unseen_refl.
Qed.

End helpers.

(** ** The calls meet their specification *)

Definition abs (st : fd_state) (h : host) (v : fd_view) : Prop :=
  view st h (v_open v) /\ v_events v = eventfds st /\ v_memory v = fd_memory st.

Lemma contained_inside fs root missing nofollow p :
  contained fs root missing nofollow p -> inside root p.
Proof. intros [?|[[_ ?]|(comps & ? & ? & _)]]; [by left|by right; left|right; right; eauto]. Qed.

Lemma abs_unseen st h st' h' v :
  abs st h v -> unseen st h st' h' -> eventfd_write_peers st' = eventfd_write_peers st -> abs st' h' v.
Proof.
  intros (HV & He & Hm) Hu Hp. split_and!; [by apply (un_view _ _ _ _ Hu)| |].
  - unfold eventfds. by rewrite Hp.
  - by rewrite (un_memory _ _ _ _ Hu).
Qed.

Section refinement.
Context `{!HostErrno, !HostErrnoOk, !HostOpen, !HostSeek}.
Context (PATH_MAX : nat) (fs : host_fs) (off_t : Z -> Z) (errno_before : Z) (ps : path_state).
Implicit Types (st : fd_state) (h : host) (v : fd_view).
Notation root := (root_path ps).

(** The call leaves the tables in order and does what the specification says. *)
Definition met (c : fd_call) (v : fd_view) (out : Z * fd_state) (h' : host) : Prop :=
  tables_wf root None out.2 h' /\ exists v', abs out.2 h' v' /\ fd_spec root errno_before c v out.1 v'.

Lemma met_same c v st h r :
  tables_wf root None st h -> abs st h v -> fd_spec root errno_before c v r v -> met c v (r, st) h.
Proof. intros ? ? ?. split; [done|]. by exists v. Qed.

Lemma path_error_neg e :
  path_error errno_before e < 0 \/ (path_error errno_before e = 0 /\ errno_before = 0).
Proof.
  destruct e as [e|]; simpl; [left; apply linux_error_neg|].
  pose proof (linux_errno_number_sound errno_before) as [? Hz].
  destruct (decide (errno_before = 0)) as [E|E]; [right|left].
  - by rewrite (proj2 Hz E).
  - rewrite <- Hz in E. lia.
Qed.

Lemma done_or_error_neg e : done_or_error e <= 0.
Proof. destruct e as [e|]; simpl; [pose proof (linux_error_neg e); lia|lia]. Qed.

Hint Resolve linux_error_neg host_negative_neg path_error_neg done_or_error_neg : wp.

Lemma resolve_at_contains st directory_fd path missing nofollow p :
  resolve_at PATH_MAX fs st ps directory_fd path missing nofollow = Returns (Ok p) ->
  contained fs root missing nofollow p.
Proof.
  unfold resolve_at. destruct (directory_path st directory_fd path) as [[base|]|]; [| |done].
  - by intros [Hc _]%resolve_at_spec.
  - destruct nofollow; [by intros [Hc _]%(resolve_nofollow_contained _ _ _ _ missing)|
                        by intros [Hc _]%resolve_contained].
Qed.

Lemma open_ok st h v directory_fd path flags mode :
  tables_wf root None st h -> abs st h v ->
  wp (linux_open_path PATH_MAX fs errno_before st ps directory_fd path flags mode) h
    (met (COpen directory_fd path flags mode) v).
Proof.
  intros Hwf Habs. unfold linux_open_path. destruct (linux_open_flags flags) as [host_flags|].
  2:{ apply met_same; [done|done|]. left. split; [done|]. left. auto with wp. }
  unfold with_path. destruct (resolve_at _ _ _ _ _ _ _ _) as [[p|e]|] eqn:Er; [| |done].
  2:{ apply met_same; [done|done|]. left. auto with wp. }
  apply resolve_at_contains, contained_inside in Er. cbn [wp]. intros [e|fd] h1 Hstep.
  { simpl in Hstep. subst h1. apply met_same; [done|done|]. left.
    split; [done|]. left. auto with wp. }
  destruct Hstep as [[Hfd Hfree] ->].
  destruct (fresh_untracked _ _ _ _ Hwf Hfree) as (_ & _ & _ & Hi).
  assert (Hwf1 : tables_wf root None st (<[fd := OFile p]> h)) by (by apply wf_fresh).
  apply wp_bind. destruct Habs as (HV & He & Hm).
  assert (HV1 : view st (<[fd := OFile p]> h) (<[fd := OFile p]> (v_open v))) by (by apply view_insert).
  assert (Habs1 : abs st (<[fd := OFile p]> h) (FdView (<[fd := OFile p]> (v_open v)) (v_events v) (v_memory v)))
    by done.
  assert (Hspec : fd_spec root errno_before (COpen directory_fd path flags mode) v fd
    (FdView (<[fd := OFile p]> (v_open v)) (v_events v) (v_memory v))).
  { right. split; [done|]. split; [by eapply view_none|]. by exists p. }
  destruct (tracked fd) eqn:Et; simpl; [|split; [done|]; by eexists].
  intros copy h2 [-> Hc].
  destruct (set_fd_path_ok root None fd p st (<[fd := OFile p]> h) Hwf1 Et Er (lookup_insert_eq _ _ _)
    copy _ (conj eq_refl Hc)) as (_ & Hwf2 & _ & _ & Hp2 & Hu2).
  split; [exact Hwf2|]. eexists. split; [by eapply abs_unseen|]. exact Hspec.
Qed.

Lemma close_ok st h v fd :
  tables_wf root None st h -> abs st h v -> ~ internal st fd ->
  wp (linux_close_fd fd st) h (met (CClose fd) v).
Proof.
  intros Hwf (HV & He & Hm) Hi. unfold linux_close_fd. apply wp_bind.
  apply wp_mono with (fun st' h' => tables_wf root None st' h' /\ fd_paths st' !! fd = None /\
    eventfd_write_peers st' = delete fd (eventfd_write_peers st) /\
    directory_streams st' !! fd = None /\ unseen st h st' h').
  - destruct (tracked fd) eqn:Et.
    + apply wp_bind. eapply wp_mono; [by apply close_stream_ok|].
      intros st1 h1 (Hwf1 & Hs1 & Hp1 & He1 & Hu1).
      apply wp_bind. eapply wp_mono; [by apply release_ok|].
      intros st2 h2 (Hwf2 & He2 & Hp2 & Hs2 & Hu2). cbn [wp]. split_and!.
      * by apply wf_delete_path.
      * apply lookup_delete_eq.
      * simpl. congruence.
      * simpl. congruence.
      * eapply unseen_trans; [done|]. eapply unseen_trans; [done|]. by apply unseen_refl.
    + cbn [wp]. assert (Hno : forall A (m : gmap Z A), (forall x, m !! fd = Some x -> tracked fd = true) ->
        m !! fd = None).
      { intros A m Hx. apply eq_None_not_Some. intros [x E]. apply Hx in E. congruence. }
      split_and!; [done| | | |by apply unseen_refl].
      * apply Hno. intros p E. by apply (tw_path _ _ _ _ Hwf) in E as [? _].
      * rewrite delete_id; [done|]. apply Hno. intros p E. by apply (tw_peer _ _ _ _ Hwf) in E as [? _].
      * apply Hno. intros p E. by apply (tw_stream _ _ _ _ Hwf) in E as [? _].
  - intros st1 h1 (Hwf1 & Hp1 & He1 & Hs1 & Hu1). cbn [wp]. intros answer h2 ->.
    split; simpl.
    + apply wf_close; [done|done| |done|].
      * rewrite He1. apply lookup_delete_eq.
      * intros Hi1. by apply Hi, (un_internal _ _ _ _ Hu1).
    + eexists (FdView (delete fd (v_open v)) (v_events v ∖ {[fd]}) (v_memory v)).
      split; [|split; [auto with wp|done]]. split_and!; simpl.
      * by apply view_delete, (un_view _ _ _ _ Hu1).
      * unfold eventfds in *. rewrite He1, dom_delete_L. by f_equal.
      * by rewrite (un_memory _ _ _ _ Hu1).
Qed.

(** After the host has made [d] refer to what [source] refers to. *)
Lemma copy_ok st h source d o :
  tables_wf root None st h -> ~ internal st source -> ~ internal st d -> source <> d ->
  eventfd_write_peers st !! d = None -> h !! source = Some o ->
  wp (copy_fd_path source d st) (<[d := o]> h) (fun st' h' => tables_wf root None st' h' /\
    eventfd_write_peers st' = eventfd_write_peers st /\ fd_memory st' = fd_memory st /\
    forall V, view st h V -> view st' h' (<[d := o]> V)).
Proof.
  intros Hwf His Hid Hne Hp Ho.
  assert (Hdir : not_directory o).
  { intros p ->. apply His. right. by apply (tw_no_leak _ _ _ _ Hwf) in Ho. }
  eapply wp_mono; [apply (copy_fd_path_ok root)|].
  - by apply wf_replace.
  - done.
  - done.
  - intros p E. apply (tw_path _ _ _ _ Hwf) in E as (_ & _ & E). rewrite lookup_insert_eq.
    rewrite <- Ho. by apply E.
  - intros st' h' (Hwf' & Hp' & Hu'). split_and!; [done|done|apply (un_memory _ _ _ _ Hu')|].
    intros V HV. apply (un_view _ _ _ _ Hu'). by apply view_insert.
Qed.

Lemma wake_event st h v fd :
  tables_wf root None st h -> abs st h v -> is_wake_eventfd st fd = true <-> fd ∈ v_events v.
Proof.
  intros Hwf (_ & He & _). rewrite (wake_peer _ _ _ _ _ Hwf), He. unfold eventfds. by rewrite elem_of_dom.
Qed.

Lemma not_wake st h v fd :
  tables_wf root None st h -> abs st h v -> is_wake_eventfd st fd = false ->
  eventfd_write_peers st !! fd = None /\ fd ∉ v_events v.
Proof.
  intros Hwf (_ & He & _) Hw. rewrite He. unfold eventfds. rewrite not_elem_of_dom.
  cut (eventfd_write_peers st !! fd = None); [done|]. apply eq_None_not_Some. intros Hx.
  apply (wake_peer _ _ _ _ _ Hwf) in Hx. congruence.
Qed.

(** A duplicate in a new descriptor. *)
Lemma dup_new_ok st h v fd r o :
  tables_wf root None st h -> abs st h v -> ~ internal st fd -> is_wake_eventfd st fd = false ->
  h !! fd = Some o -> free h r ->
  wp (st' <- copy_fd_path fd r st;; Ret (r, st')) (<[r := o]> h) (fun out h' =>
    tables_wf root None out.2 h' /\ out.1 = r /\ exists v', abs out.2 h' v' /\
    0 <= out.1 /\ v_open v !! out.1 = None /\ duplicated v fd out.1 v').
Proof.
  intros Hwf Habs Hi Hw Ho [Hr Hfree]. destruct (not_wake _ _ _ _ Hwf Habs Hw) as [_ Hev].
  destruct (fresh_untracked _ _ _ _ Hwf Hfree) as (_ & Hpr & _ & Hir).
  destruct Habs as (HV & He & Hm). apply wp_bind. eapply wp_mono; [apply copy_ok|]; try done.
  { congruence. }
  intros st' h' (Hwf' & He' & Hm' & HV'). cbn [wp fst snd]. split_and!; [done|done|].
  exists (FdView (<[r := o]> (v_open v)) (v_events v ∖ {[r]}) (v_memory v)).
  unfold abs. split_and!; [by apply HV'| |simpl; congruence|done|by eapply view_none|].
  - simpl. unfold eventfds in *. rewrite He', He. apply not_elem_of_dom in Hpr. set_solver.
  - exists o. split_and!; [by eapply view_some|done|done].
Qed.

(** The duplicates of [dup] and [fcntl], as the code decides them. *)
Lemma new_refused st h v fd minimum :
  tables_wf root None st h -> abs st h v -> is_wake_eventfd st fd = true ->
  new_spec v fd minimum (- LINUX_EOPNOTSUPP) v.
Proof. intros Hwf Habs Hw%(wake_event _ _ _ _ Hwf Habs). unfold new_spec. by rewrite decide_True. Qed.

Lemma new_failed st h v fd minimum r :
  tables_wf root None st h -> abs st h v -> is_wake_eventfd st fd = false -> r < 0 ->
  new_spec v fd minimum r v.
Proof.
  intros Hwf Habs [_ Hw]%(not_wake _ _ _ _ Hwf Habs) Hr. unfold new_spec. rewrite decide_False by done.
  by left.
Qed.

Lemma new_made st h v fd minimum r v' :
  tables_wf root None st h -> abs st h v -> is_wake_eventfd st fd = false ->
  minimum <= r -> 0 <= r /\ v_open v !! r = None /\ duplicated v fd r v' -> new_spec v fd minimum r v'.
Proof.
  intros Hwf Habs [_ Hw]%(not_wake _ _ _ _ Hwf Habs) Hr (? & ? & ?). unfold new_spec.
  rewrite decide_False by done. by right.
Qed.

Lemma dup_ok st h v fd :
  tables_wf root None st h -> abs st h v -> ~ internal st fd ->
  wp (linux_dup fd st) h (met (CDup fd) v).
Proof.
  intros Hwf Habs Hi. unfold linux_dup. destruct (is_wake_eventfd st fd) eqn:Hw.
  { apply met_same; [done|done|]. by apply (new_refused st h). }
  cbn [wp]. intros [e|r] h1 Hstep.
  { simpl in Hstep. subst. apply met_same; [done|done|]. apply (new_failed st h); auto with wp. }
  destruct Hstep as (o & Ho & Hfree & ->). eapply wp_mono; [by apply dup_new_ok|].
  intros [r' st'] h' (Hwf' & _ & v' & Habs' & Hspec). split; [done|]. exists v'. split; [done|].
  apply (new_made st h); [done|done|done|by destruct Hspec|done].
Qed.

(** The common end of [dup2] and [dup3]: the host has been asked. *)
Lemma dup_over_ok st h v source d o :
  tables_wf root None st h -> abs st h v -> ~ internal st source -> ~ internal st d ->
  source <> d -> is_wake_eventfd st source = false -> h !! source = Some o ->
  eventfd_write_peers st !! d = None ->
  wp (st' <- copy_fd_path source d st;; Ret (d, st')) (<[d := o]> h) (fun out h' =>
    tables_wf root None out.2 h' /\ out.1 = d /\ exists v', abs out.2 h' v' /\ duplicated v source d v').
Proof.
  intros Hwf Habs His Hid Hne Hw Ho Hp. destruct (not_wake _ _ _ _ Hwf Habs Hw) as [_ Hev].
  destruct Habs as (HV & He & Hm). apply wp_bind. eapply wp_mono; [by apply copy_ok|].
  intros st' h' (Hwf' & He' & Hm' & HV'). cbn [wp fst snd]. split_and!; [done|done|].
  exists (FdView (<[d := o]> (v_open v)) (v_events v ∖ {[d]}) (v_memory v)).
  unfold abs. split_and!; [by apply HV'| |simpl; congruence|].
  - simpl. unfold eventfds in *. rewrite He', He. apply not_elem_of_dom in Hp. set_solver.
  - exists o. split_and!; [by eapply view_some|done|done].
Qed.

(** [release_wake_eventfd] as the specification sees it. *)
Lemma release_abs st h v d :
  tables_wf root None st h -> abs st h v ->
  wp (release_wake_eventfd d st) h (fun st' h' => tables_wf root None st' h' /\
    abs st' h' (FdView (v_open v) (v_events v ∖ {[d]}) (v_memory v)) /\
    eventfd_write_peers st' !! d = None /\ unseen st h st' h' /\
    (forall x, is_wake_eventfd st x = false -> is_wake_eventfd st' x = false)).
Proof.
  intros Hwf (HV & He & Hm). eapply wp_mono; [by apply release_ok|].
  intros st' h' (Hwf' & Hp' & _ & _ & Hu). unfold abs. split_and!; [done| | | | |done|].
  - by apply (un_view _ _ _ _ Hu).
  - simpl. unfold eventfds in *. by rewrite Hp', dom_delete_L, He.
  - simpl. by rewrite (un_memory _ _ _ _ Hu).
  - rewrite Hp'. apply lookup_delete_eq.
  - intros x. unfold is_wake_eventfd, write_peer. rewrite Hp'.
    destruct (decide (x = d)) as [->|Hx]; [|by rewrite lookup_delete_ne].
    rewrite lookup_delete_eq. intros _. simpl. by rewrite andb_false_r.
Qed.

(** The ends of [dup2] and [dup3]. *)
Lemma over_refused st h v source d :
  tables_wf root None st h -> abs st h v -> is_wake_eventfd st source = true ->
  over_spec v source d (- LINUX_EOPNOTSUPP) v.
Proof. intros Hwf Habs Hw%(wake_event _ _ _ _ Hwf Habs). unfold over_spec. by rewrite decide_True. Qed.

Lemma over_failed st h v source d e :
  tables_wf root None st h -> abs st h v -> is_wake_eventfd st source = false ->
  over_spec v source d (linux_error e) v.
Proof.
  intros Hwf Habs [_ Hw]%(not_wake _ _ _ _ Hwf Habs). unfold over_spec. rewrite decide_False by done.
  right. left. split; [auto with wp|done].
Qed.

(** The part of [dup2] and [dup3] after the test of [source]; the host replaces
    [d], then [finish] may fail or goes on with [copy_fd_path]. *)
Lemma over_ok st h v source d (finish : Z -> fd_state -> io (Z * fd_state)) :
  tables_wf root None st h -> abs st h v -> ~ internal st source -> ~ internal st d ->
  source <> d -> is_wake_eventfd st source = false -> is_Some (h !! source) ->
  (forall st' h' Q, is_Some (h' !! d) ->
     wp (st1 <- copy_fd_path source d st';; Ret (d, st1)) h' Q -> wp (finish d st') h' Q) ->
  wp (st' <- release_wake_eventfd d st;;
      answer <~ Dup2 source d;;
      match answer with inl e => Ret (linux_error e, st') | inr result => finish result st' end) h
    (fun out h' => tables_wf root None out.2 h' /\
       exists v', abs out.2 h' v' /\ over_spec v source d out.1 v').
Proof.
  intros Hwf Habs His Hid Hne Hw [os Hos] Hfin. apply wp_bind. eapply wp_mono; [by apply release_abs|].
  intros st1 h1 (Hwf1 & Habs1 & Hp1 & Hu1 & Hw1). cbn [wp].
  destruct (not_wake _ _ _ _ Hwf Habs Hw) as [_ Hev].
  assert (Hov : forall r v', (r = d /\ duplicated v source d v') \/ (r < 0 /\ v' = v) \/
      (r < 0 /\ is_Some (v_open v !! source) /\ v' = FdView (v_open v) (v_events v ∖ {[d]}) (v_memory v)) ->
    over_spec v source d r v') by (intros r v'; unfold over_spec; by rewrite decide_False).
  intros [e|r] h2 Hstep.
  - simpl in Hstep. subst h2. split; [done|]. eexists. split; [exact Habs1|]. apply Hov. right. right.
    split_and!; [simpl; auto with wp| |done]. exists os. destruct Habs as [HV _]. by eapply view_some.
  - destruct Hstep as (-> & _ & o & Ho & ->). apply Hfin; [rewrite lookup_insert_eq; by eexists|].
    eapply wp_mono; [eapply (dup_over_ok st1); try done|].
    + intros Hx. by apply His, (un_internal _ _ _ _ Hu1).
    + intros Hx. by apply Hid, (un_internal _ _ _ _ Hu1).
    + by apply Hw1.
    + intros [r st'] h' (Hwf' & Hr & v' & Habs' & o' & Ho' & _ & ->). simpl in *. subst r.
      split; [done|]. eexists. split; [done|]. apply Hov. left. split; [done|].
      exists o'. split_and!; [done|done|]. simpl. f_equal. set_solver.
Qed.

Lemma same_open st h v fd :
  abs st h v -> ~ internal st fd -> v_open v !! fd = h !! fd.
Proof.
  intros [HV _] Hi. destruct (h !! fd) as [o|] eqn:E; [by eapply view_some|by eapply view_none].
Qed.

(** A call whose specification is [over_spec]. *)
Lemma met_over c h v source d (p : io (Z * fd_state)) :
  (forall r v', over_spec v source d r v' -> fd_spec root errno_before c v r v') ->
  wp p h (fun out h' => tables_wf root None out.2 h' /\
    exists v', abs out.2 h' v' /\ over_spec v source d out.1 v') ->
  wp p h (met c v).
Proof.
  intros Hspec Hp. eapply wp_mono; [exact Hp|]. intros [r st'] h' (Hwf' & v' & Habs' & Hs).
  split; [done|]. exists v'. split; [done|]. by apply Hspec.
Qed.

Lemma dup2_ok st h v source d :
  tables_wf root None st h -> abs st h v -> ~ internal st source -> ~ internal st d ->
  wp (linux_dup2 source d st) h (met (CDup2 source d) v).
Proof.
  intros Hwf Habs His Hid. unfold linux_dup2. destruct (source =? d) eqn:Esd.
  { cbn [wp]. intros answer h1 [-> Ha]. apply met_same; [done|done|]. simpl. rewrite Esd. split; [done|].
    rewrite (same_open _ _ _ _ Habs His).
    destruct answer as [e|flags]; [rewrite Ha; auto with wp|by destruct Ha as [_ [o ->]]]. }
  apply Z.eqb_neq in Esd as Hne.
  apply (met_over _ _ _ source d); [simpl; by rewrite Esd|].
  destruct (is_wake_eventfd st source) eqn:Hw.
  { split; [done|]. exists v. split; [done|]. by apply (over_refused st h). }
  cbn [wp]. intros [e|flags] h1 [-> Ha].
  { split; [done|]. exists v. split; [done|]. by apply (over_failed st h). }
  apply (over_ok st h v source d (fun result st' => st'' <- (if negb (source =? result)
    then copy_fd_path source result st' else Ret st');; Ret (result, st''))); try done; [by destruct Ha|].
  intros st' h' Q _. by rewrite Esd.
Qed.

Lemma dup3_ok st h v source d flags :
  tables_wf root None st h -> abs st h v -> ~ internal st source -> ~ internal st d ->
  wp (linux_dup3 source d flags st) h (met (CDup3 source d flags) v).
Proof.
  intros Hwf Habs His Hid. unfold linux_dup3.
  destruct ((source =? d) || negb (flags .&~ LINUX_O_CLOEXEC =? 0)) eqn:Ef.
  { apply met_same; [done|done|]. unfold fd_spec. by rewrite Ef. }
  assert (Hne : source <> d). { apply orb_false_iff in Ef as [Ef _]. by apply Z.eqb_neq. }
  apply (met_over _ _ _ source d); [unfold fd_spec; by rewrite Ef|].
  destruct (is_wake_eventfd st source) eqn:Hw.
  { split; [done|]. exists v. split; [done|]. by apply (over_refused st h). }
  cbn [wp]. intros [e|fl] h1 [-> Ha].
  { split; [done|]. exists v. split; [done|]. by apply (over_failed st h). }
  apply (over_ok st h v source d (fun result st' => if has flags LINUX_O_CLOEXEC then
    failed <~ SetFd d true;;
    match failed with
    | Some e => Ret (linux_error e, st')
    | None => st'' <- copy_fd_path source d st';; Ret (result, st'')
    end else st'' <- copy_fd_path source d st';; Ret (result, st''))); try done; [by destruct Ha|].
  intros st' h' Q Hopen HQ. cond; [|done]. cbn [wp]. intros failed h2 [-> Hf].
  apply Hf in Hopen as ->. done.
Qed.

Lemma fcntl_ok st h v fd command argument :
  tables_wf root None st h -> abs st h v -> ~ internal st fd ->
  wp (linux_fcntl64 off_t fd command argument st) h (met (CFcntl fd command argument) v).
Proof.
  intros Hwf Habs Hi. unfold linux_fcntl64.
  destruct ((command =? 0) || (command =? 1030)) eqn:Ec; cbn [andb].
  - destruct (is_wake_eventfd st fd) eqn:Hw.
    { apply met_same; [done|done|]. unfold fd_spec. rewrite Ec. by apply (new_refused st h). }
    apply wp_bind. unfold duplicate. cbn [wp]. intros [e|r] h1 Hstep.
    { simpl in Hstep. subst h1. apply met_same; [done|done|]. unfold fd_spec. rewrite Ec.
      apply (new_failed st h); auto with wp. }
    destruct Hstep as (Hmin & o & Ho & Hfree & ->).
    assert (Hdone : wp (st' <- copy_fd_path fd r st;; Ret (r, st')) (<[r := o]> h)
      (met (CFcntl fd command argument) v)).
    { eapply wp_mono; [by apply dup_new_ok|]. intros [r' st'] h' (Hwf' & Hr & v' & Habs' & Hspec).
      split; [done|]. exists v'. split; [done|]. unfold fd_spec. rewrite Ec. simpl in Hr. subst r'.
      by apply (new_made st h). }
    destruct (command =? 1030); [|exact Hdone]. cbn [wp]. intros failed h2 [-> Hf].
    rewrite (proj2 Hf); [exact Hdone|]. rewrite lookup_insert_eq. by eexists.
  - assert (Hmet : forall r, met (CFcntl fd command argument) v (r, st) h).
    { intros r. apply met_same; [done|done|]. simpl. by rewrite Ec. }
    cond; [cbn [wp]; intros answer h1 [-> _]; apply Hmet|].
    cond; [cbn [wp]; intros answer h1 [-> _]; apply Hmet|].
    cond; [cbn [wp]; intros answer h1 [-> _]; apply Hmet|].
    cond.
    { cbn [wp]. intros [e|current] h1 [-> _]; [apply Hmet|].
      destruct (linux_open_flags _); [|apply Hmet]. cbn [wp]. intros answer h1 ->. apply Hmet. }
    cond; [|apply Hmet]. unfold linux_lock. apply wp_bind.
    destruct (mem_load _ _ _) as [guest|]; [|done]. cbn [load_or_fault wp].
    destruct (lock_of_guest _); [|apply Hmet]. cond; [apply Hmet|]. cbn [wp].
    intros [e|lock] h1 Hstep; simpl in Hstep; subst h1; [apply Hmet|]. cond; [|apply Hmet].
    split; [by apply wf_set_memory|]. destruct Habs as (HV & He & Hm).
    eexists (FdView (v_open v) (v_events v) _). split; [split_and!; [exact HV|exact He|reflexivity]|].
    unfold fd_spec. cbn [fst snd v_open v_events]. rewrite Ec. bprop.
    split_and!; [reflexivity|reflexivity|]. intros Hc. by destruct Hc.
Qed.

Lemma configure_pipe_ok h r w nonblock cloexec :
  wp (configure_pipe r w nonblock cloexec) h (fun failed h' =>
    match failed with None => h' = h | Some _ => h' = delete w (delete r h) end).
Proof.
  unfold configure_pipe.
  repeat first [ progress cbn [wp] | cond | done
    | match goal with
      | |- forall (_ : option errno), _ => intros ?
      | |- forall (_ : gmap Z object), _ => intros ?
      | |- _ -> _ => let H := fresh in intros H; simpl in H; first [destruct H as [-> _]|subst]
      | |- context [match ?a with Some _ => _ | None => _ end] => destruct a
      end ].
Qed.

Lemma pipe_undone (h : host) r w a b :
  h !! r = None -> h !! w = None -> r <> w ->
  delete w (delete r (<[r := a]> (<[w := b]> h))) = h.
Proof.
  intros Hr Hw Hne. rewrite delete_insert_id by (by rewrite lookup_insert_ne). by rewrite delete_insert_id.
Qed.

(** A descriptor that refers to nothing the tables know. *)
Lemma copy_none_ok st h d :
  tables_wf root None st h -> ~ internal st d -> 0 <= d -> eventfd_write_peers st !! d = None ->
  wp (copy_fd_path (-1) d st) h (fun st' h' => tables_wf root None st' h' /\
    eventfd_write_peers st' = eventfd_write_peers st /\ unseen st h st' h').
Proof.
  intros Hwf Hi Hd Hp. apply (copy_fd_path_ok root); [|done|lia|].
  - destruct Hwf as [H3 H4 H5 H6 H7 H8]. split; try done.
    + intros fd p E. destruct (H3 _ _ E) as (? & ? & Hx). split_and!; [done|done|]. auto.
    + intros fd p E. destruct (H4 _ _ E) as (? & ? & _ & ?). split_and!; [done|done|congruence|done].
    + intros fd s E. destruct (H6 _ _ E) as (? & p & ? & ?). split; [done|]. exists p. auto.
  - intros p E. by apply (tw_path _ _ _ _ Hwf) in E as [E _].
Qed.

Lemma pipe_ok st h v guest_descriptors flags :
  tables_wf root None st h -> abs st h v ->
  wp (linux_pipe guest_descriptors flags st) h (met (CPipe guest_descriptors flags) v).
Proof.
  intros Hwf Habs. unfold linux_pipe.
  assert (Hmet : forall r, r < 0 -> met (CPipe guest_descriptors flags) v (r, st) h).
  { intros r Hr. apply met_same; [done|done|]. by left. }
  cond; [apply Hmet; auto with wp|]. cbn [wp]. intros [e|[a b]] h1 Hstep.
  { simpl in Hstep. subst h1. apply Hmet. auto with wp. }
  destruct Hstep as ([Ha0 Ha] & [Hb0 Hb] & Hne & n & _ & ->).
  apply wp_bind. eapply wp_mono; [apply configure_pipe_ok|].
  intros [e|] h1 ->; [rewrite pipe_undone by done; apply Hmet; auto with wp|].
  destruct (fresh_untracked _ _ _ _ Hwf Ha) as (_ & Hpa & _ & Hia).
  destruct (fresh_untracked _ _ _ _ Hwf Hb) as (_ & Hpb & _ & Hib).
  destruct Habs as (HV & He & Hm).
  assert (Hwf1 : tables_wf root None st (<[a := OPipeRead n]> (<[b := OPipeWrite n]> h))).
  { apply wf_fresh; [by apply wf_fresh|by rewrite lookup_insert_ne|done]. }
  assert (HV1 : view st (<[a := OPipeRead n]> (<[b := OPipeWrite n]> h))
    (<[a := OPipeRead n]> (<[b := OPipeWrite n]> (v_open v)))).
  { apply view_insert; [|done]. by apply view_insert. }
  apply wp_bind. eapply wp_mono; [by apply copy_none_ok|]. intros st2 h2 (Hwf2 & Hp2 & Hu2).
  apply wp_bind. eapply wp_mono; [apply copy_none_ok; [done| |done|congruence]|].
  { intros Hx. by apply Hib, (un_internal _ _ _ _ Hu2). }
  intros st3 h3 (Hwf3 & Hp3 & Hu3). pose proof (unseen_trans _ _ _ _ _ _ Hu2 Hu3) as Hu.
  cbn [wp]. split; [by apply wf_set_memory|].
  eexists (FdView (<[a := OPipeRead n]> (<[b := OPipeWrite n]> (v_open v))) (v_events v) _).
  split; [split_and!; [by apply (un_view _ _ _ _ Hu)| |reflexivity]|].
  - simpl. rewrite He. unfold eventfds. simpl. by rewrite Hp3, Hp2.
  - right. split; [done|]. exists a, b, n.
    split_and!; [done|by eapply view_none|by eapply view_none|].
    simpl. by rewrite (un_memory _ _ _ _ Hu), Hm.
Qed.

Lemma wf_eventfd st h a b n :
  tables_wf root None st h -> tracked a = true -> 0 <= b -> h !! a = None -> h !! b = None -> a <> b ->
  tables_wf root None (set_peers (insert a (b + 1)) st)
    (<[a := OPipeRead n]> (<[b := OPipeWrite n]> h)).
Proof.
  intros Hwf Ht Hb0 Ha Hb Hne.
  assert (Hwf1 : tables_wf root None st (<[a := OPipeRead n]> (<[b := OPipeWrite n]> h))).
  { apply wf_fresh; [by apply wf_fresh|by rewrite lookup_insert_ne|done]. }
  destruct (fresh_untracked _ _ _ _ Hwf Hb) as (_ & _ & _ & Hib).
  assert (Hnew : forall e, eventfd_write_peers st !! e <> Some (b + 1)).
  { intros e E. apply Hib. left. by exists e. }
  destruct Hwf1 as [H3 H4 H5 H6 H7 H8]. split; try done; simpl.
  - intros fd p E. apply lookup_insert_Some in E as [[<- <-]|[_ E]]; [|by apply H4].
    split_and!; [done|lia|done|]. exists n. rewrite lookup_insert_eq. split; [done|].
    replace (b + 1 - 1) with b by lia. by rewrite lookup_insert_ne, lookup_insert_eq.
  - intros fd fd' p E E'. apply lookup_insert_Some in E as [[<- <-]|[_ E]];
      apply lookup_insert_Some in E' as [[<- E']|[_ E']]; try done.
    + by apply Hnew in E'.
    + subst p. by apply Hnew in E.
    + eauto.
Qed.

(** The hidden write end of a new eventfd is internal, and nothing else changes. *)
Lemma view_eventfd st h V a b n :
  tables_wf root None st h -> view st h V -> h !! a = None -> h !! b = None -> a <> b ->
  view (set_paths (delete a) (set_peers (insert a (b + 1)) st))
    (<[a := OPipeRead n]> (<[b := OPipeWrite n]> h)) (<[a := OPipeRead n]> V).
Proof.
  intros Hwf HV Ha Hb Hne x o. simpl.
  destruct (fresh_untracked _ _ _ _ Hwf Ha) as (_ & Hpa & _ & Hia).
  assert (Hint : internal (set_paths (delete a) (set_peers (insert a (b + 1)) st)) x <->
    x = b \/ internal st x).
  { unfold internal. simpl. setoid_rewrite lookup_insert_Some. split.
    - intros [[e [[_ E]|[_ E]]]|?]; [left; lia|right; left; by exists e|by right; right].
    - intros [->|[[e E]|?]]; [left; exists a; by left| |by right].
      left. exists e. right. split; [congruence|done]. }
  rewrite lookup_insert_Some, (HV x o), !lookup_insert_Some, Hint. split.
  - intros [[<- <-]|(Hax & Hx & Hni)].
    + split; [by left|]. intros [?|?]; [congruence|done].
    + assert (x <> b) by congruence. split; [right; split; [done|]; right; split; [congruence|done]|].
      intros [?|?]; done.
  - intros [[[<- <-]|(Hax & [[<- _]|[_ Hx]])] Hni]; [by left| |]; [exfalso; apply Hni; by left|].
    right. split_and!; [done|done|]. intros ?. apply Hni. by right.
Qed.

Lemma eventfd_ok st h v initial_value flags :
  tables_wf root None st h -> abs st h v ->
  wp (linux_eventfd2 initial_value flags st) h (met (CEventfd initial_value flags) v).
Proof.
  intros Hwf Habs. unfold linux_eventfd2.
  assert (Hmet : forall r, r < 0 -> met (CEventfd initial_value flags) v (r, st) h).
  { intros r Hr. apply met_same; [done|done|]. by left. }
  cond; [apply Hmet; auto with wp|]. cond; [apply Hmet; unfold LINUX_EOPNOTSUPP; lia|].
  cbn [wp]. intros [e|[a b]] h1 Hstep.
  { simpl in Hstep. subst h1. apply Hmet. auto with wp. }
  destruct Hstep as ([Ha0 Ha] & [Hb0 Hb] & Hne & n & _ & ->). destruct (tracked a) eqn:Et; cbn [negb].
  2:{ cbn [wp]. intros _ h1 ->. intros _ h1 ->. rewrite pipe_undone by done. apply Hmet. auto with wp. }
  apply wp_bind. eapply wp_mono; [apply configure_pipe_ok|].
  intros [e|] h1 ->; [rewrite pipe_undone by done; apply Hmet; auto with wp|].
  destruct (fresh_untracked _ _ _ _ Hwf Ha) as (Hpa & _ & Hsa & Hia).
  destruct Habs as (HV & He & Hm). unfold copy_fd_path. rewrite Et. unfold close_stream.
  simpl directory_streams. rewrite Hsa. simpl. split; simpl.
  { by apply wf_delete_path, wf_eventfd. }
  exists (FdView (<[a := OPipeRead n]> (v_open v)) ({[a]} ∪ v_events v) (v_memory v)).
  split; [split_and!; [|simpl; unfold eventfds; simpl; by rewrite dom_insert_L, He|done]|].
  - by eapply view_eventfd.
  - right. split_and!; [lia|lia|done|by eapply view_none|]. by exists n.
Qed.

(** The entry of a stream that has been read. *)
Lemma internal_same_stream st fd s unread x :
  directory_streams st !! fd = Some s ->
  internal (set_streams (insert fd (Stream (ds_fd s) unread)) st) x <-> internal st x.
Proof.
  intros Hs. unfold internal. simpl. setoid_rewrite lookup_insert_Some. split.
  - intros [?|(d & s' & [[<- <-]|[_ E]] & <-)]; [by left|right; eauto..].
  - intros [?|(d & s' & E & <-)]; [by left|]. right. destruct (decide (fd = d)) as [->|Hne].
    + eexists d, _. split; [left; split; reflexivity|]. simpl. congruence.
    + exists d, s'. split; [by right|done].
Qed.

Lemma wf_same_stream st h fd s unread :
  tables_wf root None st h -> directory_streams st !! fd = Some s ->
  tables_wf root None (set_streams (insert fd (Stream (ds_fd s) unread)) st) h.
Proof.
  intros [H3 H4 H5 H6 H7 H8] Hs. split; try done; simpl.
  - intros x s' E. apply lookup_insert_Some in E as [[<- <-]|[_ E]]; [by apply (H6 _ _ Hs)|by apply H6].
  - intros x x' s1 s2 E1 E2. apply lookup_insert_Some in E1 as [[<- <-]|[_ E1]];
      apply lookup_insert_Some in E2 as [[<- <-]|[_ E2]]; simpl; intros Heq; [done|..].
    + by apply (H7 _ _ _ _ Hs E2).
    + by apply (H7 _ _ _ _ E1 Hs).
    + by apply (H7 _ _ _ _ E1 E2).
  - intros x p E. destruct (H8 _ _ E) as (d & s' & E' & <-). destruct (decide (fd = d)) as [->|Hne].
    + eexists d, _. rewrite lookup_insert_eq. split; [done|]. simpl. congruence.
    + exists d, s'. by rewrite lookup_insert_ne.
Qed.

(** The entry of a stream that has been opened. *)
Lemma wf_new_stream st h fd p k unread :
  tables_wf root None st h -> tracked fd = true -> fd_paths st !! fd = Some p ->
  directory_streams st !! fd = None -> h !! k = None ->
  tables_wf root None (set_streams (insert fd (Stream k unread)) st) (<[k := ODirectory p]> h).
Proof.
  intros Hwf Ht Hp Hs Hk. destruct (fresh_untracked _ _ _ _ Hwf Hk) as (Np & Ne & Ns & Ni).
  destruct Hwf as [H3 H4 H5 H6 H7 H8]. split; simpl.
  - intros x q E. destruct (H3 _ _ E) as (? & ? & Hx). split_and!; [done|done|]. intros Hh.
    rewrite lookup_insert_ne by congruence. auto.
  - intros x q E. destruct (H4 _ _ E) as (? & ? & ? & n & E1 & E2). split_and!; try done. exists n.
    by rewrite !lookup_insert_ne by congruence.
  - done.
  - intros x s E. apply lookup_insert_Some in E as [[<- <-]|[_ E]]; simpl.
    + split; [done|]. exists p. rewrite lookup_insert_eq. split; [done|]. intros _.
      destruct (H3 _ _ Hp) as (_ & _ & Hx). rewrite lookup_insert_ne by congruence. auto.
    + destruct (H6 _ _ E) as (? & q & E1 & E2). split; [done|]. exists q.
      rewrite lookup_insert_ne by congruence. split; [done|]. intros Hh.
      rewrite lookup_insert_ne by congruence. auto.
  - assert (Hno : forall x s, directory_streams st !! x = Some s -> ds_fd s <> k).
    { intros x s E <-. by eapply Ni, stream_internal. }
    intros x x' s1 s2 E1 E2. apply lookup_insert_Some in E1 as [[<- <-]|[_ E1]];
      apply lookup_insert_Some in E2 as [[<- <-]|[_ E2]]; simpl; intros Heq; try done.
    + by destruct (Hno _ _ E2).
    + by destruct (Hno _ _ E1).
    + eauto.
  - intros x q E. apply lookup_insert_Some in E as [[<- _]|[_ E]].
    + exists fd. eexists. rewrite lookup_insert_eq. done.
    + destruct (H8 _ _ E) as (d & s & E' & <-). exists d, s.
      rewrite lookup_insert_ne by congruence. done.
Qed.

Lemma view_new_stream st h V fd p k unread :
  tables_wf root None st h -> view st h V -> directory_streams st !! fd = None -> h !! k = None ->
  view (set_streams (insert fd (Stream k unread)) st) (<[k := ODirectory p]> h) V.
Proof.
  intros Hwf HV Hs Hk x o. rewrite (HV x o), lookup_insert_Some.
  assert (Hint : internal (set_streams (insert fd (Stream k unread)) st) x <-> x = k \/ internal st x).
  { unfold internal. simpl. setoid_rewrite lookup_insert_Some. split.
    - intros [?|(d & s & [[<- <-]|[_ E]] & <-)]; [by right; left|by left|right; right; eauto].
    - intros [->|[?|(d & s & E & <-)]]; [|by left|].
      + right. eexists fd, _. split; [left; split; reflexivity|done].
      + right. exists d, s. split; [right; split; [congruence|done]|done]. }
  rewrite Hint. split.
  - intros [Hx Hni]. assert (x <> k) by congruence. split; [right; split; [congruence|done]|].
    intros [?|?]; done.
  - intros [[[<- _]|[_ Hx]] Hni]; [exfalso; apply Hni; by left|]. split; [done|].
    intros ?. apply Hni. by right.
Qed.

Lemma host_read_ok st h v fd fd' buffer len len' :
  tables_wf root None st h -> abs st h v -> len <= len' ->
  (fd ∈ v_events v -> 8 <= len' /\ len <= 8) ->
  wp (host_read fd' buffer len st) h (met (CRead fd buffer len') v).
Proof.
  intros Hwf Habs Hlen Hev. unfold host_read. cbn [wp]. intros [e|bytes] h1 [-> Hb].
  - apply met_same; [done|done|]. left. auto with wp.
  - destruct (Hb bytes eq_refl) as [Hn _]. destruct Habs as (HV & He & Hm).
    split; [by apply wf_set_memory|].
    eexists (FdView (v_open v) (v_events v) _). split; [split_and!; [exact HV|exact He|reflexivity]|].
    right. exists bytes. simpl. rewrite <- Hm. split_and!; [done|lia| |done]. intros [??]%Hev. lia.
Qed.

Lemma read_ok st h v fd buffer len :
  tables_wf root None st h -> abs st h v ->
  wp (linux_read fd buffer len st) h (met (CRead fd buffer len) v).
Proof.
  intros Hwf Habs. unfold linux_read. destruct (is_wake_eventfd st fd) eqn:Hw.
  - cond; [apply met_same; [done|done|]; left; auto with wp|apply host_read_ok; try done; lia].
  - apply host_read_ok; try done. intros Hev. by apply (not_wake _ _ _ _ Hwf Habs) in Hw as [_ ?].
Qed.

Lemma write_ok st h v fd buffer len :
  tables_wf root None st h -> abs st h v ->
  wp (linux_write fd buffer len st) h (met (CWrite fd buffer len) v).
Proof.
  intros Hwf Habs. unfold linux_write, linux_eventfd_write. destruct (is_wake_eventfd st fd) eqn:Hw.
  - assert (Hneg : met (CWrite fd buffer len) v (host_negative EINVAL, st) h).
    { apply met_same; [done|done|]. split; [done|]. left. auto with wp. }
    cond; [done|]. destruct (mem_load _ _ _) as [bytes|] eqn:El; [|done]. cbn [load_or_fault bind].
    cond; [done|]. cbn [wp]. intros answer h1 [-> Hn]. apply met_same; [done|done|]. split; [done|].
    destruct answer as [e|n]; simpl; [left; auto with wp|]. specialize (Hn n eq_refl). right.
    split; [lia|]. intros _. split; [lia|]. exists bytes. split; [|lia].
    by rewrite (proj2 (proj2 Habs)).
  - cbn [wp]. intros answer h1 [-> Hn]. apply met_same; [done|done|]. split; [done|].
    destruct answer as [e|n]; simpl; [left; auto with wp|]. right. split; [by apply Hn|].
    intros Hev. by apply (not_wake _ _ _ _ Hwf Habs) in Hw as [_ ?].
Qed.

(** A program without host calls. *)
Lemma total_length_wp m vectors count total h (Q : option Z -> host -> Prop) :
  (forall a, Q a h) -> wp (total_length m vectors count total) h Q.
Proof.
  revert vectors total. induction count as [|count IH]; intros vectors total HQ; cbn [total_length].
  { apply HQ. }
  destruct (load32 m (vectors + 4)); [|done]. cbn [load_or_fault bind]. cond; [apply HQ|by apply IH].
Qed.

Lemma writev_ok st h v fd vectors count :
  tables_wf root None st h -> abs st h v ->
  wp (linux_writev_compat fd vectors count st) h (met (CWritev fd vectors count) v).
Proof.
  intros Hwf Habs. unfold linux_writev_compat. cond; [by apply met_same|].
  apply wp_bind, total_length_wp. intros [total|]; [|by apply met_same].
  cond; [by apply met_same|]. cbn [wp]. intros [] h1 ->; [|by apply met_same]. cbn [negb].
  destruct (gather _ _ _); [|done]. cbn [load_or_fault bind wp]. intros answer h1 [-> _].
  by apply met_same.
Qed.

Lemma fill_entries_wp directory unread buffer capacity used m h Q :
  (forall a, Q a h) -> wp (fill_entries directory unread buffer capacity used m) h Q.
Proof.
  revert used m. induction unread as [|entry rest IH]; intros used m HQ; cbn [fill_entries].
  - cbn [wp]. intros e h1 ->. apply HQ.
  - cond; [apply HQ|by apply IH].
Qed.

Lemma read_directory_ok st h v fd buffer capacity directory :
  (forall unread, tables_wf root None (set_streams (insert fd (Stream (ds_fd directory) unread)) st) h /\
     view (set_streams (insert fd (Stream (ds_fd directory) unread)) st) h (v_open v)) ->
  v_events v = eventfds st ->
  wp (read_directory fd buffer capacity directory st) h (met (CGetdents fd buffer capacity) v).
Proof.
  intros Hok He. unfold read_directory. apply wp_bind, fill_entries_wp.
  intros [[[unread used] m] error]. destruct (Hok unread) as [Hwf HV].
  assert (Hmet : forall r, met (CGetdents fd buffer capacity) v (r, set_memory (fun _ => m)
    (set_streams (insert fd (Stream (ds_fd directory) unread)) st)) h).
  { intros r. split; [by apply wf_set_memory|]. exists (FdView (v_open v) (v_events v) m).
    split; [by split_and!|done]. }
  destruct error; [cond|]; apply Hmet.
Qed.

Lemma getdents_ok st h v fd buffer capacity :
  tables_wf root None st h -> abs st h v ->
  wp (linux_getdents64 fd buffer capacity st) h (met (CGetdents fd buffer capacity) v).
Proof.
  intros Hwf Habs. unfold linux_getdents64. destruct (tracked fd) eqn:Et; cbn [negb]; [|by apply met_same].
  pose proof Habs as (HV & He & Hm).
  destruct (directory_streams st !! fd) as [directory|] eqn:Es.
  - apply read_directory_ok; [|done]. intros unread. split; [by apply wf_same_stream|].
    intros x o. rewrite (HV x o). by rewrite internal_same_stream.
  - destruct (fd_paths st !! fd) as [p|] eqn:Ep; [|by apply met_same]. cbn [wp].
    intros [e|directory] h1 Hstep; [simpl in Hstep; subst h1; by apply met_same|].
    destruct Hstep as [[H3 Hfree] ->]. apply read_directory_ok; [|done]. intros unread. split.
    + by apply wf_new_stream.
    + by eapply view_new_stream.
Qed.

Lemma serve_ok st h v c :
  tables_wf root None st h -> abs st h v -> Forall (fun fd => ~ internal st fd) (named c) ->
  wp (serve PATH_MAX fs off_t errno_before ps c st) h (met c v).
Proof.
  intros Hwf Habs Hn. destruct c; cbn [serve named] in *; repeat (apply Forall_cons in Hn as [? Hn]).
  - by apply open_ok.
  - by apply close_ok.
  - by apply dup_ok.
  - by apply dup2_ok.
  - by apply dup3_ok.
  - by apply fcntl_ok.
  - by apply pipe_ok.
  - by apply eventfd_ok.
  - by apply read_ok.
  - by apply write_ok.
  - by apply writev_ok.
  - by apply getdents_ok.
Qed.

End refinement.

(** ** Sequences of calls *)

Section sequences.
Context `{!HostErrno, !HostErrnoOk, !HostOpen, !HostSeek}.
Context (PATH_MAX : nat) (off_t : Z -> Z) (root : list ascii).

(** A call of the guest, which names no internal descriptor, or another part of
    the emulator that opens or closes a descriptor for itself or for the guest
    (a socket, the pipe of a signal wait).  The file system, the working directory
    and [errno] may be anything at each call. *)
Inductive fd_step : fd_state * host -> fd_state * host -> Prop :=
| step_call fs errno_before cwd c st h r st' h' :
    Forall (fun fd => ~ internal st fd) (named c) ->
    runs (serve PATH_MAX fs off_t errno_before (PathState root cwd) c st) h (r, st') h' ->
    fd_step (st, h) (st', h')
| step_other_open st h fd o :
    free h fd -> not_directory o -> fd_step (st, h) (st, <[fd := o]> h)
| step_other_close st h fd :
    fd_paths st !! fd = None -> eventfd_write_peers st !! fd = None ->
    directory_streams st !! fd = None -> ~ internal st fd -> fd_step (st, h) (st, delete fd h)
| step_memory st h f : fd_step (st, h) (set_memory f st, h).

Definition fd_start (m : gmap Z Z) (h : host) : fd_state * host := (FdState ∅ ∅ ∅ m, h).

Lemma start_wf m h : (forall fd p, h !! fd <> Some (ODirectory p)) ->
  tables_wf root None (FdState ∅ ∅ ∅ m) h.
Proof.
  intros Hd. split; simpl; try (intros *; rewrite ?lookup_empty; done).
  - intros fd p E. by apply Hd in E.
Qed.

(** A view exists for every state. *)
Lemma internal_dec st fd : Decision (internal st fd).
Proof.
  refine (cast_if_or (decide (map_Exists (fun _ p => p = fd + 1) (eventfd_write_peers st)))
    (decide (map_Exists (fun _ s => ds_fd s = fd) (directory_streams st)))).
  - left. destruct select (map_Exists _ _) as (e & p & E & ->). by exists e.
  - right. destruct select (map_Exists _ _) as (d & s & E & Hs). by exists d, s.
  - intros [[e E]|(d & s & E & Hs)].
    + destruct select (~ map_Exists (fun _ p => p = fd + 1) _). by exists e, (fd + 1).
    + destruct select (~ map_Exists (fun _ s => ds_fd s = fd) _). by exists d, s.
Defined.

Lemma abs_exists st h : exists v, abs st h v.
Proof.
  pose proof (internal_dec st) as Hdec.
  exists (FdView (filter (fun '(fd, _) => ~ internal st fd) h) (eventfds st) (fd_memory st)).
  split_and!; [|done|done]. intros fd o. simpl. by rewrite map_lookup_filter_Some.
Qed.

Lemma fd_step_wf s s' : fd_step s s' -> tables_wf root None s.1 s.2 -> tables_wf root None s'.1 s'.2.
Proof.
  intros [fs e cwd c st h r st' h' Hn Hrun|st h fd o [_ Hfree] Ho|st h fd Hp He Hs Hi|st h f] Hwf; simpl in *.
  - destruct (abs_exists st h) as [v Habs].
    pose proof (serve_ok PATH_MAX fs off_t e (PathState root cwd) st h v c Hwf Habs Hn) as Hok.
    by destruct (wp_runs _ _ _ _ _ Hok Hrun) as [Hwf' _].
  - by apply wf_fresh.
  - by apply wf_close.
  - by apply wf_set_memory.
Qed.
End sequences.

(** The tables of the emulator and the host's descriptors stay in step under any
    sequence of calls of a guest that only uses descriptors it was given, and of
    other openings and closings: every recorded path is the one the descriptor was
    opened with and lies inside the root, every eventfd is the read end of a pipe
    whose write end is kept for it alone, every directory stream belongs to the
    directory its descriptor refers to, and no stream is leaked. *)
Theorem fd_reachable_wf `{!HostErrno, !HostErrnoOk, !HostOpen, !HostSeek} (PATH_MAX : nat)
    (off_t : Z -> Z) (root : list ascii) (m : gmap Z Z) (h : host) (s : fd_state * host) :
  (forall fd p, h !! fd <> Some (ODirectory p)) ->
  rtc (fd_step PATH_MAX off_t root) (fd_start m h) s ->
  tables_wf root None s.1 s.2.
Proof.
  intros Hd Hrun.
  assert (Hwf : tables_wf root None (fd_start m h).1 (fd_start m h).2) by (by apply start_wf).
  revert Hwf. induction Hrun as [|s1 s2 s3 Hstep _ IH]; intros Hwf; [done|].
  by apply IH, (fd_step_wf PATH_MAX off_t _ _ _ Hstep).
Qed.

(** C16: For a guest that names none of the emulator's own descriptors (a
    hypothesis on the descriptors the call names), every call on descriptors does
    what [fd_spec] says of the descriptors the guest sees, the emulator's own ones
    staying out of sight, and leaves the tables in order.  [open] gives a descriptor
    that was not in use, for a file inside the root, or fails (with the value 0
    only when the failure sets no [errno] and none was set before); [close] removes
    one descriptor; [dup], [dup2], [dup3] and [fcntl] duplicate one descriptor into
    a new one (not below [fcntl]'s minimum) or into the one named, or fail; [dup2]
    of a descriptor onto itself returns it when it is open and fails otherwise, and
    [dup3] refuses it.  An eventfd is one descriptor, made only from the value 0
    with both flags, never duplicated (EOPNOTSUPP), read and written in 8 bytes,
    written only with the value 1.  A failing call changes no descriptor; a [dup2]
    or [dup3] that the host refuses at its last step turns an eventfd at its
    destination into a plain pipe.  For the other commands of [fcntl], [writev] and
    [getdents64] only this is said: no descriptor changes. *)
Theorem fd_calls_refine `{!HostErrno, !HostErrnoOk, !HostOpen, !HostSeek} (PATH_MAX : nat)
    (fs : host_fs) (off_t : Z -> Z) (errno_before : Z) (ps : path_state) (c : fd_call)
    (st st' : fd_state) (h h' : host) (v : fd_view) (r : Z) :
  tables_wf (root_path ps) None st h -> abs st h v ->
  Forall (fun fd => ~ internal st fd) (named c) ->
  runs (serve PATH_MAX fs off_t errno_before ps c st) h (r, st') h' ->
  tables_wf (root_path ps) None st' h' /\
  exists v', abs st' h' v' /\ fd_spec (root_path ps) errno_before c v r v'.
Proof.
  intros Hwf Habs Hn Hrun.
  exact (wp_runs _ _ _ _ _ (serve_ok PATH_MAX fs off_t errno_before ps st h v c Hwf Habs Hn) Hrun).
Qed.

(** ** Witnesses *)

Module DescriptorExamples.
#[local] Existing Instance ExampleErrno.host_errno.
#[local] Existing Instance ExampleErrno.host_errno_ok.
#[local] Existing Instance example_open.
#[local] Instance example_seek : HostSeek := {| SEEK_SET := 0; SEEK_END := 2 |}.

(** A number above all those an index function gives to the entries. *)
Definition above (index : Z -> object -> Z) (h : host) : Z :=
  map_fold (fun fd o n => Z.max n (index fd o + 1)) 0 h.

Lemma above_spec index h : 0 <= above index h /\ forall fd o, h !! fd = Some o -> index fd o < above index h.
Proof.
  unfold above. apply (map_fold_weak_ind (fun n h => 0 <= n /\ forall fd o, h !! fd = Some o -> index fd o < n)).
  - split; [lia|]. intros fd o. by rewrite lookup_empty.
  - intros fd o h' n Hfd [H1 H2]. split; [lia|]. intros x o' E.
    apply lookup_insert_Some in E as [[<- <-]|[_ E]]; [lia|]. apply H2 in E. lia.
Qed.

Definition top : host -> Z := above (fun fd _ => fd).
Definition next_pipe : host -> Z :=
  above (fun _ o => match o with OPipeRead n | OPipeWrite n => n | _ => 0 end).

Lemma above_free h fd : top h <= fd -> free h fd.
Proof.
  intros Hfd. destruct (above_spec (fun fd _ => fd) h) as [H1 H2]. unfold top in Hfd.
  split; [lia|]. destruct (h !! fd) as [o|] eqn:E; [|done]. apply H2 in E. lia.
Qed.

Definition duplicate_of (h : host) (fd minimum : Z) : (errno + Z) * host :=
  match h !! fd with
  | Some o => let new := Z.max minimum (top h) in (inr new, <[new := o]> h)
  | None => (inl EBADF, h)
  end.

(** A host that gives out the first descriptor above all others and knows no
    files but those it opens. *)
Definition answer (B : Set) (c : host_call B) (h : host) : B * host :=
  match c in host_call B return B * host with
  | Open path _ _ => (inr (top h), <[top h := OFile path]> h)
  | Close fd => (None, delete fd h)
  | Pipe => (inr (top h, top h + 1),
      <[top h := OPipeRead (next_pipe h)]> (<[top h + 1 := OPipeWrite (next_pipe h)]> h))
  | DupFd fd minimum => duplicate_of h fd minimum
  | Dup fd => duplicate_of h fd 0
  | Dup2 source destination =>
      match h !! source with
      | Some o => if 0 <=? destination then (inr destination, <[destination := o]> h) else (inl EBADF, h)
      | None => (inl EBADF, h)
      end
  | GetFd fd => (if h !! fd then inr 0 else inl EBADF, h)
  | SetFd fd _ => (if h !! fd then None else Some EBADF, h)
  | GetFl _ => (inr 0, h)
  | SetFl _ _ => (None, h)
  | Lock _ _ lock => (inr lock, h)
  | Opendir path => (inr (Stream (top h) []), <[top h := ODirectory path]> h)
  | Closedir directory => (tt, delete (ds_fd directory) h)
  | ReaddirEnd _ => (None, h)
  | Strdup text => (Some text, h)
  | Malloc _ => (true, h)
  | Read _ _ => (inl EIO, h)
  | Write _ _ _ => (inl EIO, h)
  | Stat _ => (inl ENOENT, h)
  | Lstat _ => (inl ENOENT, h)
  | Readlink _ _ => (inl ENOENT, h)
  | CurrentTime => (inr 0, h)
  | Socket _ _ _ => (inr (top h), <[top h := OOther]> h)
  | Socketpair _ _ _ => (inr (top h, top h + 1), <[top h := OOther]> (<[top h + 1 := OOther]> h))
  | Accept _ _ => (inr (top h, Sockaddr (replicate 128 0) 0), <[top h := OOther]> h)
  | Bind _ _ | Connect _ _ | Listen _ _ | Shutdown _ _ | Setsockopt _ _ _ _ => (None, h)
  | Getsockname _ | Getpeername _ => (inl EBADF, h)
  | Send _ _ _ _ | Sendto _ _ _ _ _ => (inl EIO, h)
  | Recv _ _ _ => (inl EIO, h)
  | Recvfrom _ _ _ _ => (inl EIO, h)
  | Getsockopt _ _ _ => (inr ([], 0), h)
  | Sendmsg _ _ _ _ _ => (inl EIO, h)
  | Recvmsg _ _ _ _ _ => (inl EIO, h)
  | Identity _ => (1, h)
  | Umask _ => (0x12, h)
  | Getpgid _ | Setsid | Fork | Pwrite _ _ _ _ => (inl EIO, h)
  | Lseek _ offset _ => (inr offset, h)
  | Getrlimit _ => (inr (0, 0), h)
  | Waitpid _ _ => (inl EIO, h)
  | ChildrenUsage => (inl EIO, h)
  | Uname => (inr (chars "device"), h)
  | Pread _ _ _ => (inl EIO, h)
  | Readv _ _ _ => (inl EIO, h)
  | Fstat _ => (inl EIO, h)
  | Fstatvfs _ => (inl EIO, h)
  | Setpgid _ _ | Setuid _ | Setgid _ | Setrlimit _ _ _ | Kill _ _ | Fsync _ | Ftruncate _ _ => (None, h)
  | Mkdir _ _ | Rmdir _ | Unlink _ | Rename _ _ | Access _ _ | Link _ _ | Symlink _ _
  | Chmod _ _ | Utime _ _ => (None, h)
  end.

Lemma answer_law (B : Set) (c : host_call B) h : host_step c h (answer B c h).1 (answer B c h).2.
Proof.
  destruct c; simpl; unfold duplicate_of; try done;
    try (by destruct (h !! _) eqn:E; simpl; [exists o; split; [done|]; split; [apply above_free; lia|]|]).
  - split; [apply above_free; lia|done].
  - split_and!; [apply above_free; lia|apply above_free; lia|lia|].
    exists (next_pipe h). split; [|done]. intros fd o E.
    destruct (above_spec (fun _ o => match o with OPipeRead n | OPipeWrite n => n | _ => 0 end) h) as [_ H2].
    apply H2 in E. fold (next_pipe h) in E. split; intros ->; lia.
  - destruct (h !! fd) as [o|] eqn:E; simpl; [|done]. split; [lia|]. exists o. split; [done|].
    split; [apply above_free; lia|done].
  - destruct (h !! source) as [o|] eqn:E; [|done]. destruct (0 <=? destination) eqn:E'; [|done].
    bprop. simpl. split_and!; [done|lia|]. by exists o.
  - split; [done|]. by destruct (h !! fd).
  - split; [done|]. destruct (h !! fd); simpl; split; done.
  - split; [done|]. intros flags [= <-]. lia.
  - split; [apply above_free; simpl; lia|done].
  - split; [done|by left].
  - split; [apply above_free; lia|done].
  - split_and!; [apply above_free; lia|apply above_free; lia|lia|done].
  - split; [apply above_free; lia|done].
Qed.

(** Standard input, output and error are open. *)
Definition h0 : host := <[0 := OOther]> (<[1 := OOther]> (<[2 := OOther]> ∅)).
Definition start : fd_state := FdState ∅ ∅ ∅ ∅.
Definition serve0 := serve 64 GuestPathExamples.fs0 (fun x => x) 0 GuestPathExamples.st0.
Definition after {A} (o : option (Z * A * host)) (default : A * host) : A * host :=
  match o with Some (_, st, h) => (st, h) | None => default end.

(** An eventfd is made, a directory opened and duplicated. *)
Definition s1 : fd_state * host :=
  after (execute answer (serve0 (CEventfd 0 0x80800) start) h0) (start, h0).
Definition s2 : fd_state * host :=
  after (execute answer (serve0 (COpen LINUX_AT_FDCWD (Some (chars "/a")) 0 0) s1.1) s1.2) s1.
Definition s3 : fd_state * host := after (execute answer (serve0 (CDup 5) s2.1) s2.2) s2.

Example s3_open : fd_paths s3.1 !! 6 = Some (chars "/r/a") /\ write_peer s3.1 3 = 5.
Proof. vm_compute. done. Qed.

Lemma fd_reachable_wf_witness : tables_wf (chars "/r") None s1.1 s1.2.
Proof.
  apply (fd_reachable_wf 64 (fun x => x) (chars "/r") ∅ h0 s1).
  - intros fd p E. unfold h0 in E. repeat (apply lookup_insert_Some in E as [[_ ?]|[_ E]]; [done|]).
    by rewrite lookup_empty in E.
  - eapply rtc_l; [|apply rtc_refl].
    apply (step_call 64 (fun x => x) (chars "/r") GuestPathExamples.fs0 0 (chars "/")
      (CEventfd 0 0x80800) start h0 3 s1.1 s1.2); [apply Forall_nil; done|].
    apply (execute_runs answer); [apply answer_law|]. vm_compute. reflexivity.
Defined.

(** The open file before it is duplicated, and the descriptor that results. *)
Definition h1 : host := <[3 := OFile (chars "/r/a")]> h0.
Definition t1 : fd_state := FdState {[3 := chars "/r/a"]} ∅ ∅ ∅.
Definition t2 : fd_state * host := after (execute answer (serve0 (CDup 3) t1) h1) (t1, h1).

Lemma t1_wf : tables_wf (chars "/r") None t1 h1.
Proof.
  split; simpl; try (intros *; rewrite ?lookup_empty; done).
  - intros fd p E. apply lookup_singleton_Some in E as [<- <-]. split_and!; [done| |done].
    right. right. exists [chars "a"]. split; [|done]. repeat constructor; try done. set_solver.
  - intros fd p E. unfold h1, h0 in E. repeat (apply lookup_insert_Some in E as [[_ ?]|[_ E]]; [done|]).
    by rewrite lookup_empty in E.
Qed.

Lemma fd_calls_refine_witness :
  exists v', abs t2.1 t2.2 v' /\
    fd_spec (chars "/r") 0 (CDup 3) (FdView h1 ∅ ∅) 4 v'.
Proof.
  apply (fd_calls_refine 64 GuestPathExamples.fs0 (fun x => x) 0 GuestPathExamples.st0 (CDup 3)
    t1 t2.1 h1 t2.2 (FdView h1 ∅ ∅) 4).
  - exact t1_wf.
  - split_and!; [|done|done]. intros fd o. split; [intros E; split; [exact E|]|by intros [E _]].
    intros [[e E']|(d & s & E' & _)]; simpl in E'; by rewrite lookup_empty in E'.
  - constructor; [|constructor]. intros [[e E']|(d & s & E' & _)]; simpl in E'; by rewrite lookup_empty in E'.
  - apply (execute_runs answer); [apply answer_law|]. vm_compute. reflexivity.
Defined.
End DescriptorExamples.
