(* ===== verification/Directories.v ===== *)
(** * Reading directories: what the guest finds in the buffer of [getdents64]

    The records [linux_getdents64] of [src/src/linux_syscall.c] writes, read back
    the way a Linux C library reads them ([parse_dirents]). *)

From Stdlib Require Import Ascii String.
From S2P Require Import Prelude Errno Bytes Abi GuestPath HostCalls Descriptors.
Open Scope Z_scope.

(** ** The guest's side *)

Fixpoint until_zero (bytes : list Z) : list Z :=
  match bytes with
  | [] => []
  | b :: bytes => if b =? 0 then [] else b :: until_zero bytes
  end.

(** The [struct linux_dirent64] records of a buffer: inode, offset, name.  Each
    step skips [d_reclen] bytes, so that the length of the buffer is fuel enough. *)
Fixpoint parse_dirents (fuel : nat) (bytes : list Z) : option (list (Z * Z * list Z)) :=
  match bytes with
  | [] => Some []
  | _ =>
    match fuel with
    | O => None
    | S fuel =>
      let reclen := Z.to_nat (load_le 2 16 bytes) in
      if (reclen <? 20)%nat || (length bytes <? reclen)%nat then None
      else match parse_dirents fuel (drop reclen bytes) with
           | None => None
           | Some rest =>
             Some ((load_le 8 0 bytes, load_le 8 8 bytes, until_zero (drop 19 (take reclen bytes))) :: rest)
           end
    end
  end.

(** What a host entry is to the guest: 64-bit numbers and the bytes of the name. *)
Definition guest_entry (entry : dirent) : Z * Z * list Z :=
  (d_ino entry mod 2 ^ 64, d_offset entry mod 2 ^ 64, bytes_of (d_name entry)).

(** A name of the host: no zero character, at most 65000 characters. *)
Definition name_ok (entry : dirent) : Prop :=
  0 ∉ bytes_of (d_name entry) /\ Z.of_nat (length (d_name entry)) <= 65000.

(** ** The bytes of a record *)

(** Writing into the zeroed part of a buffer. *)
Lemma inserts_fill offset (pre xs : list Z) k :
  length pre = offset -> (length xs <= k)%nat ->
  list_inserts offset xs (pre ++ replicate k 0) = (pre ++ xs) ++ replicate (k - length xs) 0.
Proof.
  intros <- Hk. apply list_eq. intros i.
  destruct (decide (i < length pre)%nat) as [H1|H1].
  { rewrite list_lookup_inserts_lt by done. by rewrite !lookup_app_l by (rewrite ?length_app; lia). }
  destruct (decide (i < length pre + length xs)%nat) as [H2|H2].
  - rewrite list_lookup_inserts by (rewrite ?length_app, ?length_replicate; lia).
    rewrite lookup_app_l by (rewrite length_app; lia). by rewrite lookup_app_r by lia.
  - rewrite list_lookup_inserts_ge by lia. rewrite !lookup_app_r by (rewrite ?length_app; lia).
    rewrite length_app. destruct (decide (i < length pre + k)%nat) as [H3|H3].
    + rewrite !lookup_replicate_2 by lia. done.
    + rewrite !(proj2 (lookup_ge_None _ _)); [done|rewrite length_replicate; lia..].
Qed.

Lemma store_fill n offset (pre : list Z) v k :
  length pre = offset -> (n <= k)%nat ->
  store_le n offset v (pre ++ replicate k 0) = (pre ++ le_bytes n v) ++ replicate (k - n) 0.
Proof.
  intros Hp Hk. unfold store_le. rewrite inserts_fill by (rewrite ?length_le_bytes; lia).
  by rewrite length_le_bytes.
Qed.

Lemma load_le_app n offset (pre post : list Z) v :
  length pre = offset ->
  load_le n offset (pre ++ le_bytes n v ++ post) = v mod 2 ^ (8 * Z.of_nat n).
Proof.
  intros <-. unfold load_le. rewrite drop_app_length, take_app_le by (rewrite length_le_bytes; lia).
  rewrite take_ge by (rewrite length_le_bytes; lia). apply le_value_bytes.
Qed.

Lemma record_length_spec entry :
  let n := Z.of_nat (length (d_name entry)) in
  20 + n <= record_length entry <= 27 + n /\ record_length entry mod 8 = 0.
Proof.
  intros n. unfold record_length. replace (19 + (Z.of_nat _ + 1) + 7) with (n + 27) by (subst n; lia).
  change 7 with (Z.ones 3). rewrite Z.ldiff_ones_r, Z.shiftr_div_pow2, Z.shiftl_mul_pow2 by lia.
  change (2 ^ 3) with 8. split; [pose proof (Nat2Z.is_nonneg (length (d_name entry))); mlia|].
  apply Z.mod_mul. lia.
Qed.

Lemma length_bytes_of s : length (bytes_of s) = length s.
Proof. apply List.length_map. Qed.

(** A record byte by byte. *)
Lemma record_bytes_eq entry :
  let n := Z.to_nat (record_length entry) in
  record_bytes entry =
  (le_bytes 8 (d_ino entry) ++ le_bytes 8 (d_offset entry) ++ le_bytes 2 (record_length entry) ++ [0])
  ++ bytes_of (d_name entry) ++ 0 :: replicate (n - 20 - length (d_name entry)) 0.
Proof.
  intros n. pose proof (record_length_spec entry) as [Hn _]. simpl in Hn. unfold record_bytes. fold n.
  assert (Hln : (20 + length (d_name entry) <= n)%nat) by (subst n; lia).
  change (replicate n 0) with ([] ++ replicate n 0). rewrite (store_fill 8 0 []) by (done || lia).
  cbn [app]. set (b8 := le_bytes 8 (d_ino entry)).
  assert (H8 : length b8 = 8%nat) by apply length_le_bytes.
  rewrite (store_fill 8 8 b8) by lia. set (b16 := b8 ++ le_bytes 8 (d_offset entry)).
  assert (H16 : length b16 = 16%nat) by (subst b16; rewrite length_app, length_le_bytes; lia).
  rewrite (store_fill 2 16 b16) by lia. set (b18 := b16 ++ le_bytes 2 (record_length entry)).
  assert (H18 : length b18 = 18%nat) by (subst b18; rewrite length_app, length_le_bytes; lia).
  rewrite (store_fill 1 18 b18) by lia. set (b19 := b18 ++ le_bytes 1 0).
  assert (H19 : length b19 = 19%nat) by (subst b19; rewrite length_app, length_le_bytes; lia).
  rewrite (inserts_fill 19 b19) by (rewrite ?length_app, ?length_bytes_of; simpl; lia).
  rewrite length_app, length_bytes_of. subst b19 b18 b16. change (le_bytes 1 0) with [0].
  cbn [length]. replace (n - 8 - 8 - 2 - 1 - (length (d_name entry) + 1))%nat
    with (n - 20 - length (d_name entry))%nat by lia.
  by rewrite <- !app_assoc.
Qed.

Lemma length_record entry : length (record_bytes entry) = Z.to_nat (record_length entry).
Proof.
  rewrite record_bytes_eq. cbv zeta. rewrite !length_app, !length_le_bytes. cbn [length].
  rewrite length_replicate, length_bytes_of. pose proof (record_length_spec entry) as [Hn _].
  simpl in Hn. lia.
Qed.

Lemma until_zero_app s rest : 0 ∉ s -> until_zero (s ++ 0 :: rest) = s.
Proof.
  induction s as [|b s IH]; intros Hs; simpl; [done|].
  rewrite (proj2 (Z.eqb_neq b 0)) by (intros ->; apply Hs; left). f_equal. apply IH. set_solver.
Qed.

(** One record at the front of a buffer. *)
Lemma parse_record fuel entry rest :
  name_ok entry ->
  parse_dirents (S fuel) (record_bytes entry ++ rest) =
  match parse_dirents fuel rest with
  | Some entries => Some (guest_entry entry :: entries)
  | None => None
  end.
Proof.
  intros [Hz Hl]. pose proof (record_length_spec entry) as [Hn _]. cbv zeta in Hn.
  pose proof (length_record entry) as Hlen.
  assert (Heq := record_bytes_eq entry). cbv zeta in Heq.
  set (b := record_bytes entry) in *. set (n := Z.to_nat (record_length entry)) in *.
  set (tail := bytes_of (d_name entry) ++ 0 :: replicate (n - 20 - length (d_name entry)) 0) in *.
  set (ino := le_bytes 8 (d_ino entry)) in *. set (off := le_bytes 8 (d_offset entry)) in *.
  assert (Hrec : load_le 2 16 (b ++ rest) = record_length entry).
  { rewrite Heq.
    replace (((ino ++ off ++ le_bytes 2 (record_length entry) ++ [0]) ++ tail) ++ rest)
      with ((ino ++ off) ++ le_bytes 2 (record_length entry) ++ ([0] ++ tail ++ rest))
      by (by rewrite <- !app_assoc).
    assert (Hp : length (ino ++ off) = 16%nat) by (rewrite length_app; subst ino off; by rewrite !length_le_bytes).
    rewrite load_le_app by done. apply Z.mod_small.
    change (2 ^ (8 * Z.of_nat 2)) with 65536. lia. }
  assert (Hino : load_le 8 0 (b ++ rest) = d_ino entry mod 2 ^ 64).
  { rewrite Heq, <- !app_assoc. by apply (load_le_app 8 0 []). }
  assert (Hoff : load_le 8 8 (b ++ rest) = d_offset entry mod 2 ^ 64).
  { rewrite Heq, <- !app_assoc. assert (H8 : length ino = 8%nat) by apply length_le_bytes.
    by apply (load_le_app 8 8 ino). }
  assert (Hname : until_zero (drop 19 (take n (b ++ rest))) = bytes_of (d_name entry)).
  { rewrite take_app_le by lia. rewrite take_ge by lia. rewrite Heq.
    rewrite drop_app_le, drop_ge by (rewrite !length_app; subst ino off; by rewrite !length_le_bytes).
    by apply until_zero_app. }
  cbn [parse_dirents]. rewrite Hrec. fold n. rewrite Hino, Hoff, Hname.
  rewrite drop_app_le, drop_ge by lia. cbn [app].
  rewrite (proj2 (Nat.ltb_ge n 20)) by lia.
  rewrite (proj2 (Nat.ltb_ge (length (b ++ rest)) n)) by (rewrite length_app; lia). cbn [orb].
  destruct (b ++ rest) eqn:Eb; [|done].
  apply (f_equal length) in Eb. rewrite length_app, Hlen in Eb. simpl in Eb. lia.
Qed.

(** The contents of a buffer. *)
Definition records (entries : list dirent) : list Z := concat (map record_bytes entries).

Lemma parse_records entries :
  Forall name_ok entries ->
  parse_dirents (length (records entries)) (records entries) = Some (map guest_entry entries).
Proof.
  intros Hok. enough (Hgen : forall fuel, (length (records entries) <= fuel)%nat ->
    parse_dirents fuel (records entries) = Some (map guest_entry entries)) by by apply Hgen.
  induction Hok as [|entry entries Hok _ IH]; intros fuel Hf; [by destruct fuel|].
  unfold records in *. simpl in *. rewrite length_app, length_record in Hf.
  pose proof (record_length_spec entry) as [Hn _]. cbv zeta in Hn.
  destruct fuel as [|fuel]; [lia|]. rewrite parse_record by done. rewrite IH by lia. done.
Qed.

(** ** One call *)

Lemma insert_store_comm m a b c ys :
  a < c -> mem_store (<[a := b]> m) c ys = <[a := b]> (mem_store m c ys).
Proof.
  revert c. induction ys as [|y ys IH]; intros c Hc; simpl; [done|].
  rewrite IH by lia. by rewrite insert_insert_ne by lia.
Qed.

(** Storing one buffer right after another. *)
Lemma mem_store_seq m a xs ys :
  mem_store (mem_store m a xs) (a + Z.of_nat (length xs)) ys = mem_store m a (xs ++ ys).
Proof.
  revert a. induction xs as [|x xs IH]; intros a; [by rewrite Z.add_0_r|]. cbn [mem_store length app].
  rewrite insert_store_comm by lia. f_equal. rewrite <- IH. f_equal. lia.
Qed.

(** No entry is left that would fit. *)
Definition full (rest : list dirent) (room : Z) : Prop :=
  match rest with [] => True | entry :: _ => room < record_length entry end.

Lemma fill_entries_spec directory unread buffer capacity used m h :
  0 <= used <= capacity ->
  always (fill_entries directory unread buffer capacity used m) h (fun out h' =>
    let '(rest, used', m', error) := out in
    h' = h /\ exists taken, unread = taken ++ rest /\
      used' = used + Z.of_nat (length (records taken)) /\ used' <= capacity /\
      m' = mem_store m (buffer + used) (records taken) /\ full rest (capacity - used') /\
      (error <> None -> rest = [])).
Proof.
  revert used m. induction unread as [|entry rest IH]; intros used m Hu; cbn [fill_entries].
  - cbn [always]. split; [by exists None, h|]. intros e h' ->. split; [done|]. exists [].
    split_and!; try done; simpl; lia.
  - pose proof (record_length_spec entry) as [Hn _]. cbv zeta in Hn.
    destruct (capacity - used <? record_length entry) eqn:E; bprop.
    + cbn [always]. split; [done|]. exists []. rewrite Z.add_0_r. split_and!; try done; lia.
    + eapply always_mono; [apply IH; lia|]. intros [[[rest' used'] m'] error] h'.
      intros (-> & taken & -> & -> & Hle & -> & Hf & He). split; [done|]. exists (entry :: taken).
      unfold records. cbn [map concat]. rewrite length_app, length_record.
      split_and!; [done|lia|done| |done|done].
      rewrite <- mem_store_seq, length_record. f_equal. lia.
Qed.

Lemma le_records taken : Forall is_byte (records taken).
Proof.
  unfold records. apply Forall_concat, Forall_map, Forall_true. intros entry.
  rewrite record_bytes_eq. cbv zeta. repeat (apply Forall_app; split); try apply le_bytes_byte.
  - by repeat constructor.
  - unfold bytes_of. apply Forall_map, Forall_true. intros c. unfold is_byte.
    pose proof (N_ascii_bounded c). simpl. lia.
  - constructor; [done|]. by apply Forall_replicate.
Qed.

Section getdents.
Context `{!HostErrno, !HostErrnoOk}.
Implicit Types (st : fd_state) (h : host).

(** What one call of [getdents64] does to the directory of a descriptor. *)
Definition call_result (fd buffer capacity : Z) (directory : stream) (st : fd_state) (r : Z)
    (st' : fd_state) : Prop :=
  exists taken rest, ds_left directory = taken ++ rest /\
    directory_streams st' !! fd = Some (Stream (ds_fd directory) rest) /\
    ((taken = [] /\ rest = [] /\ exists e, r = linux_error e) \/
     (r = Z.of_nat (length (records taken)) /\ r <= capacity /\
      fd_memory st' = mem_store (fd_memory st) buffer (records taken) /\
      full rest (capacity - r))).

Lemma getdents_call fd buffer capacity directory st h :
  tracked fd = true -> directory_streams st !! fd = Some directory -> 0 <= capacity <= INT_MAX ->
  always (linux_getdents64 fd buffer capacity st) h (fun out h' =>
    call_result fd buffer capacity directory st out.1 out.2).
Proof.
  intros Ht Hs Hc. unfold linux_getdents64. rewrite Ht, Hs. cbn [negb]. unfold read_directory.
  apply always_bind. eapply always_mono; [apply fill_entries_spec; lia|].
  intros [[[rest used] m] error] h' (-> & taken & Hl & -> & Hle & -> & Hf & He).
  rewrite Z.add_0_l in *. rewrite Z.add_0_r.
  assert (Hok : call_result fd buffer capacity directory st (s32 (Z.of_nat (length (records taken))))
    (set_memory (fun _ => mem_store (fd_memory st) buffer (records taken))
      (set_streams (insert fd (Stream (ds_fd directory) rest)) st))).
  { exists taken, rest. split_and!; [done|apply lookup_insert_eq|]. right.
    rewrite s32_small by lia. done. }
  destruct error as [e|]; [|exact Hok]. destruct (_ =? 0) eqn:E; [|exact Hok]. bprop.
  exists taken, rest. split_and!; [done|apply lookup_insert_eq|]. left.
  assert (taken = []) as ->.
  { destruct taken as [|entry taken]; [done|]. unfold records in E. cbn [map concat] in E.
    rewrite length_app, length_record in E. pose proof (record_length_spec entry) as [Hn _].
    cbv zeta in Hn. lia. }
  split_and!; [done|by apply He|by exists e].
Qed.

(** ** The loop of a C library *)

Inductive listing : Type :=
| Listed (entries : list (Z * Z * list Z))
| Failed (r : Z)
| Garbled
| OutOfFuel.

(** [getdents64] until it returns 0, the records of each buffer in turn. *)
Fixpoint list_directory (fuel : nat) (fd buffer capacity : Z) (st : fd_state) : io (listing * fd_state) :=
  match fuel with
  | O => Ret (OutOfFuel, st)
  | S fuel =>
    out <- linux_getdents64 fd buffer capacity st;;
    let '(r, st) := out in
    if r =? 0 then Ret (Listed [], st)
    else if r <? 0 then Ret (Failed r, st)
    else
      match mem_load (fd_memory st) buffer (Z.to_nat r) with
      | None => Fault
      | Some bytes =>
        match parse_dirents (length bytes) bytes with
        | None => Ret (Garbled, st)
        | Some entries =>
          rest <- list_directory fuel fd buffer capacity st;;
          let '(listed, st) := rest in
          Ret (match listed with Listed more => Listed (entries ++ more) | other => other end, st)
        end
      end
  end.

Lemma list_directory_ok fuel fd buffer capacity directory st h :
  tracked fd = true -> directory_streams st !! fd = Some directory -> 0 <= capacity <= INT_MAX ->
  Forall name_ok (ds_left directory) ->
  Forall (fun entry => record_length entry <= capacity) (ds_left directory) ->
  (length (ds_left directory) < fuel)%nat ->
  always (list_directory fuel fd buffer capacity st) h (fun out h' =>
    out.1 = Listed (map guest_entry (ds_left directory)) \/ exists e, out.1 = Failed (linux_error e)).
Proof.
  intros Ht Hs Hc Hok Hfit. revert directory st h Hs Hok Hfit.
  induction fuel as [|fuel IH]; intros directory st h Hs Hok Hfit Hfuel; [lia|]. cbn [list_directory].
  apply always_bind. eapply always_mono; [by eapply getdents_call|].
  intros [r st1] h1 (taken & rest & Hl & Hs1 & Hcase). simpl in Hs1, Hcase. rewrite Hl in *.
  apply Forall_app in Hok as [Hok1 Hok2]. apply Forall_app in Hfit as [_ Hfit2].
  destruct Hcase as [(-> & -> & e & ->)|(-> & Hle & Hm & Hf)].
  { pose proof (linux_error_neg e). rewrite (proj2 (Z.eqb_neq _ _)), (proj2 (Z.ltb_lt _ _)) by lia.
    right. by exists e. }
  destruct taken as [|entry taken].
  { left. simpl in Hf. destruct rest as [|entry rest]; [done|]. apply Forall_cons in Hfit2 as [Hx _].
    simpl in Hf. lia. }
  set (bytes := records (entry :: taken)) in *.
  assert (Hpos : (0 < length bytes)%nat).
  { subst bytes. unfold records. cbn [map concat]. rewrite length_app, length_record.
    pose proof (record_length_spec entry) as [Hn _]. cbv zeta in Hn. lia. }
  rewrite (proj2 (Z.eqb_neq _ _)), (proj2 (Z.ltb_ge _ _)) by lia.
  rewrite Hm, Nat2Z.id, mem_load_store. subst bytes. rewrite parse_records by done.
  apply always_bind. eapply always_mono; [apply (IH _ st1 h1 Hs1); [done|done|]|].
  { rewrite length_app in Hfuel. simpl in *. lia. }
  intros [listed st2] h2 [Heq|[e Heq]]; simpl in Heq; rewrite Heq; simpl; [left|right; by exists e].
  by rewrite <- map_app.
Qed.
End getdents.

(** C17: A guest that reads a directory whose stream is open (the first call on a
    descriptor opens it), with a buffer that every remaining entry fits in, in a loop
    that calls [getdents64] until it returns 0: the loop ends without a fault after at
    most one call more than there are entries, whatever the host answers, and has
    got each remaining entry exactly once, in the host's order, with its inode,
    offset and name; or a call has returned the error of the host's [readdir].  Names
    have no zero character and at most 65000 characters.  With a buffer too small
    for an entry the guest sees the end too early ([getdents_small_buffer]). *)
Theorem directory_listed `{!HostErrno, !HostErrnoOk} (fd buffer capacity : Z) (directory : stream)
    (st : fd_state) (h : host) :
  tracked fd = true -> directory_streams st !! fd = Some directory -> 0 <= capacity <= INT_MAX ->
  Forall name_ok (ds_left directory) ->
  Forall (fun entry => record_length entry <= capacity) (ds_left directory) ->
  always (list_directory (S (length (ds_left directory))) fd buffer capacity st) h (fun out h' =>
    out.1 = Listed (map guest_entry (ds_left directory)) \/
    exists e, out.1 = Failed (linux_error e)).
Proof. intros Ht Hs Hc Hok Hfit. apply list_directory_ok; try done. lia. Qed.

(** When the next entry does not fit, the call returns 0, which a guest takes for
    the end of the directory, where Linux answers [EINVAL]. *)
Theorem getdents_small_buffer `{!HostErrno} (fd buffer capacity : Z) (directory : stream)
    (entry : dirent) (rest : list dirent) (st : fd_state) (h : host) :
  tracked fd = true -> directory_streams st !! fd = Some directory ->
  ds_left directory = entry :: rest -> 0 <= capacity < record_length entry ->
  exists st', runs (linux_getdents64 fd buffer capacity st) h (0, st') h.
Proof.
  intros Ht Hs Hl Hc. eexists. unfold linux_getdents64. rewrite Ht, Hs. cbn [negb].
  unfold read_directory. rewrite Hl. cbn [fill_entries].
  rewrite (proj2 (Z.ltb_lt _ _)) by lia. cbn [bind]. change (s32 0) with 0. constructor.
Qed.

Module DirectoryExamples.
#[local] Existing Instance ExampleErrno.host_errno.
#[local] Existing Instance ExampleErrno.host_errno_ok.

Definition entry1 := Dirent 7 (chars "a") 1.
Definition entry2 := Dirent (2 ^ 40) (chars "file.txt") 2.
Definition st1 : fd_state :=
  FdState {[3 := chars "/r"]} {[3 := Stream 4 [entry1; entry2]]} ∅ ∅.
(** A buffer of 32 bytes takes one of the two records at a time. *)
Example two_records :
  option_map (fun out => out.1.1)
    (execute DescriptorExamples.answer (list_directory 3 3 0x1000 32 st1) ∅) =
  Some (Listed [(7, 1, bytes_of (chars "a")); (2 ^ 40, 2, bytes_of (chars "file.txt"))]).
Proof. vm_compute. reflexivity. Qed.

Lemma directory_listed_witness :
  always (list_directory 3 3 0x1000 32 st1) ∅ (fun out h' =>
    out.1 = Listed [(7, 1, bytes_of (chars "a")); (2 ^ 40, 2, bytes_of (chars "file.txt"))] \/
    exists e, out.1 = Failed (linux_error e)).
Proof.
  apply (directory_listed 3 0x1000 32 (Stream 4 [entry1; entry2]) st1 ∅).
  - reflexivity.
  - reflexivity.
  - unfold INT_MAX. lia.
  - unfold name_ok. apply (bool_decide_unpack _). vm_compute. exact I.
  - repeat constructor; vm_compute; discriminate.
Defined.

Lemma getdents_small_buffer_witness : exists st', runs (linux_getdents64 3 0x1000 23 st1) ∅ (0, st') ∅.
Proof.
  apply (getdents_small_buffer 3 0x1000 23 (Stream 4 [entry1; entry2]) entry1 [entry2]).
  - reflexivity.
  - reflexivity.
  - reflexivity.
  - vm_compute. split; [discriminate|reflexivity].
Defined.
End DirectoryExamples.
