(* ===== verification/FileCalls.v ===== *)
(** * Calls on paths: the [...at] family of [src/src/linux_syscall.c]

    Every call that takes a guest path resolves it first and hands the host path
    that results to the host.  The handlers are programs ([io]); the theorem is
    about all the host calls they can make. *)

From Stdlib Require Import Ascii String.
From S2P Require Import Prelude Errno Bytes Abi GuestPath HostCalls Descriptors.
Open Scope Z_scope.

Definition LINUX_AT_SYMLINK_NOFOLLOW : Z := 0x100.
Definition LINUX_AT_REMOVEDIR : Z := 0x200.
Definition LINUX_AT_SYMLINK_FOLLOW : Z := 0x400.

(** The host's [S_ISLNK] of [sys/stat.h]. *)
Class HostMode := { S_ISLNK : Z -> bool }.

Section file_calls.
Context `{!HostErrno, !HostOpen, !HostSeek, !HostMode}.
Context (PATH_MAX : nat) (fs : host_fs) (errno_before : Z) (st : fd_state) (ps : path_state).

(** Resolves a path; on failure returns its error. *)
Definition resolving (directory_fd : Z) (guest_path : option (list ascii))
    (allow_missing_leaf nofollow : bool) (k : list ascii -> io (Z * fd_state)) : io (Z * fd_state) :=
  with_path errno_before (resolve_at PATH_MAX fs st ps directory_fd guest_path allow_missing_leaf nofollow)
    (fun e => (e, st)) k.

(** [return linux_host_result(call);] *)
Definition finally (c : host_call (option errno)) : io (Z * fd_state) :=
  answer <~ c;; Ret (done_or_error answer, st).

Definition linux_stat_path (directory_fd : Z) (guest_path : option (list ascii)) (guest_status : Z)
    (follow : bool) : io (Z * fd_state) :=
  resolving directory_fd guest_path false (negb follow) (fun host_path =>
    answer <~ (if follow then Stat host_path else Lstat host_path);;
    match answer with
    | inl e => Ret (linux_error e, st)
    | inr status =>
      Ret (0, set_memory (fun m => mem_store m guest_status (linux_stat64_store status)) st)
    end).

Definition linux_mkdirat (directory_fd : Z) (guest_path : option (list ascii)) (mode : Z)
  : io (Z * fd_state) :=
  resolving directory_fd guest_path true true (fun host_path =>
    finally (Mkdir host_path (mode .& 0xfff))).

Definition linux_unlinkat (directory_fd : Z) (guest_path : option (list ascii)) (flags : Z)
  : io (Z * fd_state) :=
  if negb (flags .&~ LINUX_AT_REMOVEDIR =? 0) then Ret (host_negative EINVAL, st)
  else resolving directory_fd guest_path false true (fun host_path =>
    finally (if has flags LINUX_AT_REMOVEDIR then Rmdir host_path else Unlink host_path)).

Definition linux_renameat (old_directory_fd : Z) (old_guest_path : option (list ascii))
    (new_directory_fd : Z) (new_guest_path : option (list ascii)) : io (Z * fd_state) :=
  resolving old_directory_fd old_guest_path false true (fun old_host_path =>
    resolving new_directory_fd new_guest_path true true (fun new_host_path =>
      finally (Rename old_host_path new_host_path))).

Definition linux_faccessat (directory_fd : Z) (guest_path : option (list ascii)) (mode : Z)
  : io (Z * fd_state) :=
  if negb (mode .&~ 7 =? 0) then Ret (host_negative EINVAL, st)
  else resolving directory_fd guest_path false false (fun host_path => finally (Access host_path mode)).

Definition linux_linkat (old_directory_fd : Z) (old_guest_path : option (list ascii))
    (new_directory_fd : Z) (new_guest_path : option (list ascii)) (flags : Z) : io (Z * fd_state) :=
  if negb (flags .&~ LINUX_AT_SYMLINK_FOLLOW =? 0) then Ret (host_negative EINVAL, st)
  else
    resolving old_directory_fd old_guest_path false (negb (has flags LINUX_AT_SYMLINK_FOLLOW))
      (fun old_host_path =>
        resolving new_directory_fd new_guest_path true true (fun new_host_path =>
          finally (Link old_host_path new_host_path))).

Definition linux_symlinkat (guest_target : option (list ascii)) (directory_fd : Z)
    (guest_link : option (list ascii)) : io (Z * fd_state) :=
  match guest_target with
  | None => Ret (host_negative EFAULT, st)
  | Some target =>
    resolving directory_fd guest_link true true (fun host_link => finally (Symlink target host_link))
  end.

Definition linux_chmodat (directory_fd : Z) (guest_path : option (list ascii)) (mode : Z)
  : io (Z * fd_state) :=
  resolving directory_fd guest_path false false (fun host_path =>
    finally (Chmod host_path (mode .& 0xfff))).

(** One turn of the loop of [linux_utimensat]: the new value of a time, [None]
    for a time that is out of range. *)
Definition chosen_time (now old seconds nanoseconds : Z) : option Z :=
  if nanoseconds =? 0x3fffffff then Some now
  else if nanoseconds =? 0x3ffffffe then Some old
  else if 1000000000 <=? nanoseconds then None
  else Some (s32 seconds).

(** The code after [status] has been read. *)
Definition set_times (host_path : list ascii) (status : host_stat) (guest_times : Z) : io (Z * fd_state) :=
  now <~ CurrentTime;;
  match now with
  | inl e => Ret (linux_error e, st)
  | inr now =>
    words <- load_or_fault (load_words (fd_memory st) guest_times 4);;
    let word i := nth i words 0 in
    match chosen_time now (st_atime status) (word 0%nat) (word 1%nat),
          chosen_time now (st_mtime status) (word 2%nat) (word 3%nat) with
    | Some actime, Some modtime => finally (Utime host_path (Some (actime, modtime)))
    | _, _ => Ret (host_negative EINVAL, st)
    end
  end.

Definition linux_utimensat (directory_fd : Z) (guest_path : option (list ascii)) (guest_times flags : Z)
  : io (Z * fd_state) :=
  if negb (flags .&~ LINUX_AT_SYMLINK_NOFOLLOW =? 0) then Ret (host_negative EINVAL, st)
  else
    let nofollow := has flags LINUX_AT_SYMLINK_NOFOLLOW in
    resolving directory_fd guest_path false nofollow (fun host_path =>
      if guest_times =? 0 then finally (Utime host_path None)
      else if nofollow then
        answer <~ Lstat host_path;;
        match answer with
        | inl e => Ret (linux_error e, st)
        | inr status =>
          if S_ISLNK (st_mode status) then Ret (- LINUX_EOPNOTSUPP, st)
          else set_times host_path status guest_times
        end
      else
        answer <~ Stat host_path;;
        match answer with
        | inl e => Ret (linux_error e, st)
        | inr status => set_times host_path status guest_times
        end).

(** The case [LINUX_NR_ACCESS] of the dispatcher. *)
Definition linux_access (guest_path : option (list ascii)) (mode : Z) : io (Z * fd_state) :=
  with_path errno_before (guest_path_resolve PATH_MAX fs ps guest_path false PATH_MAX)
    (fun e => (e, st)) (fun host_path => finally (Access host_path (s32 mode))).

(** The case [LINUX_NR_READLINKAT]. *)
Definition linux_readlinkat (directory_fd : Z) (guest_path : option (list ascii)) (buffer size : Z)
  : io (Z * fd_state) :=
  resolving directory_fd guest_path false true (fun host_path =>
    answer <~ Readlink host_path size;;
    match answer with
    | inl e => Ret (linux_error e, st)
    | inr target =>
      Ret (s32 (Z.of_nat (length target)), set_memory (fun m => mem_store m buffer (bytes_of target)) st)
    end).

(** The cases [LINUX_NR_STAT64], [LSTAT64] and [FSTATAT64]. *)
Definition linux_fstatat64 (directory_fd : Z) (guest_path : option (list ascii)) (guest_status flags : Z)
  : io (Z * fd_state) :=
  if negb (flags .&~ LINUX_AT_SYMLINK_NOFOLLOW =? 0) then Ret (host_negative EINVAL, st)
  else linux_stat_path directory_fd guest_path guest_status (negb (has flags LINUX_AT_SYMLINK_NOFOLLOW)).
End file_calls.

(** ** The calls *)

Inductive path_call : Set :=
| POpen (directory_fd : Z) (path : option (list ascii)) (flags mode : Z)
| PStat (directory_fd : Z) (path : option (list ascii)) (guest_status : Z) (follow : bool)
| PFstatat (directory_fd : Z) (path : option (list ascii)) (guest_status flags : Z)
| PMkdir (directory_fd : Z) (path : option (list ascii)) (mode : Z)
| PUnlink (directory_fd : Z) (path : option (list ascii)) (flags : Z)
| PRename (old_fd : Z) (old : option (list ascii)) (new_fd : Z) (new : option (list ascii))
| PFaccess (directory_fd : Z) (path : option (list ascii)) (mode : Z)
| PAccess (path : option (list ascii)) (mode : Z)
| PLink (old_fd : Z) (old : option (list ascii)) (new_fd : Z) (new : option (list ascii)) (flags : Z)
| PSymlink (target : option (list ascii)) (directory_fd : Z) (link : option (list ascii))
| PChmod (directory_fd : Z) (path : option (list ascii)) (mode : Z)
| PUtimens (directory_fd : Z) (path : option (list ascii)) (guest_times flags : Z)
| PReadlink (directory_fd : Z) (path : option (list ascii)) (buffer size : Z).

Section serve_path.
Context `{!HostErrno, !HostOpen, !HostSeek, !HostMode}.
Context (PATH_MAX : nat) (fs : host_fs) (errno_before : Z) (ps : path_state).

Definition serve_path (c : path_call) (st : fd_state) : io (Z * fd_state) :=
  match c with
  | POpen fd path flags mode => linux_open_path PATH_MAX fs errno_before st ps fd path flags mode
  | PStat fd path guest_status follow =>
      linux_stat_path PATH_MAX fs errno_before st ps fd path guest_status follow
  | PFstatat fd path guest_status flags =>
      linux_fstatat64 PATH_MAX fs errno_before st ps fd path guest_status flags
  | PMkdir fd path mode => linux_mkdirat PATH_MAX fs errno_before st ps fd path mode
  | PUnlink fd path flags => linux_unlinkat PATH_MAX fs errno_before st ps fd path flags
  | PRename old_fd old new_fd new => linux_renameat PATH_MAX fs errno_before st ps old_fd old new_fd new
  | PFaccess fd path mode => linux_faccessat PATH_MAX fs errno_before st ps fd path mode
  | PAccess path mode => linux_access PATH_MAX fs errno_before st ps path mode
  | PLink old_fd old new_fd new flags =>
      linux_linkat PATH_MAX fs errno_before st ps old_fd old new_fd new flags
  | PSymlink target fd link => linux_symlinkat PATH_MAX fs errno_before st ps target fd link
  | PChmod fd path mode => linux_chmodat PATH_MAX fs errno_before st ps fd path mode
  | PUtimens fd path guest_times flags =>
      linux_utimensat PATH_MAX fs errno_before st ps fd path guest_times flags
  | PReadlink fd path buffer size => linux_readlinkat PATH_MAX fs errno_before st ps fd path buffer size
  end.
End serve_path.

(** ** What the host gets *)

(** The paths of a host call, and whether the host follows a link there: POSIX has
    [stat], [access], [chmod], [utime] and [opendir] follow it, and [open] unless
    [O_NOFOLLOW] or both [O_CREAT] and [O_EXCL] are given.  The names of sockets,
    which are paths for UNIX sockets, are not among them. *)
Definition paths `{!HostOpen} {B : Set} (c : host_call B) : list (list ascii * bool) :=
  match c with
  | Open path flags _ =>
      [(path, negb (has flags (default 0 O_NOFOLLOW) || (has flags O_CREAT && has flags O_EXCL)))]
  | Opendir path | Stat path | Access path _ | Chmod path _ | Utime path _ => [(path, true)]
  | Lstat path | Mkdir path _ | Rmdir path | Unlink path | Symlink _ path | Readlink path _ => [(path, false)]
  | Rename old new | Link old new => [(old, false); (new, false)]
  | _ => []
  end.

(** All of them are the root, the null device or below the root, where no component
    is a link, but for the last one when the host does not follow it. *)
Definition safe_call `{!HostOpen} (fs : host_fs) (root : list ascii) (B : Set) (c : host_call B) : Prop :=
  Forall (fun '(path, follow) =>
    path = root \/ exists missing, contained fs root missing (negb follow) path) (paths c).

(** [lstat] answers about the file system the paths are resolved in. *)
Definition lstat_agrees `{!HostMode} (fs : host_fs) (B : Set) (c : host_call B) : B -> Prop :=
  match c in host_call B return B -> Prop with
  | Lstat path => fun answer => forall status, answer = inr status ->
      S_ISLNK (st_mode status) = false -> fs_lstat fs path = LstatOther
  | _ => fun _ => True
  end.

(** A host whose [O_NOFOLLOW], [O_CREAT] and [O_EXCL] are real flags. *)
Class HostNofollow `{!HostOpen} : Prop := {
  nofollow_defined : exists bit, O_NOFOLLOW = Some bit /\ bit <> 0;
  creat_excl_nonzero : O_CREAT <> 0 /\ O_EXCL <> 0 }.

Lemma no_links_init fs root missing comps :
  no_links fs root missing comps -> no_links fs root false (take (length comps - 1) comps).
Proof.
  intros Hn i Hi. rewrite length_take in Hi. left.
  rewrite take_take. replace (S i `min` (length comps - 1))%nat with (S i) by lia.
  destruct (Hn i) as [?|(_ & ? & _)]; [lia|done|lia].
Qed.

Lemma contained_nofollow fs root missing p :
  contained fs root missing false p -> contained fs root missing true p.
Proof.
  intros [?|[[? _]|(comps & Hg & -> & Hn)]]; [by left|done|]. right. right. exists comps.
  split_and!; [done|done|]. by eapply no_links_init.
Qed.

Section contained.
Context `{!HostErrno, !HostOpen, !HostOpenOk, !HostNofollow, !HostSeek, !HostMode}.
Context (PATH_MAX : nat) (fs : host_fs) (errno_before : Z) (ps : path_state).
Notation safe := (safe_call fs (root_path ps)).
Notation agrees := (lstat_agrees fs).

Lemma calls_resolving st fd path missing nofollow k :
  (forall p, contained fs (root_path ps) missing nofollow p -> calls agrees safe (k p)) ->
  calls agrees safe (resolving PATH_MAX fs errno_before st ps fd path missing nofollow k).
Proof.
  intros Hk. unfold resolving, with_path.
  destruct (resolve_at _ _ _ _ _ _ _ _) as [[p|e]|] eqn:Er; [|done|done].
  by eapply Hk, resolve_at_contains.
Qed.

Lemma calls_finally st c : safe (option errno) c -> calls agrees safe (finally st c).
Proof. by split. Qed.

(** The host follows a link at the end of an opened path only where the emulator
    has followed it. *)
Lemma open_follow flags host_flags :
  linux_open_flags flags = Some host_flags ->
  has host_flags (default 0 O_NOFOLLOW) || (has host_flags O_CREAT && has host_flags O_EXCL) =
  has flags LINUX_O_NOFOLLOW
    || (flags .& (LINUX_O_CREAT .| LINUX_O_EXCL) =? (LINUX_O_CREAT .| LINUX_O_EXCL)).
Proof.
  intros Hf. destruct nofollow_defined as (bit & Hb & Hnz), creat_excl_nonzero as [Hc He].
  rewrite (open_flags_has flags host_flags 8 LINUX_O_NOFOLLOW (default 0 O_NOFOLLOW)); try done;
    [|by rewrite Hb].
  rewrite (open_flags_has flags host_flags 0 LINUX_O_CREAT O_CREAT) by done.
  rewrite (open_flags_has flags host_flags 1 LINUX_O_EXCL O_EXCL) by done.
  f_equal. change (LINUX_O_CREAT .| LINUX_O_EXCL) with (0x40 .| 0x80).
  change LINUX_O_CREAT with (2 ^ 6). change LINUX_O_EXCL with (2 ^ 7).
  rewrite Z.land_lor_distr_r. change 0x40 with (2 ^ 6). change 0x80 with (2 ^ 7).
  rewrite !land_pow2 by lia. by destruct (has flags (2 ^ 6)), (has flags (2 ^ 7)).
Qed.

Lemma calls_open st fd path flags mode :
  calls agrees safe (linux_open_path PATH_MAX fs errno_before st ps fd path flags mode).
Proof.
  unfold linux_open_path. destruct (linux_open_flags flags) as [host_flags|] eqn:Ef; [|done].
  apply calls_resolving. intros p Hp. cbn [calls]. split.
  - apply Forall_singleton. right. exists (has host_flags O_CREAT).
    by rewrite (open_follow _ _ Ef), negb_involutive.
  - intros [e|r] _; [done|]. cond; [|done]. cbn [bind calls set_fd_path].
    split; [by apply Forall_nil|done].
Qed.

Lemma calls_set_times st p status guest_times :
  p = root_path ps \/ contained fs (root_path ps) false false p -> calls agrees safe (set_times st p status guest_times).
Proof.
  intros Hp. unfold set_times. split; [by apply Forall_nil|]. intros [e|now] _; [done|].
  apply calls_bind; [by destruct (load_words _ _ _)|]. intros words.
  destruct (chosen_time _ _ _ _); [|done]. destruct (chosen_time _ _ _ _); [|done].
  apply calls_finally, Forall_singleton. destruct Hp; [by left|right; by exists false].
Qed.

(** A path that is not followed at its end, and does not end in a link. *)
Lemma contained_follow p :
  contained fs (root_path ps) false true p -> fs_lstat fs p = LstatOther ->
  p = root_path ps \/ contained fs (root_path ps) false false p.
Proof.
  intros [?|[[_ ?]|(comps & Hg & -> & Hn)]] Hp; [by right; left|by left|]. right. right. right.
  exists comps. split_and!; [done|done|]. intros i Hi. left.
  destruct (decide (S i = length comps)) as [Hl|Hl].
  - rewrite take_ge by lia. destruct comps; [done|]. exact Hp.
  - destruct (Hn i) as [Hx|(? & _)]; [rewrite length_take; lia| |done].
    rewrite take_take in Hx. by replace (S i `min` (length comps - 1))%nat with (S i) in Hx by lia.
Qed.

(** The one call that lets the host follow a link: [utimensat] with
    [AT_SYMLINK_NOFOLLOW] and no times. *)
Definition touches_link (c : path_call) : bool :=
  match c with
  | PUtimens _ _ guest_times flags => (guest_times =? 0) && has flags LINUX_AT_SYMLINK_NOFOLLOW
  | _ => false
  end.

Ltac one_path missing := apply Forall_singleton; right; exists missing; done.

Lemma serve_path_safe st c :
  touches_link c = false ->
  calls agrees safe (serve_path PATH_MAX fs errno_before ps c st).
Proof.
  intros Ht.
  assert (Hstat : forall fd path guest_status follow, calls agrees safe
    (linux_stat_path PATH_MAX fs errno_before st ps fd path guest_status follow)).
  { intros. unfold linux_stat_path. apply calls_resolving. intros p Hp. cbn [calls].
    split; [destruct follow; one_path false|by intros [] _]. }
  destruct c; cbn [serve_path].
  - apply calls_open.
  - apply Hstat.
  - unfold linux_fstatat64. cond; [done|apply Hstat].
  - apply calls_resolving. intros p Hp. apply calls_finally. one_path true.
  - unfold linux_unlinkat. cond; [done|]. apply calls_resolving. intros p Hp. apply calls_finally.
    cond; one_path false.
  - apply calls_resolving. intros p Hp. apply calls_resolving. intros q Hq. apply calls_finally.
    apply Forall_cons. split; [right; by exists false|one_path true].
  - unfold linux_faccessat. cond; [done|]. apply calls_resolving. intros p Hp. apply calls_finally.
    one_path false.
  - unfold linux_access, with_path.
    destruct (guest_path_resolve _ _ _ _ _ _) as [[p|e]|] eqn:Er; [|done|done].
    apply resolve_contained in Er as [Hp _]. apply calls_finally. one_path false.
  - unfold linux_linkat. cond; [done|]. apply calls_resolving. intros p Hp.
    apply calls_resolving. intros q Hq. apply calls_finally.
    apply Forall_cons. split; [right; exists false|one_path true].
    destruct (has flags LINUX_AT_SYMLINK_FOLLOW); [by apply contained_nofollow|done].
  - unfold linux_symlinkat. destruct target; [|done]. apply calls_resolving. intros p Hp.
    apply calls_finally. one_path true.
  - apply calls_resolving. intros p Hp. apply calls_finally. one_path false.
  - unfold linux_utimensat. cond; [done|]. apply calls_resolving. intros p Hp. simpl in Ht.
    destruct (guest_times =? 0); [cbn [andb] in Ht; rewrite Ht in Hp; apply calls_finally; one_path false|].
    destruct (has flags LINUX_AT_SYMLINK_NOFOLLOW); cbn [calls].
    + split; [one_path false|]. intros [e|status] Hok; [done|]. cond; [done|].
      apply calls_set_times, contained_follow; [done|]. by apply (Hok status).
    + split; [one_path false|]. intros [e|status] _; [done|]. apply calls_set_times. by right.
  - apply calls_resolving. intros p Hp. split; [one_path false|by intros [] _].
Qed.
End contained.

(** No path call of the guest makes the host leave the root.  Whatever the guest
    passes and whatever the host answers, every path that a call hands to the host
    is the root, the null device, or a canonical path below the root on which the
    host meets no symbolic link; where the host does not follow a link at the end
    ([lstat], [unlink], [rename] and the like, [open] with [O_NOFOLLOW] or
    [O_CREAT] and [O_EXCL]), the end may be one.  The exception is [utimensat] with
    [AT_SYMLINK_NOFOLLOW] and no times. *)
Theorem path_calls_contained `{!HostErrno, !HostOpen, !HostOpenOk, !HostNofollow, !HostSeek, !HostMode}
    (PATH_MAX : nat) (fs : host_fs) (errno_before : Z) (ps : path_state) (st : fd_state) (c : path_call) :
  touches_link c = false ->
  calls (lstat_agrees fs) (safe_call fs (root_path ps)) (serve_path PATH_MAX fs errno_before ps c st).
Proof. apply serve_path_safe. Qed.

(** ** Witnesses *)

Module FileCallExamples.
#[local] Existing Instance ExampleErrno.host_errno.
#[local] Existing Instance example_open.
#[local] Existing Instance example_open_ok.
#[local] Existing Instance DescriptorExamples.example_seek.
#[local] Instance example_mode : HostMode := {| S_ISLNK mode := mode .& 0xf000 =? 0xa000 |}.
#[local] Instance example_nofollow : HostNofollow.
Proof. split; [by exists 0x100000|done]. Qed.

Lemma path_calls_contained_witness :
  calls (lstat_agrees GuestPathExamples.fs0) (safe_call GuestPathExamples.fs0 (chars "/r"))
    (serve_path 64 GuestPathExamples.fs0 0 GuestPathExamples.st0
      (PUnlink LINUX_AT_FDCWD (Some (chars "l")) 0) DescriptorExamples.start).
Proof.
  apply (path_calls_contained 64 GuestPathExamples.fs0 0 GuestPathExamples.st0 DescriptorExamples.start
    (PUnlink LINUX_AT_FDCWD (Some (chars "l")) 0)).
  reflexivity.
Defined.

(** The paths of the first host call of a program. *)
Definition first_paths `{!HostOpen} {A} (p : io A) : list (list ascii * bool) :=
  match p with Call c _ => paths c | _ => [] end.

(** [/r/l] is a link; [utimensat] with [AT_SYMLINK_NOFOLLOW] and no times hands it
    to [utime], which follows links. *)
Example utimensat_follows_link :
  first_paths (serve_path 64 GuestPathExamples.fs0 0 GuestPathExamples.st0
    (PUtimens LINUX_AT_FDCWD (Some (chars "l")) 0 LINUX_AT_SYMLINK_NOFOLLOW) DescriptorExamples.start) =
    [(chars "/r/l", true)] /\
  fs_lstat GuestPathExamples.fs0 (chars "/r/l") = LstatLink.
Proof. split; vm_compute; reflexivity. Qed.

(** A host without [O_NOFOLLOW]. *)
Definition old_open : HostOpen := {|
  O_ACCMODE := 3; O_RDONLY := 0; O_WRONLY := 1; O_RDWR := 2; O_CREAT := 0x100;
  O_EXCL := 0x400; O_NOCTTY := 0x800; O_TRUNC := 0x200; O_APPEND := 0x8;
  O_NONBLOCK := 0x80; O_DSYNC := Some 0x20; O_DIRECTORY := None;
  O_NOFOLLOW := None; O_DIRECT := None; O_CLOEXEC := Some 0x2000 |}.

(** There [open] of the link with [O_NOFOLLOW] is an [open] that follows it. *)
Example open_nofollow_lost :
  @first_paths old_open _ (@linux_open_path _ old_open 64 GuestPathExamples.fs0 0
    DescriptorExamples.start GuestPathExamples.st0 LINUX_AT_FDCWD (Some (chars "l")) LINUX_O_NOFOLLOW 0) =
  [(chars "/r/l", true)].
Proof. vm_compute. reflexivity. Qed.
End FileCallExamples.
