(* ===== verification/Sockets.v ===== *)
(** * Sockets: [src/src/linux_socket.c]

    Addresses are converted between Linux's layout (a 16-bit family) and the host's
    (a length byte and a family byte), flags and options by tables.  The calls
    themselves are the host's.  [sizeof (sun_path)], the numbers of the families
    and the [MSG_*] flags come from a QNX header and are parameters. *)

From Stdlib Require Import Ascii String.
From S2P Require Import Prelude Errno Bytes Abi GuestPath HostCalls Descriptors.
Open Scope Z_scope.

Definition LINUX_NR_SOCKETCALL : Z := 102.
Definition LINUX_NR_SOCKET : Z := 281.
Definition LINUX_NR_BIND : Z := 282.
Definition LINUX_NR_CONNECT : Z := 283.
Definition LINUX_NR_LISTEN : Z := 284.
Definition LINUX_NR_ACCEPT : Z := 285.
Definition LINUX_NR_GETSOCKNAME : Z := 286.
Definition LINUX_NR_GETPEERNAME : Z := 287.
Definition LINUX_NR_SOCKETPAIR : Z := 288.
Definition LINUX_NR_SEND : Z := 289.
Definition LINUX_NR_SENDTO : Z := 290.
Definition LINUX_NR_RECV : Z := 291.
Definition LINUX_NR_RECVFROM : Z := 292.
Definition LINUX_NR_SHUTDOWN : Z := 293.
Definition LINUX_NR_SETSOCKOPT : Z := 294.
Definition LINUX_NR_GETSOCKOPT : Z := 295.
Definition LINUX_NR_SENDMSG : Z := 296.
Definition LINUX_NR_RECVMSG : Z := 297.
Definition LINUX_NR_ACCEPT4 : Z := 366.
Definition LINUX_SOCK_TYPE_MASK : Z := 0x0f.
Definition LINUX_SOCK_NONBLOCK : Z := 0x800.
Definition LINUX_SOCK_CLOEXEC : Z := 0x80000.
Definition LINUX_ENOPROTOOPT : Z := 92.
Definition LINUX_EAFNOSUPPORT : Z := 97.

(** The host's [sys/socket.h] and [sys/un.h]. *)
Class HostSocket := {
  domain_code : domain -> Z;
  sun_path_size : nat;
  SOCK_STREAM : Z; SOCK_SEQPACKET : Z;
  MSG_OOB : Z; MSG_PEEK : Z; MSG_DONTROUTE : Z; MSG_CTRUNC : Z; MSG_TRUNC : Z; MSG_DONTWAIT : Z;
  MSG_EOR : Z; MSG_WAITALL : Z; MSG_NOSIGNAL : Z; MSG_WAITFORONE : option Z }.

Section sockets.
Context `{!HostErrno, !HostOpen, !HostSocket}.
Implicit Types st : fd_state.

(** ** Conversions *)

Definition host_domain (linux_domain : Z) : option domain :=
  if linux_domain =? 1 then Some AF_UNIX
  else if linux_domain =? 2 then Some AF_INET
  else if linux_domain =? 10 then Some AF_INET6 else None.

Definition linux_domain (host : Z) : option Z :=
  if host =? domain_code AF_UNIX then Some 1
  else if host =? domain_code AF_INET then Some 2
  else if host =? domain_code AF_INET6 then Some 10 else None.

(** The host's type, and whether the status and the descriptor flag are wanted. *)
Definition socket_type (linux_type : Z) : option (Z * bool * bool) :=
  let flags := linux_type .&~ LINUX_SOCK_TYPE_MASK in
  let type := linux_type .& LINUX_SOCK_TYPE_MASK in
  if negb (flags .&~ (LINUX_SOCK_NONBLOCK .| LINUX_SOCK_CLOEXEC) =? 0)
     || (type <? SOCK_STREAM) || (SOCK_SEQPACKET <? type) then None
  else Some (type, has flags LINUX_SOCK_NONBLOCK, has flags LINUX_SOCK_CLOEXEC).

(** [configure_socket] with [O_NONBLOCK] or 0, [FD_CLOEXEC] or 0. *)
Definition configure_socket (fd : Z) (nonblock cloexec : bool) : io (option errno) :=
  status <- (if nonblock && negb (O_NONBLOCK =? 0) then
               current <~ GetFl fd;;
               match current with
               | inl e => Ret (Some e)
               | inr current => answer <~ SetFl fd (current .| O_NONBLOCK);; Ret answer
               end
             else Ret None);;
  match status with
  | Some e => Ret (Some e)
  | None =>
    if cloexec then
      current <~ GetFd fd;;
      match current with
      | inl e => Ret (Some e)
      | inr _ => answer <~ SetFd fd true;; Ret answer
      end
    else Ret None
  end.

(** The 128 bytes of a cleared [struct sockaddr_storage] with its two first
    members and [data] behind them. *)
Definition storage (len family : Z) (data : list Z) : list Z :=
  list_inserts 2 data (<[1%nat := family]> (<[0%nat := len]> (replicate 128 0))).

(** [guest_address]: an error number, or the host's address; [None] is a fault. *)
Definition guest_address (m : gmap Z Z) (guest guest_length : Z) : option (Z + sockaddr) :=
  if (guest =? 0) || (guest_length <? 2) then Some (inl (host_negative EFAULT))
  else match mem_load m guest 2 with
  | None => None
  | Some bytes =>
    let fixed (family : domain) (size : nat) :=
      if guest_length <? Z.of_nat size then Some (inl (host_negative EINVAL))
      else match mem_load m (guest + 2) (size - 2) with
           | None => None
           | Some data =>
             Some (inr (Sockaddr (storage (Z.of_nat size) (domain_code family) data) (Z.of_nat size)))
           end in
    match host_domain (le_value bytes) with
    | None => Some (inl (- LINUX_EAFNOSUPPORT))
    | Some AF_INET => fixed AF_INET 16%nat
    | Some AF_INET6 => fixed AF_INET6 28%nat
    | Some AF_UNIX =>
      let path_length := guest_length - 2 in
      if Z.of_nat sun_path_size <? path_length then Some (inl (host_negative EINVAL))
      else match mem_load m (guest + 2) (Z.to_nat path_length) with
           | None => None
           | Some data =>
             let len := (2 + path_length) mod 256 in
             Some (inr (Sockaddr (storage len (domain_code AF_UNIX) data) len))
           end
    end
  end.

(** [required] and the bytes [store_address] converts an address to, or its error. *)
Definition converted_address (host : sockaddr) : Z + Z * list Z :=
  match linux_domain (nth 1 (sa_bytes host) 0) with
  | None => inl (- LINUX_EAFNOSUPPORT)
  | Some mapped =>
    let required := if mapped =? 2 then 16 else if mapped =? 10 then 28 else sa_length host in
    if 128 <? required then inl (host_negative EINVAL)
    else
      let n := Z.to_nat required in
      inr (required, take n (le_bytes 2 mapped ++ take (n - 2) (drop 2 (sa_bytes host))))
  end.

(** [store_address] with its value and the memory after it; [None] is a fault. *)
Definition store_address (m : gmap Z Z) (guest guest_length : Z) (host : sockaddr)
  : option (Z * gmap Z Z) :=
  if guest_length =? 0 then Some (if guest =? 0 then 0 else host_negative EFAULT, m)
  else match load32 m guest_length with
  | None => None
  | Some capacity =>
    match converted_address host with
    | inl e => Some (e, m)
    | inr (required, converted) =>
      let m := if negb (guest =? 0) && negb (capacity =? 0)
               then mem_store m guest (take (Z.to_nat capacity) converted) else m in
      Some (0, store32 m guest_length required)
    end
  end.

(** ** Message flags *)

Definition message_bits : list (Z * Z) :=
  [(0x1, MSG_OOB); (0x2, MSG_PEEK); (0x4, MSG_DONTROUTE); (0x8, MSG_CTRUNC); (0x20, MSG_TRUNC);
   (0x40, MSG_DONTWAIT); (0x80, MSG_EOR); (0x100, MSG_WAITALL)].

Definition message_flags (linux_flags : Z) : option Z :=
  let known := 0x1 .| 0x2 .| 0x4 .| 0x8 .| 0x20 .| 0x40 .| 0x80 .| 0x100 .| 0x4000 .| 0x10000 in
  if negb (linux_flags .&~ known =? 0) then None
  else
    let result := fold_left (fun result '(bit, host) =>
      if has linux_flags bit then result .| host else result) message_bits 0 in
    let result := if has linux_flags 0x4000 then result .| MSG_NOSIGNAL else result in
    match MSG_WAITFORONE with
    | Some host => Some (if has linux_flags 0x10000 then result .| host else result)
    | None => if has linux_flags 0x10000 then None else Some result
    end.

Definition linux_message_flags (host_flags : Z) : Z :=
  fold_left (fun result '(bit, host) => if has host_flags host then result .| bit else result)
    message_bits 0.

(** ** Options *)

(** The switches of [socket_option]: level, option, host option. *)
Definition option_table : list (Z * Z * socket_option_name) :=
  [(1, 1, SO_DEBUG); (1, 2, SO_REUSEADDR); (1, 3, SO_TYPE); (1, 4, SO_ERROR); (1, 5, SO_DONTROUTE);
   (1, 6, SO_BROADCAST); (1, 7, SO_SNDBUF); (1, 8, SO_RCVBUF); (1, 9, SO_KEEPALIVE);
   (1, 10, SO_OOBINLINE); (1, 13, SO_LINGER); (1, 15, SO_REUSEPORT); (1, 18, SO_RCVLOWAT);
   (1, 19, SO_SNDLOWAT); (1, 20, SO_RCVTIMEO); (1, 21, SO_SNDTIMEO); (1, 30, SO_ACCEPTCONN);
   (0, 1, IP_TOS); (0, 2, IP_TTL); (0, 3, IP_HDRINCL); (0, 4, IP_OPTIONS); (0, 32, IP_MULTICAST_IF);
   (0, 33, IP_MULTICAST_TTL); (0, 34, IP_MULTICAST_LOOP); (0, 35, IP_ADD_MEMBERSHIP);
   (0, 36, IP_DROP_MEMBERSHIP);
   (6, 1, TCP_NODELAY); (6, 2, TCP_MAXSEG); (6, 4, TCP_KEEPALIVE)].

Fixpoint find_option (table : list (Z * Z * socket_option_name)) (level option : Z)
  : Datatypes.option socket_option_name :=
  match table with
  | [] => None
  | (l, o, name) :: table =>
    if (level =? l) && (option =? o) then Some name else find_option table level option
  end.

Definition socket_option (linux_level linux_option : Z) : option socket_option_name :=
  find_option option_table linux_level linux_option.

(** ** The calls *)

Notation call := (io (Z * fd_state)).

(** [guest_address] in a call: goes on with the address, or returns the error. *)
Definition with_address (st : fd_state) (guest guest_length : Z) (k : sockaddr -> call) : call :=
  converted <- load_or_fault (guest_address (fd_memory st) guest guest_length);;
  match converted with
  | inl e => Ret (e, st)
  | inr address => k address
  end.

(** A new socket that could not be configured is closed. *)
Definition configured (st : fd_state) (fd : Z) (nonblock cloexec : bool) (k : call) : call :=
  failed <- configure_socket fd nonblock cloexec;;
  match failed with
  | Some e => _ <~ Close fd;; Ret (linux_error e, st)
  | None => k
  end.

Definition make_socket (arg0 arg1 arg2 : Z) (st : fd_state) : call :=
  match host_domain (s32 arg0), socket_type arg1 with
  | Some family, Some (type, nonblock, cloexec) =>
    answer <~ Socket family type (s32 arg2);;
    match answer with
    | inl e => Ret (linux_error e, st)
    | inr fd => configured st fd nonblock cloexec (Ret (fd, st))
    end
  | _, _ => Ret (host_negative EINVAL, st)
  end.

(** Ends with [store_address]. *)
Definition storing (st : fd_state) (guest guest_length : Z) (host : sockaddr)
    (k : Z -> fd_state -> call) : call :=
  stored <- load_or_fault (store_address (fd_memory st) guest guest_length host);;
  k stored.1 (set_memory (fun _ => stored.2) st).

Definition address_call (number arg0 arg1 arg2 : Z) (st : fd_state) : call :=
  if (number =? LINUX_NR_BIND) || (number =? LINUX_NR_CONNECT) then
    with_address st arg1 arg2 (fun address =>
      answer <~ (if number =? LINUX_NR_BIND then Bind (s32 arg0) address else Connect (s32 arg0) address);;
      Ret (done_or_error answer, st))
  else
    answer <~ (if number =? LINUX_NR_GETSOCKNAME then Getsockname (s32 arg0) else Getpeername (s32 arg0));;
    match answer with
    | inl e => Ret (linux_error e, st)
    | inr address => storing st arg1 arg2 address (fun r st => Ret (r, st))
    end.

Definition accept_socket (arg0 arg1 arg2 arg3 : Z) (with_flags : bool) (st : fd_state) : call :=
  match (if with_flags then socket_type (SOCK_STREAM .| arg3) else Some (0, false, false)) with
  | None => Ret (host_negative EINVAL, st)
  | Some (_, nonblock, cloexec) =>
    answer <~ Accept (s32 arg0) (negb (arg1 =? 0));;
    match answer with
    | inl e => Ret (linux_error e, st)
    | inr (fd, address) =>
      configured st fd nonblock cloexec
        (if arg1 =? 0 then Ret (fd, st)
         else storing st arg1 arg2 address (fun r st =>
           if negb (r =? 0) then _ <~ Close fd;; Ret (r, st) else Ret (fd, st)))
    end
  end.

Definition socket_pair (arg0 arg1 arg2 arg3 : Z) (st : fd_state) : call :=
  if arg3 =? 0 then Ret (host_negative EFAULT, st)
  else match host_domain (s32 arg0), socket_type arg1 with
  | Some family, Some (type, nonblock, cloexec) =>
    answer <~ Socketpair family type (s32 arg2);;
    match answer with
    | inl e => Ret (linux_error e, st)
    | inr (a, b) =>
      failed <- configure_socket a nonblock cloexec;;
      failed <- (match failed with
                 | Some e => Ret (Some e)
                 | None => configure_socket b nonblock cloexec
                 end);;
      match failed with
      | Some e => _ <~ Close a;; _ <~ Close b;; Ret (linux_error e, st)
      | None => Ret (0, set_memory (fun m => mem_store m arg3 (le_bytes 4 a ++ le_bytes 4 b)) st)
      end
    end
  | _, _ => Ret (host_negative EINVAL, st)
  end.

Definition transfer (number arg0 arg1 arg2 arg3 arg4 arg5 : Z) (st : fd_state) : call :=
  match message_flags arg3 with
  | None => Ret (host_negative EINVAL, st)
  | Some flags =>
    let bytes := mem_load (fd_memory st) arg1 (Z.to_nat arg2) in
    let send := answer <~ Send (s32 arg0) arg2 flags bytes;; Ret (value_or_error answer, st) in
    if number =? LINUX_NR_SEND then send
    else if number =? LINUX_NR_RECV then
      answer <~ Recv (s32 arg0) arg2 flags;;
      match answer with
      | inl e => Ret (linux_error e, st)
      | inr bytes => Ret (s32 (Z.of_nat (length bytes)), set_memory (fun m => mem_store m arg1 bytes) st)
      end
    else if number =? LINUX_NR_SENDTO then
      if (arg4 =? 0) && (arg5 =? 0) then send
      else with_address st arg4 arg5 (fun address =>
        answer <~ Sendto (s32 arg0) arg2 flags bytes address;; Ret (value_or_error answer, st))
    else
      answer <~ Recvfrom (s32 arg0) arg2 flags (negb (arg4 =? 0));;
      match answer with
      | inl e => Ret (linux_error e, st)
      | inr (bytes, address) =>
        let st := set_memory (fun m => mem_store m arg1 bytes) st in
        let result := s32 (Z.of_nat (length bytes)) in
        if arg4 =? 0 then Ret (result, st)
        else storing st arg4 arg5 address (fun r st => Ret (if negb (r =? 0) then r else result, st))
      end
  end.

(** The translation of the value of [SO_ERROR]. *)
Definition translate_error (m : gmap Z Z) (pointer : Z) : option (gmap Z Z) :=
  match load32 m pointer with
  | None => None
  | Some host_error => Some (store32 m pointer (linux_errno_number (s32 host_error)))
  end.

Definition socket_option_call (number arg0 arg1 arg2 arg3 arg4 : Z) (st : fd_state) : call :=
  match socket_option (s32 arg1) (s32 arg2) with
  | None => Ret (- LINUX_ENOPROTOOPT, st)
  | Some name =>
    if number =? LINUX_NR_SETSOCKOPT then
      answer <~ Setsockopt (s32 arg0) name (mem_load (fd_memory st) arg3 (Z.to_nat arg4)) arg4;;
      Ret (done_or_error answer, st)
    else if arg4 =? 0 then Ret (host_negative EFAULT, st)
    else
      len <- load_or_fault (load32 (fd_memory st) arg4);;
      answer <~ Getsockopt (s32 arg0) name len;;
      match answer with
      | inl e => Ret (linux_error e, st)
      | inr (value, len) =>
        let m := mem_store (fd_memory st) arg3 value in
        m <- (if (s32 arg1 =? 1) && (s32 arg2 =? 4) && negb (arg3 =? 0) && (4 <=? len)
              then load_or_fault (translate_error m arg3) else Ret m);;
        Ret (0, set_memory (fun _ => store32 m arg4 len) st)
      end
  end.

(** The words of [struct linux_msghdr]: name, name length, vectors, count,
    control, control length, flags.  A name is stored through a copy of its
    length, here the pair of the capacity and what replaces it. *)
Definition store_name (m : gmap Z Z) (name capacity : Z) (host : sockaddr) : Z * gmap Z Z * Z :=
  match converted_address host with
  | inl e => (e, m, capacity)
  | inr (required, converted) =>
    (0, (if negb (name =? 0) && negb (capacity =? 0)
         then mem_store m name (take (Z.to_nat capacity) converted) else m), required)
  end.

Definition apply_writes (writes : list (Z * list Z)) (m : gmap Z Z) : gmap Z Z :=
  fold_left (fun m '(a, bytes) => mem_store m a bytes) writes m.

Definition message_call (number arg0 arg1 arg2 : Z) (st : fd_state) : call :=
  if arg1 =? 0 then Ret (host_negative EFAULT, st)
  else
    words <- load_or_fault (load_words (fd_memory st) arg1 7);;
    let word i := nth i words 0 in
    let name := word 0%nat in let name_length := word 1%nat in
    let iov := word 2%nat in let iov_count := word 3%nat in
    if negb (word 4%nat =? 0) || negb (word 5%nat =? 0) then Ret (- LINUX_EOPNOTSUPP, st)
    else match message_flags arg2 with
    | None => Ret (host_negative EINVAL, st)
    | Some flags =>
      if number =? LINUX_NR_SENDMSG then
        let send address := answer <~ Sendmsg (s32 arg0) flags iov iov_count address;;
                            Ret (value_or_error answer, st) in
        if name =? 0 then send None
        else with_address st name name_length (fun address => send (Some address))
      else
        answer <~ Recvmsg (s32 arg0) flags iov iov_count (negb (name =? 0));;
        match answer with
        | inl e => Ret (linux_error e, st)
        | inr message =>
          let m := apply_writes (rm_writes message) (fd_memory st) in
          let finish m name_length :=
            let header := [name; name_length; iov; iov_count; 0; 0; linux_message_flags (rm_flags message)] in
            Ret (s32 (rm_count message), set_memory (fun _ => mem_store m arg1
              (concat (map (le_bytes 4) header))) st) in
          if name =? 0 then finish m name_length
          else
            let '(r, m, name_length) := store_name m name name_length (rm_name message) in
            if negb (r =? 0) then Ret (r, set_memory (fun _ => m) st) else finish m name_length
        end
    end.

Definition socketcall_number (call : Z) : Z :=
  nth (Z.to_nat call) [0; LINUX_NR_SOCKET; LINUX_NR_BIND; LINUX_NR_CONNECT; LINUX_NR_LISTEN;
    LINUX_NR_ACCEPT; LINUX_NR_GETSOCKNAME; LINUX_NR_GETPEERNAME; LINUX_NR_SOCKETPAIR; LINUX_NR_SEND;
    LINUX_NR_RECV; LINUX_NR_SENDTO; LINUX_NR_RECVFROM; LINUX_NR_SHUTDOWN; LINUX_NR_SETSOCKOPT;
    LINUX_NR_GETSOCKOPT; LINUX_NR_SENDMSG; LINUX_NR_RECVMSG; LINUX_NR_ACCEPT4] 0.

(** The switch of [linux_socket_syscall]. *)
Definition socket_switch (number : Z) (arguments : list Z) (st : fd_state) : call :=
  let arg i := nth i arguments 0 in
  let a0 := arg 0%nat in let a1 := arg 1%nat in let a2 := arg 2%nat in
  let a3 := arg 3%nat in let a4 := arg 4%nat in let a5 := arg 5%nat in
  if number =? LINUX_NR_SOCKET then make_socket a0 a1 a2 st
  else if (number =? LINUX_NR_BIND) || (number =? LINUX_NR_CONNECT) || (number =? LINUX_NR_GETSOCKNAME)
          || (number =? LINUX_NR_GETPEERNAME) then address_call number a0 a1 a2 st
  else if number =? LINUX_NR_LISTEN then
    answer <~ Listen (s32 a0) (s32 a1);; Ret (done_or_error answer, st)
  else if number =? LINUX_NR_ACCEPT then accept_socket a0 a1 a2 a3 false st
  else if number =? LINUX_NR_ACCEPT4 then accept_socket a0 a1 a2 a3 true st
  else if number =? LINUX_NR_SOCKETPAIR then socket_pair a0 a1 a2 a3 st
  else if (number =? LINUX_NR_SEND) || (number =? LINUX_NR_SENDTO) || (number =? LINUX_NR_RECV)
          || (number =? LINUX_NR_RECVFROM) then transfer number a0 a1 a2 a3 a4 a5 st
  else if number =? LINUX_NR_SHUTDOWN then
    answer <~ Shutdown (s32 a0) (s32 a1);; Ret (done_or_error answer, st)
  else if (number =? LINUX_NR_SETSOCKOPT) || (number =? LINUX_NR_GETSOCKOPT)
  then socket_option_call number a0 a1 a2 a3 a4 st
  else if (number =? LINUX_NR_SENDMSG) || (number =? LINUX_NR_RECVMSG) then message_call number a0 a1 a2 st
  else Ret (host_negative ENOSYS, st).

Definition linux_socket_syscall (number : Z) (arguments : list Z) (st : fd_state) : call :=
  if number =? LINUX_NR_SOCKETCALL then
    let number := socketcall_number (nth 0 arguments 0) in
    let pointer := nth 1 arguments 0 in
    if (number =? 0) || (pointer =? 0) then Ret (host_negative EINVAL, st)
    else
      words <- load_or_fault (load_words (fd_memory st) pointer 6);;
      socket_switch number words st
  else socket_switch number arguments st.

End sockets.

(** ** Properties *)

(** What the host header guarantees: the families are distinct byte values, and a
    socket path fits a [struct sockaddr_storage]. *)
Class HostSocketOk `{!HostSocket} : Prop := {
  domain_byte : forall d, is_byte (domain_code d);
  domain_inj : forall d d', domain_code d = domain_code d' -> d = d';
  sun_path_fits : (sun_path_size <= 126)%nat }.

(** The tables of descriptors are as they were. *)
Definition same_tables (st st' : fd_state) : Prop :=
  fd_paths st' = fd_paths st /\ directory_streams st' = directory_streams st /\
  eventfd_write_peers st' = eventfd_write_peers st.

(** What a call makes when it succeeds: a descriptor that it returns, a pair that it
    stores at a pointer of the guest, or nothing. *)
Inductive socket_kind : Set := MakesOne | MakesPair (pointer : Z) | MakesNone.

Definition switch_makes (number : Z) (arguments : list Z) : socket_kind :=
  if (number =? LINUX_NR_SOCKET) || (number =? LINUX_NR_ACCEPT) || (number =? LINUX_NR_ACCEPT4) then MakesOne
  else if number =? LINUX_NR_SOCKETPAIR then MakesPair (nth 3 arguments 0)
  else MakesNone.

(** [socketcall] has its number in the first argument and the others in memory. *)
Definition call_makes (number : Z) (arguments : list Z) (st : fd_state) : socket_kind :=
  if number =? LINUX_NR_SOCKETCALL then
    match load_words (fd_memory st) (nth 1 arguments 0) 6 with
    | Some words => switch_makes (socketcall_number (nth 0 arguments 0)) words
    | None => MakesNone
    end
  else switch_makes number arguments.

(** The host's descriptors after a call that returned [r]: after an error those
    from before; after a success the ones it makes, with nothing else changed. *)
Definition socket_made (kind : socket_kind) (st' : fd_state) (h : host) (r : Z) (h' : host) : Prop :=
  if r <? 0 then h' = h
  else match kind with
  | MakesOne => free h r /\ h' = <[r := OOther]> h
  | MakesPair pointer => r = 0 /\ exists a b, free h a /\ free h b /\ a <> b /\
      h' = <[a := OOther]> (<[b := OOther]> h) /\
      mem_load (fd_memory st') pointer 8 = Some (le_bytes 4 a ++ le_bytes 4 b)
  | MakesNone => h' = h
  end.

Section properties.
Context `{!HostErrno, !HostErrnoOk, !HostOpen, !HostSocket}.
Implicit Types (st : fd_state) (h : host).

Definition socket_ok (kind : socket_kind) (st : fd_state) (h : host) (out : Z * fd_state) (h' : host) : Prop :=
  same_tables st out.2 /\ socket_made kind out.2 h out.1 h'.

Lemma socket_quiet st st' h r : same_tables st st' -> socket_ok MakesNone st h (r, st') h.
Proof. intros Ht. split; [done|]. unfold socket_made. by cond. Qed.

Lemma socket_failed kind st st' h r : same_tables st st' -> r < 0 -> socket_ok kind st h (r, st') h.
Proof. intros Ht Hr. split; [done|]. unfold socket_made. by rewrite (proj2 (Z.ltb_lt _ _)). Qed.

Lemma same_tables_refl st : same_tables st st.
Proof. done. Qed.

Hint Resolve socket_quiet socket_failed same_tables_refl linux_error_neg host_negative_neg : wp.

Lemma configure_socket_ok fd nonblock cloexec h :
  wp (configure_socket fd nonblock cloexec) h (fun _ h' => h' = h).
Proof.
  unfold configure_socket. apply wp_bind. apply wp_mono with (fun _ h' => h' = h).
  - cond; [|done]. cbn [wp]. intros [e|current] h1 [-> _]; [done|]. cbn [wp]. by intros answer h2 ->.
  - intros [e|] h1 ->; [done|]. cond; [|done]. cbn [wp]. intros [e|current] h2 [-> _]; [done|].
    cbn [wp]. by intros answer h3 [-> _].
Qed.

Lemma converted_error host e : converted_address host = inl e -> e < 0.
Proof.
  unfold converted_address. destruct (linux_domain _).
  - destruct (128 <? _); intros Heq; [|done]. injection Heq as <-. auto with wp.
  - intros Heq. injection Heq as <-. unfold LINUX_EAFNOSUPPORT. lia.
Qed.

Lemma store_address_value m guest guest_length host r m' :
  store_address m guest guest_length host = Some (r, m') -> r <= 0.
Proof.
  unfold store_address. cond.
  { intros Heq. injection Heq as <- <-. pose proof (host_negative_neg EFAULT). cond; lia. }
  destruct (load32 m guest_length); [|done].
  destruct (converted_address host) as [e|[required converted]] eqn:Ec; intros Heq; injection Heq as <- <-.
  - apply converted_error in Ec. lia.
  - lia.
Qed.

(** A new descriptor that is configured, or closed again. *)
Lemma configured_ok st h fd nonblock cloexec k :
  free h fd -> wp k (<[fd := OOther]> h) (socket_ok MakesOne st h) ->
  wp (configured st fd nonblock cloexec k) (<[fd := OOther]> h) (socket_ok MakesOne st h).
Proof.
  intros [Hfd Hfree] Hk. unfold configured. apply wp_bind. eapply wp_mono; [apply configure_socket_ok|].
  intros [e|] h1 ->; [|done]. cbn [wp]. intros _ h2 ->. rewrite delete_insert_id by done.
  auto with wp.
Qed.

Lemma made_one st st' h fd :
  free h fd -> same_tables st st' -> socket_ok MakesOne st h (fd, st') (<[fd := OOther]> h).
Proof.
  intros Hfd Ht. split; [done|]. unfold socket_made. pose proof Hfd as [Hpos _]. cbn [fst].
  by rewrite (proj2 (Z.ltb_ge _ _) Hpos).
Qed.

(** A call that ends with an error and nothing made. *)
Ltac call_fails := cbn [wp]; apply socket_failed; [done|auto with wp].

Lemma make_socket_ok st h arg0 arg1 arg2 : wp (make_socket arg0 arg1 arg2 st) h (socket_ok MakesOne st h).
Proof.
  unfold make_socket. destruct (host_domain _); [|call_fails].
  destruct (socket_type arg1) as [[[type nonblock] cloexec]|]; [|call_fails]. cbn [wp].
  intros [e|fd] h1 Hstep; [simpl in Hstep; subst; call_fails|].
  destruct Hstep as [Hfree ->]. apply configured_ok; [done|]. by apply made_one.
Qed.

Lemma accept_socket_ok st h arg0 arg1 arg2 arg3 with_flags :
  wp (accept_socket arg0 arg1 arg2 arg3 with_flags st) h (socket_ok MakesOne st h).
Proof.
  unfold accept_socket. destruct (if with_flags then _ else _) as [[[type nonblock] cloexec]|];
    [|call_fails]. cbn [wp].
  intros [e|[fd address]] h1 Hstep; [simpl in Hstep; subst; call_fails|].
  destruct Hstep as [Hfree ->]. apply configured_ok; [done|]. cond; [by apply made_one|].
  unfold storing. apply wp_bind.
  destruct (store_address _ _ _ _) as [[r m]|] eqn:Es; [|done]. cbn [load_or_fault wp fst snd].
  apply store_address_value in Es. destruct (r =? 0) eqn:Er; cbn [negb]; [by apply made_one|].
  cbn [wp]. intros _ h2 ->. destruct Hfree as [_ Hfree]. rewrite delete_insert_id by done.
  apply socket_failed; [done|lia].
Qed.

Lemma socket_pair_ok st h arg0 arg1 arg2 arg3 :
  wp (socket_pair arg0 arg1 arg2 arg3 st) h (socket_ok (MakesPair arg3) st h).
Proof.
  unfold socket_pair. cond; [call_fails|].
  destruct (host_domain _); [|call_fails].
  destruct (socket_type arg1) as [[[type nonblock] cloexec]|]; [|call_fails]. cbn [wp].
  intros [e|[a b]] h1 Hstep; [simpl in Hstep; subst; call_fails|].
  destruct Hstep as (Ha & Hb & Hne & ->). apply wp_bind. eapply wp_mono; [apply configure_socket_ok|].
  intros failed h1 ->. apply wp_bind.
  apply wp_mono with (fun _ h' => h' = <[a := OOther]> (<[b := OOther]> h)).
  { destruct failed; [done|apply configure_socket_ok]. }
  intros [e|] h1 ->.
  - cbn [wp]. intros _ h1 ->. intros _ h1 ->. rewrite pipe_undone; [|apply Ha|apply Hb|done].
    call_fails.
  - split; [done|]. split; [done|]. exists a, b. split_and!; try done.
    simpl. by apply (mem_load_store _ _ (le_bytes 4 a ++ le_bytes 4 b)).
Qed.

Lemma with_address_ok st h guest guest_length k :
  (forall address, wp (k address) h (socket_ok MakesNone st h)) ->
  wp (with_address st guest guest_length k) h (socket_ok MakesNone st h).
Proof.
  intros Hk. unfold with_address. apply wp_bind.
  destruct (guest_address _ _ _) as [[e|address]|]; [by apply socket_quiet|apply Hk|done].
Qed.

(** A program that changes neither the tables nor the host's descriptors. *)
Ltac quiet_call :=
  repeat first
    [ progress cbn [wp load_or_fault bind fst snd]
    | by apply socket_quiet
    | match goal with
      | |- wp (with_address _ _ _ _) _ _ => apply with_address_ok; intros ?
      | |- wp (bind _ _) _ _ => apply wp_bind
      | |- wp (load_or_fault ?o) _ _ => destruct o; [|done]
      | |- wp (match ?a with _ => _ end) _ _ => destruct a
      | |- wp (storing _ _ _ _ _) _ _ => unfold storing
      | |- forall _ _, _ -> _ => let Hs := fresh in intros ? ? Hs; simpl in Hs; subst
      end ].

Lemma address_call_ok st h number arg0 arg1 arg2 :
  wp (address_call number arg0 arg1 arg2 st) h (socket_ok MakesNone st h).
Proof. unfold address_call. repeat cond; quiet_call. Qed.

Lemma transfer_ok st h number arg0 arg1 arg2 arg3 arg4 arg5 :
  wp (transfer number arg0 arg1 arg2 arg3 arg4 arg5 st) h (socket_ok MakesNone st h).
Proof. unfold transfer. destruct (message_flags arg3); [|by apply socket_quiet]. repeat cond; quiet_call. Qed.

Lemma socket_option_call_ok st h number arg0 arg1 arg2 arg3 arg4 :
  wp (socket_option_call number arg0 arg1 arg2 arg3 arg4 st) h (socket_ok MakesNone st h).
Proof.
  unfold socket_option_call. destruct (socket_option _ _); [|by apply socket_quiet].
  cond; [quiet_call|]. cond; quiet_call.
Qed.

Lemma message_call_ok st h number arg0 arg1 arg2 :
  wp (message_call number arg0 arg1 arg2 st) h (socket_ok MakesNone st h).
Proof.
  unfold message_call. cond; [by apply socket_quiet|]. apply wp_bind.
  destruct (load_words _ _ _) as [words|]; [|done]. cbn [load_or_fault wp]. cond; [by apply socket_quiet|].
  destruct (message_flags arg2); [|by apply socket_quiet]. cond; [cond; quiet_call|]. cbn [wp].
  intros [e|message] h1 Hs; simpl in Hs; subst; [by apply socket_quiet|]. cond; [by apply socket_quiet|].
  destruct (store_name _ _ _ _) as [[r m] n]. destruct (negb (r =? 0)); by apply socket_quiet.
Qed.

Lemma socket_switch_ok number arguments st h :
  wp (socket_switch number arguments st) h (socket_ok (switch_makes number arguments) st h).
Proof.
  unfold socket_switch, switch_makes. destruct (number =? LINUX_NR_SOCKET) eqn:E1; [apply make_socket_ok|].
  destruct (number =? LINUX_NR_ACCEPT) eqn:E2; [bprop; subst; apply accept_socket_ok|].
  destruct (number =? LINUX_NR_ACCEPT4) eqn:E3; [bprop; subst; apply accept_socket_ok|].
  destruct (number =? LINUX_NR_SOCKETPAIR) eqn:E4; [bprop; subst; apply socket_pair_ok|]. cbn [orb].
  repeat (cond; [first
    [ apply address_call_ok | apply transfer_ok | apply socket_option_call_ok | apply message_call_ok
    | quiet_call ]|]).
  by apply socket_quiet.
Qed.

Lemma socket_syscall_ok number arguments st h :
  wp (linux_socket_syscall number arguments st) h (socket_ok (call_makes number arguments st) st h).
Proof.
  unfold linux_socket_syscall, call_makes. cond; [|apply socket_switch_ok]. cond; [call_fails|].
  apply wp_bind. destruct (load_words _ _ _); [|done]. cbn [load_or_fault wp]. apply socket_switch_ok.
Qed.
End properties.

(** C18: A socket call has made exactly what it reports.  A call that returns an
    error, at whatever step it failed, leaves the host with the descriptors it had.
    When [socket], [accept] and [accept4] succeed, the value they return is a
    descriptor that was free and is now open, the only one; when [socketpair]
    succeeds it has returned 0 and the two new descriptors, and only these, are those
    at the pointer the guest gave; every other call leaves the descriptors as they
    were.  [socketcall] is the call it names.  The tables of the emulator are not
    touched. *)
Theorem socket_no_leak `{!HostErrno, !HostErrnoOk, !HostOpen, !HostSocket} (number : Z)
    (arguments : list Z) (st st' : fd_state) (h h' : host) (r : Z) :
  runs (linux_socket_syscall number arguments st) h (r, st') h' ->
  same_tables st st' /\ socket_made (call_makes number arguments st) st' h r h'.
Proof. exact (wp_runs _ _ _ _ _ (socket_syscall_ok number arguments st h)). Qed.

(** ** Addresses *)

Section addresses.
Context `{!HostErrno, !HostSocket, !HostSocketOk}.

Lemma storage_family len family data : nth 1 (storage len family data) 0 = family.
Proof.
  unfold storage. rewrite nth_lookup, list_lookup_inserts_lt by lia. rewrite list_lookup_insert_eq; [done|].
  rewrite length_insert, length_replicate. lia.
Qed.

Lemma storage_data len family data :
  (length data <= 126)%nat -> take (length data) (drop 2 (storage len family data)) = data.
Proof.
  intros Hl. apply list_eq. intros i. unfold storage. destruct (decide (i < length data)%nat).
  - rewrite lookup_take_lt by done. rewrite lookup_drop, list_lookup_inserts; [|lia|].
    + by replace (2 + i - 2)%nat with i by lia.
    + rewrite !length_insert, length_replicate. lia.
  - rewrite lookup_take_ge by lia. symmetry. apply lookup_ge_None. lia.
Qed.

Lemma host_domain_back family d : host_domain family = Some d -> linux_domain (domain_code d) = Some family.
Proof.
  unfold host_domain, linux_domain. intros Hd.
  assert (Hf : (family = 1 /\ d = AF_UNIX) \/ (family = 2 /\ d = AF_INET) \/ (family = 10 /\ d = AF_INET6)).
  { repeat case_match; bprop; simplify_eq; auto. }
  destruct Hf as [[-> ->]|[[-> ->]|[-> ->]]].
  - by rewrite Z.eqb_refl.
  - rewrite (proj2 (Z.eqb_neq (domain_code AF_INET) (domain_code AF_UNIX))) by (by intros ?%domain_inj).
    by rewrite Z.eqb_refl.
  - rewrite (proj2 (Z.eqb_neq (domain_code AF_INET6) (domain_code AF_UNIX))) by (by intros ?%domain_inj).
    rewrite (proj2 (Z.eqb_neq (domain_code AF_INET6) (domain_code AF_INET))) by (by intros ?%domain_inj).
    by rewrite Z.eqb_refl.
Qed.

(** The address of [guest_address] converts back to the bytes it was read from. *)
Lemma converted_back family d len data :
  host_domain family = Some d -> 2 <= len <= 128 -> length data = Z.to_nat (len - 2) ->
  (d = AF_INET -> len = 16) -> (d = AF_INET6 -> len = 28) ->
  converted_address (Sockaddr (storage len (domain_code d) data) len) = inr (len, le_bytes 2 family ++ data).
Proof.
  intros Hd Hlen Hdata H4 H6. unfold converted_address. cbn [sa_bytes sa_length].
  rewrite storage_family, (host_domain_back family d Hd).
  assert (Hreq : (if family =? 2 then 16 else if family =? 10 then 28 else len) = len).
  { unfold host_domain in Hd. clear Hdata Hlen. repeat case_match; bprop; simplify_eq; lia || auto.
    all: specialize (H4 eq_refl) || specialize (H6 eq_refl); lia. }
  rewrite Hreq, (proj2 (Z.ltb_ge 128 len)) by lia. do 2 f_equal.
  replace (Z.to_nat len - 2)%nat with (length data) by lia. rewrite storage_data by lia.
  apply take_ge. rewrite length_app, length_le_bytes. lia.
Qed.
End addresses.

(** The bytes of an address of a family that the conversions keep: the fixed sizes
    of the two internet families, all the guest gave for a path. *)
Definition address_size (d : domain) (len : Z) : Z :=
  match d with AF_UNIX => len | AF_INET => 16 | AF_INET6 => 28 end.

(** C37: Socket addresses survive the trip through the host.  What
    [guest_address] makes of a guest's address of any of the three families has the
    host's number of that family and the length of the address, and is converted back
    by [store_address] to the bytes the guest had given: 16, 28, or for a path all of
    them; stored in a buffer of any capacity they are cut off there, and the full
    length is reported. *)
Theorem address_roundtrip `{!HostErrno, !HostSocket} (Hok : HostSocketOk) (m : gmap Z Z) (guest len : Z)
    (address : sockaddr) :
  mem_wf m -> guest_address m guest len = Some (inr address) ->
  exists family d bytes, mem_load m guest 2 = Some family /\ host_domain (le_value family) = Some d /\
    mem_load m guest (Z.to_nat (address_size d len)) = Some bytes /\
    nth 1 (sa_bytes address) 0 = domain_code d /\ sa_length address = address_size d len /\
    converted_address address = inr (address_size d len, bytes) /\
    forall m' target pointer capacity, target <> 0 -> pointer <> 0 -> capacity <> 0 ->
      load32 m' pointer = Some capacity ->
      store_address m' target pointer address =
        Some (0, store32 (mem_store m' target (take (Z.to_nat capacity) bytes)) pointer (address_size d len)).
Proof.
  intros Hwf. unfold guest_address. cond; [done|]. bprop.
  destruct (mem_load m guest 2) as [fam|] eqn:Ef; [|done].
  destruct (host_domain (le_value fam)) as [d|] eqn:Ed; [|done].
  assert (Hfam : le_bytes 2 (le_value fam) = fam).
  { pose proof Ef as [Hl _]%mem_load_Some. rewrite <- Hl. apply le_bytes_value. by eapply mem_load_byte. }
  assert (Hback : forall n data, n = address_size d len -> 2 <= n <= 128 ->
    mem_load m (guest + 2) (Z.to_nat n - 2) = Some data ->
    address = Sockaddr (storage n (domain_code d) data) n -> exists family d bytes,
      Some fam = Some family /\ host_domain (le_value family) = Some d /\
      mem_load m guest (Z.to_nat (address_size d len)) = Some bytes /\
      nth 1 (sa_bytes address) 0 = domain_code d /\ sa_length address = address_size d len /\
      converted_address address = inr (address_size d len, bytes) /\
      forall m' target pointer capacity, target <> 0 -> pointer <> 0 -> capacity <> 0 ->
        load32 m' pointer = Some capacity ->
        store_address m' target pointer address =
          Some (0, store32 (mem_store m' target (take (Z.to_nat capacity) bytes)) pointer (address_size d len))).
  { intros n data Hn Hr Hload ->. exists fam, d, (fam ++ data). rewrite <- Hn.
    assert (Hc : converted_address (Sockaddr (storage n (domain_code d) data) n) = inr (n, fam ++ data)).
    { rewrite <- Hfam. apply converted_back; try done; [|by intros ->..].
      apply mem_load_Some in Hload as [-> _]. lia. }
    split_and!; try done.
    - replace (Z.to_nat n) with (2 + (Z.to_nat n - 2))%nat by lia. by apply mem_load_app.
    - apply storage_family.
    - intros m' target pointer capacity Ht Hp Hcap Hl. unfold store_address.
      rewrite (proj2 (Z.eqb_neq _ _) Hp), Hl, Hc, (proj2 (Z.eqb_neq _ _) Ht), (proj2 (Z.eqb_neq _ _) Hcap). done. }
  destruct d.
  - cond; [done|]. bprop. destruct (mem_load m (guest + 2) _) as [data|] eqn:El; [|done].
    intros Heq. injection Heq as <-. pose proof sun_path_fits.
    assert (Hmod : (2 + (len - 2)) mod 256 = len) by (rewrite Z.mod_small; lia). rewrite Hmod in *.
    apply (Hback len data); try done; try lia. by replace (Z.to_nat len - 2)%nat with (Z.to_nat (len - 2)) by lia.
  - cond; [done|]. bprop. destruct (mem_load m (guest + 2) _) as [data|] eqn:El; [|done].
    intros Heq. injection Heq as <-. by apply (Hback 16 data).
  - cond; [done|]. bprop. destruct (mem_load m (guest + 2) _) as [data|] eqn:El; [|done].
    intros Heq. injection Heq as <-. by apply (Hback 28 data).
Qed.

(** C40: The path of a UNIX socket is not a guest path to the emulator: [bind]
    hands the bytes the guest gave to the host as they are, so that a name under
    the guest's root is created outside of it. *)
Theorem unix_path_unresolved `{!HostErrno, !HostOpen, !HostSocket} (Hok : HostSocketOk) (st : fd_state)
    (fd guest : Z) (path : list Z) (rest : list Z) :
  guest <> 0 -> (length path <= sun_path_size)%nat ->
  mem_load (fd_memory st) guest 2 = Some [1; 0] ->
  mem_load (fd_memory st) (guest + 2) (length path) = Some path ->
  exists address k,
    linux_socket_syscall LINUX_NR_BIND (fd :: guest :: 2 + Z.of_nat (length path) :: rest) st =
      Call (Bind (s32 fd) address) k /\
    take (length path) (drop 2 (sa_bytes address)) = path.
Proof.
  intros Hg Hl Hf Hp. pose proof sun_path_fits.
  unfold linux_socket_syscall, socket_switch. cbn [nth Z.eqb Pos.eqb orb LINUX_NR_BIND LINUX_NR_SOCKETCALL
    LINUX_NR_SOCKET]. unfold address_call, with_address, guest_address.
  cbn [LINUX_NR_BIND LINUX_NR_CONNECT Z.eqb Pos.eqb orb].
  rewrite (proj2 (Z.eqb_neq guest 0) Hg), (proj2 (Z.ltb_ge (2 + _) 2)) by lia. cbn [orb]. rewrite Hf.
  change (host_domain (le_value [1; 0])) with (Some AF_UNIX). cbn iota beta zeta.
  replace (2 + Z.of_nat (length path) - 2) with (Z.of_nat (length path)) by lia.
  rewrite (proj2 (Z.ltb_ge _ _)) by lia. rewrite Nat2Z.id, Hp. cbn [load_or_fault bind].
  do 2 eexists. split; [reflexivity|]. apply storage_data. lia.
Qed.

(** ** Witnesses *)

Module SocketExamples.
#[local] Existing Instance ExampleErrno.host_errno.
#[local] Existing Instance ExampleErrno.host_errno_ok.
#[local] Existing Instance example_open.

Definition host_socket : HostSocket := {|
  domain_code d := match d with AF_UNIX => 1 | AF_INET => 2 | AF_INET6 => 24 end;
  sun_path_size := 104; SOCK_STREAM := 1; SOCK_SEQPACKET := 5;
  MSG_OOB := 0x1; MSG_PEEK := 0x2; MSG_DONTROUTE := 0x4; MSG_CTRUNC := 0x20; MSG_TRUNC := 0x10;
  MSG_DONTWAIT := 0x80; MSG_EOR := 0x8; MSG_WAITALL := 0x40; MSG_NOSIGNAL := 0x800;
  MSG_WAITFORONE := None |}.
#[local] Existing Instance host_socket.

Lemma host_socket_ok : HostSocketOk.
Proof.
  split; [|by intros [] []|simpl; lia]. intros []; unfold is_byte; simpl; lia.
Qed.

(** [socket(AF_INET, SOCK_STREAM | SOCK_NONBLOCK, 0)] *)
Definition made : option (Z * fd_state * host) :=
  execute DescriptorExamples.answer
    (linux_socket_syscall LINUX_NR_SOCKET [2; 0x801; 0; 0; 0; 0] DescriptorExamples.start)
    DescriptorExamples.h0.

Lemma socket_no_leak_witness :
  same_tables DescriptorExamples.start DescriptorExamples.start /\
  socket_made MakesOne DescriptorExamples.start DescriptorExamples.h0 3
    (<[3 := OOther]> DescriptorExamples.h0).
Proof.
  apply (socket_no_leak LINUX_NR_SOCKET [2; 0x801; 0; 0; 0; 0] DescriptorExamples.start
    DescriptorExamples.start DescriptorExamples.h0 (<[3 := OOther]> DescriptorExamples.h0) 3).
  apply (execute_runs DescriptorExamples.answer); [apply DescriptorExamples.answer_law|].
  vm_compute. reflexivity.
Defined.

(** The address [/s] of a UNIX socket. *)
Definition unix_memory : gmap Z Z := mem_store ∅ 0x100 [1; 0; 0x2f; 0x73].

Lemma address_roundtrip_witness : exists family d bytes,
  mem_load unix_memory 0x100 2 = Some family /\ host_domain (le_value family) = Some d /\
  mem_load unix_memory 0x100 (Z.to_nat (address_size d 4)) = Some bytes /\
  converted_address (Sockaddr (storage 4 1 [0x2f; 0x73]) 4) = inr (address_size d 4, bytes).
Proof.
  destruct (address_roundtrip host_socket_ok unix_memory 0x100 4 (Sockaddr (storage 4 1 [0x2f; 0x73]) 4))
    as (family & d & bytes & H1 & H2 & H3 & _ & _ & H4 & _).
  - apply mem_store_wf; [done|]. repeat apply Forall_cons_2; try apply Forall_nil_2; unfold is_byte; lia.
  - vm_compute. reflexivity.
  - exists family, d, bytes. split_and!; [exact H1|exact H2|exact H3|exact H4].
Defined.

Lemma unix_path_unresolved_witness :
  exists address k,
    linux_socket_syscall LINUX_NR_BIND [3; 0x100; 4; 0; 0; 0] (FdState ∅ ∅ ∅ unix_memory) =
      Call (Bind 3 address) k /\
    take 2 (drop 2 (sa_bytes address)) = [0x2f; 0x73].
Proof.
  apply (unix_path_unresolved host_socket_ok (FdState ∅ ∅ ∅ unix_memory) 3 0x100 [0x2f; 0x73] [0; 0; 0]).
  - done.
  - simpl. lia.
  - vm_compute. reflexivity.
  - vm_compute. reflexivity.
Defined.
End SocketExamples.
