(* ===== verification/ElfLoader.v ===== *)
(** * Loading a guest program: [src/src/elf_loader.c]

    The checks of the ELF headers, the placement of an object at one of its
    candidate addresses with retries, the patching of its code sections, the
    interpreter, and the roll back of a load that fails.  The functions run over
    the state the loader changes: the segment table ([GuestMemory]), the patch
    table ([ArmPatch]), the memory, and [errno], which the code tests. *)

From Stdlib Require Import Ascii String.
From stdpp Require Import strings.
From S2P Require Import Prelude Errno Bytes Util RuntimeRegistry GuestMemory ArmPatch GuestPath.
Open Scope Z_scope.

Definition PT_LOAD : Z := 1.
Definition PT_INTERP : Z := 3.
Definition ET_EXEC : Z := 2.
Definition ET_DYN : Z := 3.
Definition EV_CURRENT : Z := 1.
Definition SHF_WRITE : Z := 1.
Definition PHDR_SIZE : nat := 32.

(** The fields of [Elf32_Ehdr] the loader reads; [e_ident] is its first bytes. *)
Record elf_ehdr := Ehdr {
  e_ident : list Z; e_type : Z; e_machine : Z; e_version : Z; e_entry : Z; e_phoff : Z;
  e_shoff : Z; e_ehsize : Z; e_phentsize : Z; e_phnum : Z; e_shentsize : Z; e_shnum : Z }.

Definition read_ehdr (b : list Z) : elf_ehdr :=
  Ehdr (take 16 b) (load_le 2 16 b) (load_le 2 18 b) (load_le 4 20 b) (load_le 4 24 b)
    (load_le 4 28 b) (load_le 4 32 b) (load_le 2 40 b) (load_le 2 42 b) (load_le 2 44 b)
    (load_le 2 46 b) (load_le 2 48 b).

Definition read_phdr (b : list Z) : elf_phdr :=
  Phdr (load_le 4 0 b) (load_le 4 4 b) (load_le 4 8 b) (load_le 4 12 b)
    (load_le 4 16 b) (load_le 4 20 b) (load_le 4 24 b) (load_le 4 28 b).

(** [Elf32_Shdr]: the fields of [section_header] and two more. *)
Record elf_shdr := ElfShdr { shdr :> section_header; sh_addr : Z; sh_addralign : Z }.
Definition read_shdr (b : list Z) : elf_shdr :=
  ElfShdr (read_section b) (load_le 4 12 b) (load_le 4 32 b).

(** The entries of a table of [n] records of [size] bytes. *)
Definition read_table {A} (read : list Z -> A) (size n : nat) (table : list Z) : list A :=
  map (fun i => read (take size (drop (i * size) table))) (seq 0 n).

(** [struct elf_object] and [struct guest_image] *)
Record elf_object := ElfObject {
  eo_entry : Z; eo_load_bias : Z; eo_program_headers : Z;
  eo_program_header_size : Z; eo_program_header_count : Z; eo_data_end : Z }.
Record guest_image := GuestImage {
  gi_entry : Z; gi_start_entry : Z; gi_interpreter_base : Z; gi_program_headers : Z;
  gi_program_header_size : Z; gi_program_header_count : Z; gi_initial_brk : Z }.

(** ** Checks *)

Definition range_in_file (offset length file_size : Z) : bool :=
  (0 <=? file_size) && (offset <=? file_size) && (length <=? file_size - offset).

Definition valid_alignment (alignment : Z) : bool :=
  (alignment =? 0) || (alignment =? 1) || negb (has alignment (u32 (alignment - 1))).

Definition validate_program_header (h : elf_phdr) (file_size : Z) : result unit :=
  if (p_type h =? PT_LOAD) && negb (p_memsz h =? 0) then
    if (p_memsz h <? p_filesz h) ||
       (negb (p_filesz h =? 0) && negb (range_in_file (p_offset h) (p_filesz h) file_size)) ||
       negb (valid_alignment (p_align h)) ||
       ((1 <? p_align h) && has (u32 (p_vaddr h - p_offset h)) (p_align h - 1)) ||
       negb ((p_flags h .&~ (PF_R .| PF_W .| PF_X)) =? 0) ||
       ((p_flags h .& (PF_W .| PF_X)) =? (PF_W .| PF_X))
    then fail_with ENOEXEC else Ok tt
  else if (p_type h =? PT_INTERP) && negb (range_in_file (p_offset h) (p_filesz h) file_size)
  then fail_with ENOEXEC
  else Ok tt.

(** [strchr (component, '/')]: the component and what follows the slash. *)
Fixpoint next_component (s : list ascii) : list ascii * option (list ascii) :=
  match s with
  | [] => ([], None)
  | c :: rest =>
    if decide (c = slash) then ([], Some rest)
    else let (word, after) := next_component rest in (c :: word, after)
  end.

(** The loop of [safe_interpreter_path]; each round drops a character. *)
Fixpoint safe_components (fuel : nat) (component : list ascii) : bool :=
  match fuel, component with
  | O, _ | _, [] => true
  | S fuel, _ =>
    let (word, after) := next_component component in
    if decide (word = [] \/ word = chars "." \/ word = chars "..") then false
    else match after with
         | None => true
         | Some rest => safe_components fuel rest
         end
  end.

(** [path] is a C string: no character of the list is the terminator. *)
Definition safe_interpreter_path (path : list ascii) : bool :=
  match path with
  | c :: rest =>
    if negb (bool_decide (c = slash)) || bool_decide (rest = []) ||
       bool_decide (last path = Some slash)
    then false
    else safe_components (List.length rest) rest
  | [] => false
  end.

Definition section_in_executable_load (x : elf_shdr) (program_headers : list elf_phdr) : bool :=
  existsb (fun h =>
    if negb (p_type h =? PT_LOAD) || negb (has (p_flags h) PF_X) ||
       (sh_addr x <? p_vaddr h) || (sh_offset x <? p_offset h) then false
    else
      let address_delta := sh_addr x - p_vaddr h in
      let file_delta := sh_offset x - p_offset h in
      (address_delta =? file_delta) && (file_delta <=? p_filesz h) &&
      (sh_size x <=? p_filesz h - file_delta)) program_headers.

(** The identification and the fields [load_elf_object] requires. *)
Definition acceptable_header (e : elf_ehdr) (allow_executable : bool) (file_size : Z) : bool :=
  bool_decide (take 7 (e_ident e) = [0x7f; 0x45; 0x4c; 0x46; 1; 1; EV_CURRENT]) &&
  (e_version e =? EV_CURRENT) && (e_machine e =? EM_ARM) &&
  ((e_type e =? ET_DYN) || (allow_executable && (e_type e =? ET_EXEC))) &&
  (e_ehsize e =? Z.of_nat EHDR_SIZE) && (e_phentsize e =? Z.of_nat PHDR_SIZE) &&
  negb (e_phnum e =? 0) && (e_phnum e <=? Z.of_nat MAX_LOAD_SEGMENTS) &&
  (e_phoff e <=? file_size) && negb (has (e_entry e) 1).

(** ** The loader's state and effects *)

(** [ld_errno] is [None] for [errno == 0]; [ld_clock] counts the calls to the
    host, whose answers may differ from call to call. *)
Record loader := Loader {
  ld_memory : guest_memory;
  ld_patches : list patch_record;
  ld_bytes : gmap Z Z;
  ld_errno : option errno;
  ld_clock : nat }.

(** A regular file: its contents and the answer of [fstat]. *)
Record host_file := HostFile { hf_bytes : list Z; hf_fstat : result Z }.

(** The answers of the host; the first argument is the clock. *)
Record loader_host := LoaderHost {
  lh_open : nat -> list ascii -> result host_file;
  lh_read : nat -> nat -> list pread_step;
  lh_malloc : nat -> bool;
  lh_mmap : nat -> gmap Z Z -> Z -> Z -> mmap_result;
  lh_protect : nat -> protect_call -> option errno }.

(** A computation: [None] is a fault or the end of the read steps, otherwise the
    value ([None] for a return of -1) and the state after it. *)
Definition LM (A : Type) : Type := loader -> option (option A * loader).

Definition set_errno (e : option errno) (st : loader) : loader :=
  Loader (ld_memory st) (ld_patches st) (ld_bytes st) e (ld_clock st).
Definition tick (st : loader) : loader :=
  Loader (ld_memory st) (ld_patches st) (ld_bytes st) (ld_errno st) (S (ld_clock st)).

Definition lret {A} (a : A) : LM A := fun st => Some (Some a, st).
(** [return -1] without touching [errno]. *)
Definition lfail {A} : LM A := fun st => Some (None, st).
(** [errno = e; return -1]. *)
Definition lthrow {A} (e : errno) : LM A := fun st => Some (None, set_errno (Some e) st).
Definition lbind {A B} (c : LM A) (k : A -> LM B) : LM B := fun st =>
  match c st with
  | None => None
  | Some (None, st) => Some (None, st)
  | Some (Some a, st) => k a st
  end.
Notation "'let!' x ':=' c 'in' k" := (lbind c (fun x => k))
  (at level 10, x pattern, c at level 100, k at level 200) : emu_scope.

Definition lift {A} (r : result A) : LM A :=
  match r with
  | Ok a => lret a
  | Err (Some e) => lthrow e
  | Err None => lfail
  end.

(** [if (b) { errno = e; goto done; }] *)
Definition reject_if (b : bool) (e : errno) : LM unit := if b then lthrow e else lret tt.

(** [if (errno == 0) errno = ENOEXEC;] *)
Definition default_errno (st : loader) : loader :=
  set_errno (match ld_errno st with None => Some ENOEXEC | e => e end) st.

Section load.
Context `{HostProt} (host : loader_host).

(** [read_exact_at (fd, ..., length, offset)] *)
Definition read_file (file : host_file) (length offset : Z) : LM (list Z) := fun st =>
  match read_exact_at (lh_read host (ld_clock st) (Z.to_nat length)) (hf_bytes file)
          (Z.to_nat length) (Z.to_nat offset) with
  | None => None
  | Some r => lift r (tick st)
  end.

Definition allocate : LM unit := fun st =>
  (if lh_malloc host (ld_clock st) then lret tt else lthrow ENOMEM) (tick st).

Definition map_segment (file : host_file) (h : elf_phdr) (load_bias file_size : Z) : LM unit :=
  fun st =>
  match guest_memory_map_load_segment (lh_mmap host (ld_clock st) (ld_bytes st))
          (lh_read host (ld_clock st) (Z.to_nat (p_filesz h))) (hf_bytes file)
          (ld_memory st) (ld_bytes st) h load_bias file_size with
  | None => None
  | Some (r, s, m) => lift r (Loader s (ld_patches st) m (ld_errno st) (S (ld_clock st)))
  end.

Definition patch_range (start length : Z) : LM unit := fun st =>
  match arm_patch_range (ld_patches st) (ld_bytes st) start length with
  | None => None
  | Some (r, p, m) => lift r (Loader (ld_memory st) p m (ld_errno st) (ld_clock st))
  end.

(** ** [patch_executable_sections] *)

(** The body of the loop over the sections; [true] when the section was counted
    in [executable_sections]. *)
Definition patch_section (program_headers : list elf_phdr) (load_bias file_size : Z)
    (x : elf_shdr) : LM bool :=
  if negb (has (sh_flags x) SHF_EXECINSTR) || (sh_size x =? 0) then lret false
  else
  let! _ := reject_if (negb (sh_type x =? SHT_PROGBITS) ||
      negb (range_in_file (sh_offset x) (sh_size x) file_size) ||
      negb (valid_alignment (sh_addralign x)) || has (sh_flags x) SHF_WRITE ||
      negb (section_in_executable_load x program_headers) ||
      (UINTPTR_MAX - sh_addr x <? load_bias)) ENOEXEC in
  let start := load_bias + sh_addr x in
  fun st =>
  if has start 3 || has (sh_size x) 3 ||
     negb (guest_memory_is_executable (ld_memory st) start (sh_size x))
  then Some (None, default_errno st)
  else match patch_range start (sh_size x) st with
       | None => None
       | Some (None, st) => Some (None, default_errno st)
       | Some (Some _, st) => Some (Some true, st)
       end.

(** The loop; the value is whether [executable_sections != 0]. *)
Fixpoint patch_each_section (program_headers : list elf_phdr) (load_bias file_size : Z)
    (sections : list elf_shdr) : LM bool :=
  match sections with
  | [] => lret false
  | x :: rest =>
    let! counted := patch_section program_headers load_bias file_size x in
    let! more := patch_each_section program_headers load_bias file_size rest in
    lret (counted || more)
  end.

Definition patch_executable_sections (file : host_file) (e : elf_ehdr)
    (program_headers : list elf_phdr) (load_bias file_size : Z) : LM unit :=
  let! _ := reject_if ((e_shnum e =? 0) || negb (e_shentsize e =? Z.of_nat SHDR_SIZE) ||
      (file_size <? e_shoff e)) ENOEXEC in
  let table_size := e_shnum e * Z.of_nat SHDR_SIZE in
  let! _ := reject_if (file_size - e_shoff e <? table_size) ENOEXEC in
  let! _ := allocate in
  let! table := read_file file table_size (e_shoff e) in
  let! some := patch_each_section program_headers load_bias file_size
      (read_table read_shdr SHDR_SIZE (Z.to_nat (e_shnum e)) table) in
  reject_if (negb some) ENOEXEC.

(** ** [load_elf_object] *)

(** The loop that validates the headers and counts the interpreters. *)
Fixpoint validate_headers (program_headers : list elf_phdr) (file_size : Z) : LM nat :=
  match program_headers with
  | [] => lret O
  | h :: rest =>
    let! _ := lift (validate_program_header h file_size) in
    let! n := validate_headers rest file_size in
    lret (if p_type h =? PT_INTERP then S n else n)
  end.

(** The bytes of a buffer as characters. *)
Definition ascii_of_byte (b : Z) : ascii := ascii_of_N (Z.to_N b).

(** The contents of [interpreter]: a string of [p_filesz] bytes whose only zero
    is the last. *)
Definition interpreter_string (bytes : list Z) : option (list ascii) :=
  match rev bytes with
  | 0 :: text =>
    if existsb (fun b => b =? 0) text then None
    else Some (map ascii_of_byte (rev text))
  | _ => None
  end.

(** The body for a [PT_INTERP] header; any failure is [ENOEXEC]. *)
Definition read_interpreter (file : host_file) (h : elf_phdr) (capacity : Z) : LM (list ascii) :=
  if (p_filesz h <? 2) || (capacity <? p_filesz h) then lthrow ENOEXEC
  else fun st =>
  match read_file file (p_filesz h) (p_offset h) st with
  | None => None
  | Some (None, st) => lthrow ENOEXEC st
  | Some (Some bytes, st) =>
    match interpreter_string bytes with
    | Some path => if safe_interpreter_path path then lret path st else lthrow ENOEXEC st
    | None => lthrow ENOEXEC st
    end
  end.

(** The loop over the headers; [interpreter] is what the buffer holds. *)
Fixpoint read_interpreters (file : host_file) (program_headers : list elf_phdr) (capacity : Z)
    (interpreter : list ascii) : LM (list ascii) :=
  match program_headers with
  | [] => lret interpreter
  | h :: rest =>
    if p_type h =? PT_INTERP then
      let! path := read_interpreter file h capacity in
      read_interpreters file rest capacity path
    else read_interpreters file rest capacity interpreter
  end.

Definition is_load (h : elf_phdr) : bool := (p_type h =? PT_LOAD) && negb (p_memsz h =? 0).

(** The loop that maps the segments and computes [data_end]. *)
Fixpoint map_segments (file : host_file) (program_headers : list elf_phdr)
    (load_bias file_size data_end : Z) : LM Z :=
  match program_headers with
  | [] => lret data_end
  | h :: rest =>
    if is_load h then
      let! _ := map_segment file h load_bias file_size in
      let end_ := u32 (load_bias + p_vaddr h + p_memsz h) in
      map_segments file rest load_bias file_size (if data_end <? end_ then end_ else data_end)
    else map_segments file rest load_bias file_size data_end
  end.

(** The condition under which the loop over the biases breaks; the value is
    [data_end]. *)
Definition attempt_load (file : host_file) (e : elf_ehdr) (program_headers : list elf_phdr)
    (load_bias file_size : Z) : LM Z := fun st =>
  (let! data_end := map_segments file program_headers load_bias file_size 0 in
   let! _ := (fun st' => if (guest_memory_segment_count (ld_memory st') =?
                             guest_memory_segment_count (ld_memory st))%nat
                         then lfail st' else lret tt st') in
   let! _ := patch_executable_sections file e program_headers load_bias file_size in
   if UINTPTR_MAX - e_entry e <? load_bias then lfail else lret data_end) st.

(** [arm_patch_rollback (patches_before); guest_memory_rollback (loads_before);] *)
Definition roll_back (patches_before loads_before : nat) (st : loader) : loader :=
  let (p, m) := arm_patch_rollback (ld_patches st) (ld_bytes st) patches_before in
  let (s, m) := guest_memory_rollback (ld_memory st) m loads_before in
  Loader s p m (ld_errno st) (ld_clock st).

(** The loop over the candidate addresses: the bias and [data_end]. *)
Fixpoint try_biases (file : host_file) (e : elf_ehdr) (program_headers : list elf_phdr)
    (file_size : Z) (biases : list Z) : LM (Z * Z) := fun st =>
  match biases with
  | [] => lthrow EEXIST st
  | load_bias :: rest =>
    match attempt_load file e program_headers load_bias file_size st with
    | None => None
    | Some (Some data_end, st) => lret (load_bias, data_end) st
    | Some (None, st') =>
      let st' := roll_back (arm_patch_count (ld_patches st))
                   (guest_memory_segment_count (ld_memory st)) (default_errno st') in
      if negb (e_type e =? ET_DYN) || negb (bool_decide (ld_errno st' = Some EEXIST))
      then Some (None, st')
      else try_biases file e program_headers file_size rest st'
    end
  end.

(** The address of the program headers in the first segment that holds them. *)
Fixpoint find_program_headers (e : elf_ehdr) (headers_size load_bias : Z)
    (program_headers : list elf_phdr) : Z :=
  match program_headers with
  | [] => 0
  | h :: rest =>
    if negb (p_type h =? PT_LOAD) || (e_phoff e <? p_offset h)
    then find_program_headers e headers_size load_bias rest
    else
      let delta := e_phoff e - p_offset h in
      if (delta <=? p_filesz h) && (headers_size <=? p_filesz h - delta)
      then u32 (load_bias + p_vaddr h + delta)
      else find_program_headers e headers_size load_bias rest
  end.

Definition main_biases : list Z := [0x20000000; 0x30000000; 0x40000000; 0x50000000].
Definition interpreter_biases : list Z := [0x60000000; 0x50000000; 0x40000000; 0x30000000].
Definition MAIN_ET_DYN_BIAS : Z := 0x20000000.
Definition INTERPRETER_BIAS : Z := 0x60000000.

(** The file part of [load_elf_object]: the headers it accepts. *)
Definition read_headers (file : host_file) (allow_executable : bool)
  : LM (Z * elf_ehdr * list elf_phdr) :=
  let! file_size := lift (hf_fstat file) in
  let! _ := (if (file_size <? 0) || (UINTPTR_MAX <? file_size) then lfail else lret tt) in
  let! bytes := read_file file (Z.of_nat EHDR_SIZE) 0 in
  let e := read_ehdr bytes in
  let! _ := reject_if (negb (acceptable_header e allow_executable file_size)) ENOEXEC in
  let headers_size := e_phnum e * Z.of_nat PHDR_SIZE in
  let! _ := reject_if (file_size - e_phoff e <? headers_size) ENOEXEC in
  let! _ := allocate in
  let! table := read_file file headers_size (e_phoff e) in
  lret (file_size, e, read_table read_phdr PHDR_SIZE (Z.to_nat (e_phnum e)) table).

(** [load_elf_object]; [interpreter_capacity] is [None] for a null [interpreter].
    The value is the object and the contents of [interpreter]. *)
Definition load_elf_object (path : list ascii) (dynamic_bias : Z) (allow_executable : bool)
    (interpreter_capacity : option Z) : LM (elf_object * list ascii) :=
  let! file := (fun st => lift (lh_open host (ld_clock st) path) (tick st)) in
  let! (file_size, e, program_headers) := read_headers file allow_executable in
  let! interpreter_count := validate_headers program_headers file_size in
  let! _ := reject_if ((1 <? interpreter_count)%nat ||
      (negb (interpreter_count =? 0)%nat &&
       bool_decide (interpreter_capacity = None))) ENOEXEC in
  let! interpreter := read_interpreters file program_headers
      (default 0 interpreter_capacity) [] in
  let biases := if dynamic_bias =? INTERPRETER_BIAS then interpreter_biases else main_biases in
  let! (load_bias, data_end) := try_biases file e program_headers file_size
      (if e_type e =? ET_DYN then biases else [0]) in
  lret (ElfObject (u32 (load_bias + e_entry e)) load_bias
          (find_program_headers e (e_phnum e * Z.of_nat PHDR_SIZE) load_bias program_headers)
          (e_phentsize e) (e_phnum e) data_end, interpreter).

(** ** [load_guest_image] *)

(** [if (c != 0) { if (errno == 0) errno = ENOEXEC; goto fail; }] *)
Definition or_enoexec {A} (c : LM A) : LM A := fun st =>
  match c st with
  | Some (None, st) => Some (None, default_errno st)
  | other => other
  end.

Definition brk_initialize (initial_break : Z) : LM unit := fun st =>
  let (r, s) := guest_brk_initialize (ld_memory st) initial_break in
  lift r (Loader s (ld_patches st) (ld_bytes st) (ld_errno st) (ld_clock st)).

Definition finalize : LM unit := fun st =>
  lift (fst (guest_memory_finalize (lh_protect host (ld_clock st))
               (load_segments (ld_memory st)))) (tick st).

(** The last condition: code was patched, both entries are executable, the break
    and the protections can be set. *)
Definition image_ready (entry start_entry initial_brk : Z) : LM unit :=
  or_enoexec (
    let! _ := (fun st => if (arm_patch_count (ld_patches st) =? 0)%nat ||
        negb (guest_memory_is_executable (ld_memory st) entry 4) ||
        negb (guest_memory_is_executable (ld_memory st) start_entry 4)
      then lfail st else lret tt st) in
    let! _ := brk_initialize initial_brk in
    finalize).

(** The start address and the interpreter's base. *)
Definition load_interpreter (PATH_MAX : nat) (fs : host_fs) (ps : path_state)
    (main : elf_object) (interpreter : list ascii) : LM (Z * Z) :=
  match interpreter with
  | [] => lret (eo_entry main, 0)
  | _ =>
    match guest_path_resolve PATH_MAX fs ps (Some interpreter) false PATH_MAX with
    | ArrayOverflow => fun _ => None
    | Returns r =>
      let! interpreter_path := lift r in
      let! (object, _) := load_elf_object interpreter_path INTERPRETER_BIAS false None in
      lret (eo_entry object, eo_load_bias object)
    end
  end.

Definition image_body (PATH_MAX : nat) (fs : host_fs) (ps : path_state) (path : list ascii)
  : LM guest_image :=
  let! (main, interpreter) :=
    load_elf_object path MAIN_ET_DYN_BIAS true (Some (Z.of_nat PATH_MAX)) in
  let! (start_entry, base) := load_interpreter PATH_MAX fs ps main interpreter in
  let! _ := image_ready (eo_entry main) start_entry (eo_data_end main) in
  lret (GuestImage (eo_entry main) start_entry base (eo_program_headers main)
          (eo_program_header_size main) (eo_program_header_count main) (eo_data_end main)).

(** [load_guest_image]: a failure rolls everything back and keeps [errno]. *)
Definition load_guest_image (PATH_MAX : nat) (fs : host_fs) (ps : path_state) (path : list ascii)
  : LM guest_image := fun st =>
  match image_body PATH_MAX fs ps path st with
  | Some (None, st') =>
    Some (None, roll_back (arm_patch_count (ld_patches st))
                  (guest_memory_segment_count (ld_memory st)) st')
  | other => other
  end.
End load.

(** ** The invariant of the loader and the shape of its steps *)

(** Every tabled range is backed by memory. *)
Record loader_wf (st : loader) : Prop := {
  lw_segments : segments_wf (ld_memory st);
  lw_registry : registry_wf (runtime_mappings (ld_memory st));
  lw_patches : patches_wf (ld_patches st) (ld_bytes st);
  lw_bytes : mem_wf (ld_bytes st);
  lw_backed : forall g, g ∈ load_segments (ld_memory st) ->
    mapped (ld_bytes st) (map_start g) (map_length g);
  lw_runtime : forall x, owner (runtime_mappings (ld_memory st)) x <> None ->
    is_Some (ld_bytes st !! x) }.

(** The new segments [news] are of addresses nothing was mapped at, and outside
    them the memory differs from the old one by patches only. *)
Record extends (st st' : loader) (news : list load_segment) : Prop := {
  ex_memory : ld_memory st' = with_segments (ld_memory st) (load_segments (ld_memory st) ++ news);
  ex_free : forall x g, g ∈ news -> in_segment x g -> ld_bytes st !! x = None;
  ex_same : forall k x, (k <= length (ld_patches st))%nat ->
    (forall g, g ∈ news -> ~ in_segment x g) ->
    undo k (ld_patches st') (ld_bytes st') !! x = undo k (ld_patches st) (ld_bytes st) !! x }.

(** What a part of a load, complete or not, does to the state. *)
Record run_of (st st' : loader) : Prop := {
  ro_wf : loader_wf st';
  ro_patches : exists new, ld_patches st' = ld_patches st ++ new;
  ro_extends : exists news, extends st st' news;
  ro_clean : forall a, a mod 4 = 0 -> clean (ld_bytes st) a -> clean (ld_bytes st') a }.

(** The parts of the state other than [errno] and the clock. *)
Definition same_store (st st' : loader) : Prop :=
  ld_memory st' = ld_memory st /\ ld_patches st' = ld_patches st /\ ld_bytes st' = ld_bytes st.

Lemma run_of_same st st' : loader_wf st -> same_store st st' -> run_of st st'.
Proof.
  destruct st, st'. intros Hwf (H1 & H2 & H3). simpl in *. subst. split; simpl; [|by exists []; rewrite app_nil_r| |done].
  - destruct Hwf. by split.
  - exists []. split; simpl; [|set_solver|done]. by rewrite app_nil_r, with_segments_id.
Qed.

(** A new segment of the second part was free at the start. *)
Lemma extends_free st st1 news x :
  loader_wf st1 -> extends st st1 news -> ld_bytes st1 !! x = None -> ld_bytes st !! x = None.
Proof.
  intros Hwf [_ Hfree Hsame] Hx.
  destruct (decide (Exists (in_segment x) news)) as [(g & Hg & Hgx)%Exists_exists|Hne].
  { by eapply Hfree. }
  rewrite <- (undo_all (ld_patches st) (ld_bytes st)), <- Hsame; [by apply undo_unmapped; [destruct Hwf|]|done|].
  intros g Hg Hgx. apply Hne, Exists_exists. eauto.
Qed.

Lemma run_of_trans st st1 st2 : run_of st st1 -> run_of st1 st2 -> run_of st st2.
Proof.
  intros [Hw1 [new1 Hp1] [n1 E1] Hc1] [Hw2 [new2 Hp2] [n2 E2] Hc2].
  split; [done|exists (new1 ++ new2); by rewrite Hp2, Hp1, app_assoc| |auto].
  exists (n1 ++ n2). pose proof (extends_free st st1 n1) as Hfr.
  destruct E1 as [M1 F1 S1], E2 as [M2 F2 S2]. split.
  - rewrite M2, M1. cbn [load_segments with_segments]. by rewrite app_assoc.
  - intros x g [Hg|Hg]%elem_of_app Hin; [by eapply F1|].
    apply Hfr; [done|by split|by eapply F2].
  - intros k x Hk Hnot. rewrite S2, S1; [done|done|set_solver| |set_solver].
    rewrite Hp1, length_app. lia.
Qed.

(** The two roll backs, in the order of the code, undo any part of a load. *)
Lemma roll_back_run st st' :
  run_of st st' ->
  same_store st (roll_back (arm_patch_count (ld_patches st))
                   (guest_memory_segment_count (ld_memory st)) st').
Proof.
  intros [_ [new Hp] [news [Hm Hfree Hsame]] _]. unfold roll_back, arm_patch_rollback,
    guest_memory_rollback, arm_patch_count, same_store.
  rewrite Hm. cbn [load_segments with_segments ld_memory ld_patches ld_bytes]. rewrite drop_new.
  split_and!.
  - unfold guest_memory_segment_count. rewrite take_app_length. by destruct (ld_memory st).
  - by rewrite Hp, take_app_length.
  - apply map_eq. intros x. rewrite unmap_segments_lookup. destruct (existsb _ _) eqn:He.
    + apply existsb_exists in He as (g & Hg%in_rev%list_elem_of_In & Hx).
      symmetry. by eapply Hfree.
    + rewrite <- (undo_all (ld_patches st) (ld_bytes st)), <- Hsame; [done|done|].
      intros g Hg Hx. rewrite <- not_true_iff_false, existsb_exists in He.
      apply He. exists g. split; [|done].
      by apply in_rev; rewrite rev_involutive; apply list_elem_of_In.
Qed.

(** ** Steps that change the state *)

Section steps.
Context `{HostProt}.

(** The state after a segment has been mapped. *)
Lemma segment_mapped_run st file h bias s' m' e t :
  loader_wf st -> phdr_ok h -> Forall is_byte file ->
  segments_wf s' -> segment_mapped file h bias (ld_memory st) (ld_bytes st) s' m' ->
  run_of st (Loader s' (ld_patches st) m' e t).
Proof.
  intros [Hs Hr Hp Hb Hback Hrun] ([? _] & _ & [? _] & _) Hf Hs'
    (start & n & -> & Hlo & Hfm & Hhi & Hlen & Hfree & Hx).
  set (a := bias + p_vaddr h) in *.
  assert (Hin : forall x, inside a (p_filesz h) x = true -> inside start n x = true).
  { intros x [? ?]%inside_spec. apply inside_spec. lia. }
  assert (Hout : forall x, inside start n x = false -> m' !! x = ld_bytes st !! x).
  { intros x Ho. rewrite Hx, Ho. destruct (inside a _ x) eqn:E; [|done]. apply Hin in E. congruence. }
  assert (Hkeep : forall x, is_Some (ld_bytes st !! x) -> m' !! x = ld_bytes st !! x).
  { intros x [b Hbx]. apply Hout, not_true_iff_false. intros Hi. rewrite Hfree in Hbx; done. }
  split; cbn [ld_memory ld_patches ld_bytes].
  - split; cbn [ld_memory ld_patches ld_bytes load_segments with_segments runtime_mappings];
      [done|done|by eapply patches_wf_ext| | |].
    + intros x b. rewrite Hx. repeat cond; intros Hl; [|simplify_eq; unfold is_byte; lia|by eapply Hb].
      rewrite Forall_lookup in Hf. by eapply Hf.
    + intros g [Hg|Hg%list_elem_of_singleton]%elem_of_app x Hgx; [|subst g].
      { destruct (Hback g Hg x Hgx) as [b Hbx]. exists b. by rewrite Hkeep. }
      apply inside_spec in Hgx. cbn [map_start map_length] in Hgx. rewrite Hx, Hgx.
      cond; [|by eexists]. bprop. apply inside_spec in E. apply lookup_lt_is_Some_2. lia.
    + intros x Ho. destruct (Hrun x Ho) as [b Hbx]. exists b. by rewrite Hkeep.
  - exists []. by rewrite app_nil_r.
  - eexists [_]. split; cbn [ld_memory ld_patches ld_bytes]; [done| |].
    + intros x g ->%list_elem_of_singleton Hi. by apply Hfree.
    + intros k x _ Hnot. apply restore_lookup_ext, Hout, not_true_iff_false. intros Hi.
      by eapply Hnot; [apply list_elem_of_singleton; reflexivity|].
  - intros x _ Hc. by eapply clean_ext.
Qed.
End steps.

(** ** Total specifications of computations *)

(** The computation returns, with a result and a state that satisfy [Q]. *)
Definition returns {A} (c : LM A) (st : loader) (Q : option A -> loader -> Prop) : Prop :=
  exists r st', c st = Some (r, st') /\ Q r st'.

Lemma returns_ret {A} (a : A) st (Q : option A -> loader -> Prop) :
  Q (Some a) st -> returns (lret a) st Q.
Proof. intros. by exists (Some a), st. Qed.

Lemma returns_fail {A} st (Q : option A -> loader -> Prop) : Q None st -> returns lfail st Q.
Proof. intros. by exists None, st. Qed.

Lemma returns_throw {A} e st (Q : option A -> loader -> Prop) :
  Q None (set_errno (Some e) st) -> returns (lthrow e) st Q.
Proof. intros. by exists None, (set_errno (Some e) st). Qed.

Lemma returns_mono {A} (c : LM A) st (Q Q' : option A -> loader -> Prop) :
  returns c st Q -> (forall r st', Q r st' -> Q' r st') -> returns c st Q'.
Proof. intros (r & st' & E & HQ) Himp. exists r, st'. auto. Qed.

Lemma returns_bind {A B} (c : LM A) (k : A -> LM B) st (P : option A -> loader -> Prop) Q :
  returns c st P -> (forall st', P None st' -> Q None st') ->
  (forall a st', P (Some a) st' -> returns (k a) st' Q) ->
  returns (lbind c k) st Q.
Proof.
  intros (r & st' & E & HP) Hn Hs. destruct r as [a|].
  - destruct (Hs a st' HP) as (r & st2 & E2 & HQ). exists r, st2. split; [|done].
    unfold lbind. by rewrite E.
  - exists None, st'. split; [unfold lbind; by rewrite E|auto].
Qed.

Lemma returns_lift {A} (r : result A) st (Q : option A -> loader -> Prop) :
  (forall a, r = Ok a -> Q (Some a) st) -> (forall e e', r = Err e -> Q None (set_errno e' st)) ->
  returns (lift r) st Q.
Proof.
  intros Ho He. destruct r as [a|[e|]]; simpl.
  - by apply returns_ret, Ho.
  - by eapply returns_throw, He.
  - apply returns_fail. specialize (He _ (ld_errno st) eq_refl). by destruct st.
Qed.

Lemma same_store_errno st e : same_store st (set_errno e st).
Proof. done. Qed.
Lemma same_store_tick st : same_store st (tick st).
Proof. done. Qed.
Lemma same_store_trans st st1 st2 : same_store st st1 -> same_store st1 st2 -> same_store st st2.
Proof. unfold same_store. intuition congruence. Qed.

Lemma run_of_refl st : loader_wf st -> run_of st st.
Proof. intros. by apply run_of_same. Qed.
Lemma run_of_errno st st' e : run_of st st' -> run_of st (set_errno e st').
Proof. intros Hr. eapply run_of_trans; [done|]. apply run_of_same; [apply Hr|done]. Qed.
Lemma run_of_tick st st' : run_of st st' -> run_of st (tick st').
Proof. intros Hr. eapply run_of_trans; [done|]. apply run_of_same; [apply Hr|done]. Qed.
Lemma run_of_default st st' : run_of st st' -> run_of st (default_errno st').
Proof. apply run_of_errno. Qed.
#[local] Hint Resolve run_of_refl run_of_errno run_of_tick run_of_default : emu.

#[local] Instance run_of_transitive : Transitive run_of.
Proof. intros ???. apply run_of_trans. Qed.
#[local] Instance same_store_transitive : Transitive same_store.
Proof. intros ???. apply same_store_trans. Qed.

(** The computation returns; [R] relates [st0] to the state after it, and a value
    satisfies [Q].  [R] is [same_store] or [run_of]. *)
Definition performs {A} (R : loader -> loader -> Prop) (st0 : loader) (c : LM A) (st : loader)
    (Q : A -> loader -> Prop) : Prop :=
  returns c st (fun r st' => R st0 st' /\ forall a, r = Some a -> Q a st').

Lemma performs_ret {A} (R : loader -> loader -> Prop) st0 (a : A) st (Q : A -> loader -> Prop) :
  R st0 st -> Q a st -> performs R st0 (lret a) st Q.
Proof. intros. apply returns_ret. split; [done|]. by intros ? [= <-]. Qed.

Lemma performs_fail {A} (R : loader -> loader -> Prop) st0 st (Q : A -> loader -> Prop) :
  R st0 st -> performs R st0 lfail st Q.
Proof. intros. by apply returns_fail. Qed.

Lemma performs_throw {A} (R : loader -> loader -> Prop) st0 e st (Q : A -> loader -> Prop) :
  R st0 (set_errno (Some e) st) -> performs R st0 (lthrow e) st Q.
Proof. intros. by apply returns_throw. Qed.

(** Sequencing: each step is specified from the state it starts in. *)
Lemma performs_bind {A B} R `{!Transitive R} (c : LM A) (k : A -> LM B) st0 st
    (P : A -> loader -> Prop) Q :
  R st0 st -> performs R st c st P ->
  (forall a st', R st0 st' -> R st st' -> P a st' -> performs R st0 (k a) st' Q) ->
  performs R st0 (lbind c k) st Q.
Proof.
  intros Hr Hc Hk. eapply returns_bind; [exact Hc|..]; cbv beta.
  - intros st' [Hr' _]. split; [by etrans|done].
  - intros a st' [Hr' HP]. apply Hk; [by etrans|done|by apply HP].
Qed.

Lemma performs_step {A} R `{!Transitive R} (c : LM A) st0 st (P Q : A -> loader -> Prop) :
  R st0 st -> performs R st c st P -> (forall a st', R st st' -> P a st' -> Q a st') ->
  performs R st0 c st Q.
Proof.
  intros Hr Hc Himp. eapply returns_mono; [exact Hc|]. intros r st' [Hr' HP].
  split; [by etrans|]. auto.
Qed.

Lemma performs_lift {A} (R : loader -> loader -> Prop) (r : result A) st0 st
    (Q : A -> loader -> Prop) :
  (is_ok r = true -> R st0 st) -> (is_ok r = false -> forall e, R st0 (set_errno e st)) ->
  (forall a, r = Ok a -> Q a st) -> performs R st0 (lift r) st Q.
Proof.
  intros Hok Her HQ. apply returns_lift.
  - intros a ->. split; [auto|]. intros ? [= <-]. auto.
  - intros e e' ->. split; [|done]. auto.
Qed.

(** Sequences the goal's computation: [t] proves the specification of its head. *)
Tactic Notation "perform" tactic3(t) :=
  eapply performs_bind; [apply _|first [done|auto with emu]|t|cbv beta].

(** A computation that leaves the store alone is a part of a load. *)
Lemma performs_quiet {A} (c : LM A) st (Q : A -> loader -> Prop) :
  loader_wf st -> performs same_store st c st Q -> performs run_of st c st Q.
Proof.
  intros Hwf Hc. eapply returns_mono; [exact Hc|]. intros r st' [Hs HQ].
  split; [by apply run_of_same|done].
Qed.

(** Sequencing of computations before anything is changed: when such a one
    fails, the store is still that of [st0]. *)
Lemma returns_quiet_bind {A B} (c : LM A) (k : A -> LM B) st0 st (P : A -> loader -> Prop) Q :
  same_store st0 st -> performs same_store st c st P ->
  (forall st', same_store st0 st' -> Q None st') ->
  (forall a st', same_store st0 st' -> P a st' -> returns (k a) st' Q) ->
  returns (lbind c k) st Q.
Proof.
  intros Hs Hc Hn Hk. eapply returns_bind; [exact Hc|..]; cbv beta.
  - intros st' [Hs' _]. apply Hn. by etrans.
  - intros a st' [Hs' HP]. apply Hk; [by etrans|auto].
Qed.

Lemma performs_reject b e st : performs same_store st (reject_if b e) st (fun _ _ => b = false).
Proof. unfold reject_if. destruct b; [by apply performs_throw|by apply performs_ret]. Qed.

Section specs.
Context `{HostProt}.

Lemma performs_patch_range start len st :
  loader_wf st -> 0 <= len -> mapped (ld_bytes st) start len ->
  performs run_of st (patch_range start len) st (fun _ st' =>
    forall a, a mod 4 = 0 -> start <= a < start + len -> clean (ld_bytes st') a).
Proof.
  intros Hwf Hlen Hm. unfold performs, returns, patch_range.
  destruct (arm_patch_range_returns (ld_patches st) (ld_bytes st) start len Hlen Hm)
    as [[[r p'] m'] E]. rewrite E.
  destruct Hwf as [Hs Hr Hp Hb Hback Hrun].
  destruct (arm_patch_range_inv _ _ _ _ _ _ _ Hp Hb E) as (Hp' & Hb' & _).
  destruct (arm_patch_range_undo _ _ _ _ _ _ _ Hb E) as (new & -> & Hu).
  destruct (arm_patch_range_clean _ _ _ _ _ _ _ Hlen E) as [Hk Hc].
  pose proof (fun a n => arm_patch_range_mapped _ _ _ _ _ _ _ a n E) as Hmap.
  assert (Hro : run_of st (Loader (ld_memory st) (ld_patches st ++ new) m' (ld_errno st) (ld_clock st))).
  { split; cbn [ld_memory ld_patches ld_bytes]; [split; simpl; auto|by eexists| |done].
    - intros x Hx. apply (Hmap x 1); [|lia]. intros y Hy. replace y with x by lia. auto.
    - exists []. split; cbn [ld_memory ld_patches ld_bytes]; [|set_solver|].
      + by rewrite app_nil_r, with_segments_id.
      + intros k x Hk' _. by rewrite undo_app, Hu. }
  apply performs_lift; [done|auto with emu|]. intros [] -> a Ha Hin. by apply Hc.
Qed.

(** What the loader relies on: [mmap] without [MAP_FIXED] returns free addresses,
    a read of [n] bytes is answered by [n] calls that are not interrupted (any
    of which may fail or be short), and files consist of bytes. *)
Record host_ok (host : loader_host) : Prop := {
  ho_mmap : forall t m, mmap_fresh (lh_mmap host t m) m;
  ho_read : forall t n, (n <= length (filter (fun x => x <> PInterrupted) (lh_read host t n)))%nat;
  ho_file : forall t path f, lh_open host t path = Ok f -> Forall is_byte (hf_bytes f) }.

(** The segment of a header is in memory: its bytes before patching are the
    file's, then zeros, and a tabled segment with its protection contains it. *)
Record loaded (file : list Z) (bias : Z) (st : loader) (h : elf_phdr) : Prop := {
  ld_file : forall x, inside (bias + p_vaddr h) (p_filesz h) x = true ->
    undo 0 (ld_patches st) (ld_bytes st) !! x =
    file !! Z.to_nat (p_offset h + (x - (bias + p_vaddr h)));
  ld_zero : forall x, inside (bias + p_vaddr h + p_filesz h) (p_memsz h - p_filesz h) x = true ->
    undo 0 (ld_patches st) (ld_bytes st) !! x = Some 0;
  ld_segment : exists g, g ∈ load_segments (ld_memory st) /\
    final_protection g = protection_from_flags (p_flags h) /\
    map_start g <= bias + p_vaddr h /\
    bias + p_vaddr h + p_memsz h <= map_start g + map_length g }.

(** Later parts of a load keep what is loaded. *)
Lemma loaded_run file bias st st' h :
  loader_wf st -> phdr_ok h -> p_filesz h <= p_memsz h ->
  loaded file bias st h -> run_of st st' -> loaded file bias st' h.
Proof.
  intros Hwf (_ & _ & [? _] & _) Hfm [Hf Hz (g & Hg & Hpr & Hlo & Hhi)] [_ _ [news [Hm Hfree Hsame]] _].
  assert (Hx : forall x, map_start g <= x < map_start g + map_length g ->
    undo 0 (ld_patches st') (ld_bytes st') !! x = undo 0 (ld_patches st) (ld_bytes st) !! x).
  { intros x Hin. apply Hsame; [lia|]. intros g' Hg' Hi.
    destruct (lw_backed _ Hwf g Hg x Hin) as [b Hb]. by rewrite (Hfree x g' Hg' Hi) in Hb. }
  split.
  - intros x Hin. rewrite Hx; [by apply Hf|]. apply inside_spec in Hin. lia.
  - intros x Hin. rewrite Hx; [by apply Hz|]. apply inside_spec in Hin. lia.
  - exists g. rewrite Hm. cbn [load_segments with_segments]. split; [|done].
    apply elem_of_app. by left.
Qed.

Context (host : loader_host) (Hok : host_ok host).

Lemma performs_read_file file len off st :
  performs same_store st (read_file host file len off) st (fun bs _ =>
    bs = take (Z.to_nat len) (drop (Z.to_nat off) (hf_bytes file)) /\ length bs = Z.to_nat len).
Proof.
  unfold performs, returns, read_file.
  destruct (read_exact_at_returns (lh_read host (ld_clock st) (Z.to_nat len)) (hf_bytes file)
    (Z.to_nat len) (Z.to_nat off)) as [r E]; [apply Hok|]. rewrite E.
  apply performs_lift; [done..|]. intros bs ->. by eapply read_exact_at_ok.
Qed.

Lemma performs_allocate st : performs same_store st (allocate host) st (fun _ _ => True).
Proof.
  unfold performs, returns, allocate. destruct (lh_malloc host (ld_clock st)).
  - by exists (Some tt), (tick st).
  - by exists None, (set_errno (Some ENOMEM) (tick st)).
Qed.

Lemma performs_map_segment file h bias file_size st :
  loader_wf st -> phdr_ok h -> is_u32 bias -> Forall is_byte (hf_bytes file) ->
  performs run_of st (map_segment host file h bias file_size) st (fun _ st' =>
    loaded (hf_bytes file) bias st' h /\ p_filesz h <= p_memsz h).
Proof.
  intros Hwf Hh Hb Hf. unfold performs, returns, map_segment.
  destruct (map_load_segment_returns (lh_mmap host (ld_clock st) (ld_bytes st))
    (lh_read host (ld_clock st) (Z.to_nat (p_filesz h))) (hf_bytes file) (ld_memory st)
    (ld_bytes st) h bias file_size) as [[[r s'] m'] E]; [apply Hok|]. rewrite E.
  pose proof (map_load_segment_cases _ _ _ _ _ _ _ _ _ _ _ (lw_segments _ Hwf) Hh Hb
    (ho_mmap _ Hok _ _) E) as Hc.
  set (st1 := Loader s' (ld_patches st) m' (ld_errno st) (S (ld_clock st))).
  apply performs_lift; fold st1.
  - destruct r as [[]|]; [|done]. intros _. destruct Hc as [Hs' Hm]. by eapply segment_mapped_run.
  - destruct r as [|e]; [done|]. intros _. subst st1. destruct Hc as [-> ->]. intros e'. by apply run_of_same.
  - intros [] ->. destruct Hc as [_ (start & n & -> & Hlo & Hfm & Hhi & _ & Hfree & Hx)].
    split; [|done]. destruct Hh as (_ & _ & [? _] & _).
    assert (Hu : forall x, start <= x < start + n ->
      undo 0 (ld_patches st) m' !! x = m' !! x).
    { intros x Hin. eapply undo_out; [apply Hwf|]. by apply Hfree, inside_spec. }
    split; cbn [ld_patches ld_bytes ld_memory st1].
    + intros x Hin. pose proof (proj1 (inside_spec _ _ _) Hin). rewrite Hu, Hx, Hin by lia. done.
    + intros x Hin. apply inside_spec in Hin. rewrite Hu, Hx by lia. unfold inside.
      repeat cond; done || blia.
    + eexists. split; [apply elem_of_app; right; by apply list_elem_of_singleton|]. simpl. lia.
Qed.

(** ** Sections *)

Lemma executable_mapped st a n :
  loader_wf st -> 0 < n -> guest_memory_is_executable (ld_memory st) a n = true ->
  mapped (ld_bytes st) a n.
Proof.
  intros Hwf Hn. unfold guest_memory_is_executable. cond; [done|].
  intros [He|He]%orb_true_iff; apply existsb_exists in He as (g & Hg%list_elem_of_In & Hin); bprop.
  - pose proof (sw_ok _ (lw_segments _ Hwf)) as Hall. rewrite Forall_forall in Hall.
    rewrite (segment_end_ok _ g (Hall g Hg)) in *.
    intros x Hx. apply (lw_backed _ Hwf g Hg). lia.
  - intros x Hx. apply (lw_runtime _ Hwf).
    rewrite (proj2 (single_mapping _ a n true (lw_registry _ Hwf) Hn) ltac:(eauto) x Hx). done.
Qed.

(** A section the loop does not skip. *)
Definition code_section (x : elf_shdr) : bool :=
  has (sh_flags x) SHF_EXECINSTR && negb (sh_size x =? 0).

Definition section_clean (bias : Z) (st : loader) (x : elf_shdr) : Prop :=
  forall a, a mod 4 = 0 -> bias + sh_addr x <= a < bias + sh_addr x + sh_size x ->
    clean (ld_bytes st) a.

Lemma section_clean_run bias st st' x :
  section_clean bias st x -> run_of st st' -> section_clean bias st' x.
Proof. intros Hc Hr a Ha Hin. by apply (ro_clean _ _ Hr), Hc. Qed.

Lemma performs_patch_section phdrs bias file_size (x : elf_shdr) st :
  loader_wf st -> 0 <= sh_size x ->
  performs run_of st (patch_section phdrs bias file_size x) st (fun b st' =>
    b = code_section x /\ (b = true -> section_clean bias st' x)).
Proof.
  intros Hwf Hsz. unfold patch_section. destruct (_ || (sh_size x =? 0)) eqn:Ec.
  { apply performs_ret; [auto with emu|]. unfold code_section.
    destruct (has _ _), (sh_size x =? 0); done. }
  assert (Hcode : true = code_section x)
    by (unfold code_section; by destruct (has (sh_flags x) SHF_EXECINSTR), (sh_size x =? 0)).
  perform (by apply performs_quiet, performs_reject).
  intros [] st1 Hr1 _ _. pose proof (ro_wf _ _ Hr1) as Hwf1. unfold performs, returns.
  cond; [do 2 eexists; split; [done|]; split; [auto with emu|done]|].
  bprop. destruct (performs_patch_range (bias + sh_addr x) (sh_size x) st1)
    as (r & st2 & E & Hr2 & Hc); [done|done|apply executable_mapped; [done|lia|done]|].
  rewrite E. assert (run_of st st2) by (by eapply run_of_trans).
  destruct r as [[]|]; (do 2 eexists; split; [done|]; split; [auto with emu|]); [|done].
  intros b [= <-]. split; [done|]. intros _. exact (Hc tt eq_refl).
Qed.

Lemma performs_patch_each phdrs bias file_size sections st :
  loader_wf st -> Forall (fun x : elf_shdr => 0 <= sh_size x) sections ->
  performs run_of st (patch_each_section phdrs bias file_size sections) st (fun b st' =>
    b = existsb code_section sections /\
    forall x, x ∈ sections -> code_section x = true -> section_clean bias st' x).
Proof.
  intros Hwf Hs. revert st Hwf. induction Hs as [|x sections Hx _ IH]; intros st Hwf;
    cbn [patch_each_section].
  { apply performs_ret; [auto with emu|]. split; [done|set_solver]. }
  perform (by apply performs_patch_section).
  intros b1 st1 Hr1 _ [-> Hc1].
  perform (apply IH, Hr1). intros b2 st2 Hr2 Hr12 [-> Hc2].
  apply performs_ret; [done|]. split; [done|].
  intros y [->|Hy]%elem_of_cons Hcode; [|by apply Hc2].
  eapply section_clean_run; [|done]. by apply Hc1.
Qed.

(** The section table the header announces. *)
Definition file_sections (file : list Z) (e : elf_ehdr) : list elf_shdr :=
  read_table read_shdr SHDR_SIZE (Z.to_nat (e_shnum e))
    (take (Z.to_nat (e_shnum e * Z.of_nat SHDR_SIZE)) (drop (Z.to_nat (e_shoff e)) file)).

Lemma file_sections_nonneg file e :
  Forall is_byte file -> Forall (fun x : elf_shdr => 0 <= sh_size x) (file_sections file e).
Proof.
  intros Hb. apply Forall_map, Forall_forall. intros i _. apply load_le_nonneg.
  repeat first [apply Forall_take|apply Forall_drop]; done.
Qed.

(** What [patch_executable_sections] guarantees when it returns 0. *)
Definition code_patched (file : list Z) (e : elf_ehdr) (bias : Z) (st : loader) : Prop :=
  existsb code_section (file_sections file e) = true /\
  forall x, x ∈ file_sections file e -> code_section x = true -> section_clean bias st x.

Lemma performs_patch_sections file e phdrs bias file_size st :
  loader_wf st -> Forall is_byte (hf_bytes file) ->
  performs run_of st (patch_executable_sections host file e phdrs bias file_size) st (fun _ st' =>
    code_patched (hf_bytes file) e bias st').
Proof.
  intros Hwf Hb. unfold patch_executable_sections.
  perform (by apply performs_quiet, performs_reject). intros [] st1 Hr1 _ _.
  perform (apply performs_quiet, performs_reject; apply Hr1). intros [] st2 Hr2 _ _.
  perform (apply performs_quiet, performs_allocate; apply Hr2). intros [] st3 Hr3 _ _.
  perform (apply performs_quiet, performs_read_file; apply Hr3). intros table st4 Hr4 _ [-> _].
  perform (apply performs_patch_each; [apply Hr4|by apply (file_sections_nonneg (hf_bytes file) e)]).
  intros b st5 Hr5 _ [-> Hc].
  eapply performs_step; [apply _|done|apply performs_quiet, performs_reject; apply Hr5|]. intros [] st6 Hr6 Hs.
  split; [by apply negb_false_iff|]. intros x Hx Hcode.
  eapply section_clean_run; [|done]. by apply Hc.
Qed.
(** ** Placing an object *)

(** [data_end] after the segments of [phdrs], from [d]: the greatest of their
    ends. *)
Record ends_at (phdrs : list elf_phdr) (bias d d' : Z) : Prop := {
  ea_above : forall h, h ∈ phdrs -> is_load h = true -> bias + p_vaddr h + p_memsz h <= d';
  ea_start : d <= d';
  ea_reached : d' = d \/ exists h, h ∈ phdrs /\ is_load h = true /\
    d' = bias + p_vaddr h + p_memsz h }.

(** Every segment of the object is in memory. *)
Definition segments_loaded (file : list Z) (bias : Z) (phdrs : list elf_phdr) (st : loader) : Prop :=
  forall h, h ∈ phdrs -> is_load h = true -> loaded file bias st h /\ p_filesz h <= p_memsz h.

Lemma segments_loaded_run file bias phdrs st st' :
  loader_wf st -> Forall phdr_ok phdrs -> segments_loaded file bias phdrs st -> run_of st st' ->
  segments_loaded file bias phdrs st'.
Proof.
  intros Hwf Hp Hl Hr h Hh Hload. rewrite Forall_forall in Hp. destruct (Hl h Hh Hload) as [H1 H2].
  split; [|done]. by eapply loaded_run; [done|apply Hp| |..].
Qed.

Lemma loaded_end file bias st h :
  loader_wf st -> is_u32 bias -> phdr_ok h -> loaded file bias st h ->
  u32 (bias + p_vaddr h + p_memsz h) = bias + p_vaddr h + p_memsz h.
Proof.
  intros Hwf [? _] (_ & [? _] & _ & [? _]) [_ _ (g & Hg & _ & _ & Hhi)]. apply u32_small.
  pose proof (sw_ok _ (lw_segments _ Hwf)) as Hall. rewrite Forall_forall in Hall.
  destruct (Hall g Hg) as (_ & _ & ? & _). unfold is_u32, UINTPTR_MAX, GUEST_MAX_ADDRESS in *. lia.
Qed.

Lemma performs_map_segments file phdrs bias file_size d st :
  loader_wf st -> Forall phdr_ok phdrs -> is_u32 bias -> Forall is_byte (hf_bytes file) ->
  performs run_of st (map_segments host file phdrs bias file_size d) st (fun d' st' =>
    segments_loaded (hf_bytes file) bias phdrs st' /\ ends_at phdrs bias d d').
Proof.
  intros Hwf Hp Hb Hf. revert d st Hwf. induction Hp as [|h phdrs Hh Hp IH]; intros d st Hwf;
    cbn [map_segments].
  { apply performs_ret; [auto with emu|]. split; [intros h; set_solver|].
    split; [set_solver|lia|by left]. }
  destruct (is_load h) eqn:El.
  - perform (by apply performs_map_segment). intros [] st1 Hr1 _ [Hl Hfm].
    rewrite (loaded_end _ _ _ _ (ro_wf _ _ Hr1) Hb Hh Hl).
    eapply performs_step; [apply _|done|apply IH, Hr1|].
    intros d' st2 Hr2 [Hall [E1 E2 E3]]. split.
    + intros h' [->|Hin]%elem_of_cons Hl'; [|by apply Hall]. split; [|done].
      by eapply loaded_run; [apply Hr1|..].
    + assert (Hd : d <= d' /\ bias + p_vaddr h + p_memsz h <= d') by (cond_in E2; bprop; lia).
      split; [|lia|].
      * intros h' [->|Hin]%elem_of_cons Hl'; [lia|by apply E1].
      * destruct E3 as [->|(h' & ? & ? & ?)]; [|right; exists h'; split; [set_solver|done]].
        cond; [right; exists h; split; [set_solver|done]|by left].
  - eapply performs_step; [apply _|by apply run_of_refl|by apply IH|].
    intros d' st2 Hr2 [Hall [E1 E2 E3]]. split.
    + intros h' [->|Hin]%elem_of_cons Hl'; [congruence|by apply Hall].
    + split; [|done|].
      * intros h' [->|Hin]%elem_of_cons Hl'; [congruence|by apply E1].
      * destruct E3 as [->|(h' & ? & ? & ?)]; [by left|]. right; exists h'; split; [set_solver|done].
Qed.

(** An object at [bias]: its segments are in memory, its code is patched, its
    entry address does not wrap. *)
Record placed (file : list Z) (e : elf_ehdr) (phdrs : list elf_phdr) (bias d : Z) (st : loader)
  : Prop := {
  pl_segments : segments_loaded file bias phdrs st;
  pl_code : code_patched file e bias st;
  pl_end : ends_at phdrs bias 0 d;
  pl_entry : bias + e_entry e <= UINTPTR_MAX }.

Lemma placed_run file e phdrs bias d st st' :
  loader_wf st -> Forall phdr_ok phdrs -> placed file e phdrs bias d st -> run_of st st' ->
  placed file e phdrs bias d st'.
Proof.
  intros Hwf Hp [Hs [Hne Hc] He Hn] Hr. split; [by eapply segments_loaded_run| |done..].
  split; [done|]. intros x Hx Hcode. eapply section_clean_run; [|done]. by apply Hc.
Qed.

Lemma performs_attempt file e phdrs bias file_size st :
  loader_wf st -> Forall phdr_ok phdrs -> is_u32 bias -> Forall is_byte (hf_bytes file) ->
  performs run_of st (attempt_load host file e phdrs bias file_size) st (fun d st' =>
    placed (hf_bytes file) e phdrs bias d st').
Proof.
  intros Hwf Hp Hb Hf. unfold performs, attempt_load.
  perform (by apply performs_map_segments). intros d st1 Hr1 _ [Hl He].
  eapply performs_bind with (P := fun _ _ => True); [apply _|done| |].
  { apply performs_quiet; [apply Hr1|]. unfold performs, returns. destruct (_ =? _)%nat.
    - by exists None, st1.
    - by exists (Some tt), st1. }
  intros [] st2 Hr2 Hr12 _.
  perform (apply performs_patch_sections; [apply Hr2|done]). intros [] st3 Hr3 Hr23 Hc.
  cond; [by apply performs_fail|]. apply performs_ret; [done|]. bprop.
  split; [|done|done|lia]. eapply segments_loaded_run; [apply Hr1|done|done|by etrans].
Qed.

(** The retries: a failure leaves everything as it was. *)
Lemma returns_try_biases file e phdrs file_size biases st :
  loader_wf st -> Forall phdr_ok phdrs -> Forall is_u32 biases -> Forall is_byte (hf_bytes file) ->
  returns (try_biases host file e phdrs file_size biases) st (fun r st' =>
    match r with
    | None => same_store st st'
    | Some (bias, d) => bias ∈ biases /\ run_of st st' /\ placed (hf_bytes file) e phdrs bias d st'
    end).
Proof.
  intros Hwf Hp Hb Hf. revert st Hwf. induction Hb as [|bias biases Hu _ IH]; intros st Hwf.
  { exists None, (set_errno (Some EEXIST) st). done. }
  unfold returns. cbn [try_biases].
  destruct (performs_attempt file e phdrs bias file_size st Hwf Hp Hu Hf) as (r & st1 & E & Hr & HQ).
  rewrite E. destruct r as [d|].
  { exists (Some (bias, d)), st1. split; [done|]. split; [set_solver|]. auto. }
  set (st2 := roll_back _ _ _).
  assert (Hs : same_store st st2) by (apply roll_back_run; auto with emu).
  cond; [by exists None, st2|].
  destruct (IH st2) as (r & st3 & E3 & HQ3); [by apply (run_of_same st st2)|].
  exists r, st3. split; [done|]. destruct r as [[bias' d]|]; [|by etrans].
  destruct HQ3 as (Hin & Hr3 & Hpl). split; [set_solver|]. split; [|done].
  etrans; [|exact Hr3]. by apply run_of_same.
Qed.
(** ** Headers *)

Definition file_phdrs (file : list Z) (e : elf_ehdr) : list elf_phdr :=
  read_table read_phdr PHDR_SIZE (Z.to_nat (e_phnum e))
    (take (Z.to_nat (e_phnum e * Z.of_nat PHDR_SIZE)) (drop (Z.to_nat (e_phoff e)) file)).

Lemma file_phdrs_ok file e : Forall is_byte file -> Forall phdr_ok (file_phdrs file e).
Proof.
  intros Hb. apply Forall_map, Forall_forall. intros i _. unfold phdr_ok, read_phdr, is_u32. simpl.
  assert (Hw : forall off buf, Forall is_byte buf -> 0 <= load_le 4 off buf <= UINTPTR_MAX).
  { intros off buf Hbuf. pose proof (load_le_nonneg 4 off buf Hbuf).
    pose proof (load_le_bound 4 off buf Hbuf) as Hlt.
    change (2 ^ (8 * Z.of_nat 4)) with 4294967296 in Hlt. unfold UINTPTR_MAX. lia. }
  split_and!; apply Hw; repeat first [apply Forall_take|apply Forall_drop]; done.
Qed.

(** The accepted headers of a file. *)
Record headers_of (file : list Z) (allow : bool) (file_size : Z) (e : elf_ehdr)
    (phdrs : list elf_phdr) : Prop := {
  hd_header : e = read_ehdr (take EHDR_SIZE file);
  hd_phdrs : phdrs = file_phdrs file e;
  hd_accepted : acceptable_header e allow file_size = true }.

Lemma performs_read_headers file allow st :
  performs same_store st (read_headers host file allow) st (fun x _ =>
    headers_of (hf_bytes file) allow x.1.1 x.1.2 x.2).
Proof.
  unfold read_headers.
  perform (by apply performs_lift with (Q := fun _ _ => True)). intros file_size st1 Hs1 _ _.
  eapply performs_bind with (P := fun _ _ => True); [apply _|done| |].
  { cond; [by apply performs_fail|by apply performs_ret]. }
  intros [] st2 Hs2 _ _.
  perform (apply performs_read_file). intros bytes st3 Hs3 _ [Hbytes _].
  perform (apply performs_reject). intros [] st4 Hs4 _ Hacc%negb_false_iff.
  perform (apply performs_reject). intros [] st5 Hs5 _ _.
  perform (apply performs_allocate). intros [] st6 Hs6 _ _.
  perform (apply performs_read_file). intros table st7 Hs7 _ [Htable _].
  apply performs_ret; [done|]. simpl in Hbytes. rewrite drop_0 in Hbytes. subst. by split.
Qed.

Lemma performs_validate phdrs file_size st :
  performs same_store st (validate_headers phdrs file_size) st (fun _ _ =>
    Forall (fun h => validate_program_header h file_size = Ok tt) phdrs).
Proof.
  revert st. induction phdrs as [|h phdrs IH]; intros st; cbn [validate_headers].
  { by apply performs_ret. }
  perform (apply performs_lift with (Q := fun a _ => validate_program_header h file_size = Ok a);
           done).
  intros [] st1 Hs1 _ Hv. perform (apply IH). intros n st2 Hs2 _ Hall.
  apply performs_ret; [done|]. by constructor.
Qed.

Lemma interpreter_string_length bytes path :
  interpreter_string bytes = Some path -> S (length path) = length bytes.
Proof.
  unfold interpreter_string. rewrite <- (length_rev bytes).
  destruct (rev bytes) as [|[|z|z] text]; [done| |done..]. cond; [done|]. intros [= <-]. simpl.
  by rewrite length_map, length_rev.
Qed.

Definition interpreter_ok (capacity : Z) (path : list ascii) : Prop :=
  path = [] \/ safe_interpreter_path path = true /\ Z.of_nat (length path) < capacity.

(** The string of a [PT_INTERP] header, or [initial] when there is none. *)
Definition interpreter_of (file : list Z) (phdrs : list elf_phdr) (initial path : list ascii)
  : Prop :=
  (path = initial /\ forall h, h ∈ phdrs -> p_type h <> PT_INTERP) \/
  exists h, h ∈ phdrs /\ p_type h = PT_INTERP /\
    interpreter_string (take (Z.to_nat (p_filesz h)) (drop (Z.to_nat (p_offset h)) file)) =
    Some path.

Lemma performs_interpreter file h capacity st :
  phdr_ok h ->
  performs same_store st (read_interpreter host file h capacity) st (fun path _ =>
    interpreter_ok capacity path /\
    interpreter_string (take (Z.to_nat (p_filesz h)) (drop (Z.to_nat (p_offset h)) (hf_bytes file)))
    = Some path).
Proof.
  intros Hh. unfold read_interpreter. cond; [by apply performs_throw|]. bprop.
  unfold performs, returns.
  destruct (performs_read_file file (p_filesz h) (p_offset h) st) as (r & st1 & E1 & Hs & HQ).
  rewrite E1. destruct r as [bytes|]; [|by eexists None, _].
  destruct (HQ bytes eq_refl) as [-> Hlen].
  destruct (interpreter_string _) as [s|] eqn:Es; [|by eexists None, _].
  destruct (safe_interpreter_path s) eqn:Esafe; [|by eexists None, _].
  exists (Some s), st1. split; [done|]. split; [done|]. intros ? [= <-].
  split; [right; split; [done|]|done].
  apply interpreter_string_length in Es. lia.
Qed.

Lemma performs_interpreters file phdrs capacity path st :
  Forall phdr_ok phdrs -> interpreter_ok capacity path ->
  performs same_store st (read_interpreters host file phdrs capacity path) st (fun path' _ =>
    interpreter_ok capacity path' /\ interpreter_of (hf_bytes file) phdrs path path').
Proof.
  intros Hp. revert path st. induction Hp as [|h phdrs Hh _ IH]; intros path st Hpath;
    cbn [read_interpreters].
  { apply performs_ret; [done|]. split; [done|]. left. set_solver. }
  cond; bprop.
  - perform (by apply performs_interpreter). intros s st1 Hs1 _ [Hi Hstr].
    eapply performs_step; [apply _|done|by apply IH|]. intros path' st2 _ [Hok' Hof].
    split; [done|]. right. destruct Hof as [[-> _]|(h' & ? & ? & ?)].
    + exists h. split; [set_solver|done].
    + exists h'. split; [set_solver|done].
  - eapply performs_step; [apply _|done|by apply IH|]. intros path' st2 _ [Hok' Hof].
    split; [done|]. destruct Hof as [[-> Hno]|(h' & ? & ? & ?)].
    + left. split; [done|]. intros h' [->|]%elem_of_cons; auto.
    + right. exists h'. split; [set_solver|done].
Qed.

(** ** An object *)

(** [object] describes, in memory, the object of the file opened at [path], whose
    headers name [interpreter]. *)
Record object_loaded (path : list ascii) (allow : bool) (st : loader) (object : elf_object)
    (interpreter : list ascii) : Prop := {
  ol_file : exists t file file_size e phdrs,
    lh_open host t path = Ok file /\
    headers_of (hf_bytes file) allow file_size e phdrs /\
    Forall (fun h => validate_program_header h file_size = Ok tt) phdrs /\
    interpreter_of (hf_bytes file) phdrs [] interpreter /\
    placed (hf_bytes file) e phdrs (eo_load_bias object) (eo_data_end object) st /\
    eo_entry object = eo_load_bias object + e_entry e /\ Forall phdr_ok phdrs }.

Lemma object_loaded_run path allow st st' object i :
  loader_wf st -> object_loaded path allow st object i -> run_of st st' ->
  object_loaded path allow st' object i.
Proof.
  intros Hwf [(t & file & fs & e & phdrs & H0 & H1 & H2 & Hi & H3 & H4 & H5)] Hr. split.
  exists t, file, fs, e, phdrs. split_and!; try done. by eapply placed_run.
Qed.

Lemma biases_u32 dynamic_bias e :
  Forall is_u32 (if e_type e =? ET_DYN
    then if dynamic_bias =? INTERPRETER_BIAS then interpreter_biases else main_biases else [0]).
Proof. repeat cond; repeat constructor; vm_compute; congruence. Qed.

Lemma returns_load_object path dynamic_bias allow capacity st :
  loader_wf st ->
  returns (load_elf_object host path dynamic_bias allow capacity) st (fun r st' =>
    match r with
    | None => same_store st st'
    | Some (object, interpreter) =>
      run_of st st' /\ object_loaded path allow st' object interpreter /\
      interpreter_ok (default 0 capacity) interpreter
    end).
Proof.
  intros Hwf. unfold load_elf_object.
  eapply returns_quiet_bind with (P := fun f _ => lh_open host (ld_clock st) path = Ok f);
    [done| |done|].
  { unfold performs, returns. by apply performs_lift. }
  intros file st1 Hs1 Hopen. pose proof (ho_file _ Hok _ _ _ Hopen) as Hf. eapply returns_quiet_bind; [done|apply performs_read_headers|done|].
  intros [[fs e] phdrs] st2 Hs2 Hh. simpl in Hh.
  eapply returns_quiet_bind; [done|apply performs_validate|done|]. intros n st3 Hs3 Hv.
  eapply returns_quiet_bind; [done|apply performs_reject|done|]. intros [] st4 Hs4 _.
  assert (Hp : Forall phdr_ok phdrs) by (rewrite (hd_phdrs _ _ _ _ _ Hh); by apply file_phdrs_ok).
  eapply returns_quiet_bind; [done|apply performs_interpreters; [done|by left]|done|]. intros interp st5 Hs5 [Hi Hof].
  eapply returns_bind; [apply returns_try_biases; [by apply (run_of_same st st5)|done|
    apply biases_u32|done]|..]; cbv beta; [intros; by etrans|].
  intros [bias d] st6 (Hin & Hr & Hpl). apply returns_ret. split; [|split; [|done]].
  - etrans; [|exact Hr]. by apply run_of_same.
  - split. exists (ld_clock st), file, fs, e, phdrs. simpl. split_and!; try done. apply u32_small.
    split; [|apply Hpl]. pose proof (biases_u32 dynamic_bias e) as Hbs.
    rewrite Forall_forall in Hbs. destruct (Hbs bias Hin).
    rewrite (hd_header _ _ _ _ _ Hh) in *. simpl.
    pose proof (load_le_nonneg 4 24 (take EHDR_SIZE (hf_bytes file)) ltac:(by apply Forall_take)). lia.
Qed.
(** ** The image *)

(** What the roll back depends on. *)
Definition same_tables (st st' : loader) : Prop :=
  load_segments (ld_memory st') = load_segments (ld_memory st) /\
  ld_patches st' = ld_patches st /\ ld_bytes st' = ld_bytes st.

Lemma same_store_tables st st' : same_store st st' -> same_tables st st'.
Proof. intros (H1 & H2 & H3). by split; [rewrite H1|]. Qed.

Lemma roll_back_tables st st' patches loads :
  same_tables st st' -> same_tables (roll_back patches loads st) (roll_back patches loads st').
Proof.
  intros (H1 & H2 & H3). unfold same_tables, roll_back, arm_patch_rollback, guest_memory_rollback.
  simpl. by rewrite H1, H2, H3.
Qed.

Lemma object_loaded_tables path allow st st' object i :
  same_tables st st' -> object_loaded path allow st object i -> object_loaded path allow st' object i.
Proof.
  destruct st, st'. intros (H1 & H2 & H3). simpl in *. subst.
  intros [(t & file & fs & e & phdrs & H0 & Hh & Hv & Hi & [Hs Hc He Hn] & Ho)]. split.
  exists t, file, fs, e, phdrs. split_and!; [done..| |apply Ho|apply Ho]. split; [|done..].
  intros h Hin Hl. destruct (Hs h Hin Hl) as [[F Z G] Hfm]. split; [|done]. split; [done..|].
  simpl in *. by rewrite H1.
Qed.

Lemma brk_initialize_wf s initial s' :
  is_page (page_size s) -> registry_wf (runtime_mappings s) ->
  guest_brk_initialize s initial = (Ok tt, s') ->
  brk_wf s' /\ current_break s' = initial /\ load_segments s' = load_segments s /\
  page_size s' = page_size s /\ runtime_mappings s' = runtime_mappings s.
Proof.
  intros Hp Hr. unfold guest_brk_initialize. cond; [done|]. intros [= <-]. bprop.
  split; [|done]. split; simpl; [done|lia|done|done].
Qed.

(** What [image_ready] checks and sets. *)
Lemma returns_image_ready entry start brk st :
  loader_wf st ->
  returns (image_ready host entry start brk) st (fun r st' => same_tables st st' /\
    forall u, r = Some u -> ld_patches st <> [] /\ loader_wf st' /\
      guest_memory_is_executable (ld_memory st') entry 4 = true /\
      guest_memory_is_executable (ld_memory st') start 4 = true /\
      brk_wf (ld_memory st') /\ current_break (ld_memory st') = brk /\
      exists t, fst (guest_memory_finalize (lh_protect host t)
                       (load_segments (ld_memory st'))) = Ok tt).
Proof.
  intros Hwf. unfold returns, image_ready, or_enoexec, lbind at 1.
  destruct (_ || _ || _) eqn:Ec; [by do 2 eexists|]. simpl. bprop.
  unfold lbind, brk_initialize.
  destruct (guest_brk_initialize (ld_memory st) brk) as [[[]|e] s'] eqn:Eb.
  2:{ unfold guest_brk_initialize in Eb. cond_in Eb; [|done]. injection Eb as <- <-. simpl.
      by do 2 eexists. }
  destruct (brk_initialize_wf _ _ _ (sw_page _ (lw_segments _ Hwf)) (lw_registry _ Hwf) Eb)
    as (Hb & Hcur & Hseg & Hpg & Hrm).
  simpl. unfold finalize. cbn [ld_memory ld_clock].
  destruct (fst _) as [[]|[e|]] eqn:Ef; simpl; [|by do 2 eexists..].
  do 2 eexists. split; [done|]. split; [done|]. intros _ _. simpl.
  split; [by intros Hnil; rewrite Hnil in *|].
  split; [|split; [|split; [|split; [done|split; [done|by exists (ld_clock st)]]]]].
  - destruct Hwf as [[] ? ? ? Hback Hrun]. split; simpl; rewrite ?Hseg, ?Hrm; try done.
    split; rewrite ?Hseg, ?Hpg; done.
  - unfold guest_memory_is_executable in *. by rewrite Hseg, Hrm.
  - unfold guest_memory_is_executable in *. by rewrite Hseg, Hrm.
Qed.
(** Resolving the interpreter's path does not write past the array of
    components (see [normalize_array_bound] of [GuestPath]). *)
Definition interpreters_resolve (PATH_MAX : nat) (fs : host_fs) (ps : path_state) : Prop :=
  forall path, safe_interpreter_path path = true -> (length path < PATH_MAX)%nat ->
    guest_path_resolve PATH_MAX fs ps (Some path) false PATH_MAX <> ArrayOverflow.

Context (PATH_MAX : nat) (fs : host_fs) (ps : path_state).
Hypothesis resolves : interpreters_resolve PATH_MAX fs ps.

(** The memory has been handed over to the guest: the image can be started. *)
Record image_loaded (path : list ascii) (st : loader) (image : guest_image) : Prop := {
  il_wf : loader_wf st;
  il_objects : exists main interpreter, object_loaded path true st main interpreter /\
    gi_entry image = eo_entry main /\ gi_initial_brk image = eo_data_end main /\
    match interpreter with
    | [] => gi_start_entry image = gi_entry image /\ gi_interpreter_base image = 0
    | _ => exists object interpreter_path,
        guest_path_resolve PATH_MAX fs ps (Some interpreter) false PATH_MAX =
          Returns (Ok interpreter_path) /\
        object_loaded interpreter_path false st object [] /\
        gi_start_entry image = eo_entry object /\ gi_interpreter_base image = eo_load_bias object
    end;
  il_executable : guest_memory_is_executable (ld_memory st) (gi_entry image) 4 = true /\
    guest_memory_is_executable (ld_memory st) (gi_start_entry image) 4 = true;
  il_patched : ld_patches st <> [];
  il_break : brk_wf (ld_memory st) /\ current_break (ld_memory st) = gi_initial_brk image;
  il_protected : exists t,
    fst (guest_memory_finalize (lh_protect host t) (load_segments (ld_memory st))) = Ok tt }.

Lemma performs_load_interpreter main interpreter st :
  loader_wf st -> interpreter_ok (Z.of_nat PATH_MAX) interpreter ->
  performs run_of st (load_interpreter host PATH_MAX fs ps main interpreter) st (fun x st' =>
    match interpreter with
    | [] => x = (eo_entry main, 0)
    | _ => exists object interpreter_path,
        guest_path_resolve PATH_MAX fs ps (Some interpreter) false PATH_MAX =
          Returns (Ok interpreter_path) /\
        object_loaded interpreter_path false st' object [] /\
        x = (eo_entry object, eo_load_bias object)
    end).
Proof.
  intros Hwf Hi. unfold load_interpreter.
  destruct interpreter as [|c s]; [by apply performs_ret; [apply run_of_refl|]|].
  destruct Hi as [|[Hsafe Hlen]]; [done|].
  pose proof (resolves (c :: s) Hsafe ltac:(lia)) as Hno.
  destruct (guest_path_resolve _ _ _ _ _ _) as [r|] eqn:Er; [|done].
  perform (by apply performs_quiet, performs_lift with (Q := fun path _ => r = Ok path)).
  intros path st1 Hr1 _ ->.
  eapply performs_bind with (P := fun x st' => object_loaded path false st' x.1 []); [apply _|done| |].
  { eapply returns_mono; [apply returns_load_object, Hr1|]. intros [[object i]|] st2.
    - intros (Hr2 & Ho & [->|[_ Hlt]]); [|simpl in Hlt; lia]. split; [done|]. by intros ? [= <-].
    - intros Hs. split; [by apply run_of_same; [apply Hr1|]|done]. }
  intros [object i] st2 Hr2 _ Ho. apply performs_ret; [done|]. by exists object, path.
Qed.

(** A failing body has done part of a load and perhaps set the break. *)
Lemma returns_image_body path st :
  loader_wf st ->
  returns (image_body host PATH_MAX fs ps path) st (fun r st' =>
    match r with
    | None => exists st1, run_of st st1 /\ same_tables st1 st'
    | Some image => (exists st1, run_of st st1 /\ same_tables st1 st') /\ image_loaded path st' image
    end).
Proof.
  intros Hwf. unfold image_body. eapply returns_bind; [by apply returns_load_object|..]; cbv beta.
  { intros st' Hs. exists st'. split; [by apply run_of_same|done]. }
  intros [main interp] st1 (Hr1 & Hmain & Hi).
  eapply returns_bind; [apply performs_load_interpreter; [apply Hr1|exact Hi]|..]; cbv beta.
  { intros st' [Hr' _]. exists st'. split; [by etrans|done]. }
  intros [start base] st2 [Hr2 H2]. specialize (H2 _ eq_refl).
  assert (Hr : run_of st st2) by (by etrans).
  eapply returns_bind; [apply returns_image_ready, Hr2|..]; cbv beta.
  { intros st' [Hs _]. by exists st2. }
  intros [] st3 [Hs HQ]. destruct (HQ tt eq_refl) as (Hpne & Hwf3 & He1 & He2 & Hb & Hcur & Ht).
  apply returns_ret. split; [by exists st2|]. split; simpl; try done.
  - exists main, interp. split; [eapply object_loaded_tables; [done|];
      by eapply object_loaded_run; [apply Hr1|..]|]. split; [done|]. split; [done|].
    destruct interp as [|c s]; [by injection H2 as -> ->|].
    destruct H2 as (object & ipath & Hres & Ho & H2). injection H2 as -> ->.
    exists object, ipath. split; [done|]. split; [by eapply object_loaded_tables|done].
  - destruct Hs as (_ & -> & _). done.
Qed.
End specs.

Lemma load_guest_image_spec `{HostProt} (host : loader_host) (PATH_MAX : nat) (fs : host_fs)
    (ps : path_state) (path : list ascii) (st : loader) :
  host_ok host -> interpreters_resolve PATH_MAX fs ps -> loader_wf st ->
  exists r st', load_guest_image host PATH_MAX fs ps path st = Some (r, st') /\
    match r with
    | None => same_tables st st'
    | Some image => image_loaded host PATH_MAX fs ps path st' image /\
        exists st1, run_of st st1 /\ same_tables st1 st'
    end.
Proof.
  intros Hok Hres Hwf.
  destruct (returns_image_body host Hok PATH_MAX fs ps Hres path st Hwf) as (r & st1 & E & HQ).
  unfold load_guest_image. rewrite E. destruct r as [image|].
  - exists (Some image), st1. split; [done|]. split; apply HQ.
  - do 2 eexists. split; [done|]. destruct HQ as (st2 & Hr & Hs).
    pose proof (same_store_tables _ _ (roll_back_run _ _ Hr)) as (H1 & H2 & H3).
    destruct (roll_back_tables _ _ (arm_patch_count (ld_patches st))
      (guest_memory_segment_count (ld_memory st)) Hs) as (H4 & H5 & H6).
    unfold same_tables. by rewrite H4, H5, H6.
Qed.

(** C3: [load_guest_image] from a consistent state always returns, whatever the
    host answers, provided that no interpreter path overflows the array of path
    components in its resolution.  When it fails, at any point (a header, an occupied address, a
    short read, a full table, the interpreter, the final protections), the
    segment table, the patch table and every byte of memory are what they were.
    When it succeeds, the tables and memory are consistent and extend the old
    ones (nothing that was mapped has changed except by patches); every loadable
    segment of the program and of its interpreter is in memory with the
    protection of its flags, and its bytes, seen through the patch table, are the
    file's followed by zeros; no executable section contains a system call or TLS
    read that is not patched; both entry points are executable; the break starts
    at the end of the program's data; and the protections have been applied. *)
Theorem load_guest_image_correct `{HostProt} (host : loader_host) (PATH_MAX : nat) (fs : host_fs)
    (ps : path_state) (path : list ascii) (st : loader) :
  host_ok host -> interpreters_resolve PATH_MAX fs ps -> loader_wf st ->
  exists r st', load_guest_image host PATH_MAX fs ps path st = Some (r, st') /\
    match r with
    | None => same_tables st st'
    | Some image => image_loaded host PATH_MAX fs ps path st' image /\
        exists st1, run_of st st1 /\ same_tables st1 st'
    end.
Proof. exact (load_guest_image_spec host PATH_MAX fs ps path st). Qed.

(** ** The path of the interpreter *)

Lemma next_component_spec s word after :
  next_component s = (word, after) ->
  (slash ∉ word) /\ s = word ++ (match after with None => [] | Some rest => slash :: rest end).
Proof.
  revert word after. induction s as [|c s IH]; intros word after; simpl; [by intros [= <- <-]; set_solver|].
  cond; [intros Heq; injection Heq as <- <-; subst; set_solver|].
  destruct (next_component s) as [w a]. intros [= <- <-].
  destruct (IH w a eq_refl) as [Hw ->]. split; [set_solver|done].
Qed.

Lemma next_component_app word after :
  slash ∉ word ->
  next_component (word ++ (match after with None => [] | Some rest => slash :: rest end)) =
  (word, after).
Proof.
  induction word as [|c word IH]; intros Hw; simpl.
  - by destruct after.
  - cond; [set_solver|]. by rewrite IH by set_solver.
Qed.

(** Components that pass the loop, with or without a slash at the end. *)
Lemma safe_components_spec n s :
  (length s <= n)%nat ->
  safe_components n s = true <->
  exists components, Forall good components /\
    (slash :: s = flat components \/ slash :: s = flat components ++ [slash]).
Proof.
  revert s. induction n as [|n IH]; intros s Hlen.
  { destruct s; [|simpl in Hlen; lia]. split; [|done]. intros _. exists []. split; [done|by right]. }
  destruct s as [|c s0]; [split; [|done]; intros _; exists []; split; [done|by right]|].
  set (s := c :: s0) in *. cbn [safe_components]. change (c :: s0) with s.
  destruct (next_component s) as [word after] eqn:E.
  replace (match s with [] => true | _ => _ end) with
    (if decide (word = [] \/ word = chars "." \/ word = chars "..") then false
     else match after with None => true | Some rest => safe_components n rest end)
    by (subst s; done).
  destruct (next_component_spec _ _ _ E) as [Hw Hs].
  assert (Hgood : word <> [] -> word <> chars "." -> word <> chars ".." -> good word)
    by (intros; by split_and!).
  split.
  - cond; [done|]. assert (Hg : good word) by (apply Hgood; tauto). intros Hafter.
    destruct after as [rest|].
    + apply IH in Hafter as (l & Hl & Hor); [|rewrite Hs, length_app in Hlen; simpl in Hlen; lia].
      exists (word :: l). split; [by constructor|]. rewrite Hs.
      change (flat (word :: l)) with (slash :: word ++ flat l).
      destruct Hor as [<-|Hr]; [by left|right]. rewrite Hr. simpl. by rewrite <- app_assoc.
    + exists [word]. split; [by constructor|]. left. rewrite Hs. done.
  - intros ([|w l] & Hl & Hor).
    { destruct Hor as [Hor|Hor]; simpl in Hor; discriminate Hor. }
    inversion Hl as [|? ? Hg Hl']; subst.
    assert (Htail : exists after', s = w ++ match after' with None => [] | Some r => slash :: r end /\
      match after' with None => True | Some r => slash :: r = flat l \/ slash :: r = flat l ++ [slash] end).
    { destruct Hor as [Hor|Hor]; injection Hor as Hor.
      - destruct l as [|w' l]; [by exists None|].
        exists (Some (w' ++ flat l)). split; [done|by left].
      - rewrite <- app_assoc in Hor. destruct l as [|w' l]; [exists (Some []); split; [done|by right]|].
        exists (Some (w' ++ flat l ++ [slash])). simpl in Hor. rewrite <- app_assoc in Hor.
        split; [done|right]. simpl. by rewrite <- app_assoc. }
    destruct Htail as (after' & Hs' & Hafter). destruct Hg as (G1 & G2 & G3 & G4).
    rewrite Hs', next_component_app in E by done. injection E as <- <-.
    cond; [tauto|]. destruct after' as [r|]; [|done].
    apply IH; [rewrite Hs', length_app in Hlen; simpl in Hlen; lia|]. by exists l.
Qed.

Lemma last_component l c : good c -> last (flat (l ++ [c])) <> Some slash.
Proof.
  intros (Hne & Hns & _). rewrite flat_app. change (flat [c]) with (slash :: c ++ []).
  rewrite app_nil_r.
  destruct (exists_last Hne) as (w & x & ->). rewrite app_comm_cons, app_assoc, last_snoc.
  intros [= ->]. apply Hns. set_solver.
Qed.

Lemma safe_interpreter_iff path :
  safe_interpreter_path path = true <->
  exists components, components <> [] /\ Forall good components /\ path = path_of components.
Proof.
  destruct path as [|c rest].
  { split; [done|]. intros ([|w l] & Hne & _ & E); done. }
  unfold safe_interpreter_path. split.
  - cond; [done|]. bprop.
    match goal with H : bool_decide (c = slash) = true |- _ =>
      apply bool_decide_eq_true in H; subst c end.
    match goal with H : bool_decide (last _ = _) = false |- _ =>
      apply bool_decide_eq_false in H end.
    intros Hs. apply (safe_components_spec _ rest (le_n _)) in Hs as (l & Hl & [Hf|Hf]).
    + exists l. destruct l; [done|]. split; [done|]. by split.
    + rewrite Hf, last_snoc in *. done.
  - intros (l & Hne & Hl & E). destruct (exists_last Hne) as (l' & c' & ->).
    assert (Hf : path_of (l' ++ [c']) = flat (l' ++ [c'])) by (by destruct l').
    rewrite Hf in E.
    pose proof (proj1 (Forall_singleton _ _) (proj2 (proj1 (Forall_app _ _ _) Hl))) as Hc.
    pose proof (last_component l' c' Hc) as Hlast. rewrite <- E in Hlast.
    rewrite (bool_decide_eq_false_2 (last _ = _)) by done.
    assert (Hc0 : c = slash) by (destruct l'; by injection E).
    assert (Hr : rest <> []) by (intros ->; rewrite Hc0 in Hlast; done).
    rewrite bool_decide_eq_true_2, (bool_decide_eq_false_2 (rest = [])) by done. simpl.
    apply safe_components_spec; [done|]. exists (l' ++ [c']). split; [done|]. left.
    by rewrite <- Hc0.
Qed.

Lemma safe_normalize PATH_MAX cwd path :
  safe_interpreter_path path = true -> (length path < PATH_MAX)%nat ->
  normalize_guest_path PATH_MAX cwd (Some path) PATH_MAX = Returns (Ok path).
Proof.
  intros (l & _ & Hl & ->)%safe_interpreter_iff Hlen. by apply normalize_canonical_id.
Qed.

(** C32: [safe_interpreter_path] accepts exactly the absolute paths in canonical
    form other than the root: no empty, dot or dot-dot component and no slash at
    the end.  Such a path is what it is normalised to, whatever the guest's
    working directory. *)
Theorem safe_interpreter_canonical (path : list ascii) :
  (safe_interpreter_path path = true <->
   exists components, components <> [] /\ Forall good components /\ path = path_of components) /\
  forall PATH_MAX cwd, safe_interpreter_path path = true -> (length path < PATH_MAX)%nat ->
    normalize_guest_path PATH_MAX cwd (Some path) PATH_MAX = Returns (Ok path).
Proof. split; [apply safe_interpreter_iff|]. intros. by apply safe_normalize. Qed.

(** Without symbolic links the interpreter's path is resolved without a restart. *)
Lemma resolves_without_links PATH_MAX fs ps :
  (forall path, fs_lstat fs path <> LstatLink) -> interpreters_resolve PATH_MAX fs ps.
Proof.
  intros Hfs path Hsafe Hlen. unfold guest_path_resolve. cond; [done|].
  rewrite safe_normalize by done. simpl. unfold resolve_guest_device.
  destruct (decide (path = _)); [by cond|].
  assert (Hw : forall cursor word parent c,
    walk PATH_MAX fs (root_path ps) false cursor word parent <> VLink c).
  { assert (Hv : forall parent w rest c, visit PATH_MAX fs (root_path ps) false parent w rest <> VLink c).
    { intros parent w rest c. unfold visit. do 2 (cond; [done|]).
      destruct (fs_lstat _ _) eqn:El; [done|by apply Hfs in El|by cond]. }
    induction cursor as [|x cursor IH]; intros word parent c; simpl.
    - destruct word; [done|]. destruct (visit _ _ _ _ _ _ _) eqn:Ev; first [done|by apply Hv in Ev].
    - cond; [|apply IH].
      destruct (visit _ _ _ _ _ _ _) eqn:Ev; first [done|apply IH|by apply Hv in Ev]. }
  unfold resolve_guest_symlinks. cond; [done|]. cbn [resolve_links].
  destruct (walk _ _ _ _ _ _ _) eqn:Ew; simpl; try done; [..|by apply Hw in Ew];
    repeat (cond; [done|]); simpl; repeat cond; done.
Qed.

(** ** Program headers *)

Lemma valid_alignment_spec a : is_u32 a -> valid_alignment a = true <-> a = 0 \/ is_page a.
Proof.
  intros [Ha0 Ha1]. unfold valid_alignment. rewrite !orb_true_iff, !Z.eqb_eq, negb_true_iff.
  destruct (Z.eq_dec a 0) as [->|Hne]; [tauto|].
  rewrite u32_small by (unfold is_u32; lia). rewrite has_false, land_pred_pow2 by lia.
  assert (Hp : is_page a <-> a = 2 ^ Z.log2 a).
  { split.
    - intros (k & Hk & ->). by rewrite Z.log2_pow2 by lia.
    - intros E. exists (Z.log2 a). split; [|done]. split; [apply Z.log2_nonneg|].
      apply Z.log2_lt_pow2; [lia|]. unfold UINTPTR_MAX in Ha1. lia. }
  rewrite Hp. intuition subst; done.
Qed.

Lemma congruent_spec v o a :
  is_page a -> has (u32 (v - o)) (a - 1) = false <-> (v - o) mod a = 0.
Proof.
  intros (k & Hk & ->). rewrite has_false.
  replace (2 ^ k - 1) with (Z.ones k) by (rewrite Z.ones_equiv; lia).
  rewrite Z.land_ones by lia. unfold u32.
  rewrite Z.mod_mod_divide; [done|].
  exists (2 ^ (32 - k)). unfold U32_MOD. rewrite <- Z.pow_add_r by lia.
  by replace (32 - k + k) with 32 by lia.
Qed.

Lemma segment_flags_spec flags :
  0 <= flags -> ((flags .&~ (PF_R .| PF_W .| PF_X)) =? 0) = true <-> flags < 8.
Proof.
  intros Hf. change (PF_R .| PF_W .| PF_X) with (2 ^ 3 - 1). rewrite Z.eqb_eq, ldiff_ones by lia.
  change (2 ^ 3) with 8. split; intros; mlia.
Qed.

(** [validate_program_header] accepts a non-empty loadable segment exactly
    when its file part fits its memory part and the file, its alignment is zero or
    a power of two modulo which address and file offset agree, and its flags are
    a combination of read, write and execute without both write and execute. *)
Theorem program_header_valid (h : elf_phdr) (file_size : Z) :
  phdr_ok h -> is_u32 (p_flags h) -> is_u32 (p_align h) -> is_load h = true -> 0 <= file_size ->
  validate_program_header h file_size = Ok tt <->
  p_filesz h <= p_memsz h /\ (p_filesz h <> 0 -> p_offset h + p_filesz h <= file_size) /\
  (p_align h = 0 \/ is_page (p_align h)) /\
  (1 < p_align h -> (p_vaddr h - p_offset h) mod p_align h = 0) /\
  p_flags h < 8 /\ ~ (has (p_flags h) PF_W = true /\ has (p_flags h) PF_X = true).
Proof.
  intros ([Ho _] & [Hv _] & [Hz _] & [Hm _]) [Hf _] Ha Hload Hfs. unfold validate_program_header.
  unfold is_load in Hload. rewrite Hload.
  assert (Hrange : range_in_file (p_offset h) (p_filesz h) file_size = true <->
    p_offset h + p_filesz h <= file_size).
  { unfold range_in_file. rewrite !andb_true_iff, !Z.leb_le. lia. }
  pose proof (valid_alignment_spec _ Ha) as Hal. pose proof (segment_flags_spec _ Hf) as Hfl.
  assert (Hwx : p_flags h < 8 -> ((p_flags h .& (PF_W .| PF_X)) =? (PF_W .| PF_X)) = true <->
    has (p_flags h) PF_W = true /\ has (p_flags h) PF_X = true).
  { intros H8. assert (Hc : p_flags h = 0 \/ p_flags h = 1 \/ p_flags h = 2 \/ p_flags h = 3 \/
      p_flags h = 4 \/ p_flags h = 5 \/ p_flags h = 6 \/ p_flags h = 7) by lia.
    destruct Hc as [->|[->|[->|[->|[->|[->|[->| ->]]]]]]]; vm_compute; intuition congruence. }
  match goal with |- (if ?b then _ else _) = _ <-> ?P => assert (Hb : b = false <-> P) end.
  - rewrite !orb_false_iff, !andb_false_iff, !negb_false_iff, Hrange, Hal, Hfl.
    rewrite Z.ltb_ge, !Z.eqb_eq, Z.ltb_ge.
    assert (Hcong : p_align h = 0 \/ is_page (p_align h) ->
      (p_align h <= 1 \/ has (u32 (p_vaddr h - p_offset h)) (p_align h - 1) = false) <->
      (1 < p_align h -> (p_vaddr h - p_offset h) mod p_align h = 0)).
    { intros [H0|Hp]; [lia|]. rewrite (congruent_spec _ _ _ Hp).
      destruct (Z.le_gt_cases (p_align h) 1); intuition lia. }
    split.
    + intros (((((A & B) & C) & D) & E) & F). split_and!; [done| |done|exact (proj1 (Hcong C) D)|done|].
      * intros ?. by destruct B.
      * rewrite <- Hwx, F by done. done.
    + intros (A & B & C & D & E & F). split_and!; [done| |done|by apply (proj2 (Hcong C))|done|].
      2:{ apply not_true_iff_false. by rewrite Hwx. }
      destruct (Z.eq_dec (p_filesz h) 0); [by left|right; by apply B].
  - rewrite <- Hb. cond; split; done.
Qed.

(** ** Witnesses *)

Module ElfLoaderExamples.

#[local] Instance example_prot : HostProt :=
  {| PROT_NONE := 0; PROT_READ := 0x100; PROT_WRITE := 0x200; PROT_EXEC := 0x400 |}.

Definition words (l : list Z) : list Z := List.concat (map (le_bytes 4) l).

(** A position independent object with its headers at offset 52. *)
Definition ehdr_bytes (entry phnum shoff : Z) : list Z :=
  [0x7f; 0x45; 0x4c; 0x46; 1; 1; 1] ++ replicate 9 0 ++ le_bytes 2 ET_DYN ++ le_bytes 2 EM_ARM ++
  words [1; entry; 52; shoff; 0] ++ List.concat (map (le_bytes 2) [52; 32; phnum; 40; 1; 0]).

(** A program with the interpreter [/ld], and a system call in its code. *)
Definition program : list Z :=
  ehdr_bytes 116 2 128 ++ words [PT_LOAD; 0; 0; 0; 128; 200; 5; 4096] ++
  words [PT_INTERP; 124; 124; 0; 4; 4; 4; 1] ++ words [ARM_LINUX_SVC_0; 0xe1a00000] ++
  [0x2f; 0x6c; 0x64; 0] ++ words [0; SHT_PROGBITS; 6; 116; 116; 8; 0; 0; 4; 0].
(** An interpreter that reads the TLS register. *)
Definition interpreter : list Z :=
  ehdr_bytes 84 1 88 ++ words [PT_LOAD; 0; 0; 0; 88; 88; 5; 4096] ++ words [ARM_TPIDRURO_READ] ++
  words [0; SHT_PROGBITS; 6; 84; 84; 4; 0; 0; 4; 0].

(** Mappings are placed where they are asked for when that is free. *)
Definition place (m : gmap Z Z) (hint n : Z) : mmap_result :=
  if forallb (fun i => bool_decide (m !! (hint + i) = None)) (seqZ 0 n)
  then MmapAt hint else MmapFailed ENOMEM.

Definition open_file (path : list ascii) : result host_file :=
  if decide (path = chars "/p") then Ok (HostFile program (Ok 168))
  else if decide (path = chars "/r/ld") then Ok (HostFile interpreter (Ok 128))
  else fail_with ENOENT.

(** Reads are answered two bytes at a time, after an interruption. *)
Definition host1 : loader_host :=
  LoaderHost (fun _ => open_file) (fun _ n => PInterrupted :: replicate n (PTransfer 2))
    (fun _ => true) (fun _ => place) (fun _ _ => None).

Definition fs1 : host_fs :=
  HostFs (fun _ => LstatOther) (fun _ => fail_with EINVAL) (fun _ => StatOther)
    (fun _ => fail_with ENOENT).
Definition ps1 : path_state := PathState (chars "/r") (chars "/").
Definition st1 : loader := Loader (GuestMemory [] 4096 0 0 0 []) [] ∅ None 0.

Lemma words_bytes l : Forall is_byte (words l).
Proof. unfold words. apply Forall_concat, Forall_map, Forall_forall. intros. apply le_bytes_byte. Qed.

Lemma ehdr_bytes_ok entry phnum shoff : Forall is_byte (ehdr_bytes entry phnum shoff).
Proof.
  repeat first [apply Forall_app_2|apply Forall_replicate|apply le_bytes_byte|apply words_bytes];
    try (split; done); repeat first [apply Forall_cons_2|apply Forall_nil_2];
    try (apply le_bytes_byte); split; done.
Qed.

Lemma host1_ok : host_ok host1.
Proof.
  split.
  - intros t m hint n a. cbn. unfold place. cond; [|done]. intros [= <-] x Hx.
    rewrite forallb_forall in E. specialize (E (x - hint)). apply inside_spec in Hx.
    rewrite bool_decide_eq_true in E. replace (hint + (x - hint)) with x in E by lia.
    apply E, list_elem_of_In, elem_of_seqZ. lia.
  - intros t n. cbn [lh_read host1]. rewrite filter_cons_False by tauto.
    induction n as [|n IH]; [cbn [length]; lia|]. cbn [replicate].
    rewrite filter_cons_True by done. cbn [length]. lia.
  - intros t path f. cbn. unfold open_file.
    do 2 (cond; [intros [= <-]; cbn [hf_bytes];
      repeat first [apply Forall_app_2|apply ehdr_bytes_ok|apply words_bytes];
      repeat first [apply Forall_cons_2|apply Forall_nil_2]; split; done|]).
    done.
Qed.

Lemma st1_wf : loader_wf st1.
Proof.
  split; cbn [ld_memory ld_patches ld_bytes load_segments runtime_mappings st1].
  - split; [exact is_page_4096|constructor|constructor|vm_compute; lia].
  - apply registry_wf_nil.
  - split; [constructor|constructor|vm_compute; lia].
  - apply map_Forall_empty.
  - set_solver.
  - done.
Qed.

Definition loaded_image : option guest_image :=
  match load_guest_image host1 4096 fs1 ps1 (chars "/p") st1 with
  | Some (r, _) => r
  | None => None
  end.

(** The program is placed at the first bias, its interpreter at its own. *)
Lemma image_of_program :
  loaded_image = Some (GuestImage 0x20000074 0x60000054 0x60000000 0x20000034 32 2 0x200000c8).
Proof. vm_compute. reflexivity. Qed.

Lemma load_guest_image_correct_witness :
  exists image st', load_guest_image host1 4096 fs1 ps1 (chars "/p") st1 = Some (Some image, st') /\
    image_loaded host1 4096 fs1 ps1 (chars "/p") st' image /\ gi_start_entry image = 0x60000054.
Proof.
  destruct (load_guest_image_correct host1 4096 fs1 ps1 (chars "/p") st1 host1_ok
    (resolves_without_links 4096 fs1 ps1 ltac:(intros path; discriminate)) st1_wf)
    as (r & st' & E & Hr).
  pose proof image_of_program as Hi. unfold loaded_image in Hi. rewrite E in Hi. subst r.
  destruct Hr as [Hl _]. do 2 eexists. split; [exact E|]. split; [exact Hl|reflexivity].
Defined.

Lemma program_header_valid_witness :
  validate_program_header (Phdr 1 0x1000 0x11000 0 16 32 5 4096) 0x2000 = Ok tt.
Proof.
  apply (program_header_valid (Phdr 1 0x1000 0x11000 0 16 32 5 4096) 0x2000);
    unfold phdr_ok, is_u32; cbn [p_offset p_vaddr p_filesz p_memsz p_flags p_align];
    unfold UINTPTR_MAX; try lia; [reflexivity|].
  repeat split; try lia; try reflexivity.
  - right. exact is_page_4096.
  - intros [Hw _]. vm_compute in Hw. discriminate.
Defined.

Lemma safe_interpreter_canonical_witness :
  normalize_guest_path 64 (chars "/home") (Some (chars "/lib/ld")) 64 =
  Returns (Ok (chars "/lib/ld")).
Proof.
  apply (proj2 (safe_interpreter_canonical (chars "/lib/ld"))); [reflexivity|].
  vm_compute. lia.
Defined.

End ElfLoaderExamples.
