(* ===== verification/InitialStack.v ===== *)
(** * The initial stack of the guest: [src/src/runtime.c]

    [create_guest_stack] maps a stack, copies the arguments and the environment
    onto it and builds below them the vector a Linux program finds at its stack
    pointer: the argument count, the argument pointers, the environment pointers
    and the auxiliary vector.  Strings are lists of bytes without their zero. *)

From Stdlib Require Import Ascii String.
From S2P Require Import Prelude Errno Bytes Util RuntimeRegistry GuestMemory ArmPatch ElfLoader.
Open Scope Z_scope.

Definition GUEST_STACK_SIZE : Z := 1024 * 1024.
Definition LINUX_AT_NULL : Z := 0.
Definition LINUX_AT_PHDR : Z := 3.
Definition LINUX_AT_PHENT : Z := 4.
Definition LINUX_AT_PHNUM : Z := 5.
Definition LINUX_AT_PAGESZ : Z := 6.
Definition LINUX_AT_BASE : Z := 7.
Definition LINUX_AT_ENTRY : Z := 9.
Definition LINUX_AT_UID : Z := 11.
Definition LINUX_AT_EUID : Z := 12.
Definition LINUX_AT_GID : Z := 13.
Definition LINUX_AT_EGID : Z := 14.
Definition LINUX_AT_SECURE : Z := 23.
Definition LINUX_AT_RANDOM : Z := 25.
Definition LINUX_AT_EXECFN : Z := 31.

(** The bytes of a string literal, and [strncmp (value, prefix, n) == 0] for a
    prefix of [n] characters. *)
Definition text (s : string) : list Z :=
  map (fun c => Z.of_N (N_of_ascii c)) (list_ascii_of_string s).
Definition starts_with (prefix value : list Z) : bool :=
  bool_decide (take (List.length prefix) value = prefix).

Definition guest_environment_entry (value : list Z) : bool :=
  negb (starts_with (text "LINUXEMU_") value) &&
  negb (starts_with (text "LD_LIBRARY_PATH=") value).

(** [fill_random_bytes] once the device is open: [stream] is what it yields.  Any
    failure of [read] is [EIO]; [None] is the end of the steps. *)
Fixpoint fill_random_bytes (steps : list pread_step) (stream : list Z) (length : nat)
  : option (result (list Z)) :=
  match length with
  | O => Some (Ok [])
  | _ =>
    match steps with
    | [] => None
    | PInterrupted :: steps => fill_random_bytes steps stream length
    | PFailed _ :: _ => Some (fail_with EIO)
    | PTransfer n :: steps =>
      match take (Nat.min n length) stream with
      | [] => Some (fail_with EIO)
      | bytes =>
        match fill_random_bytes steps (drop (List.length bytes) stream)
                (length - List.length bytes) with
        | Some (Ok rest) => Some (Ok (bytes ++ rest))
        | other => other
        end
      end
    end
  end.

(** [push_bytes]: the cursor after it, which is the address it returns. *)
Definition push_bytes (m : gmap Z Z) (cursor lower_bound : Z) (source : list Z)
  : result (Z * gmap Z Z) :=
  let length := Z.of_nat (List.length source) in
  if cursor - lower_bound <? length then fail_with E2BIG
  else Ok (cursor - length, mem_store m (cursor - length) source).

(** A loop that pushes strings with their zero: their addresses in the order of
    pushing, the cursor and the memory after it. *)
Fixpoint push_strings (m : gmap Z Z) (cursor lower_bound : Z) (strings : list (list Z))
  : result (list Z * Z * gmap Z Z) :=
  match strings with
  | [] => Ok ([], cursor, m)
  | s :: rest =>
    letr pushed := push_bytes m cursor lower_bound (s ++ [0]) in
    letr more := push_strings pushed.2 pushed.1 lower_bound rest in
    Ok (u32 pushed.1 :: more.1.1, more.1.2, more.2)
  end.

(** The host and the process: the placement of the stack, the two [calloc] calls,
    [/dev/urandom] (with the error when it cannot be opened), the identities and
    the environment. *)
Record stack_host := StackHost {
  sk_mmap : mmap_result;
  sk_calloc : bool;
  sk_open_random : option errno;
  sk_random_steps : list pread_step;
  sk_random : list Z;
  sk_uid : Z; sk_euid : Z; sk_gid : Z; sk_egid : Z;
  sk_page_size : Z;
  sk_environ : list (list Z) }.

(** The entries of [auxiliary]. *)
Definition auxiliary_vector (host : stack_host) (image : guest_image) (random execfn : Z)
  : list (Z * Z) :=
  (if gi_program_headers image =? 0 then []
   else [(LINUX_AT_PHDR, u32 (gi_program_headers image))]) ++
  [(LINUX_AT_PHENT, u32 (gi_program_header_size image));
   (LINUX_AT_PHNUM, u32 (gi_program_header_count image));
   (LINUX_AT_PAGESZ, u32 (sk_page_size host)); (LINUX_AT_BASE, u32 (gi_interpreter_base image));
   (LINUX_AT_ENTRY, u32 (gi_entry image)); (LINUX_AT_UID, u32 (sk_uid host));
   (LINUX_AT_EUID, u32 (sk_euid host)); (LINUX_AT_GID, u32 (sk_gid host));
   (LINUX_AT_EGID, u32 (sk_egid host)); (LINUX_AT_SECURE, 0); (LINUX_AT_RANDOM, u32 random);
   (LINUX_AT_EXECFN, u32 execfn)].

(** The words written from [vector_start] on. *)
Definition stack_words (argc : Z) (arguments environment : list Z) (auxiliary : list (Z * Z))
  : list Z :=
  [u32 argc] ++ arguments ++ [0] ++ environment ++ [0] ++
  flat_map (fun a => [a.1; a.2]) auxiliary ++ [LINUX_AT_NULL; 0].

Fixpoint store_words (m : gmap Z Z) (address : Z) (words : list Z) : gmap Z Z :=
  match words with
  | [] => m
  | w :: rest => store_words (store32 m address w) (address + 4) rest
  end.

(** The vector below [cursor], from the count of its words on. *)
Definition place_vector (m : gmap Z Z) (cursor lower_bound : Z) (words : list Z)
  : result (Z * gmap Z Z) :=
  let word_count := Z.of_nat (List.length words) in
  if (cursor - lower_bound) / 4 <? word_count then fail_with E2BIG
  else
    let vector_start := align_down (cursor - word_count * 4) 16 in
    if vector_start <? lower_bound then fail_with E2BIG
    else Ok (vector_start, store_words m vector_start words).

(** The body between the mapping and the label [fail]: [None] is the end of the
    read steps.  All it writes is in the mapping, which the code after [fail]
    unmaps; the memory of a failing call is therefore not part of its result. *)
Definition fill_stack (host : stack_host) (image : guest_image) (argv : list (list Z))
    (m : gmap Z Z) (lower_bound : Z) : option (result (Z * gmap Z Z)) :=
  let cursor := lower_bound + GUEST_STACK_SIZE in
  if negb (sk_calloc host) then Some (fail_with ENOMEM)
  else
    match push_strings m cursor lower_bound (filter guest_environment_entry (sk_environ host)) with
    | Err e => Some (Err e)
    | Ok (environment, cursor, m) =>
      match push_strings m cursor lower_bound (rev argv) with
      | Err e => Some (Err e)
      | Ok (reversed_arguments, cursor, m) =>
        let arguments := rev reversed_arguments in
        match match sk_open_random host with
              | None => fill_random_bytes (sk_random_steps host) (sk_random host) 16
              | Some e => Some (fail_with e)
              end with
        | None => None
        | Some (Err e) => Some (Err e)
        | Some (Ok random_bytes) =>
          match push_bytes m (align_down cursor 16) lower_bound random_bytes with
          | Err e => Some (Err e)
          | Ok (random_address, m) =>
            let cursor := random_address in
            let words := stack_words (Z.of_nat (List.length argv)) arguments environment
              (auxiliary_vector host image random_address (nth 0 arguments 0)) in
            Some (place_vector m cursor lower_bound words)
          end
        end
      end
    end.

(** [create_guest_stack]: the stack pointer or an error, the registry and the
    memory after it. *)
Definition create_guest_stack (host : stack_host) (image : guest_image) (argv : list (list Z))
    (l : list runtime_mapping) (m : gmap Z Z)
  : option (result Z * list runtime_mapping * gmap Z Z) :=
  match argv with
  | [] => Some (fail_with EINVAL, l, m)
  | _ =>
    match sk_mmap host with
    | MmapFailed e => Some (fail_with e, l, m)
    | MmapAt lower_bound =>
      let mapped := mem_zero m lower_bound GUEST_STACK_SIZE in
      let unmap m := mem_unmap m lower_bound GUEST_STACK_SIZE in
      if (lower_bound <? GUEST_MIN_ADDRESS) || (GUEST_MAX_ADDRESS <=? lower_bound) ||
         (GUEST_MAX_ADDRESS - lower_bound <? GUEST_STACK_SIZE)
      then Some (fail_with ENOMEM, l, unmap mapped)
      else match guest_memory_runtime_map l lower_bound GUEST_STACK_SIZE false with
      | (Err _, l) => Some (fail_with ENOMEM, l, unmap mapped)
      | (Ok _, l) =>
        match fill_stack host image argv mapped lower_bound with
        | None => None
        | Some (Ok (stack_pointer, m)) => Some (Ok stack_pointer, l, m)
        | Some (Err e) =>
          Some (Err e, guest_memory_runtime_unmap l lower_bound GUEST_STACK_SIZE, unmap mapped)
        end
      end
    end
  end.

(** [linuxemu_enter_guest (entry, stack)]: the registers [r0] to [r15] when the
    guest executes its first instruction; [bx] takes bit 0 for the Thumb state. *)
Definition linuxemu_enter_guest (entry stack : Z) (r : list Z) : list Z :=
  replicate 9 0 ++ take 3 (drop 9 r) ++ [entry; stack; 0; entry .&~ 1].

(** ** What a guest finds on its stack *)

Definition string_at (m : gmap Z Z) (a : Z) (s : list Z) : Prop :=
  mem_load m a (S (List.length s)) = Some (s ++ [0]).

(** A string with its zero in the addresses from [lo] to [hi]. *)
Definition string_within (m : gmap Z Z) (lo hi : Z) (a : Z) (s : list Z) : Prop :=
  lo <= a /\ a + Z.of_nat (List.length s) + 1 <= hi /\ string_at m a s.

Definition words_at (m : gmap Z Z) (a : Z) (words : list Z) : Prop :=
  forall i w, words !! i = Some w -> load32 m (a + 4 * Z.of_nat i) = Some w.

(** The contract with the C library of the guest: an aligned stack pointer with
    the vector above it, whose pointers lead to the strings and the random bytes
    between the vector and the end of the stack. *)
Record initial_stack (host : stack_host) (image : guest_image) (argv : list (list Z))
    (lower_bound : Z) (m : gmap Z Z) (sp : Z) (arguments environment : list Z) (random : Z) : Prop := {
  is_aligned : sp mod 16 = 0;
  is_above : lower_bound <= sp;
  is_vector : words_at m sp (stack_words (Z.of_nat (List.length argv)) arguments environment
    (auxiliary_vector host image random (nth 0 arguments 0)));
  is_vector_end : sp + 4 * Z.of_nat (List.length (stack_words (Z.of_nat (List.length argv)) arguments
    environment (auxiliary_vector host image random (nth 0 arguments 0)))) <= random;
  is_arguments : Forall2 (string_within m (random + 16) (lower_bound + GUEST_STACK_SIZE))
    arguments argv;
  is_environment : Forall2 (string_within m (random + 16) (lower_bound + GUEST_STACK_SIZE))
    environment (filter guest_environment_entry (sk_environ host));
  is_random : mem_load m random 16 = Some (take 16 (sk_random host)) }.

(** ** Random bytes *)

(** The loop is [read_exact_at] on the stream, with every error turned to [EIO]. *)
Definition or_eio {A} (r : option (result A)) : option (result A) :=
  match r with Some (Err _) => Some (fail_with EIO) | other => other end.

Lemma fill_random_read steps stream len k :
  fill_random_bytes steps (drop k stream) len = or_eio (read_exact_at steps stream len k).
Proof.
  revert len k. induction steps as [|s steps IH]; intros len k;
    (destruct (decide (len = 0%nat)) as [->|Hlen]; [by rewrite read_exact_at_0|]);
    rewrite read_exact_at_S by done; simpl; destruct len as [|len]; [done..| |]; [done|].
  destruct s as [|e|n]; [by apply IH|done|]. unfold pread_bytes.
  destruct (take (n `min` S len) (drop k stream)) as [|b bs]; [done|].
  rewrite drop_drop, IH. by destruct (read_exact_at _ _ _ _) as [[|]|].
Qed.

Lemma fill_random_ok steps stream len bytes :
  fill_random_bytes steps stream len = Some (Ok bytes) ->
  bytes = take len stream /\ List.length bytes = len.
Proof.
  pose proof (fill_random_read steps stream len 0) as Hr. rewrite drop_0 in Hr. rewrite Hr.
  destruct (read_exact_at _ _ _ _) as [[bs|]|] eqn:E; simpl; [|done..]. intros [= <-].
  apply read_exact_at_ok in E. by rewrite drop_0 in E.
Qed.

Lemma fill_random_returns steps stream len :
  (len <= List.length (filter (fun s => s <> PInterrupted) steps))%nat ->
  is_Some (fill_random_bytes steps stream len).
Proof.
  intros Hlen. pose proof (fill_random_read steps stream len 0) as Hr. rewrite drop_0 in Hr.
  rewrite Hr. destruct (read_exact_at_returns steps stream len 0 Hlen) as [[|] ->]; by eexists.
Qed.

(** ** Strings *)

Lemma string_within_frame m m' lo lo' hi a s :
  string_within m lo hi a s -> same_outside lo' (lo - lo') m m' -> string_within m' lo hi a s.
Proof.
  intros (Hlo & Hhi & Hs) Hout. split_and!; [done..|]. unfold string_at in *. rewrite <- Hs.
  apply mem_load_ext. intros x Hx. apply Hout. unfold inside. apply andb_false_iff.
  rewrite Z.leb_gt, Z.ltb_ge. lia.
Qed.

Lemma string_within_le m lo lo' hi hi' a s :
  string_within m lo hi a s -> lo' <= lo -> hi <= hi' -> string_within m lo' hi' a s.
Proof. intros (? & ? & ?) ??. split_and!; [lia..|done]. Qed.

Lemma push_bytes_ok m cursor lb source cursor' m' :
  push_bytes m cursor lb source = Ok (cursor', m') ->
  cursor' = cursor - Z.of_nat (List.length source) /\ lb <= cursor' /\
  mem_load m' cursor' (List.length source) = Some source /\
  same_outside cursor' (cursor - cursor') m m'.
Proof.
  unfold push_bytes. cond; [done|]. bprop. intros [= <- <-]. split_and!; [done|lia| |].
  - apply mem_load_store.
  - intros x Hx. apply mem_store_lookup_out. unfold inside in Hx. blia.
Qed.

Lemma same_outside_chain m m1 m2 lo mid hi :
  lo <= mid <= hi -> same_outside mid (hi - mid) m m1 -> same_outside lo (mid - lo) m1 m2 ->
  same_outside lo (hi - lo) m m2.
Proof.
  intros Hle H1 H2 x Hx. unfold inside in *. rewrite andb_false_iff, Z.leb_gt, Z.ltb_ge in Hx.
  rewrite H2, H1; [done|..]; apply andb_false_iff; rewrite Z.leb_gt, Z.ltb_ge; lia.
Qed.

Lemma push_strings_ok m cursor lb strings addresses cursor' m' :
  0 <= lb <= cursor -> cursor < U32_MOD ->
  push_strings m cursor lb strings = Ok (addresses, cursor', m') ->
  lb <= cursor' /\ cursor' + Z.of_nat (List.length strings) <= cursor /\
  Forall2 (string_within m' cursor' cursor) addresses strings /\
  same_outside cursor' (cursor - cursor') m m'.
Proof.
  revert m cursor addresses.
  induction strings as [|s strings IH]; intros m cursor addresses Hlb Hc; simpl.
  { intros [= <- <- <-]. split_and!; [lia|simpl; lia|constructor|done]. }
  destruct (push_bytes m cursor lb (s ++ [0])) as [[c1 m1]|] eqn:Ep; simpl; [|done].
  apply push_bytes_ok in Ep as (Hc1 & Hlb1 & Hload & Hout1).
  rewrite length_app in *. simpl in Hc1, Hload.
  destruct (push_strings m1 c1 lb strings) as [[[more c2] m2]|] eqn:Er; simpl; [|done].
  intros [= <- <- <-]. destruct (IH m1 c1 more) as (Hlb2 & Hlen & Hrest & Hout2); [lia..|done|].
  rewrite u32_small by (unfold is_u32, UINTPTR_MAX, U32_MOD in *; lia).
  split_and!; [done|simpl; lia| |by eapply same_outside_chain; [|done..]; lia].
  constructor.
  - apply (string_within_le m2 c1 c2 cursor cursor); [|lia..].
    eapply string_within_frame; [|done]. split_and!; [lia..|]. unfold string_at.
    by rewrite <- Hload, Nat.add_1_r.
  - eapply Forall2_impl; [done|]. intros a s' Hs. eapply string_within_le; [done|lia..].
Qed.

(** ** The vector *)

Lemma store_words_outside m a words : same_outside a (4 * Z.of_nat (List.length words)) m (store_words m a words).
Proof.
  revert m a. induction words as [|w words IH]; intros m a; simpl; [done|].
  intros x Hx. unfold inside in Hx. rewrite andb_false_iff, Z.leb_gt, Z.ltb_ge in Hx.
  rewrite IH, store32_lookup_out; [done|lia|].
  unfold inside. rewrite andb_false_iff, Z.leb_gt, Z.ltb_ge. lia.
Qed.

Lemma store_words_at m a words : Forall is_u32 words -> words_at (store_words m a words) a words.
Proof.
  intros Hw. revert m a. induction Hw as [|w words Hw _ IH]; intros m a [|i] v Hi; simplify_eq/=.
  - rewrite Z.add_0_r. rewrite <- (load32_store32_eq m a v Hw). unfold load32.
    rewrite (mem_load_ext _ (store32 m a v)); [done|]. intros x Hx. apply store_words_outside.
    unfold inside. rewrite andb_false_iff, Z.leb_gt. lia.
  - rewrite <- (IH (store32 m a w) (a + 4) i v Hi). f_equal. lia.
Qed.

Lemma stack_words_u32 argc arguments environment aux :
  Forall is_u32 arguments -> Forall is_u32 environment ->
  Forall (fun a => is_u32 a.1 /\ is_u32 a.2) aux ->
  Forall is_u32 (stack_words argc arguments environment aux).
Proof.
  intros Ha He Hx. pose proof u32_is_u32.
  assert (is_u32 0) by (unfold is_u32, UINTPTR_MAX; lia).
  unfold stack_words. repeat (apply Forall_app_2 || apply Forall_cons_2 || apply Forall_nil_2); auto.
  induction Hx as [|[t v] aux [] _ IH]; simpl; [constructor|].
  repeat apply Forall_cons_2; auto.
Qed.

Lemma auxiliary_vector_u32 host image random execfn :
  Forall (fun a => is_u32 a.1 /\ is_u32 a.2) (auxiliary_vector host image random execfn).
Proof.
  unfold auxiliary_vector.
  repeat (apply Forall_app_2 || apply Forall_cons_2 || apply Forall_nil_2 || cond);
    (split; [vm_compute; by split|first [apply u32_is_u32|vm_compute; by split]]).
Qed.

(** ** Building the stack *)

Lemma string_u32 m lo hi addresses strings :
  0 <= lo -> hi < U32_MOD -> Forall2 (string_within m lo hi) addresses strings ->
  Forall is_u32 addresses.
Proof.
  intros Hlo Hhi. induction 1 as [|a s addresses strings (?&?&?) _ IH]; constructor; [|done].
  unfold is_u32, UINTPTR_MAX, U32_MOD in *. lia.
Qed.

Lemma strings_frame m m' lo lo' hi addresses strings :
  Forall2 (string_within m lo hi) addresses strings -> same_outside lo' (lo - lo') m m' ->
  Forall2 (string_within m' lo hi) addresses strings.
Proof. intros Hs Hout. eapply Forall2_impl; [done|]. intros. by eapply string_within_frame. Qed.

Lemma strings_le m lo lo' hi hi' addresses strings :
  Forall2 (string_within m lo hi) addresses strings -> lo' <= lo -> hi <= hi' ->
  Forall2 (string_within m lo' hi') addresses strings.
Proof. intros Hs ??. eapply Forall2_impl; [done|]. intros. by eapply string_within_le. Qed.

Lemma is_page_16 : is_page 16.
Proof. by exists 4. Qed.

Lemma place_vector_ok m cursor lb words sp m' :
  Forall is_u32 words -> place_vector m cursor lb words = Ok (sp, m') ->
  sp mod 16 = 0 /\ lb <= sp /\ sp + 4 * Z.of_nat (List.length words) <= cursor /\
  words_at m' sp words /\ same_outside sp (cursor - sp) m m'.
Proof.
  intros Hw. unfold place_vector. do 2 (cond; [done|]). bprop. intros [= <- <-].
  pose proof (align_down_spec (cursor - Z.of_nat (List.length words) * 4) 16 is_page_16) as [Hma Ha].
  split_and!; [done|lia|lia|by apply store_words_at|].
  intros x Hx. apply store_words_outside. unfold inside in *.
  rewrite andb_false_iff, Z.leb_gt, Z.ltb_ge in *. lia.
Qed.

Lemma same_outside_wider m m' a n b k :
  same_outside a n m m' -> b <= a -> a + n <= b + k -> same_outside b k m m'.
Proof.
  intros Hout Hb Hk x Hx. apply Hout. unfold inside in *.
  rewrite andb_false_iff, Z.leb_gt, Z.ltb_ge in *. lia.
Qed.

Lemma fill_stack_ok host image argv m lb sp m' :
  0 <= lb -> lb + GUEST_STACK_SIZE < U32_MOD ->
  fill_stack host image argv m lb = Some (Ok (sp, m')) ->
  (exists arguments environment random,
     initial_stack host image argv lb m' sp arguments environment random) /\
  same_outside lb GUEST_STACK_SIZE m m'.
Proof.
  intros Hlb Hhi. unfold fill_stack. cond; [done|].
  set (top := lb + GUEST_STACK_SIZE) in *.
  destruct (push_strings m top lb _) as [[[envs c1] m1]|] eqn:Ee; [|done].
  apply push_strings_ok in Ee as (Hc1 & Hl1 & Hse & Ho1); [|unfold top, GUEST_STACK_SIZE; lia|done].
  destruct (push_strings m1 c1 lb (rev argv)) as [[[rargs c2] m2]|] eqn:Ea; [|done].
  apply push_strings_ok in Ea as (Hc2 & Hl2 & Hsa & Ho2); [|lia..].
  destruct (sk_open_random host) as [|]; [done|].
  destruct (fill_random_bytes _ _ _) as [[bytes|]|] eqn:Er; [|done..].
  apply fill_random_ok in Er as [-> Hlr].
  pose proof (align_down_spec c2 16 is_page_16) as [_ Hc3]. set (c3 := align_down c2 16) in *.
  destruct (push_bytes m2 c3 lb _) as [[random m3]|] eqn:Ep; [|done].
  apply push_bytes_ok in Ep as (Hr & Hlr3 & Hload & Ho3). rewrite Hlr in Hr, Hload.
  assert (Forall is_u32 envs) by (eapply (string_u32 m1 c1 top); [lia|done|done]).
  assert (Forall is_u32 (rev rargs)).
  { apply Forall_rev. eapply (string_u32 m2 c2 c1); [lia|lia|done]. }
  set (words := stack_words _ _ _ _). intros [= Hpv].
  apply place_vector_ok in Hpv as (Hsp & Hlow & Hend & Hat & Hov);
    [|by apply stack_words_u32; [..|apply auxiliary_vector_u32]].
  pose proof (same_outside_chain _ _ _ sp random c3 ltac:(lia) Ho3 Hov) as H24.
  pose proof (same_outside_wider _ _ _ _ sp (c2 - sp) H24 ltac:(lia) ltac:(lia)) as H24'.
  pose proof (same_outside_chain _ _ _ sp c2 c1 ltac:(lia) Ho2 H24') as H14.
  pose proof (same_outside_chain _ _ _ sp c1 top ltac:(lia) Ho1 H14) as H04.
  split; [|by apply (same_outside_wider _ _ sp (top - sp)); [|unfold top in *; lia..]].
  exists (rev rargs), envs, random. constructor; [done..| | |].
  - rewrite <- (rev_involutive argv), (rev_alt rargs), (rev_alt (rev argv)). apply Forall2_reverse.
    eapply strings_le; [eapply strings_frame; [exact Hsa|exact H24']|lia..].
  - eapply strings_le; [eapply strings_frame; [exact Hse|exact H14]|lia..].
  - rewrite <- Hload. apply mem_load_ext. intros x Hx. apply Hov. unfold inside.
    rewrite andb_false_iff, Z.leb_gt, Z.ltb_ge. lia.
Qed.

Lemma fill_stack_returns host image argv m lb :
  (16 <= List.length (filter (fun s => s <> PInterrupted) (sk_random_steps host)))%nat ->
  is_Some (fill_stack host image argv m lb).
Proof.
  intros Hs. unfold fill_stack. destruct (fill_random_returns _ (sk_random host) _ Hs) as [r ->].
  repeat first [done | by eexists | case_match].
Qed.

(** The placement the host gives the stack is free, and the registry owns none of
    it. *)
Definition placement_free (host : stack_host) (l : list runtime_mapping) (m : gmap Z Z) : Prop :=
  match sk_mmap host with
  | MmapFailed _ => True
  | MmapAt a => is_u32 a /\ forall x, inside a GUEST_STACK_SIZE x = true -> m !! x = None /\ owner l x = None
  end.

(** What a call leaves behind. *)
Inductive stack_outcome (host : stack_host) (image : guest_image) (argv : list (list Z))
    (l : list runtime_mapping) (m : gmap Z Z) : result Z -> list runtime_mapping -> gmap Z Z -> Prop :=
| stack_made lower_bound sp arguments environment random l' m' :
    sk_mmap host = MmapAt lower_bound ->
    GUEST_MIN_ADDRESS <= lower_bound <= GUEST_MAX_ADDRESS - GUEST_STACK_SIZE ->
    initial_stack host image argv lower_bound m' sp arguments environment random ->
    same_outside lower_bound GUEST_STACK_SIZE m m' ->
    (forall x, owner l' x =
       owner_update (owner l) lower_bound (lower_bound + GUEST_STACK_SIZE) (Some false) x) ->
    stack_outcome host image argv l m (Ok sp) l' m'
| stack_failed e l' :
    (forall x, owner l' x = owner l x) -> stack_outcome host image argv l m (Err e) l' m
| stack_stuck e l1 :
    (MAX_RUNTIME_MAPPINGS <= List.length l1 + 1)%nat ->
    stack_outcome host image argv l m (Err e) l1 m.

Lemma create_guest_stack_spec (host : stack_host) (image : guest_image)
    (argv : list (list Z)) (l : list runtime_mapping) (m : gmap Z Z) :
  registry_wf l -> placement_free host l m ->
  (16 <= List.length (filter (fun s => s <> PInterrupted) (sk_random_steps host)))%nat ->
  exists r l' m', create_guest_stack host image argv l m = Some (r, l', m') /\
    registry_wf l' /\ stack_outcome host image argv l m r l' m'.
Proof.
  intros Hwf Hfree Hsteps. unfold create_guest_stack, placement_free in *.
  assert (forall e, stack_outcome host image argv l m (Err e) l m) as Hsame.
  { intros e. by apply stack_failed. }
  destruct argv as [|arg argv']; [eexists _, l, m; split_and!; [done..|apply Hsame]|]. set (argv := arg :: argv') in *.
  destruct (sk_mmap host) as [e|lb] eqn:Emm; [eexists _, l, m; split_and!; [done..|apply Hsame]|].
  destruct Hfree as [Hlb Hfree].
  assert (forall x, inside lb GUEST_STACK_SIZE x = true -> m !! x = None) as Hfree'
    by (intros x Hx; by apply Hfree).
  pose proof (mem_zero_outside m lb GUEST_STACK_SIZE) as Hzero.
  set (mapped := mem_zero m lb GUEST_STACK_SIZE) in *. clearbody mapped.
  pose proof (mem_unmap_restore m mapped lb GUEST_STACK_SIZE Hfree' Hzero) as Hunmap.
  cond; [rewrite Hunmap; eexists _, l, m; split_and!; [done..|apply Hsame]|]. bprop.
  pose proof (runtime_map_spec l lb GUEST_STACK_SIZE false Hwf Hlb ltac:(by vm_compute)) as Hmap.
  destruct (guest_memory_runtime_map _ _ _ _) as [[u|e] l1].
  2: { destruct Hmap as [-> _]. rewrite Hunmap. eexists _, l, m; split_and!; [done..|apply Hsame]. }
  destruct Hmap as (Hwf1 & Hbad & Hown).
  destruct (fill_stack_returns host image argv mapped lb Hsteps) as [r Hr].
  rewrite Hr.
  destruct r as [[sp m']|e].
  - assert (GUEST_MIN_ADDRESS <= lb <= GUEST_MAX_ADDRESS - GUEST_STACK_SIZE) as Hrange by lia.
    apply fill_stack_ok in Hr as [(arguments & environment & random & Hst) Hout];
      [|unfold U32_MOD, GUEST_STACK_SIZE, GUEST_MIN_ADDRESS, GUEST_MAX_ADDRESS in *; lia..].
    exists (Ok sp), l1, m'. split_and!; [reflexivity|exact Hwf1|].
    apply (stack_made _ _ _ _ _ lb sp arguments environment random l1 m' Emm Hrange Hst);
      [|exact Hown].
    intros x Hx. rewrite (Hout x Hx). exact (Hzero x Hx).
  - rewrite Hunmap. eexists _, _, m.
    destruct (runtime_unmap_spec l1 lb GUEST_STACK_SIZE Hwf1 Hlb) as [Hwf2 Hu];
      [by vm_compute|exact Hbad|].
    split_and!; [reflexivity|exact Hwf2|]. destruct Hu as [Hu|[Hu Hfull]].
    + apply stack_failed. intros x. rewrite Hu. unfold owner_update at 1.
      rewrite Hown. unfold owner_update. cond; [|reflexivity].
      symmetry. by apply Hfree.
    + apply stack_stuck. by rewrite Hu.
Qed.

(** C21: A call of [create_guest_stack] returns as soon as the random device has
    answered sixteen times.  It either builds the initial stack of the Linux ABI
    (an aligned stack pointer inside the new mapping, the vector of the argument
    count, the arguments, the filtered environment and the auxiliary entries, all
    pointers leading to their strings, sixteen random bytes) and writes nothing
    outside the mapping, or it fails, the memory being as before and the registry
    too, unless the registry is full. *)
Theorem create_guest_stack_correct (host : stack_host) (image : guest_image)
    (argv : list (list Z)) (l : list runtime_mapping) (m : gmap Z Z) :
  registry_wf l -> placement_free host l m ->
  (16 <= List.length (filter (fun s => s <> PInterrupted) (sk_random_steps host)))%nat ->
  exists r l' m', create_guest_stack host image argv l m = Some (r, l', m') /\
    registry_wf l' /\ stack_outcome host image argv l m r l' m'.
Proof. exact (create_guest_stack_spec host image argv l m). Qed.

Module StackExamples.
Definition host1 : stack_host :=
  StackHost (MmapAt 0x20000000) true None (replicate 16 (PTransfer 1)) (replicate 20 7)
    1000 1000 100 100 4096 [text "LINUXEMU_TRACE=1"; text "HOME=/"].
Definition image1 : guest_image := GuestImage 0x10000 0x60000000 0x60000000 0x10034 32 3 0x12000.

Lemma create_guest_stack_witness :
  exists r l' m', create_guest_stack host1 image1 [text "sh"; text "-c"] [] ∅ = Some (r, l', m') /\
    registry_wf l' /\ stack_outcome host1 image1 [text "sh"; text "-c"] [] ∅ r l' m'.
Proof.
  apply (create_guest_stack_correct host1 image1 [text "sh"; text "-c"] [] ∅).
  - apply registry_wf_nil.
  - split; [by vm_compute|]. intros x _. split; [apply lookup_empty|done].
  - vm_compute. lia.
Defined.

(** The stack of a run of [sh -c] with one variable: the words from its pointer. *)
Example stack_of_sh :
  match fill_stack host1 image1 [text "sh"; text "-c"] ∅ 0x20000000 with
  | Some (Ok (sp, m)) =>
    sp = 0x200fff50 /\
    load_words m sp 8 = Some [2; 0x200ffff3; 0x200ffff6; 0; 0x200ffff9; 0; LINUX_AT_PHDR; 0x10034]
  | _ => False
  end.
Proof. vm_compute. split; reflexivity. Qed.
End StackExamples.
