(* ===== verification/Process.v ===== *)
(** * Executing programs: [src/src/guest_process.c] and [src/src/linuxemu.c]

    A guest [execve] restarts the emulator with the guest's root, directory and
    arguments on its command line; scripts go through the interpreter of their
    first line.  [main] reads the command line back.  Strings are lists of
    characters without their zero. *)

From Stdlib Require Import Ascii String.
From stdpp Require Import strings.
From S2P Require Import Prelude Errno Bytes GuestPath InitialStack.
Open Scope Z_scope.

Definition MAX_EXEC_VECTOR : nat := 4096.
(** The sizes of [shebang_option] and of the buffer of [read_shebang]. *)
Definition SHEBANG_SIZE : nat := 256.

(** [strncmp (value, prefix, strlen (prefix)) == 0] *)
Definition has_prefix (prefix : string) (value : list ascii) : bool :=
  bool_decide (take (length (chars prefix)) value = chars prefix).

Definition hidden_environment (value : list ascii) : bool :=
  has_prefix "LINUXEMU_ROOT=" value || has_prefix "LINUXEMU_GUEST_" value ||
  has_prefix "LD_LIBRARY_PATH=" value.

(** ** Scripts *)

Definition space : ascii := " ".
Definition tab : ascii := Ascii.ascii_of_nat 9.
Definition newline : ascii := Ascii.ascii_of_nat 10.
Definition return_ : ascii := Ascii.ascii_of_nat 13.
Definition zero : ascii := Ascii.ascii_of_nat 0.

Definition is_blank (c : ascii) : bool := bool_decide (c = space) || bool_decide (c = tab).
Definition ends_line (c : ascii) : bool := bool_decide (c = zero) || bool_decide (c = newline).

(** [while (p (cursor[0])) cursor++]: what the loop passes over and what is left.
    The buffer ends with a zero, which no loop passes. *)
Fixpoint span (p : ascii -> bool) (s : list ascii) : list ascii * list ascii :=
  match s with
  | [] => ([], [])
  | c :: rest => if p c then let (a, b) := span p rest in (c :: a, b) else ([], s)
  end.

(** [while (end > option && p (end[-1])) end--] *)
Definition trim_end (p : ascii -> bool) (s : list ascii) : list ascii := rev (span p (rev s)).2.

(** The interpreter, its option (empty when there is none) and its host path. *)
Record shebang := Shebang { sb_interpreter : list ascii; sb_option : list ascii; sb_path : list ascii }.

(** The parts of a line after its first two characters. *)
Definition parse_shebang (line : list ascii) : list ascii * list ascii :=
  let (_, cursor) := span is_blank line in
  let (interpreter, rest) := span (fun c => negb (ends_line c || is_blank c)) cursor in
  let (_, option) := span is_blank rest in
  let (option, _) := span (fun c => negb (ends_line c)) option in
  (interpreter, trim_end (fun c => is_blank c || bool_decide (c = return_)) option).

Section process.
Context (PATH_MAX : nat) (fs : host_fs).

(** [read_shebang]: [opened] is what [open] and [read] answer (at most 255 bytes).
    The result is [None] for a file that is not a script.  [ArrayOverflow] is the
    one of [guest_path_resolve]. *)
Definition read_shebang (ps : path_state) (opened : errno + list ascii) : outcome (option shebang) :=
  match opened with
  | inl e => Returns (fail_with e)
  | inr buffer =>
    match buffer with
    | "#"%char :: "!"%char :: line =>
      let (interpreter, option) := parse_shebang line in
      if (length interpreter =? 0)%nat then Returns (fail_with ENOEXEC)
      else if (PATH_MAX <=? length interpreter)%nat then Returns (fail_with ENAMETOOLONG)
      else if (SHEBANG_SIZE <=? length option)%nat then Returns (fail_with E2BIG)
      else obind (guest_path_resolve PATH_MAX fs ps (Some interpreter) false PATH_MAX)
             (fun path => Returns (Ok (Some (Shebang interpreter option path))))
    | _ => Returns (Ok None)
    end
  end.

(** ** [guest_process_exec] *)

(** The loop over the environment: the entries copied, or [None] for [E2BIG];
    [count] is [environment_count]. *)
Fixpoint copy_environment (count : nat) (guest_envp : list (list ascii))
  : option (list (list ascii)) :=
  match guest_envp with
  | [] => Some []
  | entry :: rest =>
    if hidden_environment entry then copy_environment count rest
    else if (count =? MAX_EXEC_VECTOR)%nat then None
    else match copy_environment (S count) rest with
         | Some copied => Some (entry :: copied)
         | None => None
         end
  end.

(** The guest's arguments of the new program. *)
Definition guest_arguments (script : option shebang) (guest_executable : list ascii)
    (guest_argv : list (list ascii)) : list (list ascii) :=
  match script with
  | None => guest_argv
  | Some s =>
    sb_interpreter s :: (if (length (sb_option s) =? 0)%nat then [] else [sb_option s]) ++
    guest_executable :: tail guest_argv
  end.

(** The vectors [host_arguments] and [host_environment] without their null
    pointers. *)
Definition host_arguments (emulator_path : list ascii) (ps : path_state) (script : option shebang)
    (host_executable guest_executable : list ascii) (guest_argv : list (list ascii))
  : list (list ascii) :=
  [emulator_path; chars "--linuxemu-exec"; root_path ps; guest_cwd ps;
   match script with Some s => sb_path s | None => host_executable end] ++
  guest_arguments script guest_executable guest_argv.

Definition host_environment (trace_enabled : bool) (copied : list (list ascii)) : list (list ascii) :=
  copied ++ (if trace_enabled then [chars "LINUXEMU_SYSTRACE=1"] else []).

(** How a call ends: it returns -1 with an error, or the host starts the emulator
    with two vectors. *)
Inductive exec_outcome : Type :=
| ExecFails (e : option errno)
| Executes (arguments environment : list (list ascii)).

(** The host: [open] and [read] of the executable, [sigprocmask], [execve] (with
    its error when it fails). *)
Record exec_host := ExecHost {
  xh_read : list ascii -> errno + list ascii;
  xh_sigprocmask : option errno;
  xh_execve : option errno }.

(** [guest_process_exec] with vectors that are not null; [None] is the overflow of
    the path array.  On failure the signal mask is as before: it is restored after
    a failing [execve]. *)
Definition guest_process_exec (host : exec_host) (emulator_path : list ascii) (ps : path_state)
    (trace_enabled : bool) (host_executable guest_executable : list ascii)
    (guest_argv guest_envp : list (list ascii)) : option exec_outcome :=
  if (length guest_argv =? 0)%nat || (length (root_path ps) =? 0)%nat then Some (ExecFails (Some EINVAL))
  else if (MAX_EXEC_VECTOR <? length guest_argv)%nat then Some (ExecFails (Some E2BIG))
  else match read_shebang ps (xh_read host host_executable) with
  | ArrayOverflow => None
  | Returns (Err e) => Some (ExecFails e)
  | Returns (Ok script) =>
    if match script with
       | Some s => (MAX_EXEC_VECTOR <? length guest_argv +
                      (if (length (sb_option s) =? 0)%nat then 1 else 2))%nat
       | None => false
       end
    then Some (ExecFails (Some E2BIG))
    else match copy_environment 0 guest_envp with
    | None => Some (ExecFails (Some E2BIG))
    | Some copied =>
      match xh_sigprocmask host with
      | Some e => Some (ExecFails (Some e))
      | None =>
        match xh_execve host with
        | Some e => Some (ExecFails (Some e))
        | None =>
          Some (Executes (host_arguments emulator_path ps script host_executable guest_executable guest_argv)
                  (host_environment trace_enabled copied))
        end
      end
    end
  end.
End process.

(** ** The command line of [main] *)

Record command := Command {
  cm_root : option (list ascii);
  cm_cwd : option (list ascii);
  cm_load_path : list ascii;
  cm_argv : list (list ascii) }.

(** [root_variable] is [getenv ("LINUXEMU_ROOT")]; [None] is the usage message. *)
Definition parse_command (argv : list (list ascii)) (root_variable : option (list ascii))
  : option command :=
  match argv with
  | _ :: option :: root :: cwd :: load_path :: ((_ :: _) as guest_argv) =>
    if bool_decide (option = chars "--linuxemu-exec")
    then Some (Command (Some root) (Some cwd) load_path guest_argv)
    else Some (Command root_variable None option (tail argv))
  | _ :: program :: _ => Some (Command root_variable None program (tail argv))
  | _ => None
  end.

(** ** Loading again: [guest_process_retry_load] *)

Definition is_space (c : ascii) : bool :=
  is_blank c || bool_decide (Ascii.nat_of_ascii c = 10 \/ Ascii.nat_of_ascii c = 11 \/
                             Ascii.nat_of_ascii c = 12 \/ Ascii.nat_of_ascii c = 13)%nat.
Definition digit_of (c : ascii) : option Z :=
  let n := Z.of_nat (Ascii.nat_of_ascii c) - 48 in
  if (0 <=? n) && (n <=? 9) then Some n else None.

Fixpoint decimal_digits (s : list ascii) (value : Z) : Z * list ascii :=
  match s with
  | c :: rest =>
    match digit_of c with
    | Some d => decimal_digits rest (value * 10 + d)
    | None => (value, s)
    end
  | [] => (value, [])
  end.

(** [strtoul (value, &end, 10)]: the number and what [end] points to, [None] when
    nothing was converted. *)
Definition strtoul (s : list ascii) : option (Z * list ascii) :=
  let s := (span is_space s).2 in
  let (negative, s) := match s with
                       | "+"%char :: rest => (false, rest)
                       | "-"%char :: rest => (true, rest)
                       | _ => (false, s)
                       end in
  match s with
  | c :: _ =>
    match digit_of c with
    | None => None
    | Some _ =>
      let (value, rest) := decimal_digits s 0 in
      Some (if UINTPTR_MAX <? value then UINTPTR_MAX
            else if negative then u32 (- value) else value, rest)
    end
  | [] => None
  end.

(** [snprintf (retry_value, 16, "%lu", n)] *)
Fixpoint print_digits (fuel : nat) (n : Z) (tail : list ascii) : list ascii :=
  match fuel with
  | O => tail
  | S fuel =>
    let tail := Ascii.ascii_of_nat (Z.to_nat (48 + n mod 10)) :: tail in
    if n / 10 =? 0 then tail else print_digits fuel (n / 10) tail
  end.
Definition print_decimal (n : Z) : list ascii := print_digits 15 n [].

(** The new value of [LINUXEMU_LOAD_RETRY], or [None] when the call gives up. *)
Definition retry_value (value : option (list ascii)) : option (list ascii) :=
  match value with
  | None => Some (print_decimal 1)
  | Some s =>
    match strtoul s with
    | Some (attempt, []) => if 31 <=? attempt then None else Some (print_decimal (attempt + 1))
    | _ => None
    end
  end.

(** [guest_process_retry_load]: the emulator is started again with the variable
    set, or the call returns -1. *)
Definition guest_process_retry_load (setenv execve : option errno) (variable : option (list ascii))
  : errno + list ascii :=
  match retry_value variable with
  | None => inl EEXIST
  | Some value =>
    match setenv, execve with
    | Some e, _ | None, Some e => inl e
    | None, None => inr value
    end
  end.

(** ** The vectors *)

Lemma copy_environment_spec count guest_envp copied :
  copy_environment count guest_envp = Some copied ->
  copied = filter (fun e => hidden_environment e = false) guest_envp /\
  (count <= MAX_EXEC_VECTOR -> count + length copied <= MAX_EXEC_VECTOR)%nat.
Proof.
  revert count copied. induction guest_envp as [|e rest IH]; intros count copied; simpl.
  { intros [= <-]. split; [done|]. simpl. lia. }
  destruct (hidden_environment e) eqn:Eh.
  { rewrite filter_cons_False by (by rewrite Eh). apply IH. }
  rewrite filter_cons_True by done. cond; [done|].
  destruct (copy_environment (S count) rest) as [c|] eqn:Ec; [|done]. intros [= <-].
  destruct (IH _ _ Ec) as [-> Hle]. split; [done|]. bprop. simpl. lia.
Qed.

(** What an [execve] that starts the emulator has established. *)
Lemma exec_executes PATH_MAX fs host emulator_path ps trace hexe gexe argv envp arguments environment :
  guest_process_exec PATH_MAX fs host emulator_path ps trace hexe gexe argv envp =
    Some (Executes arguments environment) ->
  exists script copied, read_shebang PATH_MAX fs ps (xh_read host hexe) = Returns (Ok script) /\
    arguments = host_arguments emulator_path ps script hexe gexe argv /\
    environment = host_environment trace copied /\
    copied = filter (fun e => hidden_environment e = false) envp /\
    (0 < length argv)%nat /\
    (length (guest_arguments script gexe argv) <= MAX_EXEC_VECTOR)%nat /\
    (length copied <= MAX_EXEC_VECTOR)%nat.
Proof.
  unfold guest_process_exec. do 2 (cond; [done|]). bprop.
  destruct (read_shebang _ _ _ _) as [[script|e]|] eqn:Er; [|done..].
  destruct (match script with Some _ => _ | None => false end) eqn:Es; [done|].
  destruct (copy_environment 0 envp) as [copied|] eqn:Ec; [|done].
  destruct (xh_sigprocmask host); [done|]. destruct (xh_execve host); [done|]. intros [= <- <-].
  apply copy_environment_spec in Ec as [Hc Hlen].
  exists script, copied. split_and!; try done; [lia| |lia].
  destruct argv as [|a argv]; [done|]. destruct script as [s|]; [|done].
  unfold guest_arguments. cond; rewrite ?E1 in Es; bprop; cbn [length app tail] in *; lia.
Qed.

(** The vectors of an [execve] fit the static arrays, which have room for
    [MAX_EXEC_VECTOR + 6] arguments and [MAX_EXEC_VECTOR + 2] variables, with the
    null pointers at their ends. *)
Theorem exec_vectors_fit (PATH_MAX : nat) (fs : host_fs) (host : exec_host) (emulator_path : list ascii)
    (ps : path_state) (trace : bool) (hexe gexe : list ascii) (argv envp arguments environment : list (list ascii)) :
  guest_process_exec PATH_MAX fs host emulator_path ps trace hexe gexe argv envp =
    Some (Executes arguments environment) ->
  (length arguments + 1 <= MAX_EXEC_VECTOR + 6)%nat /\ (length environment + 1 <= MAX_EXEC_VECTOR + 2)%nat.
Proof.
  intros (script & copied & _ & -> & -> & _ & _ & Ha & Hc)%exec_executes.
  unfold host_arguments, host_environment. rewrite !length_app.
  cbn [length]. destruct trace; cbn [length]; lia.
Qed.

(** ** The new program *)

Lemma starts_with_prefix p v : starts_with (text p) (bytes_of v) = has_prefix p v.
Proof.
  unfold starts_with, has_prefix, text. fold (chars p). fold (bytes_of (chars p)).
  apply bool_decide_ext. assert (length (bytes_of (chars p)) = length (chars p)) as -> by apply List.length_map.
  unfold bytes_of at 1. rewrite firstn_map. fold (bytes_of (take (length (chars p)) v)).
  split; [apply bytes_of_inj|by intros ->].
Qed.

(** A variable the emulator hides is none that a guest sees. *)
Lemma hidden_not_seen e : hidden_environment e = true -> guest_environment_entry (bytes_of e) = false.
Proof.
  unfold hidden_environment, guest_environment_entry, has_prefix. rewrite !starts_with_prefix.
  unfold has_prefix. intros H. rewrite !orb_true_iff, !bool_decide_eq_true in H.
  apply andb_false_iff. rewrite !negb_false_iff, !bool_decide_eq_true.
  destruct H as [[H|H]|H]; [left|left|by right];
    apply (f_equal (take 9)) in H; by rewrite take_take in H.
Qed.

Lemma seen_environment trace envp :
  filter guest_environment_entry
    (map bytes_of (host_environment trace (filter (fun e => hidden_environment e = false) envp))) =
  filter guest_environment_entry (map bytes_of envp).
Proof.
  unfold host_environment. rewrite map_app, filter_app.
  replace (filter guest_environment_entry (map bytes_of (if trace then _ else _))) with (@nil (list Z))
    by (by destruct trace). rewrite app_nil_r.
  induction envp as [|e envp IH]; [done|]. destruct (hidden_environment e) eqn:Eh.
  - rewrite filter_cons_False by (by rewrite Eh). rewrite IH. cbn [map].
    by rewrite filter_cons_False by (rewrite hidden_not_seen by done; tauto).
  - rewrite filter_cons_True by done. cbn [map]. destruct (guest_environment_entry (bytes_of e)) eqn:Eg.
    + rewrite !filter_cons_True by (rewrite Eg; exact I). by rewrite IH.
    + by rewrite !filter_cons_False by (rewrite Eg; tauto).
Qed.

(** C22: The command line an [execve] of the guest writes is the one [main] reads: the
    new emulator gets the guest's root and directory, the file to load (the
    interpreter's when the file is a script) and the guest's arguments (for a
    script those Linux prescribes: the interpreter, its option, the script and the
    rest).  The environment the new program sees is the one it was given, without
    the variables of the emulator and of the host's linker. *)
Theorem exec_main_roundtrip (PATH_MAX : nat) (fs : host_fs) (host : exec_host)
    (emulator_path : list ascii) (ps : path_state) (trace : bool) (hexe gexe : list ascii)
    (argv envp arguments environment : list (list ascii)) (root_variable : option (list ascii)) :
  guest_process_exec PATH_MAX fs host emulator_path ps trace hexe gexe argv envp =
    Some (Executes arguments environment) ->
  exists script, read_shebang PATH_MAX fs ps (xh_read host hexe) = Returns (Ok script) /\
    parse_command arguments root_variable =
      Some (Command (Some (root_path ps)) (Some (guest_cwd ps))
              (match script with Some s => sb_path s | None => hexe end)
              (guest_arguments script gexe argv)) /\
    filter guest_environment_entry (map bytes_of environment) =
    filter guest_environment_entry (map bytes_of envp).
Proof.
  intros (script & copied & Hr & -> & -> & -> & Hargv & _ & _)%exec_executes.
  exists script. split_and!; [done| |apply seen_environment].
  unfold host_arguments. destruct (guest_arguments script gexe argv) as [|a rest] eqn:Ea.
  - exfalso. destruct script; simpl in Ea; [done|]. subst argv. simpl in Hargv. lia.
  - reflexivity.
Qed.

(** ** Scripts *)

Lemma span_app p a b :
  Forall (fun c => p c = true) a -> match b with [] => True | c :: _ => p c = false end ->
  span p (a ++ b) = (a, b).
Proof.
  intros Ha Hb. induction Ha as [|c a Hc _ IH]; simpl.
  - destruct b as [|c b]; [done|]. simpl. by rewrite Hb.
  - by rewrite Hc, IH.
Qed.

Lemma trim_end_app p a b :
  Forall (fun c => p c = true) b -> match last a with Some c => p c = false | None => True end ->
  trim_end p (a ++ b) = a.
Proof.
  intros Hb Ha. unfold trim_end. rewrite rev_app_distr, span_app; [apply rev_involutive| |].
  - by apply Forall_rev.
  - destruct a as [|c a _] using rev_ind; [done|]. rewrite rev_app_distr. simpl. by rewrite last_snoc in Ha.
Qed.

(** A word of a first line, and the text of an option. *)
Definition shebang_word (s : list ascii) : Prop :=
  s <> [] /\ Forall (fun c => ends_line c || is_blank c = false) s.
Definition shebang_text (s : list ascii) : Prop :=
  Forall (fun c => ends_line c = false) s /\
  match s with [] => True | c :: _ => is_blank c = false end /\
  match last s with None => True | Some c => is_blank c || bool_decide (c = return_) = false end.

(** The first line [#! interpreter option] is taken apart as Linux does it: blanks
    around the two parts and a carriage return at the end do not count, everything
    between them is one option.  What follows the line is not looked at. *)
Theorem shebang_parsed (blanks1 interpreter blanks2 option blanks3 rest : list ascii) :
  Forall (fun c => is_blank c = true) blanks1 -> shebang_word interpreter ->
  Forall (fun c => is_blank c = true) blanks2 -> (blanks2 = [] -> option = []) -> shebang_text option ->
  Forall (fun c => is_blank c || bool_decide (c = return_) = true) blanks3 ->
  (option = [] -> blanks3 = []) ->
  parse_shebang (blanks1 ++ interpreter ++ blanks2 ++ option ++ blanks3 ++ newline :: rest) =
  (interpreter, option).
Proof.
  intros H1 [Hne Hw] H2 Hsep (Ht & Hf & Hl) H3 Hopt. unfold parse_shebang.
  rewrite span_app; [|done|].
  2: { destruct interpreter as [|c i]; [done|]. apply Forall_cons in Hw as [Hw _].
       apply orb_false_iff in Hw. by destruct Hw. }
  rewrite span_app; [| |].
  2: { eapply Forall_impl; [done|]. intros c ->. done. }
  2: { destruct blanks2 as [|c b].
       - rewrite (Hsep eq_refl), (Hopt (Hsep eq_refl)). done.
       - apply Forall_cons in H2 as [Hc _]. simpl. rewrite Hc. by rewrite orb_true_r. }
  rewrite span_app; [|done|].
  2: { destruct option as [|c o]; [by rewrite (Hopt eq_refl)|done]. }
  rewrite app_assoc, span_app; [|apply Forall_app_2|done].
  2: { eapply Forall_impl; [exact Ht|]. by intros c ->. }
  2: { eapply Forall_impl; [exact H3|]. intros c Hc. unfold is_blank, ends_line in *.
       rewrite !orb_true_iff, !bool_decide_eq_true in Hc. by destruct Hc as [[-> | ->]| ->]. }
  f_equal. by apply trim_end_app.
Qed.

(** ** Loading again *)

(** The emulator restarts itself at most 31 times: the variable counts. *)
Fixpoint retries (n : nat) (value : option (list ascii)) : option (option (list ascii)) :=
  match n with
  | O => Some value
  | S n => match retry_value value with Some s => retries n (Some s) | None => None end
  end.

Lemma decimal_digits_nonneg s v : 0 <= v -> 0 <= (decimal_digits s v).1.
Proof.
  revert v. induction s as [|c s IH]; intros v Hv; simpl; [done|].
  destruct (digit_of c) as [d|] eqn:Ed; [|done]. apply IH. unfold digit_of in Ed.
  cbv zeta in Ed. cond_in Ed; [|done]. injection Ed as <-. bprop. lia.
Qed.

Lemma strtoul_nonneg s n rest : strtoul s = Some (n, rest) -> 0 <= n.
Proof.
  unfold strtoul. generalize ((span is_space s).2). intros s1.
  destruct (match s1 with "+"%char :: _ => _ | _ => _ end) as [negative s2].
  destruct s2 as [|c s2]; [done|]. destruct (digit_of c); [|done].
  pose proof (decimal_digits_nonneg (c :: s2) 0 ltac:(done)) as Hd.
  destruct (decimal_digits (c :: s2) 0) as [v r]. intros [= <- <-]. simpl in Hd.
  cond; [done|]. destruct negative; [apply u32_range|done].
Qed.

(** The next value of a number below 31 is the next number; from 31 on there is
    none. *)
Lemma retry_value_next k : 0 <= k <= 31 ->
  retry_value (Some (print_decimal k)) = if k =? 31 then None else Some (print_decimal (k + 1)).
Proof.
  intros Hk. assert (In k (map Z.of_nat (seq 0 32))) as Hin.
  { apply in_map_iff. exists (Z.to_nat k). split; [lia|]. apply in_seq. lia. }
  simpl in Hin. repeat (destruct Hin as [<-|Hin]; [vm_compute; reflexivity|]). done.
Qed.

Lemma retry_value_first value s :
  retry_value value = Some s -> exists k, 1 <= k <= 31 /\ s = print_decimal k.
Proof.
  unfold retry_value. destruct value as [v|]; [|intros [= <-]; by exists 1].
  destruct (strtoul v) as [[n [|]]|] eqn:E; [|done..]. apply strtoul_nonneg in E. cond; [done|].
  intros [= <-]. bprop. exists (n + 1). split; [lia|done].
Qed.

Lemma retries_from n k : 0 <= k <= 31 ->
  retries n (Some (print_decimal k)) =
  if k + Z.of_nat n <=? 31 then Some (Some (print_decimal (k + Z.of_nat n))) else None.
Proof.
  revert k. induction n as [|n IH]; intros k Hk; cbn [retries].
  { rewrite Z.add_0_r. cond; bprop; [done|lia]. }
  rewrite retry_value_next by done. destruct (k =? 31) eqn:E; bprop.
  - subst. cond; bprop; [lia|done].
  - rewrite IH by lia. replace (k + 1 + Z.of_nat n) with (k + Z.of_nat (S n)) by lia. done.
Qed.

(** C36: However the variable is set, the emulator restarts itself at most 31 times,
    and 31 times when it is not set. *)
Theorem retry_bounded (value : option (list ascii)) :
  retries 32 value = None /\ is_Some (retries 31 None).
Proof.
  split; [|by eexists; vm_compute]. cbn [retries].
  destruct (retry_value value) as [s|] eqn:E; [|done]. apply retry_value_first in E as (k & Hk & ->).
  fold (retries 31 (Some (print_decimal k))). rewrite retries_from by lia.
  cond; bprop; [lia|done].
Qed.

(** ** A script that is executed *)

Module ProcessExamples.
Definition script_host : exec_host :=
  ExecHost (fun _ => inr (chars "#! /bin/sh  -e x " ++ return_ :: newline :: chars "echo")) None None.
Definition envp1 : list (list ascii) := [chars "LINUXEMU_ROOT=/x"; chars "HOME=/"].
Definition executed : option exec_outcome :=
  guest_process_exec 64 GuestPathExamples.fs0 script_host (chars "/emu") GuestPathExamples.st0 true
    (chars "/r/bin/run") (chars "run") [chars "run"; chars "a"] envp1.

Lemma exec_vectors_fit_witness :
  exists arguments environment, executed = Some (Executes arguments environment) /\
    (length arguments + 1 <= MAX_EXEC_VECTOR + 6)%nat.
Proof.
  eexists _, _. split; [vm_compute; reflexivity|].
  eapply (exec_vectors_fit 64 GuestPathExamples.fs0 script_host (chars "/emu") GuestPathExamples.st0 true
    (chars "/r/bin/run") (chars "run") [chars "run"; chars "a"] envp1). vm_compute. reflexivity.
Defined.

Lemma exec_main_roundtrip_witness :
  exists arguments environment, executed = Some (Executes arguments environment) /\
    parse_command arguments None =
      Some (Command (Some (chars "/r")) (Some (chars "/")) (chars "/r/bin/sh")
              [chars "/bin/sh"; chars "-e x"; chars "run"; chars "a"]) /\
    filter guest_environment_entry (map bytes_of environment) = [bytes_of (chars "HOME=/")].
Proof.
  eexists _, _. split; [vm_compute; reflexivity|].
  match goal with |- parse_command ?a _ = _ /\ filter _ (map _ ?e) = _ =>
    destruct (exec_main_roundtrip 64 GuestPathExamples.fs0 script_host (chars "/emu") GuestPathExamples.st0
      true (chars "/r/bin/run") (chars "run") [chars "run"; chars "a"] envp1 a e None)
      as (script & Hs & Hp & He); [vm_compute; reflexivity|] end.
  vm_compute in Hs. injection Hs as <-. split; [exact Hp|]. rewrite He. vm_compute. reflexivity.
Defined.

Lemma shebang_parsed_witness :
  parse_shebang (chars " /bin/sh  -e x " ++ newline :: chars "echo") = (chars "/bin/sh", chars "-e x").
Proof.
  apply (shebang_parsed [space] (chars "/bin/sh") [space; space] (chars "-e x") [space] (chars "echo"));
    first [discriminate | repeat split; repeat constructor; vm_compute; discriminate || reflexivity
          | repeat constructor].
Defined.
End ProcessExamples.
