(* ===== verification/Boot.v ===== *)
(** * Starting a guest: [main] of [src/src/linuxemu.c]

    The command line, the initialisation of the components, the loading of the
    program and of its interpreter, the stack, and the jump into the guest, in the
    order of [main].  This is where the loader ([ElfLoader]), the paths
    ([GuestPath]), the registry ([RuntimeRegistry]) and the stack ([InitialStack])
    work on one state. *)

From Stdlib Require Import Ascii String.
From stdpp Require Import strings.
From S2P Require Import Prelude Errno Bytes Util RuntimeRegistry GuestMemory ArmPatch GuestPath.
From S2P Require Import ElfLoader InitialStack Process.
Open Scope Z_scope.

(** What the host answers to [main]: [bh_stack] gives the answers for the stack, in
    the memory as it is then, [bh_test_mmap] those for [occupy_test_range], which
    [bh_testing] (the macro [LINUXEMU_TESTING]) puts into the build. *)
Record boot_host := BootHost {
  bh_realpath : errno + list ascii;
  bh_page_size : Z;
  bh_thread_initialize : bool;
  bh_install_traps : bool;
  bh_loader : loader_host;
  bh_stack : gmap Z Z -> stack_host;
  bh_root : option (list ascii);
  bh_testing : bool;
  bh_occupy_static : bool;
  bh_occupy_dynamic : bool;
  bh_test_mmap : gmap Z Z -> Z -> Z -> mmap_result;
  bh_retry : option (list ascii);
  bh_setenv : option errno;
  bh_execve : option errno }.

(** How [main] ends: with an exit code, with a new emulator in place of this one,
    or in the guest, whose registers, memory and tables are then those given. *)
Inductive boot_outcome : Type :=
| Exits (code : Z)
| Restarts (retry : list ascii)
| Enters (registers : list Z) (image : guest_image) (stack : Z) (st : loader).

Section boot.
Context `{HostProt} (PATH_MAX : nat) (fs : host_fs) (host : boot_host).

(** [root != 0 && (guest_path_initialize (root) != 0 || (initial_cwd != 0 &&
    guest_path_chdir (initial_cwd) != 0))]: the path state, [None] for the error;
    the outer [option] is the overflow of the path array. *)
Definition boot_paths (c : command) (ps : path_state) : option (option path_state) :=
  match cm_root c with
  | None => Some (Some ps)
  | Some root =>
    match guest_path_initialize fs ps (Some root) with
    | (Err _, _) => Some None
    | (Ok _, ps) =>
      match cm_cwd c with
      | None => Some (Some ps)
      | Some cwd =>
        match guest_path_chdir PATH_MAX fs ps (Some cwd) with
        | (ArrayOverflow, _) => None
        | (Returns (Err _), _) => Some None
        | (Returns (Ok _), ps) => Some (Some ps)
        end
      end
    end
  end.

(** [occupy_test_range]: takes the place of a program before it is loaded, so that
    the tests can see the loader fail; gives the memory after it. *)
Definition occupy_test_range (m : gmap Z Z) : result unit * gmap Z Z :=
  match (if bh_occupy_static host then Some (0x000ff000, 0x2000)
         else if bh_occupy_dynamic host then Some (MAIN_ET_DYN_BIAS, 0x1000)
         else None) with
  | None => (Ok tt, m)
  | Some (address, length) =>
    match bh_test_mmap host m address length with
    | MmapFailed e => (fail_with e, m)
    | MmapAt mapping =>
      let mapped := mem_zero m mapping length in
      if negb (mapping =? address) then (fail_with EEXIST, mem_unmap mapped mapping length)
      else (Ok tt, mapped)
    end
  end.

(** The part of [main] after the initialisations: [st] has the memory of a process
    that has just started, [registers] are the host's. *)
Definition boot_guest (c : command) (ps : path_state) (st : loader) (registers : list Z)
  : option boot_outcome :=
  match load_guest_image (bh_loader host) PATH_MAX fs ps (cm_load_path c) st with
  | None => None
  | Some (None, st) =>
    Some (if bool_decide (ld_errno st = Some EEXIST) && negb (bh_occupy_static host) then
            match guest_process_retry_load (bh_setenv host) (bh_execve host) (bh_retry host) with
            | inr value => Restarts value
            | inl _ => Exits 1
            end
          else Exits 1)
  | Some (Some image, st) =>
    match create_guest_stack (bh_stack host (ld_bytes st)) image (map bytes_of (cm_argv c))
            (runtime_mappings (ld_memory st)) (ld_bytes st) with
    | None => None
    | Some (Err _, _, _) => Some (Exits 1)
    | Some (Ok stack, l, m) =>
      let s := ld_memory st in
      let st := Loader (GuestMemory (load_segments s) (page_size s) (current_break s)
                          (minimum_break s) (break_mapping_end s) l)
                  (ld_patches st) m (ld_errno st) (ld_clock st) in
      Some (Enters (linuxemu_enter_guest (gi_start_entry image) stack registers) image stack st)
    end
  end.

Definition main (argv : list (list ascii)) (ps : path_state) (st : loader) (registers : list Z)
  : option boot_outcome :=
  match parse_command argv (bh_root host) with
  | None => Some (Exits 2)
  | Some c =>
    match bh_realpath host with
    | inl _ => Some (Exits 1)
    | inr _ =>
      match boot_paths c ps with
      | None => None
      | Some None => Some (Exits 1)
      | Some (Some ps) =>
        if negb (bh_thread_initialize host) then Some (Exits 1)
        else match guest_memory_initialize (ld_memory st) (bh_page_size host) with
        | (Err _, _) => Some (Exits 1)
        | (Ok _, s) =>
          if negb (bh_install_traps host) then Some (Exits 1)
          else match (if bh_testing host then occupy_test_range (ld_bytes st) else (Ok tt, ld_bytes st)) with
          | (Err _, _) => Some (Exits 1)
          | (Ok _, m) => boot_guest c ps (Loader s (ld_patches st) m (ld_errno st) (ld_clock st)) registers
          end
        end
      end
    end
  end.
End boot.

(** ** The host *)

(** The components' assumptions on the host, together: the loader's, fresh
    placements for the stack, a random device that answers, and paths that do not
    overflow the array of [normalize_guest_path]. *)
Record boot_host_ok (PATH_MAX : nat) (fs : host_fs) (host : boot_host) : Prop := {
  bo_loader : host_ok (bh_loader host);
  bo_page : bh_page_size host <= INT_MAX;
  bo_stack : forall m a, sk_mmap (bh_stack host m) = MmapAt a ->
    is_u32 a /\ forall x, inside a GUEST_STACK_SIZE x = true -> m !! x = None;
  bo_random : forall m,
    (16 <= length (filter (fun s => s <> PInterrupted) (sk_random_steps (bh_stack host m))))%nat;
  bo_resolve : forall ps, interpreters_resolve PATH_MAX fs ps }.

(** The state of a process that has not loaded anything. *)
Definition fresh (st : loader) : Prop :=
  load_segments (ld_memory st) = [] /\ runtime_mappings (ld_memory st) = [] /\ ld_patches st = [] /\
  mem_wf (ld_bytes st).

Lemma fresh_loader_wf s patches m e clock :
  is_page (page_size s) -> load_segments s = [] -> runtime_mappings s = [] -> patches = [] -> mem_wf m ->
  loader_wf (Loader s patches m e clock).
Proof.
  intros Hp Hs Hr -> Hm. split; simpl; rewrite ?Hs, ?Hr.
  - split; rewrite ?Hs; [done|constructor|constructor|unfold MAX_LOAD_SEGMENTS; simpl; lia].
  - apply registry_wf_nil.
  - split; [constructor|constructor|unfold MAX_PATCHES; simpl; lia].
  - done.
  - by intros g Hg%not_elem_of_nil.
  - done.
Qed.

(** ** The guest at its first instruction *)

(** The program and its interpreter are in memory ([st1] is the state before the
    stack was made), the stack is the one of the Linux ABI with the arguments of
    the command line, the code is as it was loaded, and the registers are those a
    Linux program starts with. *)
Record guest_started `{HostProt} (PATH_MAX : nat) (fs : host_fs) (host : boot_host) (c : command)
    (ps : path_state) (registers : list Z) (image : guest_image) (stack : Z) (st1 st : loader) : Prop := {
  gs_image : image_loaded (bh_loader host) PATH_MAX fs ps (cm_load_path c) st1 image;
  gs_stack : exists lower_bound arguments environment random,
    initial_stack (bh_stack host (ld_bytes st1)) image (map bytes_of (cm_argv c)) lower_bound
      (ld_bytes st) stack arguments environment random /\
    GUEST_MIN_ADDRESS <= lower_bound <= GUEST_MAX_ADDRESS - GUEST_STACK_SIZE /\
    same_outside lower_bound GUEST_STACK_SIZE (ld_bytes st1) (ld_bytes st) /\
    (forall x, inside lower_bound GUEST_STACK_SIZE x = true ->
       owner (runtime_mappings (ld_memory st)) x = Some false /\ ld_bytes st1 !! x = None);
  gs_tables : ld_patches st = ld_patches st1 /\
    (exists l, ld_memory st = GuestMemory (load_segments (ld_memory st1)) (page_size (ld_memory st1))
       (current_break (ld_memory st1)) (minimum_break (ld_memory st1)) (break_mapping_end (ld_memory st1)) l) /\
    registry_wf (runtime_mappings (ld_memory st));
  gs_registers : (forall i, (i < 9)%nat -> nth i registers 0 = 0) /\ nth 13 registers 0 = stack /\
    nth 14 registers 0 = 0 /\ nth 15 registers 0 = gi_start_entry image .&~ 1 }.

Lemma enter_registers entry stack r :
  length r = 16%nat -> let regs := linuxemu_enter_guest entry stack r in
  (forall i, (i < 9)%nat -> nth i regs 0 = 0) /\ nth 13 regs 0 = stack /\ nth 14 regs 0 = 0 /\
  nth 15 regs 0 = entry .&~ 1.
Proof.
  intros Hl. do 16 (destruct r as [|? r]; [done|]). simpl. split; [|done].
  intros i Hi. do 9 (destruct i as [|i]; [done|]). lia.
Qed.

(** What a test occupies is zero and nothing else changes; a failure leaves no
    mapping behind when the host placed it where nothing was. *)
Lemma occupy_outcome host m r m' :
  occupy_test_range host m = (r, m') ->
  match r with
  | Ok _ => m' = m \/ exists a n, m' = mem_zero m a n /\ bh_test_mmap host m a n = MmapAt a
  | Err _ => m' = m \/ exists a n, m' = mem_unmap (mem_zero m a n) a n
  end.
Proof.
  unfold occupy_test_range. destruct (if bh_occupy_static host then _ else _) as [[a n]|].
  - destruct (bh_test_mmap host m a n) as [e|b] eqn:Eb; [intros [= <- <-]; by left|].
    destruct (b =? a) eqn:Ea; cbn [negb]; intros [= <- <-]; right; [|by eexists _, _].
    bprop. subst b. by exists a, n.
  - intros [= <- <-]. by left.
Qed.

Section correct.
Context `{HostProt} (PATH_MAX : nat) (fs : host_fs) (host : boot_host).
Context (Hok : boot_host_ok PATH_MAX fs host).

(** The specification of the second half of [main]. *)
Definition boot_spec (c : command) (ps : path_state) (st0 : loader) (o : boot_outcome) : Prop :=
  match o with
  | Exits code => code = 1
  | Restarts value => retry_value (bh_retry host) = Some value
  | Enters registers image stack st =>
    exists st1, guest_started PATH_MAX fs host c ps registers image stack st1 st
  end.

Lemma retry_load_value setenv execve variable value :
  guest_process_retry_load setenv execve variable = inr value -> retry_value variable = Some value.
Proof.
  unfold guest_process_retry_load. destruct (retry_value variable); [|done].
  destruct setenv, execve; try done. by intros [= <-].
Qed.

Lemma boot_guest_spec c ps st r :
  loader_wf st -> length r = 16%nat ->
  exists o, boot_guest PATH_MAX fs host c ps st r = Some o /\ boot_spec c ps st o.
Proof.
  intros Hwf Hr. unfold boot_guest.
  destruct (load_guest_image_spec (bh_loader host) PATH_MAX fs ps (cm_load_path c) st
    (bo_loader _ _ _ Hok) (bo_resolve _ _ _ Hok ps) Hwf) as (ri & st1 & -> & Hi).
  destruct ri as [image|].
  2: { eexists. split; [done|]. cond; [|done].
       destruct (guest_process_retry_load _ _ _) as [e|value] eqn:Ev; [done|]. by eapply retry_load_value. }
  destruct Hi as [Himg _]. pose proof (il_wf _ _ _ _ _ _ _ Himg) as Hw1.
  edestruct (create_guest_stack_spec (bh_stack host (ld_bytes st1)) image (map bytes_of (cm_argv c))
    (runtime_mappings (ld_memory st1)) (ld_bytes st1)) as (rs & l & m & -> & Hl & Ho).
  - apply Hw1.
  - unfold placement_free. destruct (sk_mmap _) as [|a] eqn:Ea; [done|].
    destruct (bo_stack _ _ _ Hok _ _ Ea) as [Ha Hfree]. split; [done|]. intros x Hx.
    split; [by apply Hfree|]. destruct (owner _ x) eqn:Eo; [|done]. exfalso.
    destruct (lw_runtime _ Hw1 x) as [byte Hb]; [by rewrite Eo|]. by rewrite (Hfree x Hx) in Hb.
  - apply (bo_random _ _ _ Hok).
  - destruct rs as [stack|e]; [|by eexists]. eexists. split; [done|].
    inversion Ho as [lb sp args envs random l' m' Hmm Hrange Hst Hout Hown| |]; subst.
    exists st1. split; [done| |split; [done|]; split; [by eexists|done]|by apply enter_registers].
    exists lb, args, envs, random. split; [exact Hst|]. split; [exact Hrange|]. split; [exact Hout|].
    intros x Hx. split; [|by apply (bo_stack _ _ _ Hok _ _ Hmm)].
    cbn [ld_memory runtime_mappings]. rewrite Hown. unfold owner_update, in_range.
    unfold inside in Hx. by rewrite Hx.
Qed.
End correct.

(** How [main] ends. *)
Lemma main_spec `{HostProt} (PATH_MAX : nat) (fs : host_fs) (host : boot_host)
    (argv : list (list ascii)) (ps : path_state) (st : loader) (registers : list Z) :
  boot_host_ok PATH_MAX fs host -> fresh st -> length registers = 16%nat ->
  match parse_command argv (bh_root host) with
  | None => main PATH_MAX fs host argv ps st registers = Some (Exits 2)
  | Some c =>
    match main PATH_MAX fs host argv ps st registers with
    | None => boot_paths PATH_MAX fs c ps = None
    | Some (Exits code) => code = 1
    | Some (Restarts value) => retry_value (bh_retry host) = Some value
    | Some (Enters registers image stack st') =>
      exists ps' st1, boot_paths PATH_MAX fs c ps = Some (Some ps') /\
        guest_started PATH_MAX fs host c ps' registers image stack st1 st'
    end
  end.
Proof.
  intros Hok (Hs & Hr & Hp & Hm) Hl. unfold main.
  destruct (parse_command argv (bh_root host)) as [c|]; [|done].
  destruct (bh_realpath host); [done|].
  destruct (boot_paths PATH_MAX fs c ps) as [[ps'|]|]; [|done..].
  destruct (bh_thread_initialize host); [|done]. cbn [negb].
  destruct (initialize_accepts_pages (ld_memory st) (bh_page_size host) (bo_page _ _ _ Hok))
    as [(s & -> & Hsp & Hpage & Hseg & Hrt)|[-> _]]; [|done].
  destruct (bh_install_traps host); [|done]. cbn [negb].
  destruct (if bh_testing host then _ else _) as [[[]|e] m] eqn:Et; [|done].
  assert (Hm' : mem_wf m).
  { destruct (bh_testing host); [|by injection Et as <-].
    apply occupy_outcome in Et as [->|(a & n & -> & _)]; [done|by apply mem_zero_wf]. }
  edestruct (boot_guest_spec PATH_MAX fs host Hok c ps') as (o & -> & Ho);
    [apply fresh_loader_wf; try done; congruence|done|].
  destruct o; simpl in Ho; [done|done|]. destruct Ho as [st1 Ho]. by exists ps', st1.
Qed.

(** C13: From a fresh process [main] always comes to an end of its own code (the only
    other possibility is the overflow of the path array by the root or the
    directory of the command line).  It prints its usage and exits with 2 exactly
    when there is no program to run; it exits with 1 on every error; it starts a
    new emulator only when the retry counter allows it; or it enters the guest,
    with the program and its interpreter in memory as loaded and patched, the
    initial stack of the Linux ABI in a mapping of its own that the registry owns,
    and the registers of a new Linux program. *)
Theorem main_correct `{HostProt} (PATH_MAX : nat) (fs : host_fs) (host : boot_host)
    (argv : list (list ascii)) (ps : path_state) (st : loader) (registers : list Z) :
  boot_host_ok PATH_MAX fs host -> fresh st -> length registers = 16%nat ->
  match parse_command argv (bh_root host) with
  | None => main PATH_MAX fs host argv ps st registers = Some (Exits 2)
  | Some c =>
    match main PATH_MAX fs host argv ps st registers with
    | None => boot_paths PATH_MAX fs c ps = None
    | Some (Exits code) => code = 1
    | Some (Restarts value) => retry_value (bh_retry host) = Some value
    | Some (Enters registers image stack st') =>
      exists ps' st1, boot_paths PATH_MAX fs c ps = Some (Some ps') /\
        guest_started PATH_MAX fs host c ps' registers image stack st1 st'
    end
  end.
Proof. apply main_spec. Qed.

(** ** A start *)

Module BootExamples.
#[local] Existing Instance ElfLoaderExamples.example_prot.

(** The host of the loader's example with the guest's root at [/r]; the stack goes
    to 0x40000000 when that is free. *)
Definition fs : host_fs :=
  HostFs (fun _ => LstatOther) (fun _ => fail_with EINVAL) (fun _ => StatOther) Ok.
Definition stack_range_free (m : gmap Z Z) : Prop :=
  map_Forall (fun x _ => inside 0x40000000 GUEST_STACK_SIZE x = false) m.
Definition place_stack (m : gmap Z Z) : mmap_result :=
  if decide (stack_range_free m) then MmapAt 0x40000000 else MmapFailed ENOMEM.
Definition stack_at (m : gmap Z Z) : stack_host :=
  StackHost (place_stack m) true None
    (replicate 16 (PTransfer 1)) (replicate 16 7) 1000 1000 100 100 4096 [text "HOME=/"].
Definition boot1 : boot_host :=
  BootHost (inr (chars "/emu")) 4096 true true ElfLoaderExamples.host1 stack_at (Some (chars "/r")) false false
    false (fun _ a _ => MmapAt a) None None None.

Lemma boot1_ok : boot_host_ok 4096 fs boot1.
Proof.
  split.
  - exact ElfLoaderExamples.host1_ok.
  - by vm_compute.
  - intros m a Ha. change (place_stack m = MmapAt a) in Ha. unfold place_stack in Ha.
    case_decide as Hfree; [|done]. injection Ha as <-. split; [by vm_compute|]. intros x Hx.
    destruct (m !! x) eqn:Ex; [|done]. apply Hfree in Ex. by rewrite Ex in Hx.
  - intros m. change (sk_random_steps (bh_stack boot1 m)) with (replicate 16 (PTransfer 1)).
    cbn [replicate]. do 16 rewrite filter_cons_True by discriminate. cbn [length]. lia.
  - intros ps. apply resolves_without_links. intros path. discriminate.
Qed.

Definition start : loader := Loader (GuestMemory [] 0 0 0 0 []) [] ∅ None 0.

Lemma start_fresh : fresh start.
Proof. split_and!; try reflexivity. apply map_Forall_empty. Qed.

Definition argv : list (list ascii) := [chars "emu"; chars "/p"; chars "x"].
Definition command1 : command := Command (Some (chars "/r")) None (chars "/p") [chars "/p"; chars "x"].
Definition ps1 : path_state := PathState (chars "/r") (chars "/").

Lemma command_parsed : parse_command argv (bh_root boot1) = Some command1.
Proof. vm_compute. reflexivity. Qed.
Lemma paths_start : boot_paths 4096 fs command1 (PathState [] (chars "/")) = Some (Some ps1).
Proof. vm_compute. reflexivity. Qed.

Definition image1 : guest_image := GuestImage 0x20000074 0x60000054 0x60000000 0x20000034 32 2 0x200000c8.

Definition summary (o : option (option guest_image * loader)) : option (option guest_image * list runtime_mapping * bool) :=
  match o with
  | Some (r, st) => Some (r, runtime_mappings (ld_memory st), bool_decide (stack_range_free (ld_bytes st)))
  | None => None
  end.
Definition initialized : loader := Loader (GuestMemory [] 4096 0 0 0 []) [] ∅ None 0.
Definition loading : option (option guest_image * loader) :=
  load_guest_image (bh_loader boot1) 4096 fs ps1 (chars "/p") initialized.

(** The program and its interpreter are loaded; the place of the stack is free. *)
Lemma program_loads :
  exists st, loading = Some (Some image1, st) /\ runtime_mappings (ld_memory st) = [] /\
    stack_range_free (ld_bytes st).
Proof.
  assert (Hl : summary loading = Some (Some image1, [], true)) by (vm_compute; reflexivity).
  destruct loading as [[r st]|]; [|discriminate]. injection Hl as -> Hm Hf. exists st.
  split_and!; [done..|]. by apply bool_decide_eq_true in Hf.
Qed.

(** Whatever is in memory, there is room for the arguments. *)
Lemma stack_filled m m' : exists m'',
  fill_stack (stack_at m) image1 (map bytes_of [chars "/p"; chars "x"]) m' 0x40000000 =
    Some (Ok (0x400fff50, m'')).
Proof.
  assert (Hs : match fill_stack (stack_at m) image1 (map bytes_of [chars "/p"; chars "x"]) m' 0x40000000 with
               | Some (Ok (sp, _)) => sp = 0x400fff50 | _ => False end) by (vm_compute; reflexivity).
  destruct (fill_stack _ _ _ _ _) as [[[sp m'']|]|]; [|done..]. rewrite Hs. by exists m''.
Qed.

(** So [main] enters the guest. *)
Lemma guest_enters : exists registers image st',
  main 4096 fs boot1 argv (PathState [] (chars "/")) start (replicate 16 5) =
    Some (Enters registers image 0x400fff50 st').
Proof.
  unfold main. rewrite command_parsed. cbn [bh_realpath boot1]. rewrite paths_start.
  destruct program_loads as (st & El & Hm & Hf). unfold loading in El. unfold boot_guest.
  cbn [bh_thread_initialize negb bh_page_size bh_install_traps bh_testing boot1].
  replace (guest_memory_initialize (ld_memory start) 4096) with (Ok tt, ld_memory initialized)
    by (vm_compute; reflexivity).
  change (Loader (ld_memory initialized) (ld_patches start) (ld_bytes start) (ld_errno start) (ld_clock start))
    with initialized.
  cbn [cm_load_path command1]. rewrite El, Hm. unfold create_guest_stack.
  cbn [cm_argv command1 map bh_stack boot1 sk_mmap stack_at]. unfold place_stack. rewrite decide_True by done.
  destruct (stack_filled (ld_bytes st) (mem_zero (ld_bytes st) 0x40000000 GUEST_STACK_SIZE)) as [m'' Hs].
  cbn [map] in Hs. rewrite Hs. do 3 eexists. reflexivity.
Qed.

Lemma main_correct_witness : exists registers image st1 st',
  main 4096 fs boot1 argv (PathState [] (chars "/")) start (replicate 16 5) =
    Some (Enters registers image 0x400fff50 st') /\
  guest_started 4096 fs boot1 command1 ps1 registers image 0x400fff50 st1 st'.
Proof.
  pose proof (main_correct 4096 fs boot1 argv (PathState [] (chars "/")) start (replicate 16 5) boot1_ok
    start_fresh eq_refl) as Hm.
  destruct guest_enters as (registers & image & st' & E). rewrite E, command_parsed in Hm.
  destruct Hm as (ps' & st1 & Hps & Hg). rewrite paths_start in Hps. injection Hps as <-.
  exists registers, image, st1, st'. split; [exact E|exact Hg].
Defined.
End BootExamples.
