(* ===== verification/Termios.v ===== *)
(** * Terminals: [src/src/linux_termios.c]

    The translation of [struct termios] between the guest's layout and the host's,
    and [linux_ioctl].  The host's [termios.h] is a parameter: the numbers of its
    macros and the three speed functions. *)

From S2P Require Import Prelude Errno Bytes Abi.
Open Scope Z_scope.

Definition LINUX_TCGETS : Z := 0x5401.
Definition LINUX_TCSETS : Z := 0x5402.
Definition LINUX_TCSETSW : Z := 0x5403.
Definition LINUX_TCSETSF : Z := 0x5404.
Definition LINUX_TIOCGPGRP : Z := 0x540f.
Definition LINUX_TIOCSPGRP : Z := 0x5410.
Definition LINUX_TIOCGWINSZ : Z := 0x5413.
Definition LINUX_TIOCSWINSZ : Z := 0x5414.
Definition LINUX_FIONREAD : Z := 0x541b.
Definition LINUX_FIONBIO : Z := 0x5421.
Definition QNX_DISABLED_CHARACTER : Z := 0xff.

(** [struct linux_termios], 36 bytes. *)
Record linux_termios := LinuxTermios {
  lt_input : Z; lt_output : Z; lt_control : Z; lt_local : Z;
  lt_line : Z; lt_characters : list Z }.

(** The host's [struct termios]. *)
Record host_termios := HostAttributes {
  c_iflag : Z; c_oflag : Z; c_cflag : Z; c_lflag : Z; c_cc : list Z;
  c_ispeed : Z; c_ospeed : Z }.

Class HostTermios := {
  VINTR : nat; VQUIT : nat; VERASE : nat; VKILL : nat; VEOF : nat; VTIME : nat;
  VMIN : nat; VSWTCH : nat; VSTART : nat; VSTOP : nat; VSUSP : nat; VEOL : nat;
  VREPRINT : nat; VDISCARD : nat; VWERASE : nat; VLNEXT : nat; VEOL2 : nat;
  B0 : Z; B50 : Z; B75 : Z; B110 : Z; B134 : Z; B150 : Z; B200 : Z; B300 : Z;
  B600 : Z; B1200 : Z; B1800 : Z; B2400 : Z; B4800 : Z; B9600 : Z; B19200 : Z;
  B38400 : Z; B57600 : Z; B115200 : Z;
  cfgetispeed : host_termios -> Z;
  cfgetospeed : host_termios -> Z;
  cfsetispeed : Z -> host_termios -> errno + host_termios;
  cfsetospeed : Z -> host_termios -> errno + host_termios }.

Inductive set_action : Set := TCSANOW | TCSADRAIN | TCSAFLUSH.

(** What the host answers for the descriptor of a call. *)
Record tty_host := TtyHost {
  th_tcgetattr : errno + host_termios;
  th_tcsetattr : option errno;
  th_getwinsize : errno + list Z;
  th_setwinsize : option errno;
  th_fionread : errno + Z;
  th_getfl : errno + Z;
  th_setfl : option errno;
  th_tcgetpgrp : errno + Z;
  th_tcsetpgrp : option errno }.

(** The calls that change the device. *)
Inductive tty_call : Type :=
| SetAttributes (action : set_action) (attributes : host_termios)
| SetWindow (window : list Z)
| SetFlags (flags : Z)
| SetForeground (group : Z).

Section termios.
Context `{!HostErrno} `{!HostOpen} `{!HostTermios}.

Definition linux_cc : list nat :=
  [VINTR; VQUIT; VERASE; VKILL; VEOF; VTIME; VMIN; VSWTCH; VSTART; VSTOP; VSUSP; VEOL;
   VREPRINT; VDISCARD; VWERASE; VLNEXT; VEOL2].

Definition rates : list Z :=
  [B0; B50; B75; B110; B134; B150; B200; B300; B600; B1200; B1800; B2400; B4800; B9600;
   B19200; B38400].

(** The loop over [rates], from the index [i] on. *)
Fixpoint find_rate (speed : Z) (rates : list Z) (i : Z) : option Z :=
  match rates with
  | [] => None
  | r :: rates => if speed =? r then Some i else find_rate speed rates (i + 1)
  end.

Definition speed_to_linux (speed : Z) : Z :=
  match find_rate speed rates 0 with
  | Some i => i
  | None => if speed =? B57600 then 0x1001
            else if speed =? B115200 then 0x1002 else 15
  end.

Definition linux_to_speed (control : Z) : option Z :=
  let encoded := control .& 0x100f in
  if encoded <? Z.of_nat (length rates) then rates !! Z.to_nat encoded
  else if encoded =? 0x1001 then Some B57600
  else if encoded =? 0x1002 then Some B115200
  else None.

(** Entries 5 and 6 are the time and the minimum, not characters. *)
Definition counts (i : nat) : bool := (i =? 5)%nat || (i =? 6)%nat.

Definition to_linux_character (i : nat) (host : Z) : Z :=
  if negb (counts i) && (host =? QNX_DISABLED_CHARACTER) then 0 else host.
Definition to_host_character (i : nat) (guest : Z) : Z :=
  if negb (counts i) && (guest =? 0) then QNX_DISABLED_CHARACTER else guest.

(** The two loops over [linux_cc], from the index [i] on. *)
Fixpoint get_characters (i : nat) (indices : list nat) (cc : list Z) : list Z :=
  match indices with
  | [] => []
  | k :: indices => to_linux_character i (nth k cc 0) :: get_characters (S i) indices cc
  end.
Fixpoint set_characters (i : nat) (indices : list nat) (characters cc : list Z) : list Z :=
  match indices with
  | [] => cc
  | k :: indices =>
    set_characters (S i) indices characters (<[k := to_host_character i (nth i characters 0)]> cc)
  end.

Definition termios_to_linux (host : host_termios) : linux_termios :=
  LinuxTermios (u32 (c_iflag host) .& 0x3fff) (u32 (c_oflag host) .& 0xffff)
    ((u32 (c_cflag host) .& 0xff0) .| speed_to_linux (cfgetospeed host))
    (u32 (c_lflag host) .& 0x8fff) 0 (get_characters 0 linux_cc (c_cc host) ++ [0; 0]).

(** The negative result of the call, or the attributes it builds. *)
Definition termios_from_linux (guest : linux_termios) (host : host_termios) : Z + host_termios :=
  match linux_to_speed (lt_control guest) with
  | None => inl (host_negative EINVAL)
  | Some speed =>
    let host := HostAttributes (lt_input guest .& 0x3fff) (lt_output guest .& 0xffff)
      (lt_control guest .& 0xff0) (lt_local guest .& 0x8fff)
      (set_characters 0 linux_cc (lt_characters guest) (c_cc host)) (c_ispeed host) (c_ospeed host) in
    match cfsetispeed speed host with
    | inl e => inl (linux_error e)
    | inr host =>
      match cfsetospeed speed host with
      | inl e => inl (linux_error e)
      | inr host => inr host
      end
    end
  end.

(** The structure as the guest's memory holds it. *)
Definition termios_store (g : linux_termios) : list Z :=
  le_bytes 4 (lt_input g) ++ le_bytes 4 (lt_output g) ++ le_bytes 4 (lt_control g) ++
  le_bytes 4 (lt_local g) ++ [lt_line g] ++ lt_characters g.
Definition termios_load (b : list Z) : linux_termios :=
  LinuxTermios (load_le 4 0 b) (load_le 4 4 b) (load_le 4 8 b) (load_le 4 12 b)
    (nth 16 b 0) (take 19 (drop 17 b)).

Definition termios_get (host : tty_host) (argument : Z) (m : gmap Z Z) : Z * gmap Z Z :=
  if argument =? 0 then (host_negative EFAULT, m)
  else match th_tcgetattr host with
  | inl e => (linux_error e, m)
  | inr attributes => (0, mem_store m argument (termios_store (termios_to_linux attributes)))
  end.

(** [None] is a fault. *)
Definition termios_set (host : tty_host) (request argument : Z) (m : gmap Z Z)
  : option (Z * list tty_call) :=
  let action := if request =? LINUX_TCSETS then TCSANOW
                else if request =? LINUX_TCSETSW then TCSADRAIN else TCSAFLUSH in
  if argument =? 0 then Some (host_negative EFAULT, [])
  else match th_tcgetattr host with
  | inl e => Some (linux_error e, [])
  | inr attributes =>
    match mem_load m argument 36 with
    | None => None
    | Some bytes =>
      match termios_from_linux (termios_load bytes) attributes with
      | inl result => Some (result, [])
      | inr attributes =>
        Some (match th_tcsetattr host with None => 0 | Some e => linux_error e end,
              [SetAttributes action attributes])
      end
    end
  end.

(** [linux_ioctl]: the result, the memory and the calls that change the device. *)
Definition linux_ioctl (host : tty_host) (request guest_argument : Z) (m : gmap Z Z)
  : option (Z * gmap Z Z * list tty_call) :=
  let fault := Some (host_negative EFAULT, m, []) in
  let store_answer (answer : errno + list Z) :=
    if guest_argument =? 0 then fault
    else match answer with
    | inl e => Some (linux_error e, m, [])
    | inr bytes => Some (0, mem_store m guest_argument bytes, [])
    end in
  let status (e : option errno) := match e with None => 0 | Some e => linux_error e end in
  if request =? LINUX_TCGETS then Some (termios_get host guest_argument m, [])
  else if (request =? LINUX_TCSETS) || (request =? LINUX_TCSETSW) || (request =? LINUX_TCSETSF) then
    match termios_set host request guest_argument m with
    | Some (result, calls) => Some (result, m, calls)
    | None => None
    end
  else if request =? LINUX_TIOCGWINSZ then store_answer (th_getwinsize host)
  else if request =? LINUX_TIOCSWINSZ then
    if guest_argument =? 0 then fault
    else match mem_load m guest_argument 8 with
    | None => None
    | Some window => Some (status (th_setwinsize host), m, [SetWindow window])
    end
  else if request =? LINUX_FIONREAD then
    store_answer (match th_fionread host with inl e => inl e | inr v => inr (le_bytes 4 v) end)
  else if request =? LINUX_FIONBIO then
    if guest_argument =? 0 then fault
    else match load32 m guest_argument with
    | None => None
    | Some requested =>
      match th_getfl host with
      | inl e => Some (linux_error e, m, [])
      | inr value =>
        let value := if negb (requested =? 0) then value .| O_NONBLOCK
                     else value .&~ O_NONBLOCK in
        Some (status (th_setfl host), m, [SetFlags value])
      end
    end
  else if request =? LINUX_TIOCGPGRP then
    store_answer (match th_tcgetpgrp host with inl e => inl e | inr v => inr (le_bytes 4 v) end)
  else if request =? LINUX_TIOCSPGRP then
    if guest_argument =? 0 then fault
    else match load32 m guest_argument with
    | None => None
    | Some value => Some (status (th_tcsetpgrp host), m, [SetForeground (s32 value)])
    end
  else Some (host_negative ENOTTY, m, []).
End termios.

(** What the host's header and its speed functions guarantee. *)
Class HostTermiosOk `{!HostTermios} (NCCS : nat) : Prop := {
  cc_distinct : NoDup linux_cc;
  cc_bound : Forall (fun k => (k < NCCS)%nat) linux_cc;
  rates_distinct : NoDup (rates ++ [B57600; B115200]);
  cfsetispeed_ok speed t : speed ∈ rates ++ [B57600; B115200] ->
    exists t', cfsetispeed speed t = inr t' /\
      c_iflag t' = c_iflag t /\ c_oflag t' = c_oflag t /\ c_cflag t' = c_cflag t /\
      c_lflag t' = c_lflag t /\ c_cc t' = c_cc t /\ cfgetispeed t' = speed;
  cfsetospeed_ok speed t : speed ∈ rates ++ [B57600; B115200] ->
    exists t', cfsetospeed speed t = inr t' /\
      c_iflag t' = c_iflag t /\ c_oflag t' = c_oflag t /\ c_cflag t' = c_cflag t /\
      c_lflag t' = c_lflag t /\ c_cc t' = c_cc t /\ cfgetospeed t' = speed /\
      cfgetispeed t' = cfgetispeed t }.

Section properties.
Context `{!HostErrno} `{!HostOpen} `{!HostTermios} {NCCS : nat} `{!HostTermiosOk NCCS}.

(** ** Speeds *)

Lemma find_rate_None s l i : s ∉ l -> find_rate s l i = None.
Proof.
  revert i. induction l as [|r l IH]; intros i Hs; simpl; [done|].
  apply not_elem_of_cons in Hs as [Hne Hs]. cond; bprop; [done|]. by apply IH.
Qed.

Lemma find_rate_Some s l i n : NoDup l -> l !! n = Some s -> find_rate s l i = Some (i + Z.of_nat n).
Proof.
  intros Hnd. revert i n. induction Hnd as [|r l Hr _ IH]; intros i [|n] Hn; simplify_eq/=.
  - rewrite Z.eqb_refl. f_equal. lia.
  - cond; bprop; [|rewrite (IH _ n) by done; f_equal; lia].
    subst. by apply list_elem_of_lookup_2 in Hn.
Qed.

(** Every speed the guest can name comes back as the same code. *)
Lemma speed_roundtrip control speed :
  linux_to_speed control = Some speed ->
  speed ∈ rates ++ [B57600; B115200] /\ speed_to_linux speed = control .& 0x100f.
Proof.
  unfold linux_to_speed, speed_to_linux. pose proof (land_bound_r control 0x100f) as Hr.
  set (encoded := control .& 0x100f) in *.
  pose proof rates_distinct as Hd. apply NoDup_app in Hd as (Hd1 & Hx & Hd2).
  cond; [|cond; [|cond; [|done]]]; bprop; intros Hs.
  - rewrite (find_rate_Some _ _ 0 _ Hd1 Hs). split; [|lia].
    apply elem_of_app. left. by eapply list_elem_of_lookup_2.
  - injection Hs as <-. split; [apply elem_of_app; right; left|].
    rewrite find_rate_None, Z.eqb_refl; [done|]. intros Hin. apply (Hx _ Hin). left.
  - injection Hs as <-. split; [apply elem_of_app; right; right; left|].
    rewrite find_rate_None; [|intros Hin; apply (Hx _ Hin); right; left].
    apply NoDup_cons in Hd2 as [Hne _]. cond; bprop; [|by rewrite Z.eqb_refl].
    exfalso. apply Hne. rewrite E2. left.
Qed.

(** Every speed of the table is decoded from its code. *)
Lemma speed_decoded speed :
  speed ∈ rates ++ [B57600; B115200] ->
  linux_to_speed (speed_to_linux speed) = Some speed /\
  speed_to_linux speed .& 0x100f = speed_to_linux speed.
Proof.
  intros Hin. pose proof rates_distinct as Hd. apply NoDup_app in Hd as (Hd1 & Hx & Hd2).
  apply elem_of_app in Hin as [Hin|Hin].
  - apply list_elem_of_lookup in Hin as [n Hn]. unfold speed_to_linux.
    rewrite (find_rate_Some _ _ 0 n Hd1 Hn). pose proof (lookup_lt_Some _ _ _ Hn) as Hlt.
    change (length rates) with 16%nat in Hlt.
    assert ((0 + Z.of_nat n) .& 0x100f = 0 + Z.of_nat n) as He
      by (do 16 (destruct n as [|n]; [reflexivity|]); lia).
    split; [|done]. unfold linux_to_speed. rewrite He.
    rewrite (proj2 (Z.ltb_lt _ _)) by (simpl; lia). rewrite <- Hn. f_equal. lia.
  - unfold speed_to_linux. rewrite find_rate_None by (intros Hr; by apply (Hx _ Hr)).
    apply NoDup_cons in Hd2 as [Hne _].
    apply elem_of_cons in Hin as [->|Hin]; [by rewrite Z.eqb_refl|].
    apply list_elem_of_singleton in Hin as ->. rewrite Z.eqb_refl.
    cond; bprop; [|done]. exfalso. apply Hne. rewrite E. left.
Qed.

(** ** Characters *)

Lemma set_characters_out i indices chars cc k :
  k ∉ indices -> nth k (set_characters i indices chars cc) 0 = nth k cc 0.
Proof.
  revert i cc. induction indices as [|j indices IH]; intros i cc Hk; simpl; [done|].
  apply not_elem_of_cons in Hk as [Hne Hk]. rewrite IH, nth_insert_ne; done.
Qed.

Lemma character_normal i c :
  to_linux_character i (to_host_character i c) = to_linux_character i c.
Proof.
  unfold to_linux_character, to_host_character. destruct (counts i); simpl; [done|].
  destruct (c =? 0) eqn:E; bprop; [by subst|done].
Qed.

(** The guest reads back the characters it wrote, a disabled one as zero. *)
Lemma characters_roundtrip i indices chars cc :
  NoDup indices -> Forall (fun k => (k < length cc)%nat) indices ->
  get_characters i indices (set_characters i indices chars cc) =
  map (fun j => to_linux_character j (nth j chars 0)) (seq i (length indices)).
Proof.
  intros Hnd. revert i cc. induction Hnd as [|k indices Hk _ IH]; intros i cc Hb; simpl; [done|].
  apply Forall_cons in Hb as [Hk' Hb]. f_equal.
  - rewrite set_characters_out, nth_insert_eq by done. apply character_normal.
  - apply IH. by rewrite length_insert.
Qed.

Lemma nth_get_characters i indices cc j :
  (j < length indices)%nat ->
  nth j (get_characters i indices cc) 0 = to_linux_character (i + j) (nth (nth j indices 0%nat) cc 0).
Proof.
  revert i j. induction indices as [|k indices IH]; intros i [|j] Hj; simpl in *; [lia..| |].
  - by rewrite Nat.add_0_r.
  - rewrite IH by lia. by rewrite Nat.add_succ_comm.
Qed.

Lemma length_get_characters i indices cc : length (get_characters i indices cc) = length indices.
Proof. revert i. induction indices as [|k indices IH]; intros i; simpl; [done|]. by rewrite IH. Qed.

(** Writing back the characters that were read changes nothing, when no character
    of the host is zero. *)
Lemma characters_identity i indices chars cc :
  (forall j, (j < length indices)%nat ->
     nth (i + j) chars 0 = to_linux_character (i + j) (nth (nth j indices 0%nat) cc 0) /\
     (nth j indices 0 < length cc)%nat /\
     (nth (nth j indices 0%nat) cc 0 <> 0 \/ counts (i + j) = true)) ->
  set_characters i indices chars cc = cc.
Proof.
  revert i. induction indices as [|k indices IH]; intros i Hall; simpl; [done|].
  destruct (Hall 0%nat) as (Hc & Hk & Hz); [simpl; lia|]. simpl in *. rewrite Nat.add_0_r in *.
  assert (to_host_character i (nth i chars 0) = nth k cc 0) as ->.
  { rewrite Hc. unfold to_host_character, to_linux_character.
    destruct (counts i) eqn:Ec; simpl; [done|]. destruct (_ =? QNX_DISABLED_CHARACTER) eqn:E; bprop; simpl; [done|].
    cond; bprop; [|done]. by destruct Hz. }
  assert (<[k := nth k cc 0]> cc = cc) as ->.
  { apply list_insert_id. rewrite nth_lookup.
    by destruct (lookup_lt_is_Some_2 cc k Hk) as [v ->]. }
  apply IH. intros j Hj. specialize (Hall (S j) ltac:(lia)).
  by rewrite Nat.add_succ_comm.
Qed.

(** ** Structures *)

#[local] Arguments get_characters : simpl never.
#[local] Arguments set_characters : simpl never.

Lemma land_mask_twice x m : 0 <= m <= UINTPTR_MAX -> u32 (x .& m) .& m = x .& m.
Proof.
  intros Hm. pose proof (land_bound_r x m ltac:(lia)).
  rewrite u32_small by (unfold is_u32; lia). by rewrite <- Z.land_assoc, Z.land_diag.
Qed.

Lemma control_join c : (c .& 0xff0) .| (c .& 0x100f) = c .& 0x1fff.
Proof. by rewrite <- Z.land_lor_distr_r. Qed.

Lemma control_flags c e : e .& 0x100f = e -> (c .& 0xff0 .| e) .& 0xff0 = c .& 0xff0.
Proof.
  intros <-. rewrite Z.land_lor_distr_l, <- !Z.land_assoc. simpl. by rewrite Z.land_0_r, Z.lor_0_r.
Qed.

Lemma control_speed c e : e .& 0x100f = e -> (c .& 0xff0 .| e) .& 0x100f = e.
Proof.
  intros He. rewrite Z.land_lor_distr_l, <- Z.land_assoc, He. simpl.
  by rewrite Z.land_0_r, Z.lor_0_l.
Qed.

(** What the guest reads back of the structure it has set. *)
Definition normal_termios (g : linux_termios) : linux_termios :=
  LinuxTermios (lt_input g .& 0x3fff) (lt_output g .& 0xffff) (lt_control g .& 0x1fff)
    (lt_local g .& 0x8fff) 0
    (map (fun j => to_linux_character j (nth j (lt_characters g) 0)) (seq 0 17) ++ [0; 0]).

(** The attributes that [termios_from_linux] builds. *)
Lemma termios_from_linux_ok g h speed :
  linux_to_speed (lt_control g) = Some speed ->
  exists h', termios_from_linux g h = inr h' /\ cfgetispeed h' = speed /\ cfgetospeed h' = speed /\
    c_iflag h' = lt_input g .& 0x3fff /\ c_oflag h' = lt_output g .& 0xffff /\
    c_cflag h' = lt_control g .& 0xff0 /\ c_lflag h' = lt_local g .& 0x8fff /\
    c_cc h' = set_characters 0 linux_cc (lt_characters g) (c_cc h).
Proof.
  intros Hs. unfold termios_from_linux. rewrite Hs. apply speed_roundtrip in Hs as [Hin _].
  edestruct (cfsetispeed_ok speed) as (h1 & -> & Ha); [done|].
  edestruct (cfsetospeed_ok speed h1) as (h2 & -> & Hb); [done|].
  exists h2. simpl in *. split; [done|]. destruct Ha as (<-&<-&<-&<-&<-&<-). tauto.
Qed.

(** A structure the guest sets is either refused with [EINVAL], exactly when
    its speed code is none of the table, or the guest reads back the flags within
    the supported masks, the same speed and the same characters, disabled ones as
    zero. *)
Theorem termios_set_get (g : linux_termios) (h : host_termios) :
  length (c_cc h) = NCCS ->
  match linux_to_speed (lt_control g) with
  | None => termios_from_linux g h = inl (host_negative EINVAL)
  | Some _ => exists h', termios_from_linux g h = inr h' /\ termios_to_linux h' = normal_termios g
  end.
Proof.
  intros Hcc. destruct (linux_to_speed (lt_control g)) as [speed|] eqn:Es;
    [|by unfold termios_from_linux; rewrite Es].
  destruct (termios_from_linux_ok g h speed Es) as (h' & -> & _ & Ho & Hi & Hou & Hc & Hl & Hch).
  exists h'. split; [done|]. apply speed_roundtrip in Es as [_ Es].
  unfold termios_to_linux, normal_termios. rewrite Ho, Hi, Hou, Hc, Hl, Hch, Es.
  rewrite !land_mask_twice by (vm_compute; split; discriminate). rewrite control_join.
  do 2 f_equal. apply characters_roundtrip; [apply cc_distinct|]. rewrite Hcc. apply cc_bound.
Qed.

(** Attributes the guest's structure can describe: flags within the masks, a speed
    of the table, and no character that is zero. *)
Record describable (h : host_termios) : Prop := {
  ds_flags : u32 (c_iflag h) .& 0x3fff = c_iflag h /\ u32 (c_oflag h) .& 0xffff = c_oflag h /\
    u32 (c_cflag h) .& 0xff0 = c_cflag h /\ u32 (c_lflag h) .& 0x8fff = c_lflag h;
  ds_speed : cfgetospeed h ∈ rates ++ [B57600; B115200];
  ds_cc : length (c_cc h) = NCCS;
  ds_bytes : Forall is_byte (c_cc h);
  ds_characters : forall i k, linux_cc !! i = Some k -> counts i = false -> nth k (c_cc h) 0 <> 0 }.

(** The attributes after a save and a restore: all as before, but that the input
    speed is the output speed, the only one the guest's structure has. *)
Definition restored (h h' : host_termios) : Prop :=
  c_iflag h' = c_iflag h /\ c_oflag h' = c_oflag h /\ c_cflag h' = c_cflag h /\
  c_lflag h' = c_lflag h /\ c_cc h' = c_cc h /\ cfgetospeed h' = cfgetospeed h /\
  cfgetispeed h' = cfgetospeed h.

Lemma termios_get_set_same h :
  describable h ->
  exists h', termios_from_linux (termios_to_linux h) h = inr h' /\ restored h h'.
Proof.
  intros [(Hf1 & Hf2 & Hf3 & Hf4) Hsp Hcc _ Hch].
  pose proof (speed_decoded _ Hsp) as [Hdec Hcode].
  edestruct (termios_from_linux_ok (termios_to_linux h) h (cfgetospeed h)) as (h' & -> & H').
  { rewrite <- Hdec. unfold linux_to_speed. simpl. by rewrite control_speed, Hcode. }
  exists h'. split; [done|]. destruct H' as (His & Ho & Hi & Hou & Hc & Hl & Hcc').
  cbn [termios_to_linux lt_input lt_output lt_control lt_local lt_characters] in *.
  rewrite control_flags in Hc by done. unfold restored.
  rewrite Hi, Hou, Hc, Hl, Hcc', Ho, His, <- !Z.land_assoc, !Z.land_diag. split_and!; try done.
  apply characters_identity. intros j Hj. change (0 + j)%nat with j.
  destruct (lookup_lt_is_Some_2 linux_cc j Hj) as [k Hk].
  assert (nth j linux_cc 0%nat = k) as Hnk by (by rewrite nth_lookup, Hk).
  rewrite app_nth1; [rewrite nth_get_characters by done|].
  - split_and!; [done|rewrite Hnk, Hcc|rewrite Hnk].
    + by eapply (proj1 (Forall_lookup _ _) cc_bound).
    + destruct (counts j) eqn:Ec; [by right|left]. by eapply Hch.
  - by rewrite length_get_characters.
Qed.

(** The structure in memory. *)
Lemma load_le_head n v rest : 0 <= v < 2 ^ (8 * Z.of_nat n) -> load_le n 0 (le_bytes n v ++ rest) = v.
Proof.
  intros Hv. unfold load_le. rewrite drop_0, take_app_length' by (by rewrite length_le_bytes).
  by apply le_value_bytes_small.
Qed.

Lemma load_le_skip n k v rest off : load_le n (k + off) (le_bytes k v ++ rest) = load_le n off rest.
Proof.
  unfold load_le. rewrite <- drop_drop, drop_app_length' by (by rewrite length_le_bytes). done.
Qed.

Lemma termios_load_store g :
  is_u32 (lt_input g) -> is_u32 (lt_output g) -> is_u32 (lt_control g) -> is_u32 (lt_local g) ->
  length (lt_characters g) = 19%nat -> termios_load (termios_store g) = g.
Proof.
  unfold is_u32, UINTPTR_MAX. intros Hi Ho Hc Hl Hn. destruct g as [i o c l line chars]; simpl in *.
  assert (forall v, 0 <= v <= 4294967295 -> 0 <= v < 2 ^ (8 * Z.of_nat 4)) as Hr by (intros; lia).
  unfold termios_load, termios_store; simpl lt_input; simpl lt_output; simpl lt_control;
    simpl lt_local; simpl lt_line; simpl lt_characters.
  f_equal.
  - apply load_le_head. auto.
  - rewrite (load_le_skip 4 4 _ _ 0). apply load_le_head. auto.
  - rewrite (load_le_skip 4 4 _ _ 4), (load_le_skip 4 4 _ _ 0). apply load_le_head. auto.
  - rewrite (load_le_skip 4 4 _ _ 8), (load_le_skip 4 4 _ _ 4), (load_le_skip 4 4 _ _ 0).
    apply load_le_head. auto.
  - rewrite !app_assoc, drop_app_length' by (rewrite !length_app, !length_le_bytes; done).
    rewrite <- Hn. apply firstn_all.
Qed.

Lemma termios_to_linux_wf h :
  describable h -> let g := termios_to_linux h in
  is_u32 (lt_input g) /\ is_u32 (lt_output g) /\ is_u32 (lt_control g) /\ is_u32 (lt_local g) /\
  length (lt_characters g) = 19%nat.
Proof.
  intros [_ Hsp _ _ _]. pose proof (speed_decoded _ Hsp) as [_ Hcode]. unfold is_u32, UINTPTR_MAX. simpl.
  assert (forall x m, 0 <= m <= 4294967295 -> 0 <= x .& m <= 4294967295) as Hm.
  { intros x m Hm. pose proof (land_bound_r x m ltac:(lia)). lia. }
  assert (forall x, (x .& 0xff0 .| speed_to_linux (cfgetospeed h)) .& 0x1fff =
            x .& 0xff0 .| speed_to_linux (cfgetospeed h)) as Hc.
  { intros x. rewrite <- Hcode, Z.land_lor_distr_l, <- !Z.land_assoc. done. }
  repeat split; try (apply Hm; lia); try (rewrite <- Hc; apply Hm; lia).
Qed.

Lemma length_termios_store g :
  length (lt_characters g) = 19%nat -> length (termios_store g) = 36%nat.
Proof. intros Hn. unfold termios_store. rewrite !length_app, !length_le_bytes, Hn. done. Qed.

(** The branches of [linux_ioctl] for the attributes. *)
Lemma ioctl_tcgets host a m : linux_ioctl host LINUX_TCGETS a m = Some (termios_get host a m, []).
Proof. reflexivity. Qed.

Lemma ioctl_tcsets host request a m :
  request ∈ [LINUX_TCSETS; LINUX_TCSETSW; LINUX_TCSETSF] ->
  linux_ioctl host request a m =
  match termios_set host request a m with
  | Some (result, calls) => Some (result, m, calls)
  | None => None
  end.
Proof. intros [<-|[<-|[<-|[]]]]%list_elem_of_In; reflexivity. Qed.

(** C35: [TCGETS] followed by [TCSETS], [TCSETSW] or [TCSETSF] on the same structure.
    For attributes the structure can describe (flags within its masks, an output
    speed of the table, no enabled character that is zero) the host is asked to set,
    with the action the request names, the flags, the characters and the output speed
    the terminal had.  The input speed becomes the output speed: a terminal with one
    speed is restored, one with two is not.  Only the 36 bytes of the structure are
    written. *)
Theorem tcgets_tcsets_restores (host : tty_host) (h : host_termios) (action : set_action)
    (request argument : Z) (m : gmap Z Z) :
  th_tcgetattr host = inr h -> describable h -> argument <> 0 ->
  (request, action) ∈ [(LINUX_TCSETS, TCSANOW); (LINUX_TCSETSW, TCSADRAIN); (LINUX_TCSETSF, TCSAFLUSH)] ->
  exists m' h', linux_ioctl host LINUX_TCGETS argument m = Some (0, m', []) /\
    linux_ioctl host request argument m' = Some
      (match th_tcsetattr host with None => 0 | Some e => linux_error e end,
       m', [SetAttributes action h']) /\
    restored h h' /\ same_outside argument 36 m m'.
Proof.
  intros Hget Hds Ha Hreq. destruct (termios_get_set_same h Hds) as (h' & Hset & Hsame).
  pose proof (termios_to_linux_wf h Hds) as (Hi & Ho & Hc & Hl & Hn).
  pose proof (length_termios_store _ Hn) as Hlen.
  set (m' := mem_store m argument (termios_store (termios_to_linux h))).
  exists m', h'.
  assert (mem_load m' argument 36 = Some (termios_store (termios_to_linux h))) as Hload.
  { rewrite <- Hlen. apply mem_load_store. }
  assert ((argument =? 0) = false) as Ha' by (by apply Z.eqb_neq).
  split_and!; [| |done|].
  - rewrite ioctl_tcgets. unfold termios_get. by rewrite Ha', Hget.
  - rewrite ioctl_tcsets by (apply (list_elem_of_fmap_2 fst) in Hreq; exact Hreq).
    unfold termios_set. rewrite Ha', Hget, Hload, termios_load_store, Hset by done.
    clearbody m'. apply list_elem_of_In in Hreq.
    by destruct Hreq as [[= <- <-]|[[= <- <-]|[[= <- <-]|[]]]].
  - intros x Hx. apply mem_store_lookup_out. rewrite Hlen. unfold inside in Hx. blia.
Qed.
End properties.

(** ** A host: the tables of one header, and a terminal in its usual mode *)

Module TermiosExamples.
#[local] Existing Instance ExampleErrno.host_errno.
Definition host_termios_h : HostTermios := {|
  VINTR := 0; VQUIT := 1; VERASE := 2; VKILL := 3; VEOF := 4; VTIME := 17; VMIN := 16;
  VSWTCH := 7; VSTART := 8; VSTOP := 9; VSUSP := 10; VEOL := 5; VREPRINT := 12;
  VDISCARD := 13; VWERASE := 14; VLNEXT := 15; VEOL2 := 6;
  B0 := 0; B50 := 50; B75 := 75; B110 := 110; B134 := 134; B150 := 150; B200 := 200;
  B300 := 300; B600 := 600; B1200 := 1200; B1800 := 1800; B2400 := 2400; B4800 := 4800;
  B9600 := 9600; B19200 := 19200; B38400 := 38400; B57600 := 57600; B115200 := 115200;
  cfgetispeed := c_ispeed;
  cfgetospeed := c_ospeed;
  cfsetispeed speed t := inr (HostAttributes (c_iflag t) (c_oflag t) (c_cflag t) (c_lflag t)
    (c_cc t) speed (c_ospeed t));
  cfsetospeed speed t := inr (HostAttributes (c_iflag t) (c_oflag t) (c_cflag t) (c_lflag t)
    (c_cc t) (c_ispeed t) speed) |}.
#[local] Existing Instance host_termios_h.
#[local] Existing Instance example_open.

Lemma host_termios_ok : HostTermiosOk 40.
Proof.
  split.
  - apply (bool_decide_unpack _). by vm_compute.
  - apply (bool_decide_unpack _). by vm_compute.
  - apply (bool_decide_unpack _). by vm_compute.
  - intros speed t _. by eexists.
  - intros speed t _. by eexists.
Qed.

Definition cooked : host_termios :=
  HostAttributes 0x2502 5 0xbf0 0x8a3b
    ([3; 28; 127; 21; 4; 255; 255; 255; 17; 19; 26; 255; 18; 15; 23; 22; 1; 0] ++ replicate 22 0)
    115200 115200.

Lemma termios_set_get_witness :
  exists h', termios_from_linux (LinuxTermios 0x500 5 0x1cb2 0x8a3b 0 (replicate 19 9)) cooked = inr h' /\
    termios_to_linux h' = normal_termios (LinuxTermios 0x500 5 0x1cb2 0x8a3b 0 (replicate 19 9)).
Proof.
  exact (@termios_set_get _ _ 40 host_termios_ok
    (LinuxTermios 0x500 5 0x1cb2 0x8a3b 0 (replicate 19 9)) cooked eq_refl).
Defined.

Lemma cooked_describable : describable (NCCS := 40) cooked.
Proof.
  split; [by vm_compute|apply (bool_decide_unpack _); by vm_compute|done| |].
  - apply Forall_forall. intros c Hc. apply list_elem_of_In in Hc. unfold is_byte.
    repeat (destruct Hc as [<-|Hc]; [lia|]). done.
  - intros i k Hk. do 17 (destruct i as [|i]; [injection Hk as <-; vm_compute; done|]). done.
Qed.

Definition tty1 : tty_host :=
  TtyHost (inr cooked) None (inl ENOTTY) None (inr 0) (inr 2) None (inr 7) None.

Lemma tcgets_tcsets_witness :
  exists m' h', linux_ioctl tty1 LINUX_TCGETS 0x1000 ∅ = Some (0, m', []) /\
    linux_ioctl tty1 LINUX_TCSETSW 0x1000 m' = Some (0, m', [SetAttributes TCSADRAIN h']) /\
    restored cooked h' /\ same_outside 0x1000 36 ∅ m'.
Proof.
  apply (@tcgets_tcsets_restores _ _ _ 40 host_termios_ok tty1 cooked TCSADRAIN LINUX_TCSETSW 0x1000 ∅);
    [reflexivity|exact cooked_describable|discriminate|right; left].
Defined.

(** A guest that sets an unsupported speed is refused. *)
Example custom_speed_refused :
  termios_from_linux (LinuxTermios 0 0 0x1cb4 0 0 (replicate 19 0)) cooked = inl (-22).
Proof. vm_compute. reflexivity. Qed.
End TermiosExamples.
