(* ===== verification/Futex.v ===== *)
(** * Futexes: [src/src/linux_futex.c]

    The list of waiting threads and the operations on it, each of which runs
    with [futex_lock] held.  A wait is modelled as its two critical sections:
    entering (the value check and the enqueuing, which either returns at once
    or blocks on the waiter's semaphore) and leaving (the removal, after the
    semaphore wait has ended for whatever reason).  Between the two any other
    operations may run. *)

From S2P Require Import Prelude Errno Bytes.
Open Scope Z_scope.

Definition LINUX_FUTEX_WAIT : Z := 0.
Definition LINUX_FUTEX_WAKE : Z := 1.
Definition LINUX_FUTEX_REQUEUE : Z := 3.
Definition LINUX_FUTEX_CMP_REQUEUE : Z := 4.
Definition LINUX_FUTEX_WAIT_BITSET : Z := 9.
Definition LINUX_FUTEX_WAKE_BITSET : Z := 10.
Definition LINUX_FUTEX_PRIVATE_FLAG : Z := 128.
Definition LINUX_FUTEX_CLOCK_REALTIME : Z := 256.
Definition LINUX_FUTEX_CMD_MASK : Z := 127.
Definition LINUX_FUTEX_BITSET_MATCH_ANY : Z := 0xffffffff.

(** [struct futex_waiter]: [fw_id] is its address, [fw_posts] the number of
    [sem_post] calls on its semaphore that this file makes, those of wakes.  A signal
    that arrives posts the semaphore too ([PostSemaphore] of [GuestThread]): that ends
    the wait without being a wake, and is not counted here. *)
Record futex_waiter := Waiter {
  fw_id : Z; fw_address : Z; fw_bitset : Z; fw_woken : bool; fw_posts : nat }.

Definition wake_waiter (w : futex_waiter) : futex_waiter :=
  Waiter (fw_id w) (fw_address w) (fw_bitset w) true (S (fw_posts w)).
Definition move_waiter (a : Z) (w : futex_waiter) : futex_waiter :=
  Waiter (fw_id w) a (fw_bitset w) (fw_woken w) (fw_posts w).

Record timespec := Timespec { tv_sec : Z; tv_nsec : Z }.

(** What the host answers to the calls of one operation: errors of [sem_init]
    and [pthread_mutex_lock], and the clocks. *)
Record futex_host := FutexHost {
  sem_init_error : option errno;
  lock_error : option errno;
  clock_realtime : option timespec;
  clock_monotonic : option timespec }.

(** The outcome of a call: it returns, it blocks on a waiter that it has added
    to the list, until the deadline if there is one, or it reads unmapped
    memory. *)
Inductive futex_outcome : Set :=
| FReturn (value : Z)
| FBlock (deadline : option timespec)
| FFault.

(** The outer [option] is [None] on a fault; the inner one when -1 is returned. *)
Definition load_linux_timespec (m : gmap Z Z) (guest_timeout : Z) : option (option timespec) :=
  match load32 m guest_timeout, load32 m (guest_timeout + 4) with
  | Some v0, Some v1 =>
    if (s32 v0 <? 0) || (s32 v1 <? 0) || (1000000000 <=? s32 v1) then Some None
    else Some (Some (Timespec (s32 v0) (s32 v1)))
  | _, _ => None
  end.

(** The carry at the end of both deadline computations. *)
Definition carry (t : timespec) : timespec :=
  if 1000000000 <=? tv_nsec t then Timespec (tv_sec t + 1) (tv_nsec t - 1000000000) else t.

Definition relative_deadline (host : futex_host) (m : gmap Z Z) (guest_timeout : Z)
  : option (option timespec) :=
  match load_linux_timespec m guest_timeout with
  | Some (Some relative) =>
    match clock_realtime host with
    | None => Some None
    | Some now => Some (Some (carry (Timespec (tv_sec now + tv_sec relative)
                                              (tv_nsec now + tv_nsec relative))))
    end
  | other => other
  end.

Definition absolute_deadline (host : futex_host) (m : gmap Z Z) (guest_timeout : Z)
    (realtime : bool) : option (option timespec) :=
  match load_linux_timespec m guest_timeout with
  | Some (Some guest) =>
    if realtime then Some (Some guest)
    else match clock_monotonic host, clock_realtime host with
    | Some mono, Some real =>
      if (tv_sec guest <? tv_sec mono) ||
         ((tv_sec guest =? tv_sec mono) && (tv_nsec guest <=? tv_nsec mono))
      then Some (Some real)
      else
        let seconds := tv_sec guest - tv_sec mono in
        let nanoseconds := tv_nsec guest - tv_nsec mono in
        let '(seconds, nanoseconds) :=
          if nanoseconds <? 0 then (seconds - 1, nanoseconds + 1000000000)
          else (seconds, nanoseconds) in
        Some (Some (carry (Timespec (tv_sec real + seconds) (tv_nsec real + nanoseconds))))
    | _, _ => Some None
    end
  | other => other
  end.

Fixpoint remove_waiter (id : Z) (l : list futex_waiter) : list futex_waiter :=
  match l with
  | [] => []
  | w :: l => if fw_id w =? id then l else w :: remove_waiter id l
  end.

Section futex.
Context `{!HostErrno}.

(** A host error number returned as it is. *)
Definition raw (e : errno) : Z := - errno_code e.

(** [absolute_clock]: 0 relative, 1 monotonic, 2 realtime. *)
Definition wait_deadline (host : futex_host) (m : gmap Z Z) (guest_timeout absolute_clock : Z)
  : option (option timespec) :=
  if negb (absolute_clock =? 0) then absolute_deadline host m guest_timeout (absolute_clock =? 2)
  else relative_deadline host m guest_timeout.

(** [futex_wait] after the deadline has been computed, up to the unlocking. *)
Definition futex_enqueue (host : futex_host) (m : gmap Z Z) (l : list futex_waiter)
    (id address expected bitset : Z) (deadline : option timespec)
  : futex_outcome * list futex_waiter :=
  match sem_init_error host with
  | Some e => (FReturn (linux_error e), l)
  | None =>
    match lock_error host with
    | Some e => (FReturn (linux_error e), l)
    | None =>
      match load32 m address with
      | None => (FFault, l)
      | Some value =>
        if negb (value =? expected) then (FReturn (raw EAGAIN), l)
        else (FBlock deadline, Waiter id address bitset false 0 :: l)
      end
    end
  end.

(** [futex_wait] up to the semaphore wait; [id] is the address of its [waiter]. *)
Definition futex_wait (host : futex_host) (m : gmap Z Z) (l : list futex_waiter)
    (id address expected guest_timeout bitset absolute_clock : Z)
  : futex_outcome * list futex_waiter :=
  if bitset =? 0 then (FReturn (raw EINVAL), l)
  else if guest_timeout =? 0 then futex_enqueue host m l id address expected bitset None
  else match wait_deadline host m guest_timeout absolute_clock with
       | None => (FFault, l)
       | Some None => (FReturn (raw EINVAL), l)
       | Some (Some deadline) =>
         futex_enqueue host m l id address expected bitset (Some deadline)
       end.

(** [futex_wait] from the end of the semaphore wait: [error] is its error (or
    [None]), [interrupted] what [guest_thread_futex_wait_end] returned.  The
    waiter itself is still readable after its removal. *)
Definition futex_wait_return (l : list futex_waiter) (w : futex_waiter) (error : option errno)
    (interrupted : bool) : Z * list futex_waiter :=
  let error := match error with
               | None => if interrupted then Some EINTR else None
               | Some e => Some e
               end in
  let value := if fw_woken w then 0
               else match error with
                    | None => 0
                    | Some e => if decide (e = ETIMEDOUT) then -110 else linux_error e
                    end in
  (value, remove_waiter (fw_id w) l).

(** The [for] of [linux_futex_wake]. *)
Fixpoint wake_loop (l : list futex_waiter) (address count bitset woken : Z)
  : Z * list futex_waiter :=
  match l with
  | [] => (woken, [])
  | w :: rest =>
    if negb (woken <? count) then (woken, l)
    else if negb (fw_address w =? address) || negb (has (fw_bitset w) bitset) || fw_woken w then
      let (n, rest) := wake_loop rest address count bitset woken in (n, w :: rest)
    else
      let (n, rest) := wake_loop rest address count bitset (woken + 1) in (n, wake_waiter w :: rest)
  end.

Definition linux_futex_wake (host : futex_host) (l : list futex_waiter) (address count bitset : Z)
  : Z * list futex_waiter :=
  if (count <? 0) || (bitset =? 0) then (raw EINVAL, l)
  else match lock_error host with
       | Some e => (linux_error e, l)
       | None => wake_loop l address count bitset 0
       end.

(** The [for] of [futex_requeue]: the numbers woken and requeued. *)
Fixpoint requeue_loop (l : list futex_waiter) (address wake_count requeue_count second woken
    requeued : Z) : Z * Z * list futex_waiter :=
  match l with
  | [] => (woken, requeued, [])
  | w :: rest =>
    if negb (fw_address w =? address) || fw_woken w then
      let '(n, q, rest) := requeue_loop rest address wake_count requeue_count second woken requeued in
      (n, q, w :: rest)
    else
      let '(woken, requeued, w) :=
        if woken <? wake_count then (woken + 1, requeued, wake_waiter w)
        else if requeued <? requeue_count then (woken, requeued + 1, move_waiter second w)
        else (woken, requeued, w) in
      if (woken =? wake_count) && (requeued =? requeue_count) then (woken, requeued, w :: rest)
      else let '(n, q, rest) :=
             requeue_loop rest address wake_count requeue_count second woken requeued in
           (n, q, w :: rest)
  end.

(** [futex_requeue]: [None] is a fault; the value returned, how many of the
    affected were woken, and the list. *)
Definition futex_requeue (host : futex_host) (m : gmap Z Z) (l : list futex_waiter)
    (address wake_count requeue_count second : Z) (compare : bool) (expected : Z)
  : option (Z * Z * list futex_waiter) :=
  if (wake_count <? 0) || (requeue_count <? 0) || (second =? 0) then Some (raw EINVAL, 0, l)
  else match lock_error host with
       | Some e => Some (linux_error e, 0, l)
       | None =>
         let loop := let '(n, q, l) := requeue_loop l address wake_count requeue_count second 0 0 in
                     Some (n + q, n, l) in
         if compare then
           match load32 m address with
           | None => None
           | Some value => if negb (value =? expected) then Some (raw EAGAIN, 0, l) else loop
           end
         else loop
       end.

Definition requeue_outcome (r : option (Z * Z * list futex_waiter)) (l : list futex_waiter)
  : futex_outcome * list futex_waiter :=
  match r with Some (v, _, l) => (FReturn v, l) | None => (FFault, l) end.

(** [linux_futex]; the value of [guest_timeout] is an address or a count. *)
Definition linux_futex (host : futex_host) (m : gmap Z Z) (l : list futex_waiter) (id : Z)
    (address operation value guest_timeout second_address bitset : Z)
  : futex_outcome * list futex_waiter :=
  let command := operation .& LINUX_FUTEX_CMD_MASK in
  let flags := operation .&~ LINUX_FUTEX_CMD_MASK in
  let wake bits := let (v, l) := linux_futex_wake host l address value bits in (FReturn v, l) in
  let requeue compare :=
    requeue_outcome (futex_requeue host m l address value guest_timeout second_address
                       compare (if compare then bitset else 0)) l in
  if negb (flags .&~ (LINUX_FUTEX_PRIVATE_FLAG .| LINUX_FUTEX_CLOCK_REALTIME) =? 0)
  then (FReturn (raw EINVAL), l)
  else if has operation LINUX_FUTEX_CLOCK_REALTIME && negb (command =? LINUX_FUTEX_WAIT_BITSET)
  then (FReturn (-38), l)
  else if command =? LINUX_FUTEX_WAIT then
    futex_wait host m l id address value guest_timeout LINUX_FUTEX_BITSET_MATCH_ANY 0
  else if command =? LINUX_FUTEX_WAKE then
    if INT_MAX <? value then (FReturn (raw EINVAL), l) else wake LINUX_FUTEX_BITSET_MATCH_ANY
  else if command =? LINUX_FUTEX_REQUEUE then
    if (INT_MAX <? value) || (INT_MAX <? guest_timeout) then (FReturn (raw EINVAL), l)
    else requeue false
  else if command =? LINUX_FUTEX_CMP_REQUEUE then
    if (INT_MAX <? value) || (INT_MAX <? guest_timeout) then (FReturn (raw EINVAL), l)
    else requeue true
  else if command =? LINUX_FUTEX_WAIT_BITSET then
    futex_wait host m l id address value guest_timeout bitset
      (if has operation LINUX_FUTEX_CLOCK_REALTIME then 2 else 1)
  else if command =? LINUX_FUTEX_WAKE_BITSET then
    if INT_MAX <? value then (FReturn (raw EINVAL), l) else wake bitset
  else (FReturn (-38), l).

End futex.

(** [linux_futex_after_fork] *)
Definition linux_futex_after_fork (l : list futex_waiter) : list futex_waiter := [].

(** ** Waking *)

(** The waiters a wake with these arguments is meant for. *)
Definition wakeable (address bitset : Z) (w : futex_waiter) : bool :=
  (fw_address w =? address) && has (fw_bitset w) bitset && negb (fw_woken w).

(** Reference definition: the first [n] waiters that satisfy [f] are woken. *)
Fixpoint wake_first (f : futex_waiter -> bool) (n : nat) (l : list futex_waiter)
  : list futex_waiter :=
  match n, l with
  | S n', w :: l => if f w then wake_waiter w :: wake_first f n' l else w :: wake_first f n l
  | _, _ => l
  end.

Definition count_if (f : futex_waiter -> bool) (l : list futex_waiter) : nat :=
  length (List.filter f l).

Lemma wake_first_0 f l : wake_first f 0 l = l.
Proof. by destruct l. Qed.

Lemma wake_loop_spec l address count bitset woken :
  woken <= count ->
  wake_loop l address count bitset woken =
  (woken + Z.of_nat (Nat.min (Z.to_nat (count - woken)) (count_if (wakeable address bitset) l)),
   wake_first (wakeable address bitset) (Z.to_nat (count - woken)) l).
Proof.
  revert woken. induction l as [|w l IH]; intros woken Hle.
  { simpl. rewrite Nat.min_0_r, Z.add_0_r. by destruct (Z.to_nat _). }
  cbn [wake_loop]. destruct (woken <? count) eqn:E; bprop; cbn [negb].
  2:{ replace (Z.to_nat (count - woken)) with 0%nat by lia. cbn [Nat.min].
      by rewrite Z.add_0_r, wake_first_0. }
  unfold count_if in *. cbn [List.filter].
  replace (negb (fw_address w =? address) || negb (has (fw_bitset w) bitset) || fw_woken w)
    with (negb (wakeable address bitset w))
    by (unfold wakeable; by destruct (_ =? _), (has _ _), (fw_woken w)).
  destruct (Z.to_nat (count - woken)) as [|k] eqn:Ek; [lia|]. cbn [wake_first].
  destruct (wakeable address bitset w); cbn [negb]; rewrite IH by lia.
  - replace (Z.to_nat (count - (woken + 1))) with k by lia. cbn [length].
    f_equal. lia.
  - by rewrite Ek.
Qed.

(** [linux_futex_wake] wakes exactly the first [count] waiters of the
    address whose bitsets meet the given one and that are not yet woken (all of
    them when there are fewer), posts each one's semaphore once, touches no
    other waiter, and returns how many it woke. *)
Theorem futex_wake_exact `{!HostErrno} (host : futex_host) (l : list futex_waiter)
    (address count bitset : Z) :
  0 <= count -> bitset <> 0 -> lock_error host = None ->
  let n := Nat.min (Z.to_nat count) (count_if (wakeable address bitset) l) in
  linux_futex_wake host l address count bitset =
  (Z.of_nat n, wake_first (wakeable address bitset) (Z.to_nat count) l).
Proof.
  intros Hc Hb Hl. unfold linux_futex_wake.
  rewrite (proj2 (Z.ltb_ge _ _)) by done. rewrite (proj2 (Z.eqb_neq _ _)) by done. simpl.
  rewrite Hl, wake_loop_spec by done. by rewrite Z.sub_0_r.
Qed.

(** ** Requeueing *)

(** Reference definition: the first [n] waiters of [f] are woken, the next [k]
    moved to another address. *)
Fixpoint requeue_first (f : futex_waiter -> bool) (second : Z) (n k : nat) (l : list futex_waiter)
  : list futex_waiter :=
  match l with
  | [] => []
  | w :: l =>
    if f w then
      match n, k with
      | S n, _ => wake_waiter w :: requeue_first f second n k l
      | O, S k => move_waiter second w :: requeue_first f second 0 k l
      | O, O => w :: l
      end
    else w :: requeue_first f second n k l
  end.

Definition requeueable (address : Z) (w : futex_waiter) : bool :=
  (fw_address w =? address) && negb (fw_woken w).

Lemma requeue_first_0 f second l : requeue_first f second 0 0 l = l.
Proof. induction l as [|w l IH]; simpl; [done|]. destruct (f w); by rewrite ?IH. Qed.

Lemma requeue_loop_spec l address wc rc second n q :
  0 <= n <= wc -> 0 <= q <= rc ->
  let k := count_if (requeueable address) l in
  let dn := Nat.min (Z.to_nat (wc - n)) k in
  let dq := Nat.min (Z.to_nat (rc - q)) (k - dn) in
  requeue_loop l address wc rc second n q =
  (n + Z.of_nat dn, q + Z.of_nat dq,
   requeue_first (requeueable address) second (Z.to_nat (wc - n)) (Z.to_nat (rc - q)) l).
Proof.
  revert n q. induction l as [|w l IH]; intros n q Hn Hq; cbn zeta.
  { simpl. rewrite !Nat.min_0_r, !Z.add_0_r. done. }
  cbn [requeue_loop requeue_first]. unfold count_if in *. cbn [List.filter].
  replace (negb (fw_address w =? address) || fw_woken w) with (negb (requeueable address w))
    by (unfold requeueable; by destruct (_ =? _), (fw_woken w)).
  destruct (requeueable address w) eqn:Ef; cbn [negb]; [|by rewrite IH].
  destruct (n <? wc) eqn:E1; bprop.
  - destruct (Z.to_nat (wc - n)) as [|a] eqn:Ea; [lia|]. cbn [length].
    destruct ((n + 1 =? wc) && (q =? rc)) eqn:E2; bprop.
    + assert (a = 0)%nat as -> by lia. replace (Z.to_nat (rc - q)) with 0%nat by lia.
      rewrite requeue_first_0. f_equal. f_equal; lia.
    + rewrite IH by lia. replace (Z.to_nat (wc - (n + 1))) with a by lia. f_equal. f_equal; lia.
  - assert (Hz : Z.to_nat (wc - n) = 0%nat) by lia. rewrite Hz.
    destruct (q <? rc) eqn:E3; bprop.
    + destruct (Z.to_nat (rc - q)) as [|b] eqn:Eb; [lia|]. cbn [length].
      destruct ((n =? wc) && (q + 1 =? rc)) eqn:E2; bprop.
      * assert (b = 0)%nat as -> by lia. rewrite requeue_first_0. f_equal. f_equal; lia.
      * rewrite IH by lia. rewrite Hz. replace (Z.to_nat (rc - (q + 1))) with b by lia.
        f_equal. f_equal; lia.
    + replace (Z.to_nat (rc - q)) with 0%nat by lia.
      rewrite (proj2 (Z.eqb_eq n wc)), (proj2 (Z.eqb_eq q rc)) by lia. simpl.
      f_equal. f_equal; lia.
Qed.

(** [futex_requeue] wakes exactly the first [wake_count] unwoken waiters of
    the address and moves exactly the next [requeue_count] to the second
    address, in list order; it returns the number of both together.  With
    [compare] it does so only when the word still has the expected value, and
    otherwise answers [EAGAIN] and changes nothing. *)
Theorem futex_requeue_exact `{!HostErrno} (host : futex_host) (m : gmap Z Z)
    (l : list futex_waiter) (address wake_count requeue_count second : Z) (compare : bool)
    (expected value : Z) :
  0 <= wake_count -> 0 <= requeue_count -> second <> 0 -> lock_error host = None ->
  load32 m address = Some value ->
  let k := count_if (requeueable address) l in
  let n := Nat.min (Z.to_nat wake_count) k in
  let q := Nat.min (Z.to_nat requeue_count) (k - n) in
  futex_requeue host m l address wake_count requeue_count second compare expected =
  if compare && negb (value =? expected) then Some (raw EAGAIN, 0, l)
  else Some (Z.of_nat n + Z.of_nat q, Z.of_nat n,
             requeue_first (requeueable address) second (Z.to_nat wake_count)
               (Z.to_nat requeue_count) l).
Proof.
  intros Hw Hr Hs Hl Hv. unfold futex_requeue.
  rewrite (proj2 (Z.ltb_ge wake_count 0)), (proj2 (Z.ltb_ge requeue_count 0)) by done.
  rewrite (proj2 (Z.eqb_neq second 0)) by done. cbn [orb]. rewrite Hl, Hv.
  rewrite requeue_loop_spec by lia. rewrite !Z.sub_0_r.
  destruct compare; cbn [andb]; [destruct (negb (value =? expected))|]; done.
Qed.

(** ** Every wake is consumed once *)

(** What holds of every waiter in the list: it can match some bitset, and its
    semaphore has been posted by a wake once if it was woken and never otherwise. *)
Definition waiter_ok (w : futex_waiter) : Prop :=
  fw_bitset w <> 0 /\ fw_posts w = (if fw_woken w then 1 else 0)%nat.

Record futex_inv (l : list futex_waiter) : Prop := {
  fi_ids : NoDup (fw_id <$> l);
  fi_ok : Forall waiter_ok l }.

Lemma requeue_ids f second n k l : fw_id <$> requeue_first f second n k l = fw_id <$> l.
Proof.
  revert n k. induction l as [|w l IH]; intros n k; simpl; [done|].
  destruct (f w); [destruct n, k|]; simpl; by rewrite ?IH.
Qed.

Lemma requeue_inv f second n k l :
  (forall w, f w = true -> fw_woken w = false) -> futex_inv l ->
  futex_inv (requeue_first f second n k l).
Proof.
  intros Hf [Hids Hok]. split; [by rewrite requeue_ids|]. clear Hids. revert n k.
  induction Hok as [|w l [Hb Hp] Hok IH]; intros n k; simpl; [constructor|].
  destruct (f w) eqn:Ef; [|by repeat constructor]. apply Hf in Ef. rewrite Ef in Hp.
  destruct n, k; constructor; try done; split; simpl; try done; by rewrite ?Hp, ?Ef.
Qed.

Lemma requeue_woken f second n k l :
  (forall w, f w = true -> fw_woken w = false) ->
  count_if fw_woken (requeue_first f second n k l) =
  (count_if fw_woken l + Nat.min n (count_if f l))%nat.
Proof.
  intros Hf. unfold count_if. revert n k. induction l as [|w l IH]; intros n k; simpl; [lia|].
  destruct (f w) eqn:Ef.
  - apply Hf in Ef. destruct n, k; simpl; rewrite ?Ef; simpl; rewrite ?IH; cbn [length]; lia.
  - simpl. destruct (fw_woken w); simpl; rewrite IH; lia.
Qed.

(** Waking is requeueing nothing. *)
Lemma wake_first_requeue f second n l : wake_first f n l = requeue_first f second n 0 l.
Proof.
  revert n. induction l as [|w l IH]; intros [|n]; simpl; try done.
  - destruct (f w); [done|]. by rewrite requeue_first_0.
  - destruct (f w); by rewrite IH.
Qed.

Lemma remove_waiter_sub id l w : w ∈ remove_waiter id l -> w ∈ l.
Proof. induction l as [|x l IH]; simpl; [done|]. cond; set_solver. Qed.

Lemma remove_waiter_inv id l : futex_inv l -> futex_inv (remove_waiter id l).
Proof.
  intros [Hids Hok]. split.
  - induction l as [|x l IH]; simpl; [done|]. apply NoDup_cons in Hids as [Hx Hids].
    apply Forall_cons in Hok as [_ Hok]. cond; [done|]. simpl. apply NoDup_cons.
    split; [|by apply IH]. intros (y & Hy & Hin%remove_waiter_sub)%list_elem_of_fmap.
    apply Hx. rewrite Hy. apply list_elem_of_fmap. eauto.
  - apply Forall_forall. intros w Hw%remove_waiter_sub. by eapply Forall_forall in Hok.
Qed.

Lemma remove_waiter_woken l w :
  NoDup (fw_id <$> l) -> w ∈ l ->
  count_if fw_woken l = (count_if fw_woken (remove_waiter (fw_id w) l) +
                         if fw_woken w then 1 else 0)%nat.
Proof.
  unfold count_if. induction l as [|x l IH]; intros Hids Hw; [set_solver|]. simpl.
  apply NoDup_cons in Hids as [Hx Hids]. apply elem_of_cons in Hw as [<-|Hw].
  - rewrite Z.eqb_refl. destruct (fw_woken w); simpl; lia.
  - destruct (fw_id x =? fw_id w) eqn:E; bprop.
    { exfalso. apply Hx. rewrite E. apply list_elem_of_fmap. eauto. }
    simpl. destruct (fw_woken x); simpl; rewrite (IH Hids Hw); lia.
Qed.

(** The waiter list under any interleaving of the operations.  [reported]
    counts the wakes the operations have reported to their callers, [consumed]
    the woken waiters that have left. *)
Inductive futex_run `{!HostErrno} : list futex_waiter -> Z -> Z -> Prop :=
| run_empty : futex_run [] 0 0
| run_wait host m l r c id address expected timeout bitset clock d l' :
    futex_run l r c -> (id ∉ fw_id <$> l) ->
    futex_wait host m l id address expected timeout bitset clock = (FBlock d, l') ->
    futex_run l' r c
| run_wake host l r c address count bitset v l' :
    futex_run l r c -> lock_error host = None -> 0 <= count -> bitset <> 0 ->
    linux_futex_wake host l address count bitset = (v, l') -> futex_run l' (r + v) c
| run_requeue host m l r c address wc rc second compare expected v woken l' :
    futex_run l r c ->
    futex_requeue host m l address wc rc second compare expected = Some (v, woken, l') ->
    futex_run l' (r + woken) c
| run_return l r c w error interrupted v l' :
    futex_run l r c -> w ∈ l -> futex_wait_return l w error interrupted = (v, l') ->
    futex_run l' r (c + if fw_woken w then 1 else 0).

Lemma futex_wait_block `{!HostErrno} host m l id address expected timeout bitset clock d l' :
  futex_wait host m l id address expected timeout bitset clock = (FBlock d, l') ->
  bitset <> 0 /\ load32 m address = Some expected /\ l' = Waiter id address bitset false 0 :: l.
Proof.
  unfold futex_wait. cond; [done|]. bprop.
  assert (Hq : forall dl, futex_enqueue host m l id address expected bitset dl = (FBlock d, l') ->
    load32 m address = Some expected /\ l' = Waiter id address bitset false 0 :: l).
  { intros dl. unfold futex_enqueue. repeat (case_match; try done). bprop. subst.
    intros [= _ <-]. done. }
  cond; [intros Hr; by apply Hq in Hr|].
  destruct (wait_deadline _ _ _ _) as [[dl|]|]; [|done|done]. intros Hr. by apply Hq in Hr.
Qed.

Lemma futex_requeue_cases `{!HostErrno} host m l address wc rc second compare expected v woken l' :
  futex_requeue host m l address wc rc second compare expected = Some (v, woken, l') ->
  (woken = 0 /\ l' = l) \/
  (woken = Z.of_nat (Nat.min (Z.to_nat wc) (count_if (requeueable address) l)) /\
   l' = requeue_first (requeueable address) second (Z.to_nat wc) (Z.to_nat rc) l).
Proof.
  unfold futex_requeue. cond; [intros [= _ <- <-]; by left|]. bprop.
  rewrite requeue_loop_spec, !Z.sub_0_r by lia.
  repeat case_match; intros Heq; simplify_eq; auto.
Qed.

(** C24: no wake is lost or counted twice.  Under every interleaving of waits,
    wakes, requeues and returns (by wake, timeout or signal), waiters are
    distinct, wakes have posted the semaphore of a woken waiter exactly once and
    of no other, and the number of wakes reported so far is the number of
    woken waiters that returned plus those still in the list. *)
Theorem futex_wakes_conserved `{!HostErrno} (l : list futex_waiter) (reported consumed : Z) :
  futex_run l reported consumed ->
  futex_inv l /\ reported = consumed + Z.of_nat (count_if fw_woken l).
Proof.
  assert (Hre : forall a w, requeueable a w = true -> fw_woken w = false)
    by (intros a w; unfold requeueable; intros; by bprop).
  assert (Hwk : forall a b w, wakeable a b w = true -> fw_woken w = false)
    by (intros a b w; unfold wakeable; intros; by bprop).
  induction 1 as [|host m l r c id address expected timeout bitset clock d l' _ [IH1 IH2] Hid Hw
    |host l r c address count bitset v l' _ [IH1 IH2] Hl Hc Hb Hw
    |host m l r c address wc rc second compare expected v woken l' _ [IH1 IH2] Hq
    |l r c w error interrupted v l' _ [IH1 IH2] Hin Hw].
  - split; [split; constructor|done].
  - apply futex_wait_block in Hw as (Hb & _ & ->). destruct IH1 as [Hids Hok].
    split; [split|done]; [by apply NoDup_cons|by constructor].
  - unfold linux_futex_wake in Hw.
    rewrite (proj2 (Z.ltb_ge _ _) Hc), (proj2 (Z.eqb_neq _ _) Hb), Hl in Hw. cbn [orb] in Hw.
    rewrite wake_loop_spec, Z.sub_0_r in Hw by done. injection Hw as <- <-.
    rewrite (wake_first_requeue _ 0). split; [eauto using requeue_inv|].
    rewrite requeue_woken by eauto. lia.
  - apply futex_requeue_cases in Hq as [[-> ->]|[-> ->]]; [split; [done|lia]|].
    split; [eauto using requeue_inv|]. rewrite requeue_woken by eauto. lia.
  - unfold futex_wait_return in Hw. injection Hw as _ <-. split; [by apply remove_waiter_inv|].
    rewrite (remove_waiter_woken l w) in IH2 by (done || apply IH1). destruct (fw_woken w); lia.
Qed.

(** ** A waiter cannot miss a wake *)

(** The waiter that is woken when [n] others that match are not enough. *)
Lemma wake_first_reaches f n before w after :
  f w = true -> (count_if f before < n)%nat ->
  exists before' after', wake_first f n (before ++ w :: after) = before' ++ wake_waiter w :: after' /\
    fw_id <$> before' = fw_id <$> before.
Proof.
  unfold count_if. intros Hf. revert n. induction before as [|x before IH]; intros n Hn; cbn [List.filter app] in *.
  - destruct n as [|n]; [simpl in Hn; lia|]. simpl. rewrite Hf. by exists [], (wake_first f n after).
  - destruct n as [|n]; [lia|]. simpl. destruct (f x); cbn [length] in Hn.
    + destruct (IH n) as (b & a & -> & Hb); [lia|]. exists (wake_waiter x :: b), a. split; [done|]. by rewrite fmap_cons, Hb.
    + destruct (IH (S n)) as (b & a & -> & Hb); [lia|]. exists (x :: b), a. split; [done|]. by rewrite fmap_cons, Hb.
Qed.

(** With a count for all of them, every waiter that matches is woken. *)
Lemma wake_first_all f n l w :
  (length l <= n)%nat -> w ∈ l -> f w = true -> wake_waiter w ∈ wake_first f n l.
Proof.
  intros Hn (before & after & ->)%list_elem_of_split Hf.
  destruct (wake_first_reaches f n before w after Hf) as (b & a & -> & _); [|set_solver].
  unfold count_if. pose proof (List.filter_length_le f before). rewrite length_app in Hn. simpl in Hn. lia.
Qed.

(** What other threads can do while the waiter [id] is in the list: begin and end
    waits of their own, wake, requeue, with whatever arguments and answers of the
    host. *)
Inductive other_step `{!HostErrno} (id : Z) : list futex_waiter -> list futex_waiter -> Prop :=
| other_wait host m l id' address expected timeout bitset clock d l' :
    id' ∉ fw_id <$> l -> futex_wait host m l id' address expected timeout bitset clock = (FBlock d, l') ->
    other_step id l l'
| other_wake host l address count bitset v l' :
    linux_futex_wake host l address count bitset = (v, l') -> other_step id l l'
| other_requeue host m l address wc rc second compare expected v woken l' :
    futex_requeue host m l address wc rc second compare expected = Some (v, woken, l') -> other_step id l l'
| other_return l w error interrupted v l' :
    w ∈ l -> fw_id w <> id -> futex_wait_return l w error interrupted = (v, l') -> other_step id l l'.

(** A later state of the same waiter: a wake is not taken back. *)
Definition later (w w' : futex_waiter) : Prop :=
  fw_id w' = fw_id w /\ fw_bitset w' = fw_bitset w /\ (fw_woken w = true -> fw_woken w' = true).

Lemma later_trans w w' w'' : later w w' -> later w' w'' -> later w w''.
Proof. intros (H1 & H2 & H3) (H4 & H5 & H6). split_and!; [congruence|congruence|auto]. Qed.

Lemma requeue_later f second n k l w :
  w ∈ l -> exists w', w' ∈ requeue_first f second n k l /\ later w w'.
Proof.
  revert n k. induction l as [|x l IH]; intros n k Hw; [set_solver|]. simpl.
  apply elem_of_cons in Hw as [<-|Hw].
  - destruct (f w); [destruct n as [|n], k as [|k]|];
      (eexists; split; [apply list_elem_of_here|by split_and!]).
  - destruct (f x); [destruct n as [|n], k as [|k]|];
      first [by exists w; split; [apply list_elem_of_further|split_and!]
            |match goal with |- context [requeue_first f second ?a ?b l] =>
               destruct (IH a b Hw) as (w' & Hin & Hl); exists w'; split; [by apply list_elem_of_further|done] end].
Qed.

Lemma wake_cases `{!HostErrno} host l address count bitset v l' :
  linux_futex_wake host l address count bitset = (v, l') ->
  l' = l \/ l' = wake_first (wakeable address bitset) (Z.to_nat count) l.
Proof.
  unfold linux_futex_wake. cond; [intros [= _ <-]; by left|]. bprop.
  destruct (lock_error host); [intros [= _ <-]; by left|]. rewrite wake_loop_spec by lia.
  intros [= _ <-]. right. by rewrite Z.sub_0_r.
Qed.

Lemma remove_other l w id : w ∈ l -> fw_id w <> id -> w ∈ remove_waiter id l.
Proof.
  induction l as [|x l IH]; intros Hw Hne; [set_solver|]. simpl. apply elem_of_cons in Hw as [<-|Hw].
  - rewrite (proj2 (Z.eqb_neq _ _) Hne). apply list_elem_of_here.
  - cond; [done|]. apply list_elem_of_further. by apply IH.
Qed.

(** Other threads leave a waiter in the list, and keep identities distinct. *)
Lemma other_step_keeps `{!HostErrno} id l l' w :
  NoDup (fw_id <$> l) -> w ∈ l -> fw_id w = id -> other_step id l l' ->
  NoDup (fw_id <$> l') /\ exists w', w' ∈ l' /\ later w w'.
Proof.
  intros Hd Hw Hid Hs. destruct Hs as [host m l id' address expected timeout bitset clock d l' Hn Hb
    |host l address count bitset v l' Hk|host m l address wc rc second compare expected v woken l' Hq
    |l u error interrupted v l' Hu Hne Hr].
  - apply futex_wait_block in Hb as (_ & _ & ->). split; [by apply NoDup_cons|].
    exists w. split; [by apply list_elem_of_further|by split_and!].
  - apply wake_cases in Hk as [->| ->]; [split; [done|]; exists w; by split_and!|].
    rewrite (wake_first_requeue _ 0). rewrite requeue_ids. split; [done|by apply requeue_later].
  - apply futex_requeue_cases in Hq as [[_ ->]|[_ ->]]; [split; [done|]; exists w; by split_and!|].
    rewrite requeue_ids. split; [done|by apply requeue_later].
  - injection Hr as _ <-. split.
    + clear -Hd. induction l as [|x l IH]; [done|]. simpl in *. apply NoDup_cons in Hd as [Hx Hd]. cond; [done|].
      simpl. apply NoDup_cons. split; [|by apply IH]. intros (y & Hy & Hin%remove_waiter_sub)%list_elem_of_fmap.
      apply Hx. rewrite Hy. apply list_elem_of_fmap. eauto.
    + exists w. split; [|by split_and!]. apply remove_other; [done|congruence].
Qed.

Lemma others_keep `{!HostErrno} id l l' w :
  NoDup (fw_id <$> l) -> w ∈ l -> fw_id w = id -> rtc (other_step id) l l' ->
  NoDup (fw_id <$> l') /\ exists w', w' ∈ l' /\ later w w'.
Proof.
  intros Hd Hw Hid Hs. revert w Hd Hw Hid. induction Hs as [l|l l1 l2 H1 _ IH]; intros w Hd Hw Hid.
  { split; [done|]. exists w. by split_and!. }
  destruct (other_step_keeps id l l1 w Hd Hw Hid H1) as (Hd1 & w1 & Hw1 & Hl1). pose proof Hl1 as (Hi1 & _).
  destruct (IH w1 Hd1 Hw1 ltac:(congruence)) as (Hd2 & w2 & Hw2 & Hl2). split; [done|].
  exists w2. split; [done|by eapply later_trans].
Qed.


(** ** Deadlines *)

Definition nanoseconds_of (t : timespec) : Z := tv_sec t * 1000000000 + tv_nsec t.
Definition valid_timespec (t : timespec) : Prop := 0 <= tv_sec t /\ 0 <= tv_nsec t < 1000000000.

Lemma carry_spec t :
  0 <= tv_sec t -> 0 <= tv_nsec t < 2000000000 ->
  valid_timespec (carry t) /\ nanoseconds_of (carry t) = nanoseconds_of t.
Proof.
  intros Hs Hn. unfold carry, valid_timespec, nanoseconds_of. cond; bprop; simpl; lia.
Qed.

Lemma load_timespec_valid m a t :
  load_linux_timespec m a = Some (Some t) -> valid_timespec t.
Proof.
  unfold load_linux_timespec. repeat case_match; try done. intros [= <-]. bprop.
  unfold valid_timespec. simpl. lia.
Qed.

(** The deadline of a futex wait, as the host's real-time clock counts: for
    [FUTEX_WAIT] the current time plus the guest's timeout, for a monotonic
    [FUTEX_WAIT_BITSET] the current time plus what is left until the guest's
    monotonic time (nothing when it has passed), for a real-time one the
    guest's time; always with normalised nanoseconds. *)
Theorem wait_deadline_exact (host : futex_host) (m : gmap Z Z) (timeout clock : Z)
    (guest real mono : timespec) :
  load_linux_timespec m timeout = Some (Some guest) ->
  clock_realtime host = Some real -> clock_monotonic host = Some mono ->
  valid_timespec real -> valid_timespec mono ->
  exists deadline, wait_deadline host m timeout clock = Some (Some deadline) /\
  valid_timespec deadline /\
  nanoseconds_of deadline =
    if clock =? 0 then nanoseconds_of real + nanoseconds_of guest
    else if clock =? 2 then nanoseconds_of guest
    else nanoseconds_of real + Z.max 0 (nanoseconds_of guest - nanoseconds_of mono).
Proof.
  intros Hg Hr Hm Vr Vm. pose proof (load_timespec_valid _ _ _ Hg) as Vg.
  unfold wait_deadline, absolute_deadline, relative_deadline. rewrite Hg, Hr, Hm.
  destruct (clock =? 0); cbn [negb].
  { eexists. split; [reflexivity|]. unfold valid_timespec in *.
    destruct (carry_spec (Timespec (tv_sec real + tv_sec guest) (tv_nsec real + tv_nsec guest)))
      as [Hv He]; [simpl; lia|simpl; lia|]. split; [exact Hv|]. rewrite He.
    unfold nanoseconds_of. simpl. lia. }
  destruct (clock =? 2); [by eexists|]. unfold valid_timespec in *.
  cond; [eexists; split; [done|]; split; [done|]; unfold nanoseconds_of; blia|].
  set (p := if _ <? 0 then _ else _).
  assert (Hp : 0 <= p.1 /\ 0 <= p.2 < 1000000000 /\
    p.1 * 1000000000 + p.2 = nanoseconds_of guest - nanoseconds_of mono).
  { subst p. unfold nanoseconds_of. cond; simpl; blia. }
  destruct p as [sec ns]. simpl in Hp. eexists. split; [reflexivity|].
  destruct (carry_spec (Timespec (tv_sec real + sec) (tv_nsec real + ns)))
    as [Hv He]; [simpl; lia|simpl; lia|]. split; [exact Hv|]. rewrite He.
  unfold nanoseconds_of in *. simpl. lia.
Qed.

(** ** Witnesses *)

Module FutexExamples.
Import ExampleErrno.
#[local] Existing Instance host_errno.

Definition host0 : futex_host :=
  FutexHost None None (Some (Timespec 1000 999999999)) (Some (Timespec 50 10)).
Definition m0 : gmap Z Z := store32 (store32 (store32 ∅ 0x100 7) 0x200 2) 0x204 500000000.
Definition l0 : list futex_waiter :=
  [Waiter 1 0x100 0xffffffff false 0; Waiter 2 0x300 1 false 0; Waiter 3 0x100 2 false 0].

Lemma futex_wake_exact_witness :
  linux_futex_wake host0 l0 0x100 1 2 =
  (1, [Waiter 1 0x100 0xffffffff true 1; Waiter 2 0x300 1 false 0; Waiter 3 0x100 2 false 0]).
Proof.
  apply (futex_wake_exact host0 l0 0x100 1 2); [lia|lia|reflexivity].
Defined.

Lemma futex_requeue_exact_witness :
  futex_requeue host0 m0 l0 0x100 1 5 0x400 true 7 =
  Some (2, 1, [Waiter 1 0x100 0xffffffff true 1; Waiter 2 0x300 1 false 0; Waiter 3 0x400 2 false 0]).
Proof.
  apply (futex_requeue_exact host0 m0 l0 0x100 1 5 0x400 true 7 7);
    [lia|lia|lia|reflexivity|vm_compute; reflexivity].
Defined.

Lemma futex_wakes_conserved_witness : futex_inv [Waiter 9 0x100 1 true 1] /\ 1 = 0 + 1.
Proof.
  apply (futex_wakes_conserved [Waiter 9 0x100 1 true 1] 1 0).
  apply (run_wake host0 [Waiter 9 0x100 1 false 0] 0 0 0x100 1 1 1);
    [|reflexivity|lia|lia|reflexivity].
  apply (run_wait host0 m0 [] 0 0 9 0x100 7 0 1 1 None); [apply run_empty|apply not_elem_of_nil|].
  vm_compute. reflexivity.
Defined.

(** A wait behind which another thread queues itself, and a wake of one; then a wake of
    two reaches both. *)
Definition l1 : list futex_waiter := [Waiter 9 0x100 1 false 0].
Definition l2 : list futex_waiter := [Waiter 4 0x100 3 false 0; Waiter 9 0x100 1 false 0].


Lemma wait_deadline_exact_witness :
  exists deadline, wait_deadline host0 m0 0x200 0 = Some (Some deadline) /\
    nanoseconds_of deadline = 1003499999999.
Proof.
  destruct (wait_deadline_exact host0 m0 0x200 0 (Timespec 2 500000000) (Timespec 1000 999999999)
    (Timespec 50 10)) as (d & Hd & _ & Hn).
  - vm_compute. reflexivity.
  - reflexivity.
  - reflexivity.
  - vm_compute. intuition discriminate.
  - vm_compute. intuition discriminate.
  - exists d. split; [exact Hd|]. rewrite Hn. reflexivity.
Defined.

End FutexExamples.
