(* ===== verification/GuestThread.v ===== *)
(** * Guest threads: [src/src/guest_thread.c]

    The per-thread state ([struct guest_thread_state]), the queues of pending
    signals it holds, thread identifiers and the registry of threads.  The
    functions that begin with [current_thread ()] take the current thread's
    state as an [option], [None] standing for a null pointer.  The two counters
    and the ring of each real-time signal are one record, [rt_queue]. *)

From S2P Require Import Prelude Errno Bytes.
Open Scope Z_scope.

Definition LINUX_CLONE_VM : Z := 0x00000100.
Definition LINUX_CLONE_FS : Z := 0x00000200.
Definition LINUX_CLONE_FILES : Z := 0x00000400.
Definition LINUX_CLONE_SIGHAND : Z := 0x00000800.
Definition LINUX_CLONE_THREAD : Z := 0x00010000.
Definition LINUX_CLONE_SYSVSEM : Z := 0x00040000.
Definition LINUX_CLONE_SETTLS : Z := 0x00080000.
Definition LINUX_CLONE_PARENT_SETTID : Z := 0x00100000.
Definition LINUX_CLONE_CHILD_CLEARTID : Z := 0x00200000.
Definition LINUX_CLONE_DETACHED : Z := 0x00400000.
Definition LINUX_CLONE_CHILD_SETTID : Z := 0x01000000.
Definition LINUX_THREAD_REQUIRED : Z :=
  LINUX_CLONE_VM .| LINUX_CLONE_FS .| LINUX_CLONE_FILES .| LINUX_CLONE_SIGHAND
  .| LINUX_CLONE_THREAD.
Definition LINUX_THREAD_ALLOWED : Z :=
  LINUX_THREAD_REQUIRED .| LINUX_CLONE_SYSVSEM .| LINUX_CLONE_SETTLS
  .| LINUX_CLONE_PARENT_SETTID .| LINUX_CLONE_CHILD_CLEARTID .| LINUX_CLONE_DETACHED
  .| LINUX_CLONE_CHILD_SETTID.
Definition LINUX_FIRST_REALTIME_SIGNAL : Z := 32.
Definition LINUX_LAST_REALTIME_SIGNAL : Z := 47.
Definition REALTIME_SIGNALS : nat := 16.
Definition REALTIME_QUEUE_LENGTH : Z := 64.

(** The fields of [siginfo_t] the emulator uses. *)
Record siginfo := Siginfo {
  si_errno : Z; si_code : Z; si_addr : Z; si_pid : Z; si_uid : Z }.
Definition zero_siginfo : siginfo := Siginfo 0 0 0 0 0.

(** [realtime_head], [realtime_tail] and the row of [realtime_information] of one
    signal.  The counters are of type [sig_atomic_t], 32 bits with a sign. *)
Record rt_queue := RtQueue { rq_head : Z; rq_tail : Z; rq_ring : list siginfo }.
Definition empty_queue : rt_queue := RtQueue 0 0 (replicate 64 zero_siginfo).

(** A Linux signal mask: the words of signals 1 to 32 and 33 to 64. *)
Record sigwords := Words { word0 : Z; word1 : Z }.

(** [struct guest_thread_state], without the fields of the host's thread. *)
Record thread := Thread {
  t_registers : list Z;
  t_tls : Z;
  t_clear_child_tid : Z;
  t_child_tid : Z;
  t_tid : Z;
  t_pending : sigwords;
  t_pending_info : list siginfo;
  t_realtime : list rt_queue;
  t_mask : sigwords;
  t_suspend_restore : option sigwords;
  t_futex_semaphore : option Z;
  t_futex_interrupted : bool;
  t_syscall_active : bool;
  t_wait_read_fd : Z;
  t_wait_write_fd : Z;
  t_altstack_pointer : Z;
  t_altstack_size : Z;
  t_deferred_start : Z;
  t_deferred_length : Z }.

(** All zero, as [calloc] and [memset] leave it, but for the two descriptors. *)
Definition zero_thread : thread :=
  Thread (replicate 16 0) 0 0 0 0 (Words 0 0) (replicate 31 zero_siginfo)
    (replicate REALTIME_SIGNALS empty_queue) (Words 0 0) None None false false (-1) (-1) 0 0 0 0.

(** Assignments to the fields the operations write. *)
Definition set_pending (p : sigwords) (info : list siginfo) (t : thread) : thread :=
  Thread (t_registers t) (t_tls t) (t_clear_child_tid t) (t_child_tid t) (t_tid t) p info
    (t_realtime t) (t_mask t) (t_suspend_restore t) (t_futex_semaphore t) (t_futex_interrupted t)
    (t_syscall_active t) (t_wait_read_fd t) (t_wait_write_fd t) (t_altstack_pointer t)
    (t_altstack_size t) (t_deferred_start t) (t_deferred_length t).
Definition set_realtime (q : list rt_queue) (t : thread) : thread :=
  Thread (t_registers t) (t_tls t) (t_clear_child_tid t) (t_child_tid t) (t_tid t) (t_pending t)
    (t_pending_info t) q (t_mask t) (t_suspend_restore t) (t_futex_semaphore t)
    (t_futex_interrupted t) (t_syscall_active t) (t_wait_read_fd t) (t_wait_write_fd t)
    (t_altstack_pointer t) (t_altstack_size t) (t_deferred_start t) (t_deferred_length t).
Definition set_mask (mask : sigwords) (restore : option sigwords) (t : thread) : thread :=
  Thread (t_registers t) (t_tls t) (t_clear_child_tid t) (t_child_tid t) (t_tid t) (t_pending t)
    (t_pending_info t) (t_realtime t) mask restore (t_futex_semaphore t)
    (t_futex_interrupted t) (t_syscall_active t) (t_wait_read_fd t) (t_wait_write_fd t)
    (t_altstack_pointer t) (t_altstack_size t) (t_deferred_start t) (t_deferred_length t).
Definition set_futex (semaphore : option Z) (interrupted : bool) (t : thread) : thread :=
  Thread (t_registers t) (t_tls t) (t_clear_child_tid t) (t_child_tid t) (t_tid t) (t_pending t)
    (t_pending_info t) (t_realtime t) (t_mask t) (t_suspend_restore t) semaphore interrupted
    (t_syscall_active t) (t_wait_read_fd t) (t_wait_write_fd t)
    (t_altstack_pointer t) (t_altstack_size t) (t_deferred_start t) (t_deferred_length t).
Definition set_altstack (pointer size : Z) (t : thread) : thread :=
  Thread (t_registers t) (t_tls t) (t_clear_child_tid t) (t_child_tid t) (t_tid t) (t_pending t)
    (t_pending_info t) (t_realtime t) (t_mask t) (t_suspend_restore t) (t_futex_semaphore t)
    (t_futex_interrupted t) (t_syscall_active t) (t_wait_read_fd t) (t_wait_write_fd t)
    pointer size (t_deferred_start t) (t_deferred_length t).
Definition set_deferred (start length : Z) (t : thread) : thread :=
  Thread (t_registers t) (t_tls t) (t_clear_child_tid t) (t_child_tid t) (t_tid t) (t_pending t)
    (t_pending_info t) (t_realtime t) (t_mask t) (t_suspend_restore t) (t_futex_semaphore t)
    (t_futex_interrupted t) (t_syscall_active t) (t_wait_read_fd t) (t_wait_write_fd t)
    (t_altstack_pointer t) (t_altstack_size t) start length.

Definition set_wait (read_fd write_fd : Z) (t : thread) : thread :=
  Thread (t_registers t) (t_tls t) (t_clear_child_tid t) (t_child_tid t) (t_tid t) (t_pending t)
    (t_pending_info t) (t_realtime t) (t_mask t) (t_suspend_restore t) (t_futex_semaphore t)
    (t_futex_interrupted t) (t_syscall_active t) read_fd write_fd
    (t_altstack_pointer t) (t_altstack_size t) (t_deferred_start t) (t_deferred_length t).
Definition set_clear_child_tid (address : Z) (t : thread) : thread :=
  Thread (t_registers t) (t_tls t) address (t_child_tid t) (t_tid t) (t_pending t)
    (t_pending_info t) (t_realtime t) (t_mask t) (t_suspend_restore t) (t_futex_semaphore t)
    (t_futex_interrupted t) (t_syscall_active t) (t_wait_read_fd t) (t_wait_write_fd t)
    (t_altstack_pointer t) (t_altstack_size t) (t_deferred_start t) (t_deferred_length t).
Definition set_tls (value : Z) (t : thread) : thread :=
  Thread (t_registers t) value (t_clear_child_tid t) (t_child_tid t) (t_tid t) (t_pending t)
    (t_pending_info t) (t_realtime t) (t_mask t) (t_suspend_restore t) (t_futex_semaphore t)
    (t_futex_interrupted t) (t_syscall_active t) (t_wait_read_fd t) (t_wait_write_fd t)
    (t_altstack_pointer t) (t_altstack_size t) (t_deferred_start t) (t_deferred_length t).

(** ** Signal words *)

(** [words[(number - 1) / 32] & (1u << ((number - 1) % 32))] *)
Definition word_of (w : sigwords) (number : Z) : Z :=
  if (number - 1) / 32 =? 0 then word0 w else word1 w.
Definition bit_of (number : Z) : Z := Z.shiftl 1 ((number - 1) mod 32).
Definition in_words (w : sigwords) (number : Z) : bool := has (word_of w number) (bit_of number).
Definition add_word (w : sigwords) (number : Z) : sigwords :=
  if (number - 1) / 32 =? 0 then Words (word0 w .| bit_of number) (word1 w)
  else Words (word0 w) (word1 w .| bit_of number).

(** ** Pending signals *)

(** What a call does outside the thread's state: wake the futex wait and write
    to the descriptor of a signal wait. *)
Inductive notification : Set := PostSemaphore (s : Z) | WriteByte (fd : Z).

Definition information_or_zero (information : option siginfo) : siginfo :=
  match information with Some i => i | None => zero_siginfo end.

(** The entry [realtime_information[index][counter % REALTIME_QUEUE_LENGTH]], counted
    from the start of the array; the remainder has the sign of [counter]. *)
Definition rt_position (index : nat) (counter : Z) : Z :=
  REALTIME_QUEUE_LENGTH * Z.of_nat index + Z.rem counter REALTIME_QUEUE_LENGTH.

(** The entry at a position, which is in the row of another signal when the remainder
    is negative.  In the first row it is then before the array; what is there is not
    modelled. *)
Definition ring_store (position : Z) (information : siginfo) (queues : list rt_queue) : list rt_queue :=
  if position <? 0 then queues
  else alter (fun q => RtQueue (rq_head q) (rq_tail q)
                (<[Z.to_nat (position mod REALTIME_QUEUE_LENGTH) := information]> (rq_ring q)))
         (Z.to_nat (position / REALTIME_QUEUE_LENGTH)) queues.
Definition ring_load (position : Z) (queues : list rt_queue) : siginfo :=
  if position <? 0 then zero_siginfo
  else nth (Z.to_nat (position mod REALTIME_QUEUE_LENGTH))
         (rq_ring (nth (Z.to_nat (position / REALTIME_QUEUE_LENGTH)) queues empty_queue)) zero_siginfo.

(** The real-time branch of [guest_thread_signal_pending].  The sums of the counters
    wrap around, which is what the compiled code does; to the language an overflow is
    undefined. *)
Definition rt_push (queues : list rt_queue) (index : nat) (information : option siginfo)
  : list rt_queue :=
  let q := nth index queues empty_queue in
  let tail := rq_tail q in
  if s32 (tail - rq_head q) <? REALTIME_QUEUE_LENGTH then
    alter (fun q => RtQueue (rq_head q) (s32 (tail + 1)) (rq_ring q)) index
      (ring_store (rt_position index tail) (information_or_zero information) queues)
  else queues.

Definition rt_index (linux_signal : Z) : nat :=
  Z.to_nat (linux_signal - LINUX_FIRST_REALTIME_SIGNAL).

Definition is_realtime (linux_signal : Z) : bool :=
  (LINUX_FIRST_REALTIME_SIGNAL <=? linux_signal) && (linux_signal <=? LINUX_LAST_REALTIME_SIGNAL).

Definition guest_thread_signal_pending (t : option thread) (linux_signal : Z)
    (information : option siginfo) : option thread * list notification :=
  match t with
  | None => (None, [])
  | Some t =>
    if (0 <? linux_signal) && (linux_signal <=? 64) then
      let t :=
        if is_realtime linux_signal then
          set_realtime (rt_push (t_realtime t) (rt_index linux_signal) information) t
        else
          let info :=
            if negb (in_words (t_pending t) linux_signal) && (linux_signal <=? 31)
            then <[Z.to_nat (linux_signal - 1) := information_or_zero information]>
                   (t_pending_info t)
            else t_pending_info t in
          set_pending (add_word (t_pending t) linux_signal) info t in
      let (t, posts) := match t_futex_semaphore t with
                        | Some s => (set_futex (Some s) true t, [PostSemaphore s])
                        | None => (t, [])
                        end in
      (Some t, posts ++ (if 0 <=? t_wait_write_fd t then [WriteByte (t_wait_write_fd t)] else []))
    else (Some t, [])
  end.

(** [__builtin_ctz] of a non-zero word. *)
Fixpoint count_trailing_zeros (fuel : nat) (w : Z) : Z :=
  match fuel with
  | O => 0
  | S fuel => if Z.testbit w 0 then 0 else 1 + count_trailing_zeros fuel (Z.shiftr w 1)
  end.

(** The loop over the real-time signals from [number] on. *)
Fixpoint take_realtime (n : nat) (t : thread) (number : Z) : option (Z * siginfo * thread) :=
  match n with
  | O => None
  | S n =>
    let q := nth (rt_index number) (t_realtime t) empty_queue in
    if in_words (t_mask t) number then take_realtime n t (number + 1)
    else if rq_head q =? rq_tail q then take_realtime n t (number + 1)
    else
      let info := ring_load (rt_position (rt_index number) (rq_head q)) (t_realtime t) in
      Some (number, info,
            set_realtime (<[rt_index number := RtQueue (s32 (rq_head q + 1)) (rq_tail q) (rq_ring q)]>
                            (t_realtime t)) t)
  end.

(** [guest_thread_take_pending]: the signal with its information (0 and zeros
    when there is none) and the state. *)
Definition guest_thread_take_pending (t : option thread) : Z * siginfo * bool * option thread :=
  match t with
  | None => (0, zero_siginfo, false, None)
  | Some t =>
    let candidates := word0 (t_pending t) .&~ word0 (t_mask t) in
    if negb (candidates =? 0) then
      let signal_number := count_trailing_zeros 32 candidates + 1 in
      let info := nth (Z.to_nat (signal_number - 1)) (t_pending_info t) zero_siginfo in
      (signal_number, info, true,
       Some (set_pending (Words (word0 (t_pending t) .&~ bit_of signal_number)
                            (word1 (t_pending t))) (t_pending_info t) t))
    else match take_realtime REALTIME_SIGNALS t LINUX_FIRST_REALTIME_SIGNAL with
         | Some (number, info, t) => (number, info, true, Some t)
         | None => (0, zero_siginfo, false, Some t)
         end
  end.

(** ** Masks, waits and alternate stacks *)

Definition guest_thread_signal_mask_get (t : option thread) : sigwords :=
  match t with None => Words 0 0 | Some t => t_mask t end.
Definition guest_thread_signal_mask_set (t : option thread) (words : sigwords) : option thread :=
  match t with None => None | Some t => Some (set_mask words (t_suspend_restore t) t) end.
Definition guest_thread_signal_suspend_restore (t : option thread) (words : sigwords)
  : option thread :=
  match t with None => None | Some t => Some (set_mask (t_mask t) (Some words) t) end.

(** The mask a signal frame records: the one to restore after a suspension, once. *)
Definition guest_thread_signal_delivery_mask (t : option thread) : sigwords * option thread :=
  match t with
  | Some s =>
    match t_suspend_restore s with
    | Some words => (words, Some (set_mask (t_mask s) None s))
    | None => (guest_thread_signal_mask_get t, t)
    end
  | None => (guest_thread_signal_mask_get t, t)
  end.

Definition guest_thread_signal_wait_interrupted (t : option thread) (old_words : sigwords)
  : option thread := guest_thread_signal_suspend_restore t old_words.
Definition guest_thread_signal_wait_complete (t : option thread) (old_words : sigwords)
  : option thread :=
  guest_thread_signal_mask_set
    (match t with None => None | Some t => Some (set_mask (t_mask t) None t) end) old_words.

(** Whether [guest_thread_signal_wait_arm] finds a deliverable signal. *)
Fixpoint realtime_deliverable (n : nat) (t : thread) (number : Z) : bool :=
  match n with
  | O => false
  | S n =>
    let q := nth (rt_index number) (t_realtime t) empty_queue in
    (negb (in_words (t_mask t) number) && negb (rq_head q =? rq_tail q))
    || realtime_deliverable n t (number + 1)
  end.
Definition guest_thread_signal_wait_arm (t : option thread) : list notification :=
  match t with
  | None => []
  | Some t =>
    if t_wait_write_fd t <? 0 then []
    else if negb ((word0 (t_pending t) .&~ word0 (t_mask t)) =? 0) then [WriteByte (t_wait_write_fd t)]
    else if realtime_deliverable REALTIME_SIGNALS t LINUX_FIRST_REALTIME_SIGNAL
    then [WriteByte (t_wait_write_fd t)] else []
  end.

(** The host's [pipe] and the four [fcntl] calls that follow it, by number. *)
Record wait_host := WaitHost {
  wh_pipe : errno + (Z * Z);
  wh_fcntl : nat -> option errno }.

(** [guest_thread_signal_wait_begin]: the descriptor to wait on or the error, the
    thread, and the descriptors the call has closed. *)
Definition guest_thread_signal_wait_begin (host : wait_host) (t : option thread)
  : (errno + Z) * option thread * list Z :=
  match t with
  | None => (inl EINVAL, None, [])
  | Some s =>
    match wh_pipe host with
    | inl e => (inl e, t, [])
    | inr (descriptor0, descriptor1) =>
      match omap (wh_fcntl host) [0; 1; 2; 3]%nat with
      | e :: _ => (inl e, t, [descriptor0; descriptor1])
      | [] => (inr descriptor0, Some (set_wait descriptor0 descriptor1 s), [])
      end
    end
  end.

(** [guest_thread_signal_wait_end]: the thread and the descriptors closed. *)
Definition guest_thread_signal_wait_end (t : option thread) : option thread * list Z :=
  match t with
  | None => (None, [])
  | Some s => (Some (set_wait (-1) (-1) s),
               List.filter (fun fd => 0 <=? fd) [t_wait_read_fd s; t_wait_write_fd s])
  end.

(** [guest_thread_tid], [guest_thread_set_tid_address], [runtime_set_guest_tls]. *)
Definition TID_MASK : Z := 0x3fffffff.
Definition initial_guest_tid (pid : Z) : Z :=
  let tid := u32 pid .& TID_MASK in if tid =? 0 then 1 else tid.
Definition guest_thread_tid (pid : Z) (t : option thread) : Z :=
  match t with None => initial_guest_tid pid | Some t => t_tid t end.
Definition guest_thread_set_tid_address (pid : Z) (t : option thread) (address : Z)
  : Z * option thread :=
  let t := match t with None => None | Some t => Some (set_clear_child_tid address t) end in
  (guest_thread_tid pid t, t).
Definition runtime_set_guest_tls (t : option thread) (value : Z) : option thread :=
  match t with None => None | Some t => Some (set_tls value t) end.

Definition guest_thread_futex_wait_begin (t : option thread) (semaphore : Z) : option thread :=
  match t with None => None | Some t => Some (set_futex (Some semaphore) false t) end.
Definition guest_thread_futex_wait_end (t : option thread) : bool * option thread :=
  match t with
  | None => (false, None)
  | Some t => (t_futex_interrupted t, Some (set_futex None false t))
  end.

Definition guest_thread_altstack_get (t : option thread) : Z * Z :=
  match t with None => (0, 0) | Some t => (t_altstack_pointer t, t_altstack_size t) end.
Definition guest_thread_altstack_set (t : option thread) (pointer size : Z) : option thread :=
  match t with None => None | Some t => Some (set_altstack pointer size t) end.

(** [guest_thread_defer_active_stack_unmap]; [active_stack] is the address of a
    local variable.  The sums are those of [uintptr_t]. *)
Definition guest_thread_defer_active_stack_unmap (t : option thread)
    (active_stack address length : Z) : bool * option thread :=
  match t with
  | None => (false, None)
  | Some t =>
    if (active_stack <? address) || (length <=? active_stack - address) then (false, Some t)
    else
      let start := address in
      let end_ := u32 (address + length) in
      let '(start, end_) :=
        if negb (t_deferred_length t =? 0) then
          let old_start := t_deferred_start t in
          let old_end := u32 (old_start + t_deferred_length t) in
          (if old_start <? start then old_start else start,
           if end_ <? old_end then old_end else end_)
        else (start, end_) in
      (true, Some (set_deferred start (u32 (end_ - start)) t))
  end.

(** ** Thread identifiers *)

(** The [do .. while] makes at most two rounds. *)
Fixpoint allocate_loop (fuel : nat) (next_tid : Z) : option (Z * Z) :=
  match fuel with
  | O => None
  | S fuel =>
    let tid := next_tid .& TID_MASK in
    let next_tid := u32 (next_tid + 1) in
    if tid =? 0 then allocate_loop fuel next_tid else Some (tid, next_tid)
  end.
Definition allocate_guest_tid (next_tid : Z) : option (Z * Z) := allocate_loop 2 next_tid.

(** ** Creating a thread *)

(** What the host answers to [calloc] and [pthread_create] (with its attribute
    calls). *)
Record clone_host := CloneHost { calloc_ok : bool; create_error : option errno }.

Section clone.
Context `{!HostErrno}.

(** The state of the child before it is started. *)
Definition child_thread (gpr : list Z) (parent : thread) (tid : Z) : thread :=
  let flags := nth 0 gpr 0 in
  Thread (<[15%nat := u32 (nth 15 gpr 0 + 4)]> (<[13%nat := nth 1 gpr 0]> (<[0%nat := 0]> gpr)))
    (if has flags LINUX_CLONE_SETTLS then nth 3 gpr 0 else t_tls parent)
    (if has flags LINUX_CLONE_CHILD_CLEARTID then nth 4 gpr 0 else 0)
    (if has flags LINUX_CLONE_CHILD_SETTID then nth 4 gpr 0 else 0)
    tid (Words 0 0) (replicate 31 zero_siginfo) (replicate REALTIME_SIGNALS empty_queue)
    (t_mask parent) None None false false (-1) (-1) 0 0 0 0.

(** [guest_thread_clone]: the return value, the registry, [next_tid] and memory;
    [None] when [allocate_guest_tid] runs out of rounds. *)
Definition guest_thread_clone (host : clone_host) (gpr : list Z) (parent : thread)
    (registry : list thread) (next_tid : Z) (m : gmap Z Z)
  : option (Z * list thread * Z * gmap Z Z) :=
  let flags := nth 0 gpr 0 in
  if negb ((flags .& LINUX_THREAD_REQUIRED) =? LINUX_THREAD_REQUIRED) ||
     negb ((flags .&~ LINUX_THREAD_ALLOWED) =? 0) || negb ((flags .& 0xff) =? 0) ||
     (nth 1 gpr 0 =? 0)
  then Some (- errno_code EINVAL, registry, next_tid, m)
  else if negb (calloc_ok host) then Some (- errno_code ENOMEM, registry, next_tid, m)
  else match allocate_guest_tid next_tid with
  | None => None
  | Some (tid, next_tid) =>
    match create_error host with
    | Some e => Some (linux_error e, registry, next_tid, m)
    | None =>
      Some (tid, child_thread gpr parent tid :: registry, next_tid,
            if has flags LINUX_CLONE_PARENT_SETTID then store32 m (nth 2 gpr 0) tid else m)
    end
  end.

(** [guest_thread_kill]; [pthread_kill] is the host's answer for a thread. *)
Fixpoint guest_thread_kill (registry : list thread) (pthread_kill : Z -> option errno)
    (tid host_signal : Z) : Z :=
  match registry with
  | [] => linux_error ESRCH
  | t :: rest =>
    if t_tid t =? tid then
      if host_signal =? 0 then 0
      else match pthread_kill tid with None => 0 | Some e => linux_error e end
    else guest_thread_kill rest pthread_kill tid host_signal
  end.
End clone.

(** ** The queues as lists *)

Lemma has_bit x k : 0 <= k -> has x (Z.shiftl 1 k) = Z.testbit x k.
Proof.
  intros Hk. unfold has. rewrite Z.shiftl_1_l. destruct (Z.testbit x k) eqn:E.
  - apply negb_true_iff, Z.eqb_neq. intros Hz. apply (f_equal (fun z => Z.testbit z k)) in Hz.
    by rewrite Z.land_spec, E, Z.pow2_bits_true, Z.bits_0 in Hz.
  - apply negb_false_iff, Z.eqb_eq, Z.bits_inj'. intros i Hi. rewrite Z.land_spec, Z.bits_0.
    destruct (decide (i = k)) as [->|Hne]; [by rewrite E|].
    rewrite Z.pow2_bits_false by done. apply andb_false_r.
Qed.

Lemma in_words_bit w number :
  in_words w number = Z.testbit (word_of w number) ((number - 1) mod 32).
Proof. unfold in_words, bit_of. apply has_bit. apply Z.mod_pos_bound. done. Qed.

(** The ring entry of a counter value. *)
Definition ring_at (q : rt_queue) (j : Z) : siginfo :=
  nth (Z.to_nat (j mod REALTIME_QUEUE_LENGTH)) (rq_ring q) zero_siginfo.
Definition rt_list (q : rt_queue) : list siginfo :=
  ring_at q <$> seqZ (rq_head q) (rq_tail q - rq_head q).

(** A queue whose counters have not wrapped around. *)
Record rq_wf (q : rt_queue) : Prop := {
  rq_order : 0 <= rq_head q <= rq_tail q;
  rq_room : rq_tail q <= rq_head q + REALTIME_QUEUE_LENGTH;
  rq_int : rq_tail q <= INT_MAX;
  rq_length : length (rq_ring q) = 64%nat }.

(** What remains of it when they have: the difference, computed as the code does. *)
Record rq_shape (q : rt_queue) : Prop := {
  rs_head : is_s32 (rq_head q);
  rs_tail : is_s32 (rq_tail q);
  rs_count : 0 <= s32 (rq_tail q - rq_head q) <= REALTIME_QUEUE_LENGTH;
  rs_length : length (rq_ring q) = 64%nat }.

Lemma rq_wf_shape q : rq_wf q -> rq_shape q.
Proof.
  intros [Ho Hr Hi Hl]. unfold REALTIME_QUEUE_LENGTH in *.
  split; [unfold is_s32, INT_MIN in *; lia..| |done]. rewrite s32_small by lia. unfold REALTIME_QUEUE_LENGTH. lia.
Qed.

(** The specification of a bounded queue: what does not fit is dropped. *)
Definition push_bounded {A} (bound : nat) (l : list A) (x : A) : list A :=
  if (length l <? bound)%nat then l ++ [x] else l.

Lemma rt_list_length q : rq_wf q -> Z.of_nat (length (rt_list q)) = rq_tail q - rq_head q.
Proof. intros [? _ _]. unfold rt_list. rewrite length_fmap, length_seqZ. lia. Qed.

(** The queue a real-time signal is added to, as long as its counter has room. *)
Definition push_row (information : option siginfo) (q : rt_queue) : rt_queue :=
  if rq_tail q - rq_head q <? REALTIME_QUEUE_LENGTH then
    RtQueue (rq_head q) (rq_tail q + 1)
      (<[Z.to_nat (rq_tail q mod REALTIME_QUEUE_LENGTH) := information_or_zero information]> (rq_ring q))
  else q.

Lemma rt_position_row index counter :
  0 <= counter -> (rt_position index counter <? 0) = false /\
  Z.to_nat (rt_position index counter / REALTIME_QUEUE_LENGTH) = index /\
  rt_position index counter mod REALTIME_QUEUE_LENGTH = counter mod REALTIME_QUEUE_LENGTH.
Proof.
  intros Hc. unfold rt_position, REALTIME_QUEUE_LENGTH. rewrite Z.rem_mod_nonneg by lia.
  pose proof (Z.mod_pos_bound counter 64 ltac:(lia)). split_and!.
  - apply Z.ltb_ge. lia.
  - replace (_ / 64) with (Z.of_nat index); [apply Nat2Z.id|]. mlia.
  - mlia.
Qed.

Lemma ring_load_row queues index q :
  queues !! index = Some q -> 0 <= rq_head q ->
  ring_load (rt_position index (rq_head q)) queues = ring_at q (rq_head q).
Proof.
  intros Hq Hh. destruct (rt_position_row index (rq_head q) Hh) as (H1 & H2 & H3).
  unfold ring_load. by rewrite H1, H2, H3, (nth_lookup_Some _ _ _ _ Hq).
Qed.

Lemma list_alter_insert {A} (f : A -> A) (l : list A) i x : l !! i = Some x -> alter f i l = <[i := f x]> l.
Proof.
  intros Hx. apply list_eq. intros j. destruct (decide (i = j)) as [<-|Hne].
  - rewrite list_lookup_alter_eq, list_lookup_insert_eq by (by eapply lookup_lt_Some). by rewrite Hx.
  - by rewrite list_lookup_alter_ne, list_lookup_insert_ne.
Qed.

Lemma rt_push_row queues index q information :
  queues !! index = Some q -> rq_wf q -> rq_tail q < INT_MAX ->
  rt_push queues index information = <[index := push_row information q]> queues.
Proof.
  intros Hq [Ho Hr Hi Hl] Hroom. unfold rt_push, push_row.
  rewrite (nth_lookup_Some _ _ _ _ Hq). unfold REALTIME_QUEUE_LENGTH in Hr.
  rewrite (s32_small (rq_tail q - rq_head q)) by lia.
  destruct (_ <? _); [|by rewrite list_insert_id].
  destruct (rt_position_row index (rq_tail q)) as (H1 & H2 & H3); [lia|].
  unfold ring_store. rewrite H1, H2, H3, (s32_small (rq_tail q + 1)) by lia.
  rewrite (list_alter_insert _ _ _ _ Hq), (list_alter_insert _ _ index _
    (list_lookup_insert_eq _ _ _ (lookup_lt_Some _ _ _ Hq))). by rewrite list_insert_insert_eq.
Qed.

Lemma push_row_spec q information :
  rq_wf q -> rq_tail q < INT_MAX ->
  rq_wf (push_row information q) /\
  rt_list (push_row information q) = push_bounded 64 (rt_list q) (information_or_zero information).
Proof.
  intros Hwf Hint. pose proof (rt_list_length q Hwf) as Hlen. pose proof Hwf as [Ho Hr Hi Hl].
  unfold push_row, push_bounded, REALTIME_QUEUE_LENGTH in *.
  destruct (_ <? 64) eqn:E; bprop.
  2:{ split; [done|]. by rewrite (proj2 (Nat.ltb_ge _ _)) by lia. }
  split; [split; simpl; [lia|unfold REALTIME_QUEUE_LENGTH; lia|lia|by rewrite length_insert]|].
  rewrite (proj2 (Nat.ltb_lt _ _)) by lia. unfold rt_list. cbn [rq_head rq_tail].
  replace (rq_tail q + 1 - rq_head q) with ((rq_tail q - rq_head q) + 1) by lia.
  rewrite seqZ_app, fmap_app by lia. f_equal.
  - apply list_fmap_ext. intros i j Hj%lookup_seqZ. unfold ring_at. cbn [rq_ring].
    rewrite nth_insert_ne; [done|]. unfold REALTIME_QUEUE_LENGTH. mlia.
  - simpl. unfold ring_at. cbn [rq_ring]. unfold REALTIME_QUEUE_LENGTH.
    replace (rq_head q + (rq_tail q - rq_head q)) with (rq_tail q) by lia.
    rewrite nth_insert_eq by mlia. done.
Qed.

Lemma rt_pop_spec q :
  rq_wf q -> rq_head q <> rq_tail q ->
  let q' := RtQueue (s32 (rq_head q + 1)) (rq_tail q) (rq_ring q) in
  rq_wf q' /\ rt_list q = ring_at q (rq_head q) :: rt_list q'.
Proof.
  intros [Ho Hr Hi Hl] Hne q'. unfold REALTIME_QUEUE_LENGTH in *. subst q'. rewrite s32_small by lia. split.
  { split; simpl; [lia|unfold REALTIME_QUEUE_LENGTH; lia|done|done]. }
  unfold rt_list. cbn [rq_head rq_tail].
  rewrite (seqZ_cons (rq_head q)) by lia. rewrite fmap_cons. f_equal.
  replace (Z.pred (rq_tail q - rq_head q)) with (rq_tail q - (rq_head q + 1)) by lia.
  by replace (Z.succ (rq_head q)) with (rq_head q + 1) by lia.
Qed.

Lemma rt_list_nil q : rq_wf q -> rt_list q = [] <-> rq_head q = rq_tail q.
Proof.
  intros Hwf. pose proof (rt_list_length q Hwf) as Hlen. split.
  - intros Hn. rewrite Hn in Hlen. simpl in Hlen. lia.
  - intros He. destruct (rt_list q); [done|]. simpl in Hlen. lia.
Qed.

(** [__builtin_ctz] finds the lowest bit. *)
Lemma ctz_spec fuel w :
  0 < w < 2 ^ Z.of_nat fuel ->
  let k := count_trailing_zeros fuel w in
  0 <= k < Z.of_nat fuel /\ Z.testbit w k = true /\ forall j, 0 <= j < k -> Z.testbit w j = false.
Proof.
  revert w. induction fuel as [|fuel IH]; intros w Hw; [simpl in Hw; lia|].
  cbn [count_trailing_zeros]. destruct (Z.testbit w 0) eqn:E0; cbv zeta.
  { split_and!; [lia|lia|done|intros; lia]. }
  assert (Hhalf : w = 2 * Z.shiftr w 1).
  { rewrite Z.shiftr_div_pow2 by done. change (2 ^ 1) with 2.
    rewrite Z.bit0_odd, <- Z.negb_even in E0. apply negb_false_iff, Z.even_spec in E0 as [h ->].
    rewrite (Z.mul_comm 2 h), Z.div_mul by done. lia. }
  destruct (IH (Z.shiftr w 1)) as (H1 & H2 & H3).
  { rewrite Nat2Z.inj_succ, Z.pow_succ_r in Hw by lia. lia. }
  set (k := count_trailing_zeros fuel (Z.shiftr w 1)) in *. cbv zeta in *.
  split_and!; [lia|lia| |].
  - rewrite Z.shiftr_spec in H2 by lia. by replace (1 + k) with (k + 1) by lia.
  - intros j Hj. destruct (decide (j = 0)) as [->|]; [done|].
    specialize (H3 (j - 1) ltac:(lia)). rewrite Z.shiftr_spec in H3 by lia.
    by replace (j - 1 + 1) with j in H3 by lia.
Qed.

(** ** Pending signals as bounded queues *)

(** The signals that can be pending: 1 to 31 and the real-time signals 32 to 47. *)
Definition queueable (n : Z) : Prop := 1 <= n <= 31 \/ 32 <= n <= 47.

(** The queue of a signal: at most one entry for an ordinary signal. *)
Definition pending_view (t : thread) (n : Z) : list siginfo :=
  if is_realtime n then rt_list (nth (rt_index n) (t_realtime t) empty_queue)
  else if in_words (t_pending t) n then [nth (Z.to_nat (n - 1)) (t_pending_info t) zero_siginfo]
  else [].
Definition pending_bound (n : Z) : nat := if is_realtime n then 64 else 1.

Record thread_wf (t : thread) : Prop := {
  tw_pending : 0 <= word0 (t_pending t) < 2 ^ 31;
  tw_info : length (t_pending_info t) = 31%nat;
  tw_queues : length (t_realtime t) = REALTIME_SIGNALS;
  tw_rq : Forall rq_wf (t_realtime t) }.

(** What holds of a thread whatever the counters of its queues have come to. *)
Record thread_shape (t : thread) : Prop := {
  tsh_pending : 0 <= word0 (t_pending t) < 2 ^ 31;
  tsh_info : length (t_pending_info t) = 31%nat;
  tsh_queues : length (t_realtime t) = REALTIME_SIGNALS;
  tsh_rq : Forall rq_shape (t_realtime t) }.

Lemma thread_wf_shape t : thread_wf t -> thread_shape t.
Proof. intros [? ? ? ?]. split; try done. eapply Forall_impl; [done|]. apply rq_wf_shape. Qed.

(** The counter of a signal can take one more instance without overflow. *)
Definition counter_room (t : thread) (n : Z) : Prop :=
  is_realtime n = true -> rq_tail (nth (rt_index n) (t_realtime t) empty_queue) < INT_MAX.

Lemma is_realtime_spec n : is_realtime n = true <-> 32 <= n <= 47.
Proof.
  unfold is_realtime, LINUX_FIRST_REALTIME_SIGNAL, LINUX_LAST_REALTIME_SIGNAL.
  rewrite andb_true_iff, !Z.leb_le. done.
Qed.

Lemma is_realtime_false n : 1 <= n <= 31 -> is_realtime n = false.
Proof. intros Hn. apply not_true_iff_false. rewrite is_realtime_spec. lia. Qed.

(** The words and bits of the ordinary signals. *)
Lemma in_words_low w n : 1 <= n <= 32 -> in_words w n = Z.testbit (word0 w) (n - 1).
Proof.
  intros Hn. rewrite in_words_bit. unfold word_of.
  rewrite (proj2 (Z.eqb_eq _ _)) by mlia. f_equal. mlia.
Qed.

Lemma add_word_low w n k :
  1 <= n <= 31 -> 0 <= k -> Z.testbit (word0 (add_word w n)) k =
  Z.testbit (word0 w) k || (k =? n - 1).
Proof.
  intros Hn Hk. unfold add_word, bit_of. rewrite (proj2 (Z.eqb_eq _ _)) by mlia. cbn [word0].
  rewrite Z.lor_spec, Z.shiftl_1_l. f_equal.
  replace ((n - 1) mod 32) with (n - 1) by mlia. rewrite Z.pow2_bits_eqb by lia.
  apply Z.eqb_sym.
Qed.

Lemma add_word_range w n :
  1 <= n <= 31 -> 0 <= word0 w < 2 ^ 31 -> 0 <= word0 (add_word w n) < 2 ^ 31.
Proof.
  intros Hn Hw. unfold add_word, bit_of. rewrite (proj2 (Z.eqb_eq _ _)) by mlia. cbn [word0].
  replace ((n - 1) mod 32) with (n - 1) by mlia. rewrite Z.shiftl_1_l.
  assert (Hp : 0 < 2 ^ (n - 1) < 2 ^ 31).
  { split; [apply Z.pow_pos_nonneg; lia|apply Z.pow_lt_mono_r; lia]. }
  split; [apply Z.lor_nonneg; lia|].
  destruct (Z.eq_dec (word0 w .| 2 ^ (n - 1)) 0) as [->|Hne]; [lia|].
  assert (0 <= word0 w .| 2 ^ (n - 1)) by (apply Z.lor_nonneg; lia).
  apply Z.log2_lt_pow2; [lia|]. rewrite Z.log2_lor by lia.
  apply Z.max_lub_lt; [|apply Z.log2_lt_pow2; lia].
  destruct (Z.eq_dec (word0 w) 0) as [->|]; [done|]. apply Z.log2_lt_pow2; lia.
Qed.

Lemma nth_alter_eq {A} (f : A -> A) (l : list A) i d :
  (i < length l)%nat -> nth i (alter f i l) d = f (nth i l d).
Proof.
  intros Hi. rewrite !nth_lookup, list_lookup_alter_eq. destruct (lookup_lt_is_Some_2 l i Hi) as [x ->].
  done.
Qed.

Lemma nth_alter_ne {A} (f : A -> A) (l : list A) i j d :
  i <> j -> nth j (alter f i l) d = nth j l d.
Proof. intros Hij. by rewrite !nth_lookup, list_lookup_alter_ne. Qed.

(** The notifications change nothing a view depends on. *)
Lemma view_set_futex s b t n : pending_view (set_futex s b t) n = pending_view t n.
Proof. done. Qed.

Lemma rt_nth_wf t i : thread_wf t -> (i < REALTIME_SIGNALS)%nat -> rq_wf (nth i (t_realtime t) empty_queue).
Proof.
  intros [_ _ Hl Hq] Hi. rewrite Forall_forall in Hq. apply Hq, list_elem_of_In, nth_In. lia.
Qed.

(** The thread state after the queueing, before the notifications. *)
Lemma pending_update t n information :
  queueable n ->
  exists t' l, guest_thread_signal_pending (Some t) n information = (Some t', l) /\
    t_mask t' = t_mask t /\ t_realtime t' =
      (if is_realtime n then rt_push (t_realtime t) (rt_index n) information
       else t_realtime t) /\
    t_pending t' = (if is_realtime n then t_pending t else add_word (t_pending t) n) /\
    t_pending_info t' =
      (if is_realtime n then t_pending_info t
       else if negb (in_words (t_pending t) n)
       then <[Z.to_nat (n - 1) := information_or_zero information]> (t_pending_info t)
       else t_pending_info t).
Proof.
  intros Hn. unfold guest_thread_signal_pending.
  rewrite (proj2 (Z.ltb_lt 0 n)), (proj2 (Z.leb_le n 64)) by (unfold queueable in Hn; lia).
  cbn [andb]. destruct (is_realtime n) eqn:Er.
  - cbn. destruct (t_futex_semaphore t); by do 2 eexists.
  - assert (Hlow : (n <=? 31) = true).
    { apply Z.leb_le. destruct Hn as [|Hn]; [lia|]. apply is_realtime_spec in Hn. congruence. }
    rewrite Hlow, andb_true_r. cbn. destruct (t_futex_semaphore t); by do 2 eexists.
Qed.

Lemma rt_index_inj n n' : 32 <= n -> 32 <= n' -> rt_index n = rt_index n' -> n = n'.
Proof. unfold rt_index, LINUX_FIRST_REALTIME_SIGNAL. lia. Qed.

Lemma rt_index_lt n : 32 <= n <= 47 -> (rt_index n < REALTIME_SIGNALS)%nat.
Proof. unfold rt_index, LINUX_FIRST_REALTIME_SIGNAL, REALTIME_SIGNALS. lia. Qed.

Lemma rt_nth_lookup t n :
  length (t_realtime t) = REALTIME_SIGNALS -> 32 <= n <= 47 ->
  t_realtime t !! rt_index n = Some (nth (rt_index n) (t_realtime t) empty_queue).
Proof.
  intros Hl Hn. pose proof (rt_index_lt n Hn).
  destruct (lookup_lt_is_Some_2 (t_realtime t) (rt_index n) ltac:(lia)) as [q Hq].
  by rewrite (nth_lookup_Some _ _ _ _ Hq).
Qed.

Lemma signal_pending_spec (t : thread) (n : Z) (information : option siginfo) :
  thread_wf t -> queueable n -> counter_room t n ->
  exists t' notes, guest_thread_signal_pending (Some t) n information = (Some t', notes) /\
    thread_wf t' /\ t_mask t' = t_mask t /\
    forall n', queueable n' -> pending_view t' n' =
      if n' =? n then push_bounded (pending_bound n) (pending_view t n) (information_or_zero information)
      else pending_view t n'.
Proof.
  intros Hwf Hn Hroom.
  destruct (pending_update t n information Hn) as (t' & l & E & Hm & Hr & Hp & Hi).
  exists t', l. split; [done|]. pose proof Hwf as [Hw1 Hw2 Hw3 Hw4]. destruct Hn as [Hn|Hn].
  - rewrite is_realtime_false in * by done. split; [split|split; [done|]].
    + rewrite Hp. by apply add_word_range.
    + rewrite Hi. cond; [by rewrite length_insert|done].
    + by rewrite Hr.
    + by rewrite Hr.
    + intros n' Hn'. unfold pending_view, pending_bound. rewrite Hr, Hp, Hi.
      rewrite (is_realtime_false n) by done. destruct Hn' as [Hn'|Hn'].
      2:{ rewrite (proj2 (is_realtime_spec n') Hn'). rewrite (proj2 (Z.eqb_neq _ _)) by lia. done. }
      rewrite (is_realtime_false n') by done. rewrite !in_words_low by lia.
      rewrite add_word_low by lia. replace (n' - 1 =? n - 1) with (n' =? n)
        by (destruct (n' =? n) eqn:?, (n' - 1 =? n - 1) eqn:?; bprop; lia || done).
      destruct (n' =? n) eqn:En; bprop.
      * subst n'. rewrite orb_true_r. destruct (Z.testbit _ _); cbn [negb]; [done|].
        unfold push_bounded. simpl. rewrite nth_insert_eq by lia. done.
      * rewrite orb_false_r. destruct (Z.testbit (word0 (t_pending t)) (n' - 1)); [|done].
        cond; [by rewrite nth_insert_ne by lia|done].
  - rewrite (proj2 (is_realtime_spec n) Hn) in *. pose proof (rt_index_lt n Hn) as Hlt.
    pose proof (rt_nth_wf t _ Hwf Hlt) as Hq0. pose proof (rt_nth_lookup t n Hw3 Hn) as Hlk.
    specialize (Hroom (proj2 (is_realtime_spec n) Hn)). rewrite (rt_push_row _ _ _ _ Hlk Hq0 Hroom) in Hr.
    destruct (push_row_spec _ information Hq0 Hroom) as [Hq Hl].
    split; [split|split; [done|]].
    + by rewrite Hp.
    + by rewrite Hi.
    + by rewrite Hr, length_insert.
    + rewrite Hr. by apply Forall_insert.
    + intros n' Hn'. unfold pending_view, pending_bound. rewrite Hr, Hp, Hi.
      rewrite (proj2 (is_realtime_spec n) Hn). destruct Hn' as [Hn'|Hn'].
      { rewrite is_realtime_false by done. by rewrite (proj2 (Z.eqb_neq _ _)) by lia. }
      rewrite (proj2 (is_realtime_spec n') Hn'). destruct (n' =? n) eqn:En; bprop.
      * subst n'. rewrite nth_insert_eq by lia. exact Hl.
      * rewrite nth_insert_ne; [done|]. intros Heq. by apply rt_index_inj in Heq; lia.
Qed.

(** C27: [guest_thread_signal_pending] implements bounded queues: each ordinary
    signal has one of capacity 1 (further instances merge into the first, whose
    information is kept), each real-time signal one of capacity 64, in which
    instances stay in order; what does not fit is dropped.  The queues of other
    signals and the mask are unchanged.  This holds as long as fewer than [INT_MAX]
    instances of the signal have been queued for the thread, the range of the 32-bit
    counter. *)
Theorem signal_pending_refines (t : thread) (n : Z) (information : option siginfo) :
  thread_wf t -> queueable n -> counter_room t n ->
  exists t' notes, guest_thread_signal_pending (Some t) n information = (Some t', notes) /\
    thread_wf t' /\ t_mask t' = t_mask t /\
    forall n', queueable n' -> pending_view t' n' =
      if n' =? n then push_bounded (pending_bound n) (pending_view t n) (information_or_zero information)
      else pending_view t n'.
Proof. exact (signal_pending_spec t n information). Qed.

(** The signals no mask holds back. *)
Definition deliverable (t : thread) (n : Z) : Prop :=
  queueable n /\ in_words (t_mask t) n = false /\ pending_view t n <> [].

Lemma take_realtime_spec k t n :
  thread_wf t -> 32 <= n -> n + Z.of_nat k = 48 ->
  match take_realtime k t n with
  | None => forall n', n <= n' <= 47 -> ~ deliverable t n'
  | Some (s, info, t') => n <= s <= 47 /\ deliverable t s /\ t_mask t' = t_mask t /\
      (forall n', n <= n' < s -> ~ deliverable t n') /\ thread_wf t' /\
      pending_view t s = info :: pending_view t' s /\
      forall n', queueable n' -> n' <> s -> pending_view t' n' = pending_view t n'
  end.
Proof.
  intros Hwf. revert n. induction k as [|k IH]; intros n Hn Hk; cbn [take_realtime].
  { intros. lia. }
  assert (Hrt : 32 <= n <= 47) by lia. pose proof (rt_index_lt n Hrt) as Hlt.
  pose proof (rt_nth_wf t _ Hwf Hlt) as Hq. set (q := nth (rt_index n) (t_realtime t) empty_queue) in *.
  assert (Hview : pending_view t n = rt_list q)
    by (unfold pending_view; by rewrite (proj2 (is_realtime_spec n) Hrt)).
  assert (Hskip : ~ deliverable t n ->
    match take_realtime k t (n + 1) with
    | None => forall n', n <= n' <= 47 -> ~ deliverable t n'
    | Some (s, info, t') => n <= s <= 47 /\ deliverable t s /\ t_mask t' = t_mask t /\
        (forall n', n <= n' < s -> ~ deliverable t n') /\ thread_wf t' /\
        pending_view t s = info :: pending_view t' s /\
        forall n', queueable n' -> n' <> s -> pending_view t' n' = pending_view t n'
    end).
  { intros Hno. specialize (IH (n + 1) ltac:(lia) ltac:(lia)).
    destruct (take_realtime k t (n + 1)) as [[[s info] t']|].
    - destruct IH as (H1 & H2 & H3 & H4 & H5). split; [lia|]. split; [done|]. split; [done|].
      split; [|done]. intros n' Hn'. destruct (decide (n' = n)) as [->|]; [done|]. apply H4. lia.
    - intros n' Hn'. destruct (decide (n' = n)) as [->|]; [done|]. apply IH. lia. }
  destruct (in_words (t_mask t) n) eqn:Em; [apply Hskip; intros (_ & Hc & _); congruence|].
  destruct (rq_head q =? rq_tail q) eqn:Eq; bprop.
  { apply Hskip. intros (_ & _ & Hc). apply Hc. rewrite Hview. by apply rt_list_nil. }
  destruct (rt_pop_spec q Hq Eq) as [Hq' Hlist].
  split_and!; [lia|lia| | | | | |].
  - split; [by right|]. split; [done|]. by rewrite Hview, Hlist.
  - done.
  - intros. lia.
  - destruct Hwf as [Hw1 Hw2 Hw3 Hw4]. split; simpl; [done|done|by rewrite length_insert|].
    by apply Forall_insert.
  - rewrite (ring_load_row _ _ q) by (apply (rt_nth_lookup t n (tw_queues _ Hwf) Hrt) || apply Hq).
    rewrite Hview, Hlist. unfold pending_view. rewrite (proj2 (is_realtime_spec n) Hrt).
    cbn [set_realtime t_realtime]. rewrite nth_insert_eq; [done|]. by rewrite (tw_queues _ Hwf).
  - intros n' Hn' Hne. unfold pending_view. cbn [set_realtime t_realtime t_pending t_pending_info].
    destruct (is_realtime n') eqn:Er; [|done]. apply is_realtime_spec in Er.
    rewrite nth_insert_ne; [done|]. intros Heq. apply Hne. symmetry. by apply rt_index_inj; [lia..|].
Qed.

Lemma testbit_low w k : 0 <= w < 2 ^ 31 -> Z.testbit w k = true -> 0 <= k < 31.
Proof.
  intros Hw Hk. destruct (Z.lt_ge_cases k 0) as [Hneg|Hpos].
  { by rewrite Z.testbit_neg_r in Hk by done. }
  split; [done|]. destruct (Z.lt_ge_cases k 31) as [|Hge]; [done|].
  rewrite (Z.bits_above_log2 w k) in Hk; [done|lia|].
  destruct (Z.eq_dec w 0) as [->|]; [simpl; lia|].
  apply Z.lt_le_trans with 31; [apply Z.log2_lt_pow2; lia|done].
Qed.

Lemma ldiff_range w m : 0 <= w < 2 ^ 31 -> 0 <= w .&~ m < 2 ^ 31.
Proof.
  intros Hw. assert (H0 : 0 <= w .&~ m) by (apply Z.ldiff_nonneg; lia). split; [done|].
  apply Z.le_lt_trans with w; [|lia]. apply Z.ldiff_le; [lia|].
  apply Z.bits_inj'. intros i Hi. rewrite !Z.ldiff_spec, Z.bits_0.
  destruct (Z.testbit w i), (Z.testbit m i); done.
Qed.

(** The state after an ordinary signal has been taken. *)
Lemma clear_pending t s :
  thread_wf t -> 1 <= s <= 31 -> in_words (t_pending t) s = true ->
  let t' := set_pending (Words (word0 (t_pending t) .&~ bit_of s) (word1 (t_pending t)))
              (t_pending_info t) t in
  thread_wf t' /\
  pending_view t s = nth (Z.to_nat (s - 1)) (t_pending_info t) zero_siginfo :: pending_view t' s /\
  forall n', queueable n' -> n' <> s -> pending_view t' n' = pending_view t n'.
Proof.
  intros [Hw1 Hw2 Hw3 Hw4] Hs Hin t'.
  assert (Hbit : forall n, 1 <= n <= 31 ->
    in_words (t_pending t') n = in_words (t_pending t) n && negb (n =? s)).
  { intros n Hn. rewrite !in_words_low by lia. cbn [t' set_pending t_pending word0].
    unfold bit_of. replace ((s - 1) mod 32) with (s - 1) by mlia.
    rewrite Z.ldiff_spec, Z.shiftl_1_l, Z.pow2_bits_eqb by lia. f_equal. f_equal.
    destruct (s - 1 =? n - 1) eqn:?, (n =? s) eqn:?; bprop; lia || done. }
  split; [split; simpl; [by apply ldiff_range|done..]|].
  unfold pending_view. cbn [t' set_pending t_realtime t_pending_info] in *. split.
  - rewrite is_realtime_false by done. rewrite Hin, (Hbit s Hs), Z.eqb_refl, andb_false_r. done.
  - intros n' Hn' Hne. destruct (is_realtime n') eqn:Er; [done|].
    destruct Hn' as [Hn'|Hn']; [|by apply is_realtime_spec in Hn'; congruence].
    rewrite (Hbit n' Hn'), (proj2 (Z.eqb_neq _ _) Hne), andb_true_r. done.
Qed.

Lemma take_pending_spec (t : thread) :
  thread_wf t ->
  match guest_thread_take_pending (Some t) with
  | (s, info, has_info, Some t') =>
    (s = 0 /\ has_info = false /\ t' = t /\ forall n, ~ deliverable t n) \/
    (has_info = true /\ deliverable t s /\ (forall n, n < s -> ~ deliverable t n) /\
     thread_wf t' /\ t_mask t' = t_mask t /\ pending_view t s = info :: pending_view t' s /\
     forall n, queueable n -> n <> s -> pending_view t' n = pending_view t n)
  | _ => False
  end.
Proof.
  intros Hwf. pose proof (tw_pending _ Hwf) as Hw. unfold guest_thread_take_pending.
  set (c := word0 (t_pending t) .&~ word0 (t_mask t)).
  assert (Hc : 0 <= c < 2 ^ 31) by (by apply ldiff_range).
  assert (Hbits : forall n, 1 <= n <= 31 -> Z.testbit c (n - 1) =
    in_words (t_pending t) n && negb (in_words (t_mask t) n)).
  { intros n Hn. subst c. rewrite Z.ldiff_spec, !in_words_low by lia. done. }
  assert (Hdel : forall n, 1 <= n <= 31 -> deliverable t n <-> Z.testbit c (n - 1) = true).
  { intros n Hn. rewrite Hbits by done. unfold deliverable, pending_view.
    rewrite is_realtime_false by done. unfold queueable.
    destruct (in_words (t_pending t) n), (in_words (t_mask t) n); cbn; intuition (done || lia). }
  destruct (c =? 0) eqn:E; bprop; cbn [negb].
  - assert (Hlow : forall n, 1 <= n <= 31 -> ~ deliverable t n).
    { intros n Hn. rewrite Hdel by done. by rewrite E, Z.bits_0. }
    pose proof (take_realtime_spec REALTIME_SIGNALS t LINUX_FIRST_REALTIME_SIGNAL Hwf
      ltac:(unfold LINUX_FIRST_REALTIME_SIGNAL; lia) ltac:(done)) as Hrt.
    unfold LINUX_FIRST_REALTIME_SIGNAL in *.
    destruct (take_realtime _ _ _) as [[[s info] t']|].
    + destruct Hrt as (H1 & H2 & H3 & H4 & H5). right. split_and!; try done; try apply H5.
      intros n Hn Hd. pose proof Hd as [[Hq|Hq] _]; [by eapply Hlow|]. eapply H4; [|done]. lia.
    + left. split_and!; [done..|]. intros n Hd. pose proof Hd as [[Hq|Hq] _]; [by eapply Hlow|].
      by eapply Hrt.
  - destruct (ctz_spec 32 c) as (Hk & Hb & Hmin); [simpl; lia|].
    set (k := count_trailing_zeros 32 c) in *. pose proof (testbit_low c k Hc Hb) as Hk31.
    assert (Hs : 1 <= k + 1 <= 31) by lia.
    assert (Hd : deliverable t (k + 1)) by (apply Hdel; [done|]; by replace (k + 1 - 1) with k by lia).
    right. split; [done|]. split; [done|]. split.
    { intros n Hn Hdn. pose proof Hdn as [[Hq|Hq] _]; [|lia].
      apply Hdel in Hdn; [|done]. rewrite Hmin in Hdn by lia. done. }
    destruct (clear_pending t (k + 1) Hwf Hs) as (H1 & H2 & H3).
    { apply Hdel in Hd; [|done]. rewrite Hbits in Hd by done. by bprop. }
    done.
Qed.

(** C28: [guest_thread_take_pending] takes the oldest instance of the lowest
    numbered signal that is pending and not masked (so ordinary signals come
    before real-time ones), with its information, and leaves every other queue
    and the mask as they were; it answers 0 exactly when no signal is
    deliverable. *)
Theorem take_pending_refines (t : thread) :
  thread_wf t ->
  match guest_thread_take_pending (Some t) with
  | (s, info, has_info, Some t') =>
    (s = 0 /\ has_info = false /\ t' = t /\ forall n, ~ deliverable t n) \/
    (has_info = true /\ deliverable t s /\ (forall n, n < s -> ~ deliverable t n) /\
     thread_wf t' /\ t_mask t' = t_mask t /\ pending_view t s = info :: pending_view t' s /\
     forall n, queueable n -> n <> s -> pending_view t' n = pending_view t n)
  | _ => False
  end.
Proof. exact (take_pending_spec t). Qed.

(** ** Counters that wrap around *)

Lemma ring_store_shape position information queues :
  Forall rq_shape queues -> Forall rq_shape (ring_store position information queues).
Proof.
  intros Hq. unfold ring_store. cond; [done|]. apply Forall_alter; [done|].
  intros q _ [? ? ? ?]. split; simpl; try done. by rewrite length_insert.
Qed.

Lemma ring_store_counters position information queues i :
  rq_head (nth i (ring_store position information queues) empty_queue) = rq_head (nth i queues empty_queue) /\
  rq_tail (nth i (ring_store position information queues) empty_queue) = rq_tail (nth i queues empty_queue).
Proof.
  unfold ring_store. cond; [done|]. set (k := Z.to_nat (position / REALTIME_QUEUE_LENGTH)). destruct (decide (k = i)) as [<-|].
  - rewrite !nth_lookup, list_lookup_alter_eq. by destruct (queues !! k).
  - by rewrite nth_alter_ne.
Qed.

Lemma rt_push_shape queues index information :
  Forall rq_shape queues -> Forall rq_shape (rt_push queues index information).
Proof.
  intros Hq. unfold rt_push. cond; [|done]. bprop. apply Forall_alter; [by apply ring_store_shape|].
  intros q Hi [Hh Ht Hc Hl]. destruct (ring_store_counters (rt_position index (rq_tail (nth index queues empty_queue)))
    (information_or_zero information) queues index) as [Eh Et].
  rewrite (nth_lookup_Some _ _ _ _ Hi) in Eh, Et. rewrite <- Et in *. rewrite <- Eh in *.
  split; cbn [rq_head rq_tail rq_ring]; [done|apply s32_is_s32| |done].
  replace (s32 (rq_tail q + 1) - rq_head q) with (s32 (rq_tail q + 1) + - rq_head q) by lia.
  rewrite s32_plus. replace (rq_tail q + 1 + - rq_head q) with (rq_tail q - rq_head q + 1) by lia.
  rewrite <- s32_plus, s32_small; unfold REALTIME_QUEUE_LENGTH, INT_MAX in *; lia.
Qed.

Lemma rt_push_length queues index information : length (rt_push queues index information) = length queues.
Proof. unfold rt_push, ring_store. repeat cond; by rewrite ?length_alter. Qed.

(** The shape of a thread is kept by every instance of every signal, ... *)
Lemma pending_shape t n information t' :
  thread_shape t -> (guest_thread_signal_pending (Some t) n information).1 = Some t' -> thread_shape t'.
Proof.
  intros Hwf. unfold guest_thread_signal_pending. cond; [|by intros [= <-]]. bprop.
  destruct Hwf as [H1 H2 H3 H4]. destruct (is_realtime n) eqn:Er.
  - cbn [t_futex_semaphore set_realtime]. destruct (t_futex_semaphore t); intros [= <-];
      (split; [done|done|exact (eq_trans (rt_push_length _ _ _) H3)|exact (rt_push_shape _ _ _ H4)]).
  - assert (Hw : 0 <= word0 (add_word (t_pending t) n) < 2 ^ 31).
    { destruct (Z.le_gt_cases n 31); [apply add_word_range; [lia|done]|].
      unfold add_word. cond; [|done]. bprop. exfalso.
      apply not_true_iff_false in Er. rewrite is_realtime_spec in Er. mlia. }
    cbn [t_futex_semaphore set_pending]. destruct (t_futex_semaphore t); intros [= <-];
      (split; [done|simpl; cond; by rewrite ?length_insert|done|done]).
Qed.

(** ... and by the taking of a signal. *)
Lemma take_realtime_shape k t n number information t' :
  thread_shape t -> take_realtime k t n = Some (number, information, t') -> thread_shape t'.
Proof.
  intros Hwf. revert n. induction k as [|k IH]; intros n; cbn [take_realtime]; [done|].
  cond; [apply IH|]. set (q := nth _ _ _). destruct (rq_head q =? rq_tail q) eqn:Eq; [apply IH|]. bprop.
  intros [= _ _ <-]. destruct Hwf as [H1 H2 H3 H4]. split; simpl; [done|done|by rewrite length_insert|].
  destruct (decide (rt_index n < length (t_realtime t))%nat) as [Hlt|Hge];
    [|by rewrite list_insert_ge by lia].
  apply Forall_insert; [done|]. assert (Hq : rq_shape q).
  { rewrite Forall_forall in H4. apply H4, list_elem_of_In, nth_In. done. }
  destruct Hq as [Hh Ht Hc Hl]. split; cbn [rq_head rq_tail rq_ring]; [apply s32_is_s32|done| |done].
  rewrite s32_minus. replace (rq_tail q - (rq_head q + 1)) with (rq_tail q - rq_head q + -1) by lia.
  assert (s32 (rq_tail q - rq_head q) <> 0).
  { intros Ez. apply Eq. assert (Hu : u32 (rq_tail q - rq_head q) = 0) by (by rewrite <- u32_s32, Ez).
    unfold is_s32, INT_MIN, INT_MAX, u32, U32_MOD in *. mlia. }
  rewrite <- s32_plus, s32_small; unfold REALTIME_QUEUE_LENGTH, INT_MAX in *; lia.
Qed.

Lemma take_pending_shape t n information known t' :
  thread_shape t -> guest_thread_take_pending (Some t) = (n, information, known, Some t') -> thread_shape t'.
Proof.
  intros Hwf. unfold guest_thread_take_pending. generalize (count_trailing_zeros 32). intros ctz. cond.
  - intros [= <- <- <- <-]. destruct Hwf as [H1 H2 H3 H4]. split; simpl; try done. by apply ldiff_range.
  - destruct (take_realtime _ _ _) as [[[k info] t1]|] eqn:Er; intros [= <- <- <- <-]; [|done].
    by eapply take_realtime_shape.
Qed.

Lemma pending_realtime t n information :
  32 <= n <= 47 -> exists t' notes, guest_thread_signal_pending (Some t) n information = (Some t', notes) /\
    t_realtime t' = rt_push (t_realtime t) (rt_index n) information.
Proof.
  intros Hn. destruct (pending_update t n information (or_intror Hn)) as (t' & l & E & _ & Hr & _).
  rewrite (proj2 (is_realtime_spec n) Hn) in Hr. by exists t', l.
Qed.

(** One instance at a counter in the row [index]: the counters of the row after it. *)
Lemma rt_push_counters queues index information :
  (index < length queues)%nat ->
  let q := nth index queues empty_queue in
  let q' := nth index (rt_push queues index information) empty_queue in
  s32 (rq_tail q - rq_head q) < REALTIME_QUEUE_LENGTH ->
  rq_head q' = rq_head q /\ rq_tail q' = s32 (rq_tail q + 1).
Proof.
  intros Hi q q' Hroom. subst q'. unfold rt_push. fold q. rewrite (proj2 (Z.ltb_lt _ _) Hroom).
  rewrite nth_alter_eq; [|unfold ring_store; cond; by rewrite ?length_alter]. cbn [rq_head rq_tail].
  split; [|done]. apply ring_store_counters.
Qed.

(** C31: Real-time counters wrap around.  When [INT_MAX] instances of a real-time
    signal have been queued and taken, the third further instance is
    stored not in the ring of that signal but in the one of the signal before it, at
    index 1: the counter has become negative, and so has its remainder. *)
Theorem realtime_counter_wraps (t : thread) (n : Z) (i1 i2 i3 : option siginfo) :
  thread_shape t -> 33 <= n <= 47 ->
  let q := nth (rt_index n) (t_realtime t) empty_queue in
  rq_head q = INT_MAX -> rq_tail q = INT_MAX ->
  exists t1 t2 t3 notes1 notes2 notes3,
    guest_thread_signal_pending (Some t) n i1 = (Some t1, notes1) /\
    guest_thread_signal_pending (Some t1) n i2 = (Some t2, notes2) /\
    guest_thread_signal_pending (Some t2) n i3 = (Some t3, notes3) /\
    rq_tail (nth (rt_index n) (t_realtime t1) empty_queue) = INT_MIN /\
    rq_ring (nth (rt_index (n - 1)) (t_realtime t3) empty_queue) =
      <[1%nat := information_or_zero i3]> (rq_ring (nth (rt_index (n - 1)) (t_realtime t2) empty_queue)) /\
    rq_ring (nth (rt_index n) (t_realtime t3) empty_queue) =
      rq_ring (nth (rt_index n) (t_realtime t2) empty_queue).
Proof.
  intros Hs Hn q Hh Ht. pose proof (tsh_queues _ Hs) as Hlen. assert (Hrt : 32 <= n <= 47) by lia.
  pose proof (rt_index_lt n Hrt) as Hlt. pose proof (rt_index_lt (n - 1) ltac:(lia)) as Hlt'.
  destruct (pending_realtime t n i1 Hrt) as (t1 & l1 & E1 & R1).
  destruct (pending_realtime t1 n i2 Hrt) as (t2 & l2 & E2 & R2).
  destruct (pending_realtime t2 n i3 Hrt) as (t3 & l3 & E3 & R3).
  exists t1, t2, t3, l1, l2, l3. do 3 (split; [done|]).
  destruct (rt_push_counters (t_realtime t) (rt_index n) i1) as [H1 T1]; [lia|by fold q; rewrite Hh, Ht|].
  rewrite <- R1 in H1, T1. fold q in H1, T1. rewrite Hh in H1. rewrite Ht in T1. change (s32 _) with INT_MIN in T1.
  assert (L1 : length (t_realtime t1) = length (t_realtime t)) by (rewrite R1; apply rt_push_length).
  destruct (rt_push_counters (t_realtime t1) (rt_index n) i2) as [H2 T2]; [lia|by rewrite H1, T1|].
  rewrite <- R2, H1 in H2. rewrite <- R2, T1 in T2. change (s32 _) with (-2147483647) in T2.
  assert (L2 : length (t_realtime t2) = length (t_realtime t1)) by (rewrite R2; apply rt_push_length).
  split; [done|]. rewrite R3. unfold rt_push. rewrite H2, T2.
  change (s32 _ <? REALTIME_QUEUE_LENGTH) with true. cbn iota.
  assert (Hpos : rt_position (rt_index n) (-2147483647) = 64 * Z.of_nat (rt_index (n - 1)) + 1).
  { unfold rt_position, rt_index, REALTIME_QUEUE_LENGTH, LINUX_FIRST_REALTIME_SIGNAL.
    change (Z.rem (-2147483647) 64) with (-63). lia. }
  unfold ring_store. rewrite Hpos, (proj2 (Z.ltb_ge _ _)) by lia.
  replace (Z.to_nat ((64 * Z.of_nat (rt_index (n - 1)) + 1) / REALTIME_QUEUE_LENGTH)) with (rt_index (n - 1))
    by (unfold REALTIME_QUEUE_LENGTH; replace (_ / 64) with (Z.of_nat (rt_index (n - 1))) by mlia; by rewrite Nat2Z.id).
  replace ((64 * Z.of_nat (rt_index (n - 1)) + 1) mod REALTIME_QUEUE_LENGTH) with 1 by (unfold REALTIME_QUEUE_LENGTH; mlia).
  assert (Hne : rt_index n <> rt_index (n - 1)) by (intros E%rt_index_inj; lia). split.
  - rewrite nth_alter_ne, nth_alter_eq by (done || lia). done.
  - rewrite nth_alter_eq by (rewrite length_alter; lia). cbn [rq_ring]. by rewrite nth_alter_ne.
Qed.

(** ** Thread identifiers and creation *)

Lemma tid_mask_mod x : x .& TID_MASK = x mod 2 ^ 30.
Proof. change TID_MASK with (Z.ones 30). by rewrite Z.land_ones. Qed.

(** The identifier a counter gives: its low 30 bits, which leaves the two bits free
    that Linux uses in a futex word, without 0; and the counter after it. *)
Definition tid_of (next_tid : Z) : Z := if next_tid .& TID_MASK =? 0 then 1 else next_tid .& TID_MASK.
Definition tid_after (next_tid : Z) : Z := u32 (next_tid + if next_tid .& TID_MASK =? 0 then 2 else 1).

(** Two rounds always suffice. *)
Lemma allocate_tid_exact next_tid :
  is_u32 next_tid -> allocate_guest_tid next_tid = Some (tid_of next_tid, tid_after next_tid).
Proof.
  intros Hn. unfold is_u32, UINTPTR_MAX in Hn. unfold allocate_guest_tid, tid_of, tid_after. cbn [allocate_loop].
  rewrite !tid_mask_mod. destruct (next_tid mod 2 ^ 30 =? 0) eqn:E; bprop; [|done].
  assert (H1 : u32 (next_tid + 1) mod 2 ^ 30 = 1).
  { unfold u32, U32_MOD. change (2 ^ 30) with 1073741824 in *. mlia. }
  rewrite H1. cbn [Z.eqb]. do 2 f_equal. unfold u32, U32_MOD. rewrite Zplus_mod_idemp_l. f_equal. lia.
Qed.

Lemma tid_of_range next_tid : 1 <= tid_of next_tid <= TID_MASK.
Proof.
  unfold tid_of. rewrite tid_mask_mod. change TID_MASK with (2 ^ 30 - 1).
  pose proof (Z.mod_pos_bound next_tid (2 ^ 30)). destruct (_ =? 0) eqn:E; bprop; lia.
Qed.

Lemma allocate_tid_spec next_tid :
  is_u32 next_tid ->
  exists tid next', allocate_guest_tid next_tid = Some (tid, next') /\ 1 <= tid <= TID_MASK /\
    is_u32 next'.
Proof.
  intros Hn. eexists _, _. split; [by apply allocate_tid_exact|]. split; [apply tid_of_range|apply u32_is_u32].
Qed.

(** The conditions [guest_thread_clone] checks first. *)
Definition clone_flags_ok (flags child_stack : Z) : Prop :=
  flags .& LINUX_THREAD_REQUIRED = LINUX_THREAD_REQUIRED /\ flags .&~ LINUX_THREAD_ALLOWED = 0 /\
  flags .& 0xff = 0 /\ child_stack <> 0.

(** A new thread of [parent], as the flags in the registers ask for it. *)
Record cloned (gpr : list Z) (parent : thread) (tid : Z) (child : thread) : Prop := {
  cl_tid : t_tid child = tid;
  cl_registers : forall i, (i < 16)%nat -> nth i (t_registers child) 0 =
    if decide (i = 0)%nat then 0 else if decide (i = 13)%nat then nth 1 gpr 0
    else if decide (i = 15)%nat then u32 (nth 15 gpr 0 + 4) else nth i gpr 0;
  cl_tls : t_tls child = (if has (nth 0 gpr 0) LINUX_CLONE_SETTLS then nth 3 gpr 0 else t_tls parent);
  cl_clear : t_clear_child_tid child =
    (if has (nth 0 gpr 0) LINUX_CLONE_CHILD_CLEARTID then nth 4 gpr 0 else 0);
  cl_child : t_child_tid child = (if has (nth 0 gpr 0) LINUX_CLONE_CHILD_SETTID then nth 4 gpr 0 else 0);
  cl_mask : t_mask child = t_mask parent /\ t_suspend_restore child = None;
  cl_pending : forall n, queueable n -> pending_view child n = [];
  cl_idle : t_futex_semaphore child = None /\ t_wait_read_fd child = -1 /\ t_wait_write_fd child = -1 /\
    t_altstack_size child = 0 /\ t_deferred_length child = 0 }.

Lemma child_thread_cloned gpr parent tid :
  length gpr = 16%nat -> cloned gpr parent tid (child_thread gpr parent tid).
Proof.
  intros Hlen. split; try done.
  - intros i Hi. unfold child_thread. cbn [t_registers]. rewrite !nth_lookup.
    repeat case_decide; subst; rewrite ?list_lookup_insert_eq, ?list_lookup_insert_ne
      by (done || (rewrite ?length_insert; lia)); try done.
    all: rewrite ?list_lookup_insert_eq, ?list_lookup_insert_ne
      by (done || (rewrite ?length_insert; lia)); try done.
  - intros n Hn. unfold pending_view.
    cbn [child_thread t_realtime t_pending t_pending_info]. destruct (is_realtime n) eqn:Er.
    + apply is_realtime_spec in Er. rewrite nth_lookup, lookup_replicate_2; [done|].
      by apply rt_index_lt.
    + rewrite in_words_bit. unfold word_of. destruct (_ =? 0); cbn [word0 word1]; by rewrite Z.bits_0.
Qed.

#[export] Instance clone_flags_decision flags child_stack : Decision (clone_flags_ok flags child_stack).
Proof. unfold clone_flags_ok. apply _. Defined.

(** C38: [guest_thread_clone] always returns, and what it does is decided by the
    flags and the host.  Flags that are not those of a thread (one required is
    missing, one unknown, an exit signal) or a null stack give [-EINVAL], no memory
    [-ENOMEM], both without any effect.  When the host makes no thread, its error is
    returned and only the identifier is used up.  Otherwise the value is the
    identifier: 30 bits of the counter and never 0; the new thread is registered with
    it, the parent's registers but for [r0 = 0], the given stack and the program
    counter after the system call, the TLS value and the two identifier addresses of
    the flags, the parent's signal mask, nothing pending and no wait; the parent's
    identifier word is written when asked for. *)
Theorem clone_correct `{!HostErrno} (host : clone_host) (gpr : list Z) (parent : thread)
    (registry : list thread) (next_tid : Z) (m : gmap Z Z) :
  length gpr = 16%nat -> is_u32 next_tid ->
  1 <= tid_of next_tid <= TID_MASK /\
  if decide (clone_flags_ok (nth 0 gpr 0) (nth 1 gpr 0)) then
    if calloc_ok host then
      match create_error host with
      | Some e => guest_thread_clone host gpr parent registry next_tid m =
                    Some (linux_error e, registry, tid_after next_tid, m)
      | None => exists child, cloned gpr parent (tid_of next_tid) child /\
          guest_thread_clone host gpr parent registry next_tid m =
            Some (tid_of next_tid, child :: registry, tid_after next_tid,
                  if has (nth 0 gpr 0) LINUX_CLONE_PARENT_SETTID
                  then store32 m (nth 2 gpr 0) (tid_of next_tid) else m)
      end
    else guest_thread_clone host gpr parent registry next_tid m = Some (- errno_code ENOMEM, registry, next_tid, m)
  else guest_thread_clone host gpr parent registry next_tid m = Some (- errno_code EINVAL, registry, next_tid, m).
Proof.
  intros Hlen Hnext. split; [apply tid_of_range|]. unfold guest_thread_clone.
  case_decide as Hf; unfold clone_flags_ok in Hf.
  2:{ assert (negb (nth 0 gpr 0 .& LINUX_THREAD_REQUIRED =? LINUX_THREAD_REQUIRED)
        || negb (nth 0 gpr 0 .&~ LINUX_THREAD_ALLOWED =? 0) || negb (nth 0 gpr 0 .& 0xff =? 0)
        || (nth 1 gpr 0 =? 0) = true) as ->; [|done].
      apply not_false_iff_true. intros E. apply Hf. by bprop. }
  destruct Hf as (H1 & H2 & H3 & H4). rewrite H1, H2, H3, (proj2 (Z.eqb_neq _ _) H4), !Z.eqb_refl. cbn [negb orb].
  destruct (calloc_ok host); cbn [negb]; [|done]. rewrite (allocate_tid_exact _ Hnext).
  destruct (create_error host) as [e|]; [done|]. eexists. split; [by apply child_thread_cloned|done].
Qed.

(** ** Unmapping the stack a thread runs on *)

(** A thread that unmaps the stack it runs on keeps it until it exits: the
    request is deferred exactly when the active stack lies in the range, and
    the deferred range then covers the request and everything deferred before,
    without wrapping. *)
Theorem defer_unmap_covers (t : thread) (active address len : Z) :
  is_u32 address -> is_u32 len -> address + len <= UINTPTR_MAX ->
  is_u32 (t_deferred_start t) -> is_u32 (t_deferred_length t) ->
  t_deferred_start t + t_deferred_length t <= UINTPTR_MAX ->
  match guest_thread_defer_active_stack_unmap (Some t) active address len with
  | (b, Some t') =>
    (b = true <-> address <= active < address + len) /\ (b = false -> t' = t) /\
    t_deferred_start t' + t_deferred_length t' <= UINTPTR_MAX /\
    (b = true -> forall x, (address <= x < address + len \/
       t_deferred_start t <= x < t_deferred_start t + t_deferred_length t) ->
       t_deferred_start t' <= x < t_deferred_start t' + t_deferred_length t')
  | _ => False
  end.
Proof.
  unfold is_u32, UINTPTR_MAX. intros Ha Hl Hal Hs Hd Hsd.
  unfold guest_thread_defer_active_stack_unmap.
  destruct (_ || _) eqn:E.
  { split; [split; [done|]; blia|]. split_and!; done || lia. }
  bprop. rewrite !(u32_small (address + len)), !(u32_small (t_deferred_start t + _))
    by (unfold is_u32, UINTPTR_MAX; lia).
  destruct (t_deferred_length t =? 0) eqn:E0; bprop; cbn [negb].
  - rewrite u32_small by (unfold is_u32, UINTPTR_MAX; lia). simpl.
    split; [split; [lia|done]|]. split; [done|]. split; [lia|]. intros _ x Hx. lia.
  - set (s1 := if t_deferred_start t <? address then _ else _).
    set (e1 := if address + len <? _ then _ else _).
    assert (Hs1 : s1 = Z.min (t_deferred_start t) address) by (subst s1; cond; bprop; lia).
    assert (He1 : e1 = Z.max (t_deferred_start t + t_deferred_length t) (address + len))
      by (subst e1; cond; bprop; lia).
    rewrite u32_small by (unfold is_u32, UINTPTR_MAX; lia). simpl.
    split; [split; [lia|done]|]. split; [done|]. split; [lia|]. intros _ x Hx. lia.
Qed.

(** A thread that nothing has been queued for. *)
Lemma fresh_thread_wf t :
  word0 (t_pending t) = 0 -> t_pending_info t = replicate 31 zero_siginfo ->
  t_realtime t = replicate REALTIME_SIGNALS empty_queue -> thread_wf t.
Proof.
  intros H0 Hi Hr. split; [rewrite H0; lia|by rewrite Hi|by rewrite Hr|]. rewrite Hr.
  apply Forall_replicate. split; [split; reflexivity|vm_compute; discriminate|vm_compute; discriminate|reflexivity].
Qed.

Lemma zero_thread_wf : thread_wf zero_thread.
Proof. by apply fresh_thread_wf. Qed.

(** ** Witnesses *)

Module GuestThreadExamples.
Import ExampleErrno.
#[local] Existing Instance host_errno.

Definition info (pid : Z) : siginfo := Siginfo 0 0 0 pid 0.

Lemma signal_pending_refines_witness :
  exists t notes, guest_thread_signal_pending (Some zero_thread) 34 (Some (info 7)) = (Some t, notes) /\
    pending_view t 34 = [info 7].
Proof.
  destruct (signal_pending_refines zero_thread 34 (Some (info 7)) zero_thread_wf)
    as (t & notes & E & _ & _ & Hv); [right; lia|intros _; vm_compute; reflexivity|].
  exists t, notes. split; [exact E|]. rewrite Hv; [reflexivity|right; lia].
Defined.

Definition t2 : thread :=
  match (guest_thread_signal_pending (Some zero_thread) 2 (Some (info 5))).1 with
  | Some t => t | None => zero_thread end.

Lemma t2_wf : thread_wf t2.
Proof.
  split; [vm_compute; split; [discriminate|reflexivity]|reflexivity|reflexivity|].
  exact (tw_rq _ zero_thread_wf).
Qed.

Lemma take_pending_refines_witness : (guest_thread_take_pending (Some t2)).1.1 = (2, info 5).
Proof.
  pose proof (take_pending_refines t2 t2_wf) as H.
  destruct (guest_thread_take_pending (Some t2)) as [[[s i] b] [t'|]] eqn:E; [|destruct H].
  destruct H as [(-> & _)|(_ & _ & _ & _ & _ & Hv & _)];
    apply (f_equal (fun x => x.1.1)) in E; vm_compute in E; [discriminate|exact (eq_sym E)].
Defined.

Lemma clone_correct_witness : exists child,
  cloned (0x3d0f00 :: 0x5000 :: replicate 14 8) zero_thread 9 child /\
  guest_thread_clone (CloneHost true None) (0x3d0f00 :: 0x5000 :: replicate 14 8) zero_thread [] 9 ∅ =
    Some (9, [child], 10, store32 ∅ 8 9).
Proof.
  destruct (clone_correct (CloneHost true None) (0x3d0f00 :: 0x5000 :: replicate 14 8) zero_thread [] 9 ∅)
    as [_ H].
  - reflexivity.
  - split; vm_compute; discriminate.
  - rewrite decide_True in H by (vm_compute; split_and!; reflexivity || discriminate).
    destruct H as (child & Hc & E). exists child. split; [exact Hc|exact E].
Defined.

(** A thread that has taken [INT_MAX] instances of signal 34. *)
Definition worn : thread :=
  set_realtime (<[2%nat := RtQueue INT_MAX INT_MAX (replicate 64 zero_siginfo)]> (t_realtime zero_thread)) zero_thread.

Lemma worn_shape : thread_shape worn.
Proof.
  pose proof (thread_wf_shape _ zero_thread_wf) as [? ? ? ?]. split; try done. apply Forall_insert; [done|].
  split; [by vm_compute|by vm_compute|by vm_compute|done].
Qed.

Lemma realtime_counter_wraps_witness : exists t2 t3 notes,
  guest_thread_signal_pending (Some t2) 34 (Some (info 3)) = (Some t3, notes) /\
  rq_ring (nth 1 (t_realtime t3) empty_queue) = <[1%nat := info 3]> (rq_ring (nth 1 (t_realtime t2) empty_queue)).
Proof.
  destruct (realtime_counter_wraps worn 34 (Some (info 1)) (Some (info 2)) (Some (info 3)) worn_shape)
    as (t1 & t2 & t3 & n1 & n2 & n3 & _ & _ & E & _ & H & _); [lia|reflexivity|reflexivity|].
  exists t2, t3, n3. split; [exact E|exact H].
Defined.

Lemma defer_unmap_covers_witness :
  (guest_thread_defer_active_stack_unmap (Some zero_thread) 0x5008 0x5000 0x1000).1 = true.
Proof.
  pose proof (defer_unmap_covers zero_thread 0x5008 0x5000 0x1000) as H.
  destruct (guest_thread_defer_active_stack_unmap (Some zero_thread) 0x5008 0x5000 0x1000)
    as [b [t'|]]; [|destruct H; vm_compute; try split; discriminate].
  apply H; try (vm_compute; split; discriminate); [vm_compute; discriminate..|lia].
Defined.

End GuestThreadExamples.
