(* ===== verification/GuestSignal.v ===== *)
(** * Guest signals: [src/src/guest_signal.c]

    Signal numbers and sets between Linux and the host, the delivery of a
    signal to a guest handler (the frame written on the guest stack), the
    return from it, masks, alternate stacks and handlers.  The machine context
    of a trap is a record; guest memory is as in [Bytes]; the state is the table
    [guest_actions] and the current thread (see [GuestThread]). *)

From S2P Require Import Prelude Errno Bytes GuestThread.
From stdpp Require Import gmap.
Open Scope Z_scope.

Definition LINUX_SIGNAL_COUNT : Z := 64.
Definition LINUX_SA_NOCLDSTOP : Z := 0x00000001.
Definition LINUX_SA_NOCLDWAIT : Z := 0x00000002.
Definition LINUX_SA_SIGINFO : Z := 0x00000004.
Definition LINUX_SA_RESTORER : Z := 0x04000000.
Definition LINUX_SA_ONSTACK : Z := 0x08000000.
Definition LINUX_SA_RESTART : Z := 0x10000000.
Definition LINUX_SA_NODEFER : Z := 0x40000000.
Definition LINUX_SA_RESETHAND : Z := 0x80000000.
Definition LINUX_VFP_MAGIC : Z := 0x56465001.
Definition LINUX_VFP_FRAME_SIZE : Z := 288.
Definition HOST_SIGNAL_STACK_RESERVE : Z := 8192.

(** The host's numbers the source takes from [<signal.h>]. *)
Class HostSignals := {
  SIGRTMIN : Z; SIGRTMAX : Z; SIGILL : Z; SIGSEGV : Z; SIG_BLOCK : Z; SIG_UNBLOCK : Z }.

(** [struct linux_sigaction] *)
Record linux_sigaction := Sigaction {
  sa_handler : Z; sa_flags : Z; sa_restorer : Z; sa_mask : sigwords }.

(** The part of the host's [ucontext_t] the emulator reads and writes. *)
Record vfp_state := Vfp {
  vfp_x : list Z; vfp_fpscr : Z; vfp_fpexc : Z; vfp_fpinst : Z; vfp_fpinst2 : Z }.
Record ucontext := Ucontext {
  uc_gpr : list Z; uc_spsr : Z; uc_vfp : vfp_state; uc_sigmask : gset Z }.

(** ** Signal numbers *)

(** The [switch] of [linux_signal_to_host]. *)
Definition signal_table : list (Z * Z) :=
  [(1, 1); (2, 2); (3, 3); (4, 4); (5, 5); (6, 6); (8, 8); (9, 9); (11, 11); (13, 13); (14, 14);
   (15, 15); (7, 10); (10, 16); (12, 17); (17, 18); (18, 25); (19, 23); (20, 24); (21, 26);
   (22, 27); (23, 21); (24, 30); (25, 31); (26, 28); (27, 29); (28, 20); (29, 22); (30, 19);
   (31, 12)].
Fixpoint switch (cases : list (Z * Z)) (default value : Z) : Z :=
  match cases with
  | [] => default
  | (c, r) :: cases => if value =? c then r else switch cases default value
  end.

Section signals.
Context `{!HostSignals}.

Definition linux_signal_to_host (number : Z) : Z :=
  if (32 <=? number) && (number <=? 47) then SIGRTMIN + number - 32
  else switch signal_table 0 number.

(** The loop of [guest_signal_from_host] from [signal_number] on. *)
Fixpoint from_host_loop (n : nat) (signal_number number : Z) : Z :=
  match n with
  | O => 0
  | S n => if linux_signal_to_host signal_number =? number then signal_number
           else from_host_loop n (signal_number + 1) number
  end.
Definition guest_signal_from_host (number : Z) : Z :=
  if (SIGRTMIN <=? number) && (number <=? SIGRTMAX) then number - SIGRTMIN + 32
  else from_host_loop 31 1 number.

(** [linux_set_to_host] *)
Definition linux_set_to_host (words : sigwords) : gset Z :=
  list_to_set (omap (fun number =>
    if in_words words number then
      let h := linux_signal_to_host number in if negb (h =? 0) then Some h else None
    else None) (seqZ 1 LINUX_SIGNAL_COUNT)) ∖ {[SIGILL; SIGSEGV]}.

Definition merge_host_sets (target source : gset Z) : gset Z :=
  target ∪ filter (fun n => 1 <= n <= SIGRTMAX) source.

(** ** The signal frame *)

(** [save_vfp]: the 512 bytes of [register_space]. *)
Definition save_vfp (v : vfp_state) : list Z :=
  le_bytes 4 LINUX_VFP_MAGIC ++ le_bytes 4 LINUX_VFP_FRAME_SIZE ++ vfp_x v ++
  le_bytes 4 (vfp_fpscr v) ++ replicate 4 0 ++ le_bytes 4 (vfp_fpexc v) ++
  le_bytes 4 (vfp_fpinst v) ++ le_bytes 4 (vfp_fpinst2 v) ++ replicate 228 0.

(** [restore_vfp] from the frame at [frame]: the outer [option] is a fault, the
    inner one the return value -1. *)
Definition restore_vfp (m : gmap Z Z) (frame : Z) (v : vfp_state) : option (option vfp_state) :=
  match load32 m frame with
  | None => None
  | Some magic =>
    if magic =? 0 then Some (Some v)
    else match load32 m (frame + 4) with
    | None => None
    | Some size =>
      if negb (magic =? LINUX_VFP_MAGIC) || negb (size =? LINUX_VFP_FRAME_SIZE) then Some None
      else match mem_load m (frame + 8) 256, load32 m (frame + 264), load32 m (frame + 272),
                 load32 m (frame + 276), load32 m (frame + 280) with
      | Some x, Some fpscr, Some fpexc, Some fpinst, Some fpinst2 =>
        Some (Some (Vfp x fpscr fpexc fpinst fpinst2))
      | _, _, _, _, _ => None
      end
    end
  end.
End signals.

Definition concat_words (words : list Z) : list Z := concat (le_bytes 4 <$> words).

(** [fill_siginfo]: the 128 bytes of [information]. *)
Definition fill_siginfo `{!HostErrno} (linux_signal : Z) (source : option siginfo) : list Z :=
  let words := match source with
    | None => [linux_signal]
    | Some i =>
      [linux_signal; linux_errno_number (si_errno i); si_code i] ++
      (if (linux_signal =? 4) || (linux_signal =? 7) || (linux_signal =? 8) || (linux_signal =? 11)
       then [si_addr i] else [si_pid i; si_uid i])
    end in
  let bytes := concat_words words in bytes ++ replicate (128 - length bytes) 0.

(** The words of [struct linux_ucontext] before [register_space], as
    [prepare_context] and then [guest_signal_deliver] fill them: flags and link,
    the alternate stack, trap number and error code, the old mask, the
    registers, status and fault address, the mask, and 30 unused words. *)
Definition context_words (c : ucontext) (old_mask : sigwords)
    (fault_address stack_pointer stack_flags stack_size : Z) : list Z :=
  [0; 0; stack_pointer; stack_flags; stack_size; 0; 0; word0 old_mask] ++ uc_gpr c ++
  [uc_spsr c; u32 fault_address; word0 old_mask; word1 old_mask] ++ replicate 30 0.
Definition context_bytes (c : ucontext) (old_mask : sigwords)
    (fault_address stack_pointer stack_flags stack_size : Z) : list Z :=
  concat_words (context_words c old_mask fault_address stack_pointer stack_flags stack_size) ++
  save_vfp (uc_vfp c).
Definition REGISTER_SPACE_OFFSET : Z := 232.
Definition SIGFRAME_SIZE : Z := 760.
Definition RT_SIGFRAME_SIZE : Z := 888.
Definition SIGINFO_SIZE : Z := 128.

Record signal_state := SignalState {
  guest_actions : list linux_sigaction;
  ss_thread : option thread }.

Definition zero_action : linux_sigaction := Sigaction 0 0 0 (Words 0 0).
Definition action_of (st : signal_state) (linux_signal : Z) : linux_sigaction :=
  nth (Z.to_nat linux_signal) (guest_actions st) zero_action.

Definition gpr (c : ucontext) (i : nat) : Z := nth i (uc_gpr c) 0.

(** The range [a, a + n) is mapped. *)
Definition writable (m : gmap Z Z) (a n : Z) : bool :=
  match mem_load m a (Z.to_nat n) with Some _ => true | None => false end.

(** The host's [SA_*] flags. *)
Class HostActions := {
  SA_SIGINFO : Z; SA_NOCLDSTOP : Z; SA_NOCLDWAIT : Z; SA_NODEFER : Z; SA_RESETHAND : Z }.

Section delivery.
Context `{!HostErrno, !HostSignals, !HostActions}.

(** The host addresses of the two trampolines of the file. *)
Context (signal_return_trampoline rt_signal_return_trampoline : Z).

(** [gpr[13]] lies in the alternate stack. *)
Definition on_altstack (pointer size sp : Z) : bool :=
  negb (size =? 0) && (pointer <=? sp) && (sp <? u32 (pointer + size)).

(** Where [guest_signal_deliver] puts the frame. *)
Definition frame_address (c : ucontext) (action : linux_sigaction) (pointer size : Z) : Z :=
  let stack :=
    if has (sa_flags action) LINUX_SA_ONSTACK && negb (size =? 0) &&
       negb (on_altstack pointer size (gpr c 13))
    then u32 (pointer + size) else u32 (gpr c 13 - HOST_SIGNAL_STACK_RESERVE) in
  if has (sa_flags action) LINUX_SA_SIGINFO then u32 (stack - RT_SIGFRAME_SIZE) .&~ 7
  else u32 (stack - SIGFRAME_SIZE) .&~ 7.

(** The bytes of the frame: information (real-time frames), context, return code. *)
Definition frame_bytes (c : ucontext) (action : linux_sigaction) (linux_signal : Z)
    (host_info : option siginfo) (old_mask : sigwords) (pointer size : Z) : list Z :=
  let flags := if on_altstack pointer size (gpr c 13) then 1 else if size =? 0 then 2 else 0 in
  let fault := match host_info with None => 0 | Some i => si_addr i end in
  (if has (sa_flags action) LINUX_SA_SIGINFO then fill_siginfo linux_signal host_info else []) ++
  context_bytes c old_mask fault pointer flags size ++ replicate 16 0.

(** The masks while the handler runs. *)
Definition handler_host_mask (c : ucontext) (action : linux_sigaction) (linux_signal : Z) : gset Z :=
  let desired := merge_host_sets (uc_sigmask c) (linux_set_to_host (sa_mask action)) in
  let host_signal := linux_signal_to_host linux_signal in
  if negb (has (sa_flags action) LINUX_SA_NODEFER) && negb (host_signal =? 0)
  then {[host_signal]} ∪ desired else desired.
Definition handler_mask (old_mask : sigwords) (action : linux_sigaction) (linux_signal : Z)
  : sigwords :=
  let new := Words (word0 old_mask .| word0 (sa_mask action))
                   (word1 old_mask .| word1 (sa_mask action)) in
  if negb (has (sa_flags action) LINUX_SA_NODEFER) then add_word new linux_signal else new.

(** The registers with which the handler starts. *)
Definition handler_registers (c : ucontext) (action : linux_sigaction) (linux_signal frame : Z)
  : list Z :=
  let realtime := has (sa_flags action) LINUX_SA_SIGINFO in
  let restorer :=
    if has (sa_flags action) LINUX_SA_RESTORER && negb (sa_restorer action =? 0)
    then sa_restorer action
    else if realtime then rt_signal_return_trampoline else signal_return_trampoline in
  let r := <[0%nat := linux_signal]> (uc_gpr c) in
  let r := if realtime then <[2%nat := frame + SIGINFO_SIZE]> (<[1%nat := frame]> r) else r in
  <[15%nat := sa_handler action]> (<[14%nat := restorer]> (<[13%nat := frame]> r)).

(** [guest_signal_deliver]: the value returned, the state, context and memory,
    and the notifications of a signal left pending; [None] is a fault. *)
Definition guest_signal_deliver (st : signal_state) (c : ucontext) (m : gmap Z Z)
    (linux_signal : Z) (host_info : option siginfo)
  : option (Z * signal_state * ucontext * gmap Z Z * list notification) :=
  if (linux_signal <=? 0) || (LINUX_SIGNAL_COUNT <? linux_signal) then Some (-1, st, c, m, [])
  else if negb (linux_signal =? 4) && negb (linux_signal =? 11) &&
          in_words (guest_thread_signal_mask_get (ss_thread st)) linux_signal then
    let (t, notes) := guest_thread_signal_pending (ss_thread st) linux_signal host_info in
    Some (1, SignalState (guest_actions st) t, c, m, notes)
  else
    let action := action_of st linux_signal in
    if sa_handler action <=? 1 then Some (-1, st, c, m, [])
    else
      let (old_mask, t) := guest_thread_signal_delivery_mask (ss_thread st) in
      let (pointer, size) := guest_thread_altstack_get t in
      let frame := frame_address c action pointer size in
      let bytes := frame_bytes c action linux_signal host_info old_mask pointer size in
      if negb (writable m frame (Z.of_nat (length bytes))) then None
      else
        let actions :=
          if has (sa_flags action) LINUX_SA_RESETHAND
          then <[Z.to_nat linux_signal := Sigaction 0 (sa_flags action) (sa_restorer action)
                                            (sa_mask action)]> (guest_actions st)
          else guest_actions st in
        Some (0,
          SignalState actions (guest_thread_signal_mask_set t (handler_mask old_mask action linux_signal)),
          Ucontext (handler_registers c action linux_signal frame) (uc_spsr c) (uc_vfp c)
            (handler_host_mask c action linux_signal),
          mem_store m frame bytes, []).

Definition restartable_syscall (number : Z) : bool :=
  bool_decide (number ∈ [3; 4; 54; 114; 145; 146; 240; 283; 285; 291; 292; 297; 366]).

(** The context after a system call interrupted by a signal whose handler asks
    for a restart. *)
Definition restart_context (st : signal_state) (c : ucontext) (linux_signal syscall_number
    original_r0 : Z) : ucontext :=
  if (gpr c 0 =? u32 (- errno_code EINTR)) &&
     has (sa_flags (action_of st linux_signal)) LINUX_SA_RESTART &&
     restartable_syscall syscall_number
  then Ucontext (<[15%nat := u32 (gpr c 15 - 4)]> (<[0%nat := original_r0]> (uc_gpr c)))
         (uc_spsr c) (uc_vfp c) (uc_sigmask c)
  else c.

(** [guest_signal_deliver_pending] *)
Definition guest_signal_deliver_pending (st : signal_state) (c : ucontext) (m : gmap Z Z)
    (syscall_number original_r0 : Z)
  : option (Z * signal_state * ucontext * gmap Z Z * list notification) :=
  let '(linux_signal, information, has_information, t) := guest_thread_take_pending (ss_thread st) in
  let st := SignalState (guest_actions st) t in
  if linux_signal =? 0 then Some (0, st, c, m, [])
  else
    let c := restart_context st c linux_signal syscall_number original_r0 in
    match guest_signal_deliver st c m linux_signal
            (if has_information then Some information else None) with
    | None => None
    | Some (v, st, c, m, notes) => Some (if v =? 0 then 1 else -1, st, c, m, notes)
    end.

(** [guest_signal_return]; [None] is a fault. *)
Definition guest_signal_return (st : signal_state) (c : ucontext) (m : gmap Z Z) (realtime : bool)
  : option (Z * signal_state * ucontext) :=
  let stack_pointer := gpr c 13 in
  if has stack_pointer 7 then Some (-1, st, c)
  else
    let guest := if realtime then stack_pointer + SIGINFO_SIZE else stack_pointer in
    match restore_vfp m (guest + REGISTER_SPACE_OFFSET) (uc_vfp c) with
    | None => None
    | Some None => Some (-1, st, c)
    | Some (Some vfp) =>
      match load_words m (guest + 104) 2, load_words m (guest + 32) 16, load32 m (guest + 96),
            load_words m (guest + 8) 3 with
      | Some [mask0; mask1], Some registers, Some cpsr, Some [pointer; flags; size] =>
        let mask := Words mask0 mask1 in
        let t := guest_thread_signal_mask_set (ss_thread st) mask in
        let t := if realtime then
                   if flags =? 2 then guest_thread_altstack_set t 0 0
                   else if flags =? 0 then guest_thread_altstack_set t pointer size else t
                 else t in
        Some (0, SignalState (guest_actions st) t,
              Ucontext registers cpsr vfp (linux_set_to_host mask))
      | _, _, _, _ => None
      end
    end.

(** [guest_signal_altstack]: the value returned, the state and memory. *)
Definition guest_signal_altstack (st : signal_state) (c : ucontext) (m : gmap Z Z)
    (guest_stack guest_old_stack : Z) : option (Z * signal_state * gmap Z Z) :=
  let (pointer, size) := guest_thread_altstack_get (ss_thread st) in
  let on_stack := on_altstack pointer size (gpr c 13) in
  let m := if negb (guest_old_stack =? 0)
           then mem_store m guest_old_stack
                  (concat_words [pointer; if on_stack then 1 else if size =? 0 then 2 else 0; size])
           else m in
  if guest_stack =? 0 then Some (0, st, m)
  else match load_words m guest_stack 3 with
  | Some [new_pointer; flags; new_size] =>
    if on_stack then Some (- errno_code EPERM, st, m)
    else if negb (flags .&~ 2 =? 0) then Some (- errno_code EINVAL, st, m)
    else if has flags 2 then
      Some (0, SignalState (guest_actions st) (guest_thread_altstack_set (ss_thread st) 0 0), m)
    else if new_size <? 2048 then Some (- errno_code ENOMEM, st, m)
    else Some (0, SignalState (guest_actions st)
                    (guest_thread_altstack_set (ss_thread st) new_pointer new_size), m)
  | _ => None
  end.

(** [host_signal_handler]: [executable] is [guest_memory_is_executable (pc, 4)]. *)
Definition host_signal_handler (executable : Z -> bool) (st : signal_state) (c : ucontext)
    (m : gmap Z Z) (host_signal : Z) (information : option siginfo)
  : option (signal_state * ucontext * gmap Z Z) :=
  let linux_signal := guest_signal_from_host host_signal in
  let active := match ss_thread st with Some t => t_syscall_active t | None => false end in
  let pending st :=
    SignalState (guest_actions st)
      (guest_thread_signal_pending (ss_thread st) linux_signal information).1 in
  if linux_signal =? 0 then Some (st, c, m)
  else if negb active && executable (gpr c 15) then
    match guest_signal_deliver st c m linux_signal information with
    | None => None
    | Some (v, st, c, m, _) =>
      if v =? 0 then Some (st, c, m) else Some (pending st, c, m)
    end
  else Some (pending st, c, m).

(** ** Actions *)

(** What the emulator registers with the host's [sigaction]. *)
Inductive host_handler : Set := SIG_DFL | SIG_IGN | HostSignalHandler.
Record host_action := HostAction { ha_handler : host_handler; ha_flags : Z; ha_mask : gset Z }.

(** The [host_action] of [guest_signal_action]. *)
Definition host_action_of (action : linux_sigaction) : host_action :=
  let handler := if sa_handler action =? 1 then SIG_IGN
                 else if sa_handler action =? 0 then SIG_DFL else HostSignalHandler in
  let flag bit host flags := if has (sa_flags action) bit then flags .| host else flags in
  let flags := match handler with HostSignalHandler => SA_SIGINFO | _ => 0 end in
  let flags := flag LINUX_SA_NOCLDSTOP SA_NOCLDSTOP flags in
  let flags := flag LINUX_SA_NOCLDWAIT SA_NOCLDWAIT flags in
  let flags := flag LINUX_SA_NODEFER SA_NODEFER flags in
  let flags := flag LINUX_SA_RESETHAND SA_RESETHAND flags in
  HostAction handler flags (linux_set_to_host (sa_mask action)).

(** The bits of [SIGKILL] and [SIGSTOP] are never taken from the guest. *)
Definition blockable (words : sigwords) : sigwords :=
  Words (word0 words .&~ (Z.shiftl 1 (9 - 1) .| Z.shiftl 1 (19 - 1))) (word1 words).

(** [guest_signal_mask]; what the guest's pointers refer to is [guest_set] and
    the old mask of the result. *)
Definition guest_signal_mask (pthread_sigmask : Z -> option (gset Z) -> option errno)
    (st : signal_state) (how : Z) (guest_set : option sigwords) (signal_set_size : Z)
  : Z * sigwords * signal_state :=
  let old := guest_thread_signal_mask_get (ss_thread st) in
  if negb (signal_set_size =? 8) || (how <? 0) || (2 <? how)
  then (- errno_code EINVAL, old, st)
  else match pthread_sigmask how
               (match guest_set with Some w => Some (linux_set_to_host (blockable w)) | None => None end)
  with
  | Some e => (linux_error e, old, st)
  | None =>
    match guest_set with
    | None => (0, old, st)
    | Some w =>
      let w := blockable w in
      let new := if how =? SIG_BLOCK then Words (word0 old .| word0 w) (word1 old .| word1 w)
                 else if how =? SIG_UNBLOCK then Words (word0 old .&~ word0 w) (word1 old .&~ word1 w)
                 else w in
      (0, old, SignalState (guest_actions st) (guest_thread_signal_mask_set (ss_thread st) new))
    end
  end.

(** [guest_signal_suspend]; [error] is how [sigsuspend] ended. *)
Definition guest_signal_suspend (sigsuspend : gset Z -> option errno) (st : signal_state)
    (guest_set : option sigwords) (signal_set_size : Z) : Z * signal_state :=
  match guest_set with
  | None => (- errno_code EINVAL, st)
  | Some words =>
    if negb (signal_set_size =? 8) then (- errno_code EINVAL, st)
    else
      let words := blockable words in
      let old := guest_thread_signal_mask_get (ss_thread st) in
      let t := guest_thread_signal_mask_set (ss_thread st) words in
      match sigsuspend (linux_set_to_host words) with
      | Some e =>
        (linux_error e,
         SignalState (guest_actions st)
           (if decide (e = EINTR) then guest_thread_signal_suspend_restore t old
            else guest_thread_signal_mask_set t old))
      | None => (0, SignalState (guest_actions st) (guest_thread_signal_mask_set t old))
      end
  end.

(** [guest_signal_action] on what the guest's pointers refer to; [sigaction] is the
    host's answer. *)
Definition guest_signal_action (sigaction : Z -> host_action -> option errno)
    (st : signal_state) (linux_signal : Z) (guest_action : option linux_sigaction)
    (signal_set_size : Z) : Z * signal_state :=
  if negb (signal_set_size =? 8) || (linux_signal <=? 0) || (LINUX_SIGNAL_COUNT <? linux_signal) ||
     (linux_signal_to_host linux_signal =? 0)
  then (- errno_code EINVAL, st)
  else match guest_action with
  | None => (0, st)
  | Some action =>
    if (linux_signal =? 9) || (linux_signal =? 19) then (- errno_code EINVAL, st)
    else
      let st := SignalState (<[Z.to_nat linux_signal := action]> (guest_actions st)) (ss_thread st) in
      if (linux_signal =? 4) || (linux_signal =? 11) then (0, st)
      else match sigaction (linux_signal_to_host linux_signal) (host_action_of action) with
           | Some e => (linux_error e, st)
           | None => (0, st)
           end
  end.

(** [guest_signal_host_mask] on the words behind [guest_set]. *)
Definition guest_signal_host_mask (guest_set : option sigwords) (signal_set_size : Z) : Z + gset Z :=
  match guest_set with
  | None => inl (- errno_code EINVAL)
  | Some words =>
    if negb (signal_set_size =? 8) then inl (- errno_code EINVAL) else inr (linux_set_to_host words)
  end.
End delivery.

(** ** Reading back what was stored *)

Lemma mem_load_slice m a bs off n :
  (off + n <= length bs)%nat ->
  mem_load (mem_store m a bs) (a + Z.of_nat off) n = Some (take n (drop off bs)).
Proof.
  intros Hl. apply mem_load_Some. split; [rewrite length_take, length_drop; lia|].
  intros i b Hi. apply lookup_take_Some in Hi as [Hi Hlt]. rewrite lookup_drop in Hi.
  rewrite <- Z.add_assoc, <- Nat2Z.inj_add. by apply mem_store_lookup_in.
Qed.

Lemma concat_words_length ws : length (concat_words ws) = (4 * length ws)%nat.
Proof.
  unfold concat_words. induction ws as [|w ws IH]; [done|]. cbn [fmap list_fmap concat length].
  rewrite length_app, length_le_bytes, IH. lia.
Qed.

Lemma concat_words_slice ws rest i w :
  ws !! i = Some w -> take 4 (drop (4 * i) (concat_words ws ++ rest)) = le_bytes 4 w.
Proof.
  revert i. induction ws as [|v ws IH]; intros i Hi; [done|].
  change (concat_words (v :: ws)) with (le_bytes 4 v ++ concat_words ws).
  rewrite <- app_assoc. destruct i as [|i].
  - injection Hi as <-. rewrite drop_0.
    rewrite take_app_le by (rewrite length_le_bytes; lia). apply take_ge.
    rewrite length_le_bytes. lia.
  - rewrite drop_app_ge by (rewrite length_le_bytes; lia). rewrite length_le_bytes.
    rewrite <- (IH i Hi). f_equal. f_equal. lia.
Qed.

(** The [i]-th word of a frame that starts with [ws] after [pre] bytes. *)
Lemma load_frame_word m a pre ws rest i w :
  Forall is_u32 ws -> ws !! i = Some w ->
  load32 (mem_store m a (pre ++ concat_words ws ++ rest))
    (a + Z.of_nat (length pre) + 4 * Z.of_nat i) = Some w.
Proof.
  intros Hu Hi. pose proof (lookup_lt_Some _ _ _ Hi) as Hlt. unfold load32.
  replace (a + Z.of_nat (length pre) + 4 * Z.of_nat i)
    with (a + Z.of_nat (length pre + 4 * i)) by lia.
  rewrite mem_load_slice by (rewrite !length_app, concat_words_length; lia).
  rewrite drop_app_ge by lia. replace (length pre + 4 * i - length pre)%nat with (4 * i)%nat by lia.
  rewrite (concat_words_slice _ _ _ _ Hi). f_equal. apply le_value_bytes_small.
  rewrite Forall_forall in Hu. specialize (Hu w (list_elem_of_lookup_2 _ _ _ Hi)).
  unfold is_u32, UINTPTR_MAX in Hu. change (2 ^ (8 * Z.of_nat 4)) with 4294967296. lia.
Qed.

Lemma load_frame_words m a pre ws rest i n :
  Forall is_u32 ws -> (i + n <= length ws)%nat ->
  load_words (mem_store m a (pre ++ concat_words ws ++ rest))
    (a + Z.of_nat (length pre) + 4 * Z.of_nat i) n = Some (take n (drop i ws)).
Proof.
  intros Hu. revert i. induction n as [|n IH]; intros i Hin; [done|]. cbn [load_words].
  destruct (lookup_lt_is_Some_2 ws i) as [w Hw]; [lia|].
  rewrite (load_frame_word _ _ _ _ _ _ _ Hu Hw).
  replace (a + Z.of_nat (length pre) + 4 * Z.of_nat i + 4)
    with (a + Z.of_nat (length pre) + 4 * Z.of_nat (S i)) by lia.
  rewrite IH by lia. rewrite (drop_S _ _ _ Hw). done.
Qed.

(** ** The machine context *)

Record vfp_ok (v : vfp_state) : Prop := {
  vo_x : length (vfp_x v) = 256%nat;
  vo_regs : Forall is_u32 [vfp_fpscr v; 0; vfp_fpexc v; vfp_fpinst v; vfp_fpinst2 v] }.

Record context_ok (c : ucontext) : Prop := {
  co_gpr : length (uc_gpr c) = 16%nat;
  co_u32 : Forall is_u32 (uc_gpr c);
  co_spsr : is_u32 (uc_spsr c);
  co_vfp : vfp_ok (uc_vfp c) }.

Definition words_ok (w : sigwords) : Prop := is_u32 (word0 w) /\ is_u32 (word1 w).

Lemma save_vfp_words v :
  save_vfp v = concat_words [LINUX_VFP_MAGIC; LINUX_VFP_FRAME_SIZE] ++ vfp_x v ++
    concat_words [vfp_fpscr v; 0; vfp_fpexc v; vfp_fpinst v; vfp_fpinst2 v] ++ replicate 228 0.
Proof.
  unfold save_vfp, concat_words. cbn [fmap list_fmap concat].
  change (replicate 4 0) with (le_bytes 4 0). by rewrite !app_nil_r, <- !app_assoc.
Qed.

Lemma save_vfp_length v : vfp_ok v -> length (save_vfp v) = 512%nat.
Proof.
  intros [Hx _]. rewrite save_vfp_words, !length_app, !concat_words_length, Hx, length_replicate.
  done.
Qed.

(** Restoring the saved floating-point state gives it back. *)
Lemma restore_saved_vfp m a pre v v0 rest :
  vfp_ok v ->
  restore_vfp (mem_store m a (pre ++ save_vfp v ++ rest)) (a + Z.of_nat (length pre)) v0 =
  Some (Some v).
Proof.
  intros [Hx Hr]. rewrite save_vfp_words, <- !app_assoc.
  set (head := concat_words [LINUX_VFP_MAGIC; LINUX_VFP_FRAME_SIZE]).
  set (tail := concat_words [vfp_fpscr v; 0; vfp_fpexc v; vfp_fpinst v; vfp_fpinst2 v]).
  set (zeros := replicate 228 0 ++ rest).
  assert (Hhead : length head = 8%nat) by (unfold head; by rewrite concat_words_length).
  assert (Hh : forall i w, [LINUX_VFP_MAGIC; LINUX_VFP_FRAME_SIZE] !! i = Some w ->
    load32 (mem_store m a (pre ++ head ++ vfp_x v ++ tail ++ zeros))
      (a + Z.of_nat (length pre) + 4 * Z.of_nat i) = Some w).
  { intros i w Hi. apply load_frame_word; [|done].
    repeat constructor; vm_compute; discriminate. }
  assert (Ht : forall i w, [vfp_fpscr v; 0; vfp_fpexc v; vfp_fpinst v; vfp_fpinst2 v] !! i = Some w ->
    load32 (mem_store m a (pre ++ head ++ vfp_x v ++ tail ++ zeros))
      (a + Z.of_nat (length pre) + 264 + 4 * Z.of_nat i) = Some w).
  { intros i w Hi.
    pose proof (load_frame_word m a (pre ++ head ++ vfp_x v) _ zeros i w Hr Hi) as Hl.
    rewrite <- !app_assoc, !length_app, Hhead, Hx in Hl. rewrite <- Hl. f_equal. lia. }
  unfold restore_vfp.
  pose proof (Hh 0%nat _ eq_refl) as H0. rewrite Z.mul_0_r, Z.add_0_r in H0. rewrite H0.
  pose proof (Hh 1%nat _ eq_refl) as H1. change (4 * Z.of_nat 1) with 4 in H1. rewrite H1.
  change (LINUX_VFP_MAGIC =? 0) with false. rewrite !Z.eqb_refl. cbn [negb orb].
  replace (a + Z.of_nat (length pre) + 8) with (a + Z.of_nat (length pre + 8)) by lia.
  rewrite mem_load_slice by (rewrite !length_app, Hx; lia).
  rewrite drop_app_ge by lia. replace (length pre + 8 - length pre)%nat with 8%nat by lia.
  rewrite drop_app_ge by lia. rewrite Hhead, drop_0, take_app_le, take_ge by lia.
  pose proof (Ht 0%nat _ eq_refl) as T0. rewrite Z.mul_0_r, Z.add_0_r in T0. rewrite T0.
  pose proof (Ht 2%nat _ eq_refl) as T2. pose proof (Ht 3%nat _ eq_refl) as T3.
  pose proof (Ht 4%nat _ eq_refl) as T4.
  replace (a + Z.of_nat (length pre) + 272) with (a + Z.of_nat (length pre) + 264 + 4 * Z.of_nat 2) by lia.
  replace (a + Z.of_nat (length pre) + 276) with (a + Z.of_nat (length pre) + 264 + 4 * Z.of_nat 3) by lia.
  replace (a + Z.of_nat (length pre) + 280) with (a + Z.of_nat (length pre) + 264 + 4 * Z.of_nat 4) by lia.
  rewrite T2, T3, T4. by destruct v.
Qed.

(** The fields of a stored context, read where [guest_signal_return] reads them. *)
Lemma read_context m a pre c mask fault sp sf ss rest :
  context_ok c -> words_ok mask -> Forall is_u32 [sp; sf; ss] ->
  let m' := mem_store m a (pre ++ context_bytes c mask fault sp sf ss ++ rest) in
  let guest := a + Z.of_nat (length pre) in
  load_words m' (guest + 104) 2 = Some [word0 mask; word1 mask] /\
  load_words m' (guest + 32) 16 = Some (uc_gpr c) /\
  load32 m' (guest + 96) = Some (uc_spsr c) /\
  load_words m' (guest + 8) 3 = Some [sp; sf; ss] /\
  forall v0, restore_vfp m' (guest + REGISTER_SPACE_OFFSET) v0 = Some (Some (uc_vfp c)).
Proof.
  intros [Hlen Hu Hs Hv] [Hm0 Hm1] Hst m' guest.
  set (ws := context_words c mask fault sp sf ss).
  assert (Hws : Forall is_u32 ws).
  { subst ws. unfold context_words. apply Forall_app. split.
    - rewrite !Forall_cons in Hst. assert (is_u32 0) by (split; vm_compute; discriminate).
      destruct Hst as (? & ? & ? & _).
      repeat (apply Forall_cons_2; [done|]). apply Forall_nil_2.
    - apply Forall_app. split; [done|]. apply Forall_app.
      split; [|by apply Forall_replicate; split; vm_compute].
      pose proof (u32_range fault). repeat (apply Forall_cons_2;
        [first [done|unfold is_u32, UINTPTR_MAX, U32_MOD in *; lia]|]). apply Forall_nil_2. }
  assert (Hwl : length ws = 58%nat).
  { subst ws. unfold context_words. rewrite !length_app, Hlen, length_replicate. done. }
  assert (Hm' : m' = mem_store m a (pre ++ concat_words ws ++ save_vfp (uc_vfp c) ++ rest)).
  { subst m' ws. unfold context_bytes. by rewrite <- app_assoc. }
  assert (Hw : forall i n, (i + n <= 58)%nat ->
    load_words m' (guest + 4 * Z.of_nat i) n = Some (take n (drop i ws))).
  { intros i n Hin. rewrite Hm'. apply load_frame_words; [done|lia]. }
  assert (Hdrop : drop 24 ws = [uc_spsr c; u32 fault; word0 mask; word1 mask] ++ replicate 30 0).
  { subst ws. unfold context_words. rewrite drop_app_ge by (simpl; lia). simpl length.
    rewrite drop_app_ge by lia. rewrite Hlen. done. }
  split_and!.
  - specialize (Hw 26%nat 2%nat ltac:(lia)). change (4 * Z.of_nat 26) with 104 in Hw. rewrite Hw.
    replace (drop 26 ws) with (drop 2 (drop 24 ws)) by (by rewrite drop_drop). by rewrite Hdrop.
  - specialize (Hw 8%nat 16%nat ltac:(lia)). change (4 * Z.of_nat 8) with 32 in Hw. rewrite Hw.
    f_equal. subst ws. unfold context_words. rewrite drop_app_ge by (simpl; lia). simpl length.
    rewrite drop_0, take_app_le, take_ge by lia. done.
  - specialize (Hw 24%nat 1%nat ltac:(lia)). change (4 * Z.of_nat 24) with 96 in Hw.
    rewrite Hdrop in Hw. cbn [load_words] in Hw. destruct (load32 m' (guest + 96)); [|done].
    by injection Hw as ->.
  - specialize (Hw 2%nat 3%nat ltac:(lia)). change (4 * Z.of_nat 2) with 8 in Hw. by rewrite Hw.
  - intros v0. rewrite Hm', app_assoc.
    pose proof (restore_saved_vfp m a (pre ++ concat_words ws) (uc_vfp c) v0 rest Hv) as Hr.
    rewrite length_app, concat_words_length, Hwl in Hr. rewrite <- Hr. f_equal.
    unfold REGISTER_SPACE_OFFSET, guest. lia.
Qed.

(** ** Delivery and return *)

Lemma aligned_frame x : has (x .&~ 7) 7 = false.
Proof.
  apply has_false. apply Z.bits_inj'. intros i Hi. rewrite Z.land_spec, Z.ldiff_spec, Z.bits_0.
  destruct (Z.testbit x i), (Z.testbit 7 i); done.
Qed.

Lemma fill_siginfo_length `{!HostErrno} s info : length (fill_siginfo s info) = 128%nat.
Proof.
  unfold fill_siginfo. rewrite length_app, length_replicate, concat_words_length.
  destruct info; [destruct (_ || _)|]; done.
Qed.

Section roundtrip.
Context `{!HostErrno, !HostSignals} (tr rt_tr : Z).

(** A delivery that returned 0, taken apart. *)
Lemma deliver_cases st t c m s info st' c' m' notes :
  ss_thread st = Some t ->
  guest_signal_deliver tr rt_tr st c m s info = Some (0, st', c', m', notes) ->
  let action := action_of st s in
  let old := (guest_thread_signal_delivery_mask (Some t)).1 in
  let frame := frame_address c action (t_altstack_pointer t) (t_altstack_size t) in
  1 < sa_handler action /\ 1 <= s <= 64 /\
  m' = mem_store m frame
         (frame_bytes c action s info old (t_altstack_pointer t) (t_altstack_size t)) /\
  uc_gpr c' = handler_registers tr rt_tr c action s frame /\
  exists t', ss_thread st' = Some t' /\ t_mask t' = handler_mask old action s /\
    t_altstack_pointer t' = t_altstack_pointer t /\ t_altstack_size t' = t_altstack_size t.
Proof.
  intros Ht. unfold guest_signal_deliver. rewrite Ht.
  destruct (_ || _) eqn:E1; [done|]. bprop. destruct (_ && in_words _ _) eqn:E2.
  { destruct (guest_thread_signal_pending _ _ _). done. }
  cond; [done|]. bprop. unfold guest_thread_signal_delivery_mask.
  destruct (t_suspend_restore t) as [w|] eqn:Er; cbn -[mem_store frame_bytes];
    (destruct (negb (writable _ _ _)); [done|]); intros Heq; injection Heq as <- <- <- <-;
    unfold LINUX_SIGNAL_COUNT in *; (split; [lia|]); (split; [lia|]); (split; [done|]);
    (split; [done|]); by eexists.
Qed.

Lemma handler_sp c action s frame :
  length (uc_gpr c) = 16%nat -> nth 13 (handler_registers tr rt_tr c action s frame) 0 = frame.
Proof.
  intros Hlen. unfold handler_registers. rewrite nth_lookup, list_lookup_insert_ne by done.
  rewrite list_lookup_insert_ne by done. rewrite list_lookup_insert_eq; [done|].
  destruct (has _ _); rewrite !length_insert; lia.
Qed.

(** What the current thread must satisfy: its masks are 32-bit words, and a
    thread without an alternate stack has no pointer to one. *)
Record thread_signal_ok (t : thread) : Prop := {
  ts_mask : words_ok (t_mask t);
  ts_restore : forall w, t_suspend_restore t = Some w -> words_ok w;
  ts_alt : is_u32 (t_altstack_pointer t) /\ is_u32 (t_altstack_size t);
  ts_none : t_altstack_size t = 0 -> t_altstack_pointer t = 0 }.

Lemma delivery_mask_ok t : thread_signal_ok t -> words_ok (guest_thread_signal_delivery_mask (Some t)).1.
Proof.
  intros [Hm Hr _ _]. unfold guest_thread_signal_delivery_mask.
  destruct (t_suspend_restore t) as [w|] eqn:E; simpl; [by apply Hr|done].
Qed.
End roundtrip.

(** The frame of a delivered signal is read back. *)
Lemma deliver_return `{!HostErrno, !HostSignals} (tr rt_tr : Z) (st : signal_state)
    (t : thread) (c : ucontext) (m : gmap Z Z) (s : Z) (info : option siginfo)
    (st' : signal_state) (c' c1 : ucontext) (m' : gmap Z Z) (notes : list notification) :
  context_ok c -> ss_thread st = Some t -> thread_signal_ok t ->
  guest_signal_deliver tr rt_tr st c m s info = Some (0, st', c', m', notes) ->
  gpr c1 13 = gpr c' 13 ->
  let old := (guest_thread_signal_delivery_mask (Some t)).1 in
  exists st2 c2,
    guest_signal_return st' c1 m' (has (sa_flags (action_of st s)) LINUX_SA_SIGINFO) =
      Some (0, st2, c2) /\
    uc_gpr c2 = uc_gpr c /\ uc_spsr c2 = uc_spsr c /\ uc_vfp c2 = uc_vfp c /\
    uc_sigmask c2 = linux_set_to_host old /\
    guest_thread_signal_mask_get (ss_thread st2) = old /\
    guest_thread_altstack_get (ss_thread st2) = (t_altstack_pointer t, t_altstack_size t).
Proof.
  intros Hc Ht Hts Hd Hsp old. pose proof (delivery_mask_ok t Hts) as Hold.
  apply (deliver_cases tr rt_tr st t) in Hd as (_ & _ & -> & Hg & t' & Ht' & _ & Hp & Hz); [|done].
  set (action := action_of st s) in *. set (ap := t_altstack_pointer t) in *.
  set (az := t_altstack_size t) in *. set (frame := frame_address c action ap az) in *.
  assert (Hframe : gpr c1 13 = frame).
  { rewrite Hsp. unfold gpr. rewrite Hg. apply handler_sp, Hc. }
  assert (Hal : has frame 7 = false).
  { subst frame. unfold frame_address. cbv zeta. destruct (has _ LINUX_SA_SIGINFO); apply aligned_frame. }
  unfold guest_signal_return. rewrite Hframe, Hal.
  set (sf := if on_altstack ap az (gpr c 13) then 1 else if az =? 0 then 2 else 0).
  set (fault := match info with None => 0 | Some i => si_addr i end).
  set (realtime := has (sa_flags action) LINUX_SA_SIGINFO) in *.
  set (pre := if realtime then fill_siginfo s info else []).
  assert (Hst : Forall is_u32 [ap; sf; az]).
  { destruct (ts_alt _ Hts). repeat (apply Forall_cons_2; [first [done|subst sf;
      repeat cond; split; vm_compute; discriminate]|]). apply Forall_nil_2. }
  destruct (read_context m frame pre c old fault ap sf az (replicate 16 0) Hc Hold Hst)
    as (R1 & R2 & R3 & R4 & R5).
  assert (Hguest : (if realtime then frame + SIGINFO_SIZE else frame) = frame + Z.of_nat (length pre)).
  { subst pre. destruct realtime; [by rewrite fill_siginfo_length|simpl; lia]. }
  rewrite Hguest.
  change (frame_bytes c action s info (guest_thread_signal_delivery_mask (Some t)).1 ap az)
    with (pre ++ context_bytes c old fault ap sf az ++ replicate 16 0).
  rewrite R5, R1, R2, R3, R4, Ht'. do 2 eexists. split; [reflexivity|].
  split; [done|]. split; [done|]. split; [done|]. split; [by destruct old|].
  assert (Halt : guest_thread_altstack_get
    (if realtime then if sf =? 2 then guest_thread_altstack_set (Some t') 0 0
       else if sf =? 0 then guest_thread_altstack_set (Some t') ap az else Some t'
     else Some t') = (ap, az)).
  { destruct realtime; [|simpl; by rewrite Hp, Hz].
    subst sf. destruct (on_altstack ap az (gpr c 13)); [simpl; by rewrite Hp, Hz|].
    destruct (az =? 0) eqn:Ez; [|done]. bprop. simpl. rewrite Ez. f_equal.
    symmetry. exact (ts_none _ Hts Ez). }
  split; [by destruct old, realtime; repeat case_match|].
  rewrite <- Halt. by destruct realtime; repeat case_match.
Qed.

(** C19: delivering a signal and returning from its handler is the identity on
    the interrupted computation.  After [guest_signal_deliver] has started a
    handler, [guest_signal_return], called with the stack pointer the handler
    got and whatever else it left in the registers, restores all sixteen
    registers, the status register and the floating-point state, sets the mask
    that was in force before (the one saved by a suspension, if any) for guest
    and host, and leaves the alternate stack as it was.  Signals with and
    without [SA_SIGINFO], on either stack, are covered. *)
Theorem deliver_return_roundtrip `{!HostErrno, !HostSignals} (tr rt_tr : Z) (st : signal_state)
    (t : thread) (c : ucontext) (m : gmap Z Z) (s : Z) (info : option siginfo)
    (st' : signal_state) (c' c1 : ucontext) (m' : gmap Z Z) (notes : list notification) :
  context_ok c -> ss_thread st = Some t -> thread_signal_ok t ->
  guest_signal_deliver tr rt_tr st c m s info = Some (0, st', c', m', notes) ->
  gpr c1 13 = gpr c' 13 ->
  let old := (guest_thread_signal_delivery_mask (Some t)).1 in
  exists st2 c2,
    guest_signal_return st' c1 m' (has (sa_flags (action_of st s)) LINUX_SA_SIGINFO) =
      Some (0, st2, c2) /\
    uc_gpr c2 = uc_gpr c /\ uc_spsr c2 = uc_spsr c /\ uc_vfp c2 = uc_vfp c /\
    uc_sigmask c2 = linux_set_to_host old /\
    guest_thread_signal_mask_get (ss_thread st2) = old /\
    guest_thread_altstack_get (ss_thread st2) = (t_altstack_pointer t, t_altstack_size t).
Proof. apply deliver_return. Qed.

(** ** Signal numbers *)

(** [host_signal_to_linux] of [linux_syscall.c], used for wait statuses. *)
Definition host_signal_to_linux (signal_number : Z) : Z :=
  switch [(1, 1); (2, 2); (3, 3); (4, 4); (5, 5); (6, 6); (8, 8); (9, 9); (11, 11); (13, 13);
    (14, 14); (15, 15); (10, 7); (12, 31); (16, 10); (17, 12); (18, 17); (19, 30); (20, 28);
    (21, 23); (22, 29); (23, 19); (24, 20); (25, 18); (26, 21); (27, 22); (28, 26); (29, 27);
    (30, 24); (31, 25)] signal_number signal_number.

(** The real-time signals of the host come after its ordinary ones, and there
    are at least sixteen. *)
Class HostSignalsOk `{!HostSignals} : Prop := {
  sig_rt_above : 31 < SIGRTMIN;
  sig_rt_count : SIGRTMIN + 15 <= SIGRTMAX }.

Lemma switch_in cases d v : switch cases d v = d \/ exists r, (v, r) ∈ cases /\ switch cases d v = r.
Proof.
  induction cases as [|[c r] cases IH]; simpl; [by left|]. cond; bprop.
  - subst. right. exists r. split; [apply list_elem_of_here|done].
  - destruct IH as [?|(r' & ? & ?)]; [by left|right]. exists r'.
    split; [by apply list_elem_of_further|done].
Qed.

(** The table of ordinary signals, checked entry by entry. *)
Lemma table_inverse `{!HostSignals} :
  Forall (fun '(n, h) => 1 <= h <= 31 /\ from_host_loop 31 1 h = n /\ host_signal_to_linux h = n)
    signal_table.
Proof.
  repeat (apply Forall_cons_2; [vm_compute; repeat split; discriminate|]). apply Forall_nil_2.
Qed.

Lemma to_host_cases `{!HostSignals} n :
  (32 <= n <= 47 /\ linux_signal_to_host n = SIGRTMIN + n - 32) \/ linux_signal_to_host n = 0 \/
  (n, linux_signal_to_host n) ∈ signal_table.
Proof.
  unfold linux_signal_to_host. destruct (_ && _) eqn:E; bprop; [by left|right].
  destruct (switch_in signal_table 0 n) as [->|(h & Hin & ->)]; [by left|by right].
Qed.

(** The translation of signal numbers loses nothing: a Linux signal that
    has a host number is recovered from it by [guest_signal_from_host], and, for
    the ordinary signals, also by [host_signal_to_linux], the second table in
    [linux_syscall.c], with which wait statuses are translated. *)
Theorem signal_numbers_roundtrip `{!HostSignals} (Hok : HostSignalsOk) (n : Z) :
  1 <= n <= 64 -> linux_signal_to_host n <> 0 ->
  guest_signal_from_host (linux_signal_to_host n) = n /\
  (n <= 31 -> host_signal_to_linux (linux_signal_to_host n) = n).
Proof.
  destruct Hok as [Ha Hc]. intros Hn Hne. unfold guest_signal_from_host.
  destruct (to_host_cases n) as [[Hrt ->]|[?|Hin]]; [|done|].
  - rewrite (proj2 (Z.leb_le _ _)), (proj2 (Z.leb_le _ _)) by lia. cbn [andb]. split; [lia|]. lia.
  - pose proof table_inverse as Ht. rewrite Forall_forall in Ht.
    destruct (Ht _ Hin) as (Hr & Hf & Hh). rewrite (proj2 (Z.leb_gt SIGRTMIN _)) by lia.
    by rewrite Hf, Hh.
Qed.

(** Wait statuses do not translate real-time signals: a child killed by one
    is reported with the host's number, another Linux signal's or none's, since
    [host_signal_to_linux] has no case for them. *)
Theorem wait_status_realtime_raw `{!HostSignals} (Hok : HostSignalsOk) (n : Z) :
  32 <= n <= 47 -> SIGRTMIN <> 32 ->
  host_signal_to_linux (linux_signal_to_host n) <> n.
Proof.
  destruct Hok as [Ha _]. intros Hn Hmin.
  destruct (to_host_cases n) as [[_ ->]|[H0|Hin]].
  - unfold host_signal_to_linux. set (h := SIGRTMIN + n - 32).
    assert (Hh : 31 < h) by lia.
    cbn [switch].
    repeat (rewrite (proj2 (Z.eqb_neq h _)) by lia). lia.
  - unfold linux_signal_to_host in H0. rewrite (proj2 (Z.leb_le 32 n)), (proj2 (Z.leb_le n 47)) in H0
      by lia. cbn [andb] in H0. lia.
  - assert (Ht : Forall (fun e => e.1 <= 31) signal_table)
      by (repeat (apply Forall_cons_2; [vm_compute; discriminate|]); apply Forall_nil_2).
    rewrite Forall_forall in Ht. specialize (Ht _ Hin). simpl in Ht. lia.
Qed.

(** ** Masks *)

Lemma blockable_bits w n : n = 9 \/ n = 19 -> in_words (blockable w) n = false.
Proof.
  intros Hn. rewrite in_words_low by lia. unfold blockable. cbn [word0].
  rewrite Z.ldiff_spec. destruct Hn as [-> | ->]; apply andb_false_r.
Qed.

Lemma blockable_other w n : 1 <= n <= 32 -> n <> 9 -> n <> 19 ->
  in_words (blockable w) n = in_words w n.
Proof.
  intros Hn H9 H19. rewrite !in_words_low by lia. unfold blockable. cbn [word0].
  rewrite Z.ldiff_spec, Z.lor_spec, !Z.shiftl_1_l, !Z.pow2_bits_eqb by lia.
  rewrite (proj2 (Z.eqb_neq (9 - 1) _)), (proj2 (Z.eqb_neq (19 - 1) _)) by lia.
  apply andb_true_r.
Qed.

(** The signals of a set that can be blocked: all but [SIGKILL] and [SIGSTOP]. *)
Definition requested (w : sigwords) (n : Z) : bool := in_words w n && negb (n =? 9) && negb (n =? 19).

Lemma blockable_requested w n : 1 <= n <= 64 -> in_words (blockable w) n = requested w n.
Proof.
  intros Hn. unfold requested. destruct (Z.eqb_spec n 9) as [->|H9]; [by rewrite blockable_bits, andb_false_r by auto|].
  destruct (Z.eqb_spec n 19) as [->|H19]; [by rewrite blockable_bits, andb_false_r by auto|].
  rewrite !andb_true_r. destruct (Z.le_gt_cases n 32); [apply blockable_other; lia|].
  rewrite !in_words_bit. unfold word_of. by rewrite (proj2 (Z.eqb_neq ((n - 1) / 32) 0)) by mlia.
Qed.

Lemma in_words_lor a b c d n :
  in_words (Words (a .| b) (c .| d)) n = in_words (Words a c) n || in_words (Words b d) n.
Proof.
  rewrite !in_words_bit. unfold word_of. cbn [word0 word1]. destruct (_ =? 0); apply Z.lor_spec.
Qed.

Lemma in_words_ldiff a b c d n :
  in_words (Words (a .&~ b) (c .&~ d)) n = in_words (Words a c) n && negb (in_words (Words b d) n).
Proof.
  rewrite !in_words_bit. unfold word_of. cbn [word0 word1]. destruct (_ =? 0); apply Z.ldiff_spec.
Qed.

(** C39: [guest_signal_mask], case by case.  The old mask is always reported.  A set
    of another size than 8 bytes or an operation outside 0 to 2 gives [-EINVAL], an
    error of the host its Linux number, both with the thread as it was; without a set
    the mask is only read.  Otherwise the value is 0 and every signal from 1 to 64 is
    masked afterwards exactly when the operation says so: with [SIG_BLOCK] if it was
    masked or is in the set, with [SIG_UNBLOCK] if it was masked and is not, else if
    it is in the set, where [SIGKILL] and [SIGSTOP] never count as being in the set.
    Nothing else of the thread changes. *)
Theorem signal_mask_correct `{!HostErrno, !HostSignals}
    (pthread_sigmask : Z -> option (gset Z) -> option errno) (acts : list linux_sigaction)
    (t : thread) (how : Z) (set : option sigwords) (size : Z) :
  SIG_BLOCK = 0 -> SIG_UNBLOCK = 1 ->
  let out := guest_signal_mask pthread_sigmask (SignalState acts (Some t)) how set size in
  let unchanged v := out = (v, t_mask t, SignalState acts (Some t)) in
  if decide (size = 8 /\ 0 <= how <= 2) then
    match pthread_sigmask how ((linux_set_to_host ∘ blockable) <$> set), set with
    | Some e, _ => unchanged (linux_error e)
    | None, None => unchanged 0
    | None, Some w => exists mask,
        out = (0, t_mask t, SignalState acts (Some (set_mask mask (t_suspend_restore t) t))) /\
        forall n, 1 <= n <= 64 -> in_words mask n =
          if how =? 0 then in_words (t_mask t) n || requested w n
          else if how =? 1 then in_words (t_mask t) n && negb (requested w n)
          else requested w n
    end
  else unchanged (- errno_code EINVAL).
Proof.
  intros Hb Hu out unchanged. subst out unchanged. unfold guest_signal_mask. rewrite Hb, Hu.
  cbn [ss_thread guest_actions guest_thread_signal_mask_get guest_thread_signal_mask_set].
  case_decide as Ha.
  2:{ assert (negb (size =? 8) || (how <? 0) || (2 <? how) = true) as ->; [|done].
      apply not_false_iff_true. intros E. apply Ha. by bprop. }
  destruct Ha as [-> Hh]. rewrite Z.eqb_refl, (proj2 (Z.ltb_ge how 0)), (proj2 (Z.ltb_ge 2 how)) by lia. cbn [negb orb].
  replace (match set with Some w => Some (linux_set_to_host (blockable w)) | None => None end)
    with ((linux_set_to_host ∘ blockable) <$> set) by (by destruct set).
  destruct (pthread_sigmask _ _); [done|]. destruct set as [w|]; [|done]. eexists. split; [reflexivity|].
  intros n Hn. rewrite <- (blockable_requested w n Hn). destruct (t_mask t) as [m0 m1], (blockable w) as [b0 b1].
  cbn [word0 word1]. repeat cond; by rewrite ?in_words_lor, ?in_words_ldiff.
Qed.

(** ** Witnesses *)

Module GuestSignalExamples.
Import ExampleErrno.
#[local] Existing Instance host_errno.
#[local] Instance example_signals : HostSignals :=
  {| SIGRTMIN := 41; SIGRTMAX := 56; SIGILL := 4; SIGSEGV := 11; SIG_BLOCK := 0; SIG_UNBLOCK := 1 |}.

Lemma example_signals_ok : HostSignalsOk.
Proof. split; vm_compute; [reflexivity|discriminate]. Qed.

Definition vfp0 : vfp_state := Vfp (replicate 256 7) 1 2 3 4.
Definition c0 : ucontext :=
  Ucontext (replicate 13 5 ++ [0x40000; 0x10004; 0x10008]) 0x10 vfp0 ∅.
Definition handlers : list linux_sigaction :=
  replicate 12 zero_action ++ [Sigaction 0x20000 LINUX_SA_SIGINFO 0 (Words 2 0)] ++
  replicate 52 zero_action.
Definition st0 : signal_state := SignalState handlers (Some zero_thread).
Definition m0 : gmap Z Z := mem_zero ∅ 0x3dc00 1024.

Lemma c0_ok : context_ok c0.
Proof.
  split; [reflexivity| |split; vm_compute; discriminate|].
  - apply Forall_app. split; [apply Forall_replicate; split; vm_compute; discriminate|].
    repeat (apply Forall_cons_2; [split; vm_compute; discriminate|]). apply Forall_nil_2.
  - split; [reflexivity|].
    repeat (apply Forall_cons_2; [split; vm_compute; discriminate|]). apply Forall_nil_2.
Qed.

Lemma zero_thread_signal_ok : thread_signal_ok zero_thread.
Proof.
  split; [split; split; vm_compute; discriminate|discriminate|
    split; split; vm_compute; discriminate|reflexivity].
Qed.

Definition delivered := guest_signal_deliver 0x70001000 0x70001004 st0 c0 m0 12 None.

Lemma delivered_is_0 v st' c' m' notes :
  guest_signal_deliver 0x70001000 0x70001004 st0 c0 m0 12 None = Some (v, st', c', m', notes) ->
  v = 0.
Proof.
  intros E. apply (f_equal (fun o => match o with Some (v, _, _, _, _) => v | None => 1 end)) in E.
  vm_compute in E. exact (eq_sym E).
Qed.

Lemma deliver_return_roundtrip_witness :
  match delivered with
  | Some (v, st', c', m', _) => v = 0 /\
    exists st2 c2, guest_signal_return st' c' m' true = Some (0, st2, c2) /\ uc_gpr c2 = uc_gpr c0
  | None => False
  end.
Proof.
  unfold delivered.
  destruct (guest_signal_deliver _ _ _ _ _ _ _) as [[[[[v st'] c'] m'] notes]|] eqn:E.
  - rewrite (delivered_is_0 _ _ _ _ _ E) in E |- *. split; [reflexivity|].
    destruct (deliver_return_roundtrip 0x70001000 0x70001004 st0 zero_thread c0 m0 12 None st' c' c' m'
      notes c0_ok eq_refl zero_thread_signal_ok E eq_refl) as (st2 & c2 & Hr & Hg & _).
    exists st2, c2. split; [exact Hr|exact Hg].
  - apply (f_equal (fun o => match o with Some _ => true | None => false end)) in E.
    vm_compute in E. discriminate.
Defined.

Lemma signal_numbers_roundtrip_witness : guest_signal_from_host (linux_signal_to_host 17) = 17.
Proof.
  refine (proj1 (signal_numbers_roundtrip example_signals_ok 17 _ _)); [lia|vm_compute; discriminate].
Defined.

Lemma wait_status_realtime_raw_witness : host_signal_to_linux (linux_signal_to_host 34) <> 34.
Proof. apply (wait_status_realtime_raw example_signals_ok 34); [lia|vm_compute; discriminate]. Defined.

(** Signals 2 and 9 are to be blocked; 2 is. *)
Lemma signal_mask_correct_witness : exists mask,
  guest_signal_mask (fun _ _ => None) (SignalState handlers (Some zero_thread)) 0 (Some (Words 0x102 0)) 8 =
    (0, Words 0 0, SignalState handlers (Some (set_mask mask None zero_thread))) /\
  in_words mask 2 = true /\ in_words mask 9 = false.
Proof.
  pose proof (signal_mask_correct (fun _ _ => None) handlers zero_thread 0 (Some (Words 0x102 0)) 8
    eq_refl eq_refl) as H. cbv zeta in H. rewrite decide_True in H by (split; [reflexivity|lia]).
  destruct H as (mask & E & Hm). exists mask. split; [exact E|].
  rewrite !Hm by lia. split; reflexivity.
Defined.

(** A thread with Linux signal 34 blocked. *)
Definition blocked34 : signal_state :=
  SignalState handlers (Some (set_mask (Words 0 2) None zero_thread)).

(** A blocked real-time signal that reaches [host_signal_handler] is queued
    twice: [guest_signal_deliver] has already left it pending when it returns 1,
    and the handler, which only looks for 0, queues it again. *)
Theorem blocked_signal_queued_twice :
  exists st c m host_signal information st' c' m',
    host_signal_handler 0x70001000 0x70001004 (fun _ => true) st c m host_signal information =
      Some (st', c', m') /\
    (forall t, ss_thread st = Some t -> pending_view t (guest_signal_from_host host_signal) = []) /\
    forall t, ss_thread st' = Some t ->
      length (pending_view t (guest_signal_from_host host_signal)) = 2%nat.
Proof.
  exists blocked34, c0, ∅, 43, None. do 3 eexists. split; [vm_compute; reflexivity|].
  split; intros t Ht; injection Ht as <-; vm_compute; reflexivity.
Qed.

End GuestSignalExamples.
