(* ===== verification/Mmap.v ===== *)
(** * Guest mappings: [mmap2], [mprotect] and [munmap] of [src/src/linux_syscall.c]

    The three system calls that change the guest's address space while it runs.
    They keep four things in step: the host's mappings (the bytes), the registry
    of runtime mappings, the patch table, and the protections, which the model
    records as the list of calls made to the host. *)

From S2P Require Import Prelude Errno Bytes Util RuntimeRegistry GuestMemory ArmPatch GuestThread.
Open Scope Z_scope.

Definition LINUX_MAP_SHARED : Z := 0x01.
Definition LINUX_MAP_PRIVATE : Z := 0x02.
Definition LINUX_MAP_FIXED : Z := 0x10.
Definition LINUX_MAP_ANONYMOUS : Z := 0x20.
Definition LINUX_MAP_KNOWN : Z :=
  LINUX_MAP_SHARED .| LINUX_MAP_PRIVATE .| LINUX_MAP_FIXED .| LINUX_MAP_ANONYMOUS.
Definition LINUX_PROT_READ : Z := 1.
Definition LINUX_PROT_WRITE : Z := 2.
Definition LINUX_PROT_EXEC : Z := 4.

(** The host's mapping flags ([<sys/mman.h>]). *)
Class HostMap := { MAP_SHARED : Z; MAP_PRIVATE : Z; MAP_FIXED : Z; MAP_ANON : Z }.

(** The guest's address space; [sp_log] is the sequence of the calls of [mprotect]
    and [msync] that succeeded, latest first. *)
Record space := Space {
  sp_memory : guest_memory;
  sp_patches : list patch_record;
  sp_bytes : gmap Z Z;
  sp_log : list protect_call }.

Definition registry (sp : space) : list runtime_mapping := runtime_mappings (sp_memory sp).
Definition with_registry (l : list runtime_mapping) (sp : space) : space :=
  let s := sp_memory sp in
  Space (GuestMemory (load_segments s) (page_size s) (current_break s) (minimum_break s)
           (break_mapping_end s) l) (sp_patches sp) (sp_bytes sp) (sp_log sp).
Definition with_patches (p : list patch_record) (m : gmap Z Z) (sp : space) : space :=
  Space (sp_memory sp) p m (sp_log sp).

(** The host: the first argument of [mh_protect] numbers the calls of a system
    call.  [mh_file] is what a descriptor reads. *)
Record mmap_host := MmapHost {
  mh_mmap : gmap Z Z -> Z -> Z -> Z -> Z -> Z -> Z -> mmap_result;
  mh_munmap : Z -> Z -> option errno;
  mh_protect : nat -> protect_call -> option errno;
  mh_fstat : Z -> result Z;
  mh_file : Z -> list Z;
  mh_read : nat -> list pread_step;
  mh_elf : elf_host }.

Section mmap.
Context `{!HostErrno, !HostProt, !HostMap}.
(** The conversion of an integer to the host's [off_t]. *)
Context (off_t : Z -> Z).
Context (host : mmap_host).
(** The value of [errno] after a call that fails without setting it. *)
Context (stale_errno : errno).

Definition translate_protection (linux_protection : Z) : option Z :=
  if negb ((linux_protection .&~ (LINUX_PROT_READ .| LINUX_PROT_WRITE .| LINUX_PROT_EXEC)) =? 0)
  then None
  else
    let p := PROT_NONE in
    let p := if has linux_protection LINUX_PROT_READ then p .| PROT_READ else p in
    let p := if has linux_protection LINUX_PROT_WRITE then p .| PROT_WRITE else p in
    Some (if has linux_protection LINUX_PROT_EXEC then p .| PROT_EXEC else p).

(** [return -EINVAL;] and the like: the host's own number. *)
Definition raw_error (e : errno) : Z := - errno_code e.
(** [return -(int32_t) linux_errno_number (errno);] after a call that failed. *)
Definition call_error (e : option errno) : Z :=
  linux_error (default stale_errno e).

(** A call of [mprotect] or [msync]: its error, and the log after it. *)
Definition protect (n : nat) (call : protect_call) (sp : space) : option errno * space :=
  match mh_protect host n call with
  | Some e => (Some e, sp)
  | None => (None, Space (sp_memory sp) (sp_patches sp) (sp_bytes sp) (call :: sp_log sp))
  end.

(** [munmap], its result ignored. *)
Definition unmapped (address length : Z) (sp : space) : space :=
  with_patches (sp_patches sp) (mem_unmap (sp_bytes sp) address length) sp.
Definition forgotten (address length : Z) (sp : space) : space :=
  with_patches (arm_patch_forget_range (sp_patches sp) address length) (sp_bytes sp) sp.

(** ** [linux_munmap_runtime] *)

(** The system calls return a value, the space and the calling thread; [None] is
    a fault or the end of the read steps. *)
Definition linux_munmap_runtime (t : option thread) (active_stack : Z) (sp : space)
    (address length : Z) : option (Z * space * option thread) :=
  let host_page_size := page_size (sp_memory sp) in
  if (length =? 0) || has address (u32 (host_page_size - 1)) ||
     (UINTPTR_MAX - u32 (host_page_size - 1) <? length)
  then Some (raw_error EINVAL, sp, t)
  else
    let mapped_length := align_up length host_page_size in
    match guest_memory_runtime_owned (registry sp) address mapped_length with
    | None => None
    | Some false => Some (raw_error EINVAL, sp, t)
    | Some true =>
      match guest_thread_defer_active_stack_unmap t active_stack address mapped_length with
      | (true, t) => Some (0, sp, t)
      | (false, t) =>
        match mh_munmap host address mapped_length with
        | Some e => Some (linux_error e, sp, t)
        | None =>
          let sp := forgotten address mapped_length (unmapped address mapped_length sp) in
          Some (0, with_registry
                     (guest_memory_runtime_unmap (registry sp) address mapped_length) sp, t)
        end
      end
    end.

(** ** [linux_mprotect_runtime] *)

(** The part for ranges the registry does not own. *)
Definition mprotect_segment (sp : space) (address mapped_length host_protection : Z)
  : option (Z * space) :=
  match guest_memory_range_owned (sp_memory sp) address mapped_length with
  | None => None
  | Some false => Some (raw_error ENOMEM, sp)
  | Some true =>
    if has host_protection PROT_EXEC &&
       negb (guest_memory_is_executable (sp_memory sp) address mapped_length)
    then Some (raw_error EACCES, sp)
    else match protect 0 (Mprotect address mapped_length host_protection) sp with
         | (Some e, sp) => Some (linux_error e, sp)
         | (None, sp) => Some (0, sp)
         end
  end.

(** [arm_patch_rollback (patches_before)] *)
Definition patches_rolled_back (patches_before : nat) (sp : space) : space :=
  let (p, m) := arm_patch_rollback (sp_patches sp) (sp_bytes sp) patches_before in
  with_patches p m sp.

(** The block under [if ((host_protection & PROT_EXEC) != 0)]. *)
Definition make_executable (sp : space) (address mapped_length host_protection : Z)
  : option (result unit * space) :=
  let patches_before := arm_patch_count (sp_patches sp) in
  match protect 0 (Mprotect address mapped_length
                     (host_protection .| PROT_READ .| PROT_WRITE)) sp with
  | (Some e, sp) => Some (fail_with e, sp)
  | (None, sp) =>
    match arm_patch_range (sp_patches sp) (sp_bytes sp) address mapped_length with
    | None => None
    | Some (Err e, p, m) =>
      let sp := patches_rolled_back patches_before (with_patches p m sp) in
      Some (Err e, snd (protect 1 (Mprotect address mapped_length host_protection) sp))
    | Some (Ok _, p, m) =>
      let sp := with_patches p m sp in
      match protect 1 (MsyncInvalidateIcache address mapped_length) sp with
      | (Some e, sp) =>
        let sp := patches_rolled_back patches_before sp in
        Some (fail_with e, snd (protect 2 (Mprotect address mapped_length host_protection) sp))
      | (None, sp) => Some (Ok tt, sp)
      end
    end
  end.

Definition linux_mprotect_runtime (sp : space) (address length linux_protection : Z)
  : option (Z * space) :=
  let host_page_size := page_size (sp_memory sp) in
  let patches_before := arm_patch_count (sp_patches sp) in
  match translate_protection linux_protection with
  | None => Some (raw_error EINVAL, sp)
  | Some host_protection =>
    if (length =? 0) || has address (u32 (host_page_size - 1)) ||
       (UINTPTR_MAX - u32 (host_page_size - 1) <? length)
    then Some (raw_error EINVAL, sp)
    else
      let mapped_length := align_up length host_page_size in
      match guest_memory_runtime_owned (registry sp) address mapped_length with
      | None => None
      | Some false => mprotect_segment sp address mapped_length host_protection
      | Some true =>
        match (if has host_protection PROT_EXEC
               then make_executable sp address mapped_length host_protection
               else Some (Ok tt, sp)) with
        | None => None
        | Some (Err e, sp) => Some (call_error e, sp)
        | Some (Ok _, sp) =>
          match protect 2 (Mprotect address mapped_length host_protection) sp with
          | (Some e, sp) =>
            Some (linux_error e, if has host_protection PROT_EXEC
                                 then patches_rolled_back patches_before sp else sp)
          | (None, sp) =>
            match guest_memory_runtime_protect (registry sp) address mapped_length
                    (has host_protection PROT_EXEC) with
            | (Ok Protected, l) => Some (0, with_registry l sp)
            | (Ok NotOwned, _) => Some (call_error None, sp)
            | (Err e, _) => Some (call_error e, sp)
            end
          end
        end
      end
  end.

(** ** [linux_mmap2] *)

(** What [mmap] of [length] bytes of a file at [offset] shows: the file, then
    zeros. *)
Definition file_window (file : list Z) (offset length : nat) : list Z :=
  take length (drop offset file ++ replicate length 0).

(** The checks before the call of the host's [mmap]: an error to return, or the
    protection the guest asked for. *)
Definition mmap2_checks (sp : space) (address length protection flags : Z)
  : option (Z + Z) :=
  let host_page_size := page_size (sp_memory sp) in
  match translate_protection protection with
  | None => Some (inl (raw_error EINVAL))
  | Some host_protection =>
    if negb ((flags .&~ LINUX_MAP_KNOWN) =? 0) then Some (inl (raw_error EINVAL))
    else if (flags .& (LINUX_MAP_SHARED .| LINUX_MAP_PRIVATE)) =?
            (LINUX_MAP_SHARED .| LINUX_MAP_PRIVATE) then Some (inl (raw_error EINVAL))
    else if negb (has flags LINUX_MAP_SHARED) && negb (has flags LINUX_MAP_PRIVATE)
    then Some (inl (raw_error EINVAL))
    else if (length =? 0) || (UINTPTR_MAX - u32 (host_page_size - 1) <? length)
    then Some (inl (raw_error EINVAL))
    else
      match (if has flags LINUX_MAP_FIXED then
               if has address (u32 (host_page_size - 1)) then Some false
               else guest_memory_runtime_owned (registry sp) address
                      (align_up length host_page_size)
             else Some true) with
      | None => None
      | Some false => Some (inl (raw_error ENOMEM))
      | Some true =>
        if has flags LINUX_MAP_SHARED && has host_protection PROT_EXEC
        then Some (inl (raw_error EOPNOTSUPP))
        else Some (inr host_protection)
      end
  end.

(** The file part of a private mapping with [PROT_EXEC] is read into anonymous
    memory: an error, or the bytes read. *)
Definition copy_file (fd offset requested_length : Z) : option (Z + list Z) :=
  match mh_fstat host fd with
  | Err e => Some (inl (call_error e))
  | Ok st_size =>
    if (st_size <? 0) || (offset <? 0) || (st_size <? offset) then Some (inl (raw_error EINVAL))
    else
      let file_bytes := if st_size - offset <? off_t requested_length
                        then u32 (st_size - offset) else requested_length in
      match read_exact_at (mh_read host (Z.to_nat file_bytes)) (mh_file host fd)
              (Z.to_nat file_bytes) (Z.to_nat offset) with
      | None => None
      | Some (Err e) => Some (inl (call_error e))
      | Some (Ok bytes) => Some (inr bytes)
      end
  end.

(** The rest of the call on a mapping at [address], already filled: patching,
    instruction cache, protection and registry; each failure forgets the patches
    of the range and unmaps it. *)
Definition mmap2_install (sp : space) (fd offset address mapped_length flags mapping_protection
    host_protection : Z) : option (Z * space) :=
  let discard sp := unmapped address mapped_length (forgotten address mapped_length sp) in
  let sp := forgotten address mapped_length sp in
  match (if has flags LINUX_MAP_ANONYMOUS then Some (Ok tt, sp_patches sp, sp_bytes sp)
         else arm_patch_elf_mapping (mh_elf host) (mh_file host fd) fd offset address mapped_length
                (sp_patches sp) (sp_bytes sp)) with
  | None => None
  | Some (Err e, p, m) => Some (call_error e, discard (with_patches p m sp))
  | Some (Ok _, p, m) =>
    let sp := with_patches p m sp in
    match (if has host_protection PROT_EXEC
           then protect 0 (MsyncInvalidateIcache address mapped_length) sp else (None, sp)) with
    | (Some e, sp) => Some (linux_error e, discard sp)
    | (None, sp) =>
      match (if negb (mapping_protection =? host_protection)
             then protect 1 (Mprotect address mapped_length host_protection) sp
             else (None, sp)) with
      | (Some e, sp) => Some (linux_error e, discard sp)
      | (None, sp) =>
        match guest_memory_runtime_map (registry sp) address mapped_length
                (has host_protection PROT_EXEC) with
        | (Err e, _) => Some (call_error e, discard sp)
        | (Ok _, l) => Some (s32 address, with_registry l sp)
        end
      end
    end
  end.

(** [linux_mmap2] on the values of the registers 0 to 5. *)
Definition linux_mmap2 (sp : space) (address length protection flags fd page : Z)
  : option (Z * space) :=
  match mmap2_checks sp address length protection flags with
  | None => None
  | Some (inl error) => Some (error, sp)
  | Some (inr host_protection) =>
    let mapped_length := align_up length (page_size (sp_memory sp)) in
    let private_file := has flags LINUX_MAP_PRIVATE && negb (has flags LINUX_MAP_ANONYMOUS) in
    let copy_executable_file := private_file && has host_protection PROT_EXEC in
    let offset := off_t (off_t page * 4096) in
    let fd := s32 fd in
    let host_flags := if has flags LINUX_MAP_SHARED then MAP_SHARED else MAP_PRIVATE in
    let host_flags := if has flags LINUX_MAP_FIXED then host_flags .| MAP_FIXED else host_flags in
    let host_flags := if has flags LINUX_MAP_ANONYMOUS || copy_executable_file
                      then host_flags .| MAP_ANON else host_flags in
    let mapping_protection :=
      if private_file then (host_protection .| PROT_READ .| PROT_WRITE) .&~ PROT_EXEC
      else host_protection in
    match mh_mmap host (sp_bytes sp) address length mapping_protection host_flags
            (if copy_executable_file then -1 else fd) (if copy_executable_file then 0 else offset) with
    | MmapFailed e => Some (linux_error e, sp)
    | MmapAt mapped_address =>
      let contents := if has flags LINUX_MAP_ANONYMOUS || copy_executable_file
                      then replicate (Z.to_nat mapped_length) 0
                      else file_window (mh_file host fd) (Z.to_nat offset) (Z.to_nat mapped_length) in
      let sp := with_patches (sp_patches sp) (mem_store (sp_bytes sp) mapped_address contents) sp in
      if (mapped_address <? GUEST_MIN_ADDRESS) || (GUEST_MAX_ADDRESS <=? mapped_address) ||
         (GUEST_MAX_ADDRESS - mapped_address <? mapped_length)
      then Some (raw_error ENOMEM, unmapped mapped_address mapped_length sp)
      else match (if copy_executable_file then copy_file fd offset length else Some (inr [])) with
      | None => None
      | Some (inl error) => Some (error, unmapped mapped_address mapped_length sp)
      | Some (inr bytes) =>
        let sp := with_patches (sp_patches sp) (mem_store (sp_bytes sp) mapped_address bytes) sp in
        mmap2_install sp fd offset mapped_address mapped_length flags mapping_protection
          host_protection
      end
    end
  end.
End mmap.

(** ** The invariant of the address space *)

Record space_wf (sp : space) : Prop := {
  spw_page : is_page (page_size (sp_memory sp)) /\ page_size (sp_memory sp) mod 4 = 0;
  spw_registry : registry_wf (registry sp);
  spw_patches : patches_wf (sp_patches sp) (sp_bytes sp);
  spw_u32 : Forall (fun r => is_u32 (pr_address r)) (sp_patches sp);
  spw_bytes : mem_wf (sp_bytes sp);
  spw_backed : forall x, is_Some (owner (registry sp) x) -> is_Some (sp_bytes sp !! x) }.

(** The test [(address & (host_page_size - 1)) != 0]. *)
Lemma page_aligned p address :
  is_page p -> has address (u32 (p - 1)) = false <-> address mod p = 0.
Proof.
  intros Hp. pose proof (is_page_range p Hp). rewrite has_false, u32_small
    by (unfold is_u32, UINTPTR_MAX; lia). destruct Hp as (k & Hk & ->).
  replace (2 ^ k - 1) with (Z.ones k) by (rewrite Z.ones_equiv; lia). by rewrite Z.land_ones by lia.
Qed.

Lemma multiple_of_4 p a : p mod 4 = 0 -> 0 < p -> a mod p = 0 -> a mod 4 = 0.
Proof.
  intros [k ->]%Z.mod_divide Hp [j ->]%Z.mod_divide; [|lia..].
  rewrite Z.mul_assoc. apply Z.mod_mul. done.
Qed.

(** The page range a system call works on. *)
Record page_range (sp : space) (address len mapped : Z) : Prop := {
  pr_aligned : address mod 4 = 0 /\ mapped mod 4 = 0;
  pr_covers : 0 < len <= mapped;
  pr_bounds : 0 <= address /\ mapped <= UINTPTR_MAX }.

Lemma checked_range sp address len :
  space_wf sp -> is_u32 address -> 0 <= len ->
  (len =? 0) || has address (u32 (page_size (sp_memory sp) - 1)) ||
    (UINTPTR_MAX - u32 (page_size (sp_memory sp) - 1) <? len) = false ->
  page_range sp address len (align_up len (page_size (sp_memory sp))).
Proof.
  intros [[Hp H4] _ _ _ _ _] [Ha0 Ha1] Hl. set (p := page_size _) in *. intros Hc. bprop.
  pose proof (is_page_range p Hp). rewrite u32_small in * by (unfold is_u32, UINTPTR_MAX; lia).
  destruct (align_up_spec len p Hp) as [Hm Hr]; [lia|].
  match goal with Hh : has address _ = false |- _ =>
    rewrite <- (u32_small (p - 1)) in Hh by (unfold is_u32, UINTPTR_MAX; lia);
    apply page_aligned in Hh; [|done] end.
  split; [split; (eapply multiple_of_4; [exact H4|lia|done])|lia|].
  split; [done|]. assert (Hd : align_up len p <= UINTPTR_MAX); [|done].
  pose proof (Z.mod_pos_bound (align_up len p) U32_MOD). unfold align_up in *.
  pose proof (u32_range (len + p - 1)). unfold U32_MOD, UINTPTR_MAX in *. lia.
Qed.

Lemma owned_true sp address len :
  space_wf sp -> 0 <= len -> guest_memory_runtime_owned (registry sp) address len = Some true ->
  bad_range address len = false /\ address + len <= UINTPTR_MAX /\
  (forall x, address <= x < address + len -> is_Some (owner (registry sp) x)) /\
  mapped (sp_bytes sp) address len.
Proof.
  intros Hwf Hl Ho.
  destruct (runtime_owned_spec (registry sp) address len (spw_registry _ Hwf) Hl) as (b & E & Hb).
  rewrite Ho in E. injection E as <-. destruct (proj1 Hb eq_refl) as (H1 & H2 & H3).
  split_and!; [by apply bad_range_false|done|done|]. intros x Hx. apply (spw_backed _ Hwf), H3, Hx.
Qed.

Lemma forget_u32 p a n :
  Forall (fun r => is_u32 (pr_address r)) p ->
  Forall (fun r => is_u32 (pr_address r)) (arm_patch_forget_range p a n).
Proof.
  unfold arm_patch_forget_range. rewrite !Forall_forall. intros Hp r Hr.
  apply list_elem_of_In, filter_In in Hr as [Hr _]. by apply Hp, list_elem_of_In.
Qed.

(** A range has been unmapped: nothing of it is left, the rest is as before. *)
Record range_gone (sp sp' : space) (address len : Z) : Prop := {
  rg_bytes : sp_bytes sp' = mem_unmap (sp_bytes sp) address len;
  rg_patches : forall b, b mod 4 = 0 -> address <= b < address + len ->
    arm_patch_original (sp_patches sp') b = None;
  rg_fetch : forall b, b mod 4 = 0 -> b < address \/ address + len <= b ->
    fetch (sp_patches sp') (sp_bytes sp') b = fetch (sp_patches sp) (sp_bytes sp) b;
  rg_owner : (forall x, owner (registry sp') x = owner_update (owner (registry sp)) address
                          (address + len) None x) /\ space_wf sp' \/
    (registry sp' = registry sp /\ (MAX_RUNTIME_MAPPINGS <= length (registry sp) + 1)%nat) }.

Lemma mem_unmap_wf m a n : mem_wf m -> mem_wf (mem_unmap m a n).
Proof. intros Hm x b. rewrite mem_unmap_lookup. cond; [done|]. apply Hm. Qed.

Lemma unmap_range sp address len :
  space_wf sp -> address mod 4 = 0 -> len mod 4 = 0 -> is_u32 address -> is_u32 len ->
  bad_range address len = false ->
  let sp1 := forgotten address len (unmapped address len sp) in
  range_gone sp (with_registry (guest_memory_runtime_unmap (registry sp1) address len) sp1)
    address len.
Proof.
  intros Hwf Ha4 Hn4 Ha Hn Hbad. cbv zeta. set (m' := mem_unmap (sp_bytes sp) address len).
  assert (Hout : same_outside address len (sp_bytes sp) m').
  { intros x Hx. unfold m'. by rewrite mem_unmap_lookup, Hx. }
  destruct (forget_range_spec (sp_patches sp) (sp_bytes sp) m' address len (spw_patches _ Hwf)
    (spw_u32 _ Hwf) Ha4 Hn4 Hout) as [Hpw Hf].
  destruct (runtime_unmap_spec (registry sp) address len (spw_registry _ Hwf) Ha Hn Hbad)
    as [Hrw Hor].
  pose proof (proj1 (bad_range_false _ _) Hbad) as [_ Hmax].
  split; [done| | |].
  - intros b Hb Hin. apply (proj1 (Hf b Hb)); lia.
  - intros b Hb Hd. by apply (proj2 (Hf b Hb)).
  - destruct Hor as [Hup|[Hsame Hfull]]; [left|right; by split]. split; [done|].
    destruct Hwf as [Hpg _ _ H32 Hmw Hback].
    split; [done|done|done|by apply forget_u32|by apply mem_unmap_wf|].
    intros x. cbn. change (registry (with_registry ?l ?s)) with l. rewrite Hup. unfold owner_update.
    cond; [by intros []|]. intros Hx. rewrite mem_unmap_lookup.
    change (in_range x address (address + len)) with (inside address len x) in E. rewrite E. auto.
Qed.

Lemma defer_false t active address len t' :
  guest_thread_defer_active_stack_unmap t active address len = (false, t') -> t' = t.
Proof.
  unfold guest_thread_defer_active_stack_unmap. destruct t as [t|]; [|by intros [= <-]].
  cond; [by intros [= <-]|]. cond; done.
Qed.

(** C12: [munmap] on a consistent address space always returns.  It is refused
    (a length of 0, an address off a page, a range that is not owned, or the host
    failing) with nothing changed; or, when it would take the stack the caller
    runs on away, it is put off and recorded in the thread; or the whole pages of
    the range are gone from memory, no instruction of them is remembered, every
    other fetch is as before, and the registry has given the range up, unless it
    is full, in which case it keeps it. *)
Theorem munmap_correct `{!HostErrno} (host : mmap_host) (t : option thread) (active : Z)
    (sp : space) (address len : Z) :
  space_wf sp -> is_u32 address -> is_u32 len ->
  exists rc sp' t', linux_munmap_runtime host t active sp address len = Some (rc, sp', t') /\
    let whole := align_up len (page_size (sp_memory sp)) in
    (sp' = sp /\ t' = t /\
      (rc = raw_error EINVAL \/ exists e, mh_munmap host address whole = Some e /\ rc = linux_error e)) \/
    (rc = 0 /\ sp' = sp /\
      guest_thread_defer_active_stack_unmap t active address whole = (true, t')) \/
    (rc = 0 /\ t' = t /\ len <= whole /\ mh_munmap host address whole = None /\
      (forall x, address <= x < address + whole -> is_Some (owner (registry sp) x)) /\
      range_gone sp sp' address whole).
Proof.
  intros Hwf Ha [Hl Hl']. unfold linux_munmap_runtime. cbv zeta.
  set (p := page_size (sp_memory sp)). destruct (_ || _) eqn:Ec.
  { do 3 eexists. split; [done|]. left. by repeat (split; [done|]); left. }
  destruct (checked_range sp address len Hwf Ha Hl Ec) as [[H4 Hn4] [Hl0 Hlm] [_ Hmax]].
  fold p in H4, Hn4, Hl0, Hlm, Hmax. set (whole := align_up len p) in *.
  destruct (runtime_owned_spec (registry sp) address whole (spw_registry _ Hwf)) as (b & Eo & _);
    [lia|]. rewrite Eo. destruct b.
  2:{ do 3 eexists. split; [done|]. left. by repeat (split; [done|]); left. }
  destruct (owned_true sp address whole Hwf ltac:(lia) Eo) as (Hbad & _ & Hown & _).
  destruct (guest_thread_defer_active_stack_unmap t active address whole) as [[] t'] eqn:Ed.
  { do 3 eexists. split; [done|]. right. left. by split_and!. }
  apply defer_false in Ed as ->. destruct (mh_munmap host address whole) as [e|] eqn:Em.
  { do 3 eexists. split; [done|]. left. split; [done|]. split; [done|]. right. eauto. }
  do 3 eexists. split; [done|]. right. right. split_and!; try done.
  apply unmap_range; try done. split; lia.
Qed.

(** ** Protection *)

(** All but the log is the same. *)
Definition same_space (sp sp' : space) : Prop :=
  sp_memory sp' = sp_memory sp /\ sp_patches sp' = sp_patches sp /\ sp_bytes sp' = sp_bytes sp.

Lemma space_wf_same sp sp' : space_wf sp -> same_space sp sp' -> space_wf sp'.
Proof.
  destruct sp, sp'. intros [] (H1 & H2 & H3). simpl in *. subst. by split.
Qed.

(** Instructions were patched in the range and nothing else was changed. *)
Record patched_from (sp sp' : space) (address len : Z) : Prop := {
  pf_memory : sp_memory sp' = sp_memory sp;
  pf_wf : space_wf sp';
  pf_fetch : forall b, b mod 4 = 0 ->
    fetch (sp_patches sp') (sp_bytes sp') b = fetch (sp_patches sp) (sp_bytes sp) b;
  pf_new : exists new, sp_patches sp' = sp_patches sp ++ new /\
    restore_patches (rev new) (sp_bytes sp') = sp_bytes sp /\
    Forall (fun r => address <= pr_address r < address + len) new;
  pf_mapped : forall a n, mapped (sp_bytes sp) a n -> mapped (sp_bytes sp') a n }.

Lemma patched_same sp sp' address len : space_wf sp -> same_space sp sp' ->
  patched_from sp sp' address len.
Proof.
  intros Hwf Hs. split; [apply Hs|by eapply space_wf_same|..];
    destruct Hs as (_ & E2 & E3); rewrite ?E2, ?E3; [done| |done].
  exists []. by rewrite app_nil_r.
Qed.

Lemma patched_then_same sp sp1 sp2 address len :
  patched_from sp sp1 address len -> same_space sp1 sp2 -> patched_from sp sp2 address len.
Proof.
  intros [H1 H2 H3 H4 H5] (E1 & E2 & E3). split; rewrite ?E1, ?E2, ?E3; try done.
  by eapply space_wf_same.
Qed.

Lemma rolled_back_same sp sp' address len :
  patched_from sp sp' address len ->
  same_space sp (patches_rolled_back (arm_patch_count (sp_patches sp)) sp').
Proof.
  intros [H1 _ _ (new & Hn & Hu & _) _]. unfold patches_rolled_back. rewrite Hn.
  rewrite (rollback_undo _ _ _ _ Hu). by split_and!.
Qed.

Lemma patch_space sp address len r p m :
  space_wf sp -> 0 <= address -> 0 <= len -> address + len <= UINTPTR_MAX ->
  arm_patch_range (sp_patches sp) (sp_bytes sp) address len = Some (r, p, m) ->
  patched_from sp (with_patches p m sp) address len /\
  (r = Ok tt -> forall b, b mod 4 = 0 -> address <= b < address + len -> clean m b).
Proof.
  intros [Hpg Hreg Hp H32 Hb Hback] Ha Hlen Hmax E.
  destruct (arm_patch_range_inv _ _ _ _ _ _ _ Hp Hb E) as (Hp' & Hb' & Hf).
  destruct (arm_patch_range_undo _ _ _ _ _ _ _ Hb E) as (new & -> & Hu).
  destruct (arm_patch_range_range _ _ _ _ _ _ _ Hlen E) as (n' & <-%app_inv_head & Hrg).
  destruct (arm_patch_range_clean _ _ _ _ _ _ _ Hlen E) as [_ Hc]. split; [|done].
  split; [done| |done|by exists new|intros a n; by apply (arm_patch_range_mapped _ _ _ _ _ _ _ a n E)].
  split; try done; cbn [with_patches sp_patches sp_bytes].
  - apply Forall_app. split; [done|]. eapply Forall_impl; [exact Hrg|]. unfold is_u32. simpl. lia.
  - intros x Hx. apply (arm_patch_range_mapped _ _ _ _ _ _ _ x 1 E); [|lia].
    intros y Hy. replace y with x by lia. by apply Hback.
Qed.

Lemma protect_same (host : mmap_host) n call sp : same_space sp (snd (protect host n call sp)).
Proof. unfold protect. by destruct (mh_protect host n call). Qed.

Lemma same_space_trans sp sp1 sp2 : same_space sp sp1 -> same_space sp1 sp2 -> same_space sp sp2.
Proof. unfold same_space. intuition congruence. Qed.

Lemma make_executable_spec `{!HostProt} (host : mmap_host) sp address len prot :
  space_wf sp -> 0 <= address -> 0 <= len -> address + len <= UINTPTR_MAX ->
  mapped (sp_bytes sp) address len ->
  exists r sp', make_executable host sp address len prot = Some (r, sp') /\
    match r with
    | Err _ => same_space sp sp'
    | Ok _ => patched_from sp sp' address len /\
        forall b, b mod 4 = 0 -> address <= b < address + len -> clean (sp_bytes sp') b
    end.
Proof.
  intros Hwf Ha Hlen Hmax Hm. unfold make_executable.
  set (call0 := Mprotect address len _). pose proof (protect_same host 0 call0 sp) as Hs1.
  destruct (protect host 0 call0 sp) as [[e|] sp1]; [by do 2 eexists|]. simpl in Hs1.
  pose proof (space_wf_same _ _ Hwf Hs1) as Hwf1.
  destruct (arm_patch_range_returns (sp_patches sp1) (sp_bytes sp1) address len Hlen)
    as [[[r p] m] E]; [by destruct Hs1 as (_ & _ & ->)|]. rewrite E.
  destruct (patch_space sp1 address len r p m Hwf1 Ha Hlen Hmax E) as [Hpf Hc].
  assert (Hcount : arm_patch_count (sp_patches sp) = arm_patch_count (sp_patches sp1))
    by (by destruct Hs1 as (_ & -> & _)).
  destruct r as [[]|e].
  2:{ do 2 eexists. split; [done|]. simpl. eapply same_space_trans; [|apply protect_same].
      eapply same_space_trans; [exact Hs1|]. rewrite Hcount. by eapply rolled_back_same. }
  set (sp2 := with_patches p m sp1) in *. set (call1 := MsyncInvalidateIcache address len).
  pose proof (protect_same host 1 call1 sp2) as Hs3.
  destruct (protect host 1 call1 sp2) as [[e|] sp3]; simpl in Hs3.
  - do 2 eexists. split; [done|]. simpl. eapply same_space_trans; [|apply protect_same].
    eapply same_space_trans; [exact Hs1|]. rewrite Hcount.
    eapply rolled_back_same, patched_then_same; [exact Hpf|done].
  - do 2 eexists. split; [done|]. simpl. split.
    + destruct Hpf as [H1 H2 H3 H4 H5]. pose proof Hs1 as (E1 & E2 & E3).
      rewrite E1, E2, E3 in *.
      eapply patched_then_same; [|exact Hs3]. by split.
    + destruct Hs3 as (_ & _ & ->). by apply Hc.
Qed.

Lemma range_owned_returns s a n :
  registry_wf (runtime_mappings s) -> is_Some (guest_memory_range_owned s a n).
Proof.
  intros Hwf. unfold guest_memory_range_owned. repeat (cond; [by eexists|]).
  destruct (range_owned_owner (runtime_mappings s) a (a + n) Hwf) as (b & -> & _). by eexists.
Qed.

Lemma runtime_protect_owned l a n x :
  registry_wf l -> is_u32 a -> is_u32 n -> bad_range a n = false ->
  guest_memory_runtime_owned l a n = Some true ->
  match guest_memory_runtime_protect l a n x with
  | (Ok Protected, l') => registry_wf l' /\
      forall i, owner l' i = owner_update (owner l) a (a + n) (Some x) i
  | (Ok NotOwned, _) => False
  | (Err e, _) => e = Some ENOMEM /\ (MAX_RUNTIME_MAPPINGS <= length l + 1)%nat
  end.
Proof.
  intros Hwf Ha Hn Hbad Ho. pose proof (run_op_wf (OpProtect a n x) l Hwf (conj Ha Hn)) as Hwf'.
  pose proof (replace_step l a n true x Hwf Ha Hn Hbad) as Hstep.
  unfold guest_memory_runtime_owned in Ho. rewrite Hbad in Ho. simpl in Hwf'.
  unfold guest_memory_runtime_protect in *. rewrite Hbad, Ho in *.
  by destruct (runtime_replace_locked l a (a + n) true x).
Qed.

Lemma space_wf_registry sp l address len :
  space_wf sp -> registry_wf l -> mapped (sp_bytes sp) address len ->
  (forall i, is_Some (owner l i) ->
     address <= i < address + len \/ is_Some (owner (registry sp) i)) ->
  space_wf (with_registry l sp).
Proof.
  intros [Hpg Hreg Hp H32 Hb Hback] Hl Hm Ho. split; try done.
  intros x Hx. destruct (Ho x Hx) as [Hin|Hx']; [by apply Hm|by apply Hback].
Qed.

Lemma owner_update_some l l' a n x i :
  (forall i, owner l' i = owner_update (owner l) a (a + n) (Some x) i) ->
  is_Some (owner l' i) -> a <= i < a + n \/ is_Some (owner l i).
Proof.
  intros Hup. rewrite Hup. unfold owner_update, in_range. cond; [|by right]. bprop. left. lia.
Qed.

(** The outcomes of [mprotect] on a range the registry owns. *)
Inductive mprotect_outcome `{!HostErrno, !HostProt} (sp : space) (address len prot rc : Z)
    (sp' : space) : Prop :=
| mp_refused : rc < 0 -> same_space sp sp' -> mprotect_outcome sp address len prot rc sp'
| mp_done sp1 l :
    rc = 0 -> sp' = with_registry l sp1 -> patched_from sp sp1 address len -> registry_wf l ->
    (exists log, sp_log sp' = Mprotect address len prot :: log) ->
    (forall x, owner l x = owner_update (owner (registry sp)) address (address + len)
                             (Some (has prot PROT_EXEC)) x) ->
    (has prot PROT_EXEC = true -> forall b, b mod 4 = 0 -> address <= b < address + len ->
       clean (sp_bytes sp') b) ->
    mprotect_outcome sp address len prot rc sp'
| mp_full :
    rc = linux_error ENOMEM -> patched_from sp sp' address len ->
    (MAX_RUNTIME_MAPPINGS <= length (registry sp) + 1)%nat ->
    mprotect_outcome sp address len prot rc sp'.

Section mprotect.
Context `{!HostErrno, !HostErrnoOk, !HostProt} (host : mmap_host) (stale_errno : errno).

(** The part after the checks, as one step. *)
Lemma mprotect_finish sp sp1 address len prot :
  space_wf sp -> is_u32 address -> is_u32 len -> bad_range address len = false ->
  guest_memory_runtime_owned (registry sp) address len = Some true ->
  patched_from sp sp1 address len ->
  (has prot PROT_EXEC = false -> same_space sp sp1) ->
  (has prot PROT_EXEC = true -> forall b, b mod 4 = 0 -> address <= b < address + len ->
     clean (sp_bytes sp1) b) ->
  exists rc sp', match protect host 2 (Mprotect address len prot) sp1 with
    | (Some e, sp2) =>
      Some (linux_error e, if has prot PROT_EXEC
                           then patches_rolled_back (arm_patch_count (sp_patches sp)) sp2 else sp2)
    | (None, sp2) =>
      match guest_memory_runtime_protect (registry sp2) address len (has prot PROT_EXEC) with
      | (Ok Protected, l) => Some (0, with_registry l sp2)
      | (Ok NotOwned, _) => Some (call_error stale_errno None, sp2)
      | (Err e, _) => Some (call_error stale_errno e, sp2)
      end
    end = Some (rc, sp') /\ mprotect_outcome sp address len prot rc sp'.
Proof.
  intros Hwf Ha Hn Hbad Ho Hpf Hsame Hclean. unfold protect.
  destruct (mh_protect host 2 (Mprotect address len prot)) as [e|].
  { do 2 eexists. split; [done|]. apply mp_refused; [apply linux_error_neg|]. destruct (has prot PROT_EXEC); [|auto].
    by eapply rolled_back_same. }
  set (sp2 := Space _ _ _ _).
  assert (Hpf2 : patched_from sp sp2 address len) by (by eapply patched_then_same).
  assert (Hreg : registry sp2 = registry sp) by (unfold registry; by rewrite (pf_memory _ _ _ _ Hpf2)).
  rewrite Hreg.
  pose proof (runtime_protect_owned (registry sp) address len (has prot PROT_EXEC)
    (spw_registry _ Hwf) Ha Hn Hbad Ho) as Hp.
  destruct (guest_memory_runtime_protect _ _ _ _) as [[[]|e] l]; [|done|].
  - destruct Hp as [Hl Hup]. do 2 eexists. split; [done|].
    eapply mp_done; [done|done|exact Hpf2|done|by eexists|done|exact Hclean].
  - destruct Hp as [-> Hfull]. do 2 eexists. split; [done|]. by apply mp_full.
Qed.
End mprotect.

Lemma mprotect_outcome_wf `{!HostErrno, !HostProt} sp address len prot rc sp' :
  space_wf sp -> mapped (sp_bytes sp) address len -> mprotect_outcome sp address len prot rc sp' ->
  space_wf sp' /\ forall b, b mod 4 = 0 ->
    fetch (sp_patches sp') (sp_bytes sp') b = fetch (sp_patches sp) (sp_bytes sp) b.
Proof.
  intros Hwf Hm [_ Hs|sp1 l _ -> [H1 H2 H3 _ H5] Hl _ Hup _|_ [H1 H2 H3 _] _]; [..|done].
  - split; [by eapply space_wf_same|]. by destruct Hs as (_ & -> & ->).
  - split; [|done]. eapply space_wf_registry; [done|done| |].
    + by apply H5.
    + intros i Hi. unfold registry. rewrite H1. by eapply owner_update_some.
Qed.

(** The conditional block before the protection is set. *)
Lemma prepare_protect `{!HostProt} (host : mmap_host) sp address len prot :
  space_wf sp -> 0 <= address -> 0 <= len -> address + len <= UINTPTR_MAX ->
  mapped (sp_bytes sp) address len ->
  exists r sp', (if has prot PROT_EXEC then make_executable host sp address len prot
                 else Some (Ok tt, sp)) = Some (r, sp') /\
    match r with
    | Err _ => same_space sp sp'
    | Ok _ => patched_from sp sp' address len /\
        (has prot PROT_EXEC = false -> same_space sp sp') /\
        (has prot PROT_EXEC = true -> forall b, b mod 4 = 0 -> address <= b < address + len ->
           clean (sp_bytes sp') b)
    end.
Proof.
  intros Hwf Ha Hlen Hmax Hm. destruct (has prot PROT_EXEC).
  - destruct (make_executable_spec host sp address len prot Hwf Ha Hlen Hmax Hm)
      as (r & sp1 & E & HQ). exists r, sp1. split; [done|]. destruct r; [|done].
    destruct HQ as [H1 H2]. by split_and!.
  - exists (Ok tt), sp. split; [done|]. split_and!; [by apply patched_same|done|done].
Qed.

(** What [mprotect] does to a range that the registry does not own in full: pages of
    the program, whose protection alone is changed.  Nothing is patched there; execute
    permission is given only where the loader, which patched them, or the registry has
    it already. *)
Record segment_protected `{!HostProt} (sp : space) (address len prot rc : Z) (sp' : space) : Prop := {
  sg_value : rc = 0;
  sg_same : same_space sp sp';
  sg_not_owned : ~ (len <> 0 /\ address + len <= UINTPTR_MAX /\
    forall x, address <= x < address + len -> is_Some (owner (registry sp) x));
  sg_guest : guest_memory_range_owned (sp_memory sp) address len = Some true;
  sg_executable : has prot PROT_EXEC = true -> guest_memory_is_executable (sp_memory sp) address len = true;
  sg_log : sp_log sp' = Mprotect address len prot :: sp_log sp }.

Lemma raw_error_neg `{!HostErrno, !HostErrnoOk} e : raw_error e < 0.
Proof. unfold raw_error. pose proof (errno_code_pos e). lia. Qed.

Lemma mprotect_segment_spec `{!HostErrno, !HostErrnoOk, !HostProt} (host : mmap_host) sp address len prot :
  space_wf sp -> 0 <= len -> guest_memory_runtime_owned (registry sp) address len = Some false ->
  exists rc sp', mprotect_segment host sp address len prot = Some (rc, sp') /\
    ((rc < 0 /\ same_space sp sp') \/ segment_protected sp address len prot rc sp').
Proof.
  intros Hwf Hl Ho. unfold mprotect_segment.
  destruct (range_owned_returns (sp_memory sp) address len (spw_registry _ Hwf)) as [b Eb]. rewrite Eb.
  pose proof (raw_error_neg ENOMEM). pose proof (raw_error_neg EACCES).
  destruct b; [|do 2 eexists; split; [done|]; by left].
  destruct (has prot PROT_EXEC && _) eqn:Ex; [do 2 eexists; split; [done|]; by left|].
  unfold protect. destruct (mh_protect host 0 _) as [e|].
  - do 2 eexists. split; [done|]. left. split; [apply linux_error_neg|done].
  - do 2 eexists. split; [done|]. right. split; try done.
    + destruct (runtime_owned_spec (registry sp) address len (spw_registry _ Hwf) Hl) as (b & E & Hb).
      rewrite Ho in E. injection E as <-. rewrite <- Hb. done.
    + intros He. rewrite He in Ex. cbn [andb] in Ex. by apply negb_false_iff.
Qed.

(** C11: [mprotect] on a consistent address space always returns, leaves it
    consistent and changes no instruction the guest sees.  With a negative value
    nothing has changed but protections, except that a full registry leaves patches
    behind.  With the value 0 on a range the registry owns, the protection has been
    set last, the registry has the new executable flag exactly on the range, and
    with execute permission no system call or TLS read is left unpatched in it.  With
    0 on any other range all of it belongs to the guest, only the protection has been
    set, and execute permission was asked for only where the program already had it:
    nothing is patched there. *)
Theorem mprotect_correct `{!HostErrno, !HostErrnoOk, !HostProt} (host : mmap_host) (stale_errno : errno)
    (sp : space) (address len linux_protection : Z) :
  space_wf sp -> is_u32 address -> is_u32 len ->
  let whole := align_up len (page_size (sp_memory sp)) in
  exists rc sp',
    linux_mprotect_runtime host stale_errno sp address len linux_protection = Some (rc, sp') /\
    space_wf sp' /\
    (forall b, b mod 4 = 0 ->
       fetch (sp_patches sp') (sp_bytes sp') b = fetch (sp_patches sp) (sp_bytes sp) b) /\
    ((rc < 0 /\ same_space sp sp') \/
     exists prot, translate_protection linux_protection = Some prot /\
       (segment_protected sp address whole prot rc sp' \/
        ((forall x, address <= x < address + whole -> is_Some (owner (registry sp) x)) /\
         mprotect_outcome sp address whole prot rc sp'))).
Proof.
  intros Hwf Ha [Hl Hl'] whole. unfold linux_mprotect_runtime. fold whole.
  assert (Hkeep : forall sp', same_space sp sp' -> space_wf sp' /\ (forall b, b mod 4 = 0 ->
       fetch (sp_patches sp') (sp_bytes sp') b = fetch (sp_patches sp) (sp_bytes sp) b)).
  { intros sp' Hs. split; [by eapply space_wf_same|]. by destruct Hs as (_ & -> & ->). }
  assert (Hfail : forall rc sp' (P : Z -> space -> Prop), rc < 0 -> same_space sp sp' ->
    exists rc' sp'', Some (rc, sp') = Some (rc', sp'') /\ space_wf sp'' /\ (forall b, b mod 4 = 0 ->
       fetch (sp_patches sp'') (sp_bytes sp'') b = fetch (sp_patches sp) (sp_bytes sp) b) /\
       ((rc' < 0 /\ same_space sp sp'') \/ P rc' sp'')).
  { intros rc sp' P Hrc Hs. exists rc, sp'. destruct (Hkeep sp' Hs). split_and!; try done. by left. }
  pose proof (raw_error_neg EINVAL).
  destruct (translate_protection linux_protection) as [prot|] eqn:Et; [|by apply Hfail].
  destruct (_ || _) eqn:Ec; [by apply Hfail|].
  destruct (checked_range sp address len Hwf Ha Hl Ec) as [_ [Hl0 Hlm] [_ Hmax]].
  fold whole in Hlm, Hmax |- *.
  destruct (runtime_owned_spec (registry sp) address whole (spw_registry _ Hwf)) as (b & Eo & _);
    [lia|]. rewrite Eo. destruct b.
  2:{ destruct (mprotect_segment_spec host sp address whole prot Hwf ltac:(lia) Eo) as (rc & sp' & -> & Ho).
      destruct Ho as [[Hrc Hs]|Hs]; [by apply Hfail|]. exists rc, sp'.
      destruct (Hkeep sp' (sg_same _ _ _ _ _ _ Hs)). split_and!; try done. right. exists prot. auto. }
  destruct (owned_true sp address whole Hwf ltac:(lia) Eo) as (Hbad & Hfit & Hown & Hm).
  destruct (prepare_protect host sp address whole prot Hwf ltac:(apply Ha) ltac:(lia) Hfit Hm)
    as (r & sp1 & -> & Hr). destruct r as [[]|e]; [|apply Hfail; [apply linux_error_neg|done]].
  destruct Hr as (Hpf & Hs & Hc).
  destruct (mprotect_finish host stale_errno sp sp1 address whole prot Hwf Ha ltac:(split; lia)
    Hbad Eo Hpf Hs Hc) as (rc & sp' & E & Hout).
  exists rc, sp'. split; [exact E|].
  destruct (mprotect_outcome_wf _ _ _ _ _ _ Hwf Hm Hout) as [Hwf' Hf].
  split_and!; try done. right. exists prot. auto.
Qed.

(** ** Mapping *)

Lemma forget_keep p a n :
  0 <= n -> Forall (fun r => is_u32 (pr_address r)) p -> a + n <= UINTPTR_MAX ->
  Forall (fun r => inside a n (pr_address r) = false) p -> arm_patch_forget_range p a n = p.
Proof.
  intros Hn H32 Hmax Hout. unfold arm_patch_forget_range.
  rewrite (proj2 (Z.ltb_ge _ _)) by lia. induction Hout as [|r p Hr _ IH]; [done|]. simpl.
  inversion H32; subst. rewrite IH by done. unfold inside in Hr.
  destruct (pr_address r <? a) eqn:E1, (a + n <=? pr_address r) eqn:E2; simpl; try done. blia.
Qed.

Lemma forget_all p a n :
  a + n <= UINTPTR_MAX -> Forall (fun r => a <= pr_address r < a + n) p ->
  arm_patch_forget_range p a n = [].
Proof.
  intros Hmax Hin. unfold arm_patch_forget_range. rewrite (proj2 (Z.ltb_ge _ _)) by lia.
  induction Hin as [|r p Hr _ IH]; [done|]. simpl.
  rewrite (proj2 (Z.ltb_ge _ _)), (proj2 (Z.leb_gt _ _)) by lia. done.
Qed.

Lemma forget_app p q a n :
  arm_patch_forget_range (p ++ q) a n = arm_patch_forget_range p a n ++ arm_patch_forget_range q a n.
Proof. apply List.filter_app. Qed.

(** Records are of mapped words, so none is in a free range. *)
Lemma patches_outside p m a n :
  patches_wf p m -> (forall x, inside a n x = true -> m !! x = None) ->
  Forall (fun r => inside a n (pr_address r) = false) p.
Proof.
  intros [Hok _ _] Hfree. eapply Forall_impl; [exact Hok|]. intros r (_ & _ & Hl).
  apply not_true_iff_false. intros Hin.
  destruct (load32_Some_mapped m (pr_address r) _ (pr_address r) Hl) as [b Hb];
    [apply inside_spec; lia|]. by rewrite Hfree in Hb.
Qed.

(** Patches of a range leave the memory outside it alone. *)
Lemma patched_outside new m m' p' a n :
  restore_patches (rev new) m' = m -> patches_wf (p' ++ new) m' -> a mod 4 = 0 -> n mod 4 = 0 ->
  Forall (fun r => a <= pr_address r < a + n) new -> same_outside a n m m'.
Proof.
  intros Hu [Hok _ _] Ha Hn Hin x Hx. rewrite <- Hu. symmetry. apply restore_out.
  intros r Hr. assert (Hr' : r ∈ new).
  { apply list_elem_of_In, in_rev, list_elem_of_In in Hr. by rewrite ?rev_involutive in Hr. }
  rewrite Forall_forall in Hok, Hin. destruct (Hok r ltac:(apply elem_of_app; by right)) as [H4 _].
  specialize (Hin r Hr'). apply not_true_iff_false. intros Hi%inside_spec.
  unfold inside in Hx. apply not_true_iff_false in Hx. apply Hx, andb_true_iff.
  rewrite Z.leb_le, Z.ltb_lt. mlia.
Qed.

(** The mapping of [m1]'s bytes at [address] is complete. *)
Record installed `{!HostProt} (host : mmap_host) (sp sp' : space) (m1 : gmap Z Z)
    (fd offset address len flags prot : Z) : Prop := {
  in_wf : space_wf sp';
  in_owner : forall x, owner (registry sp') x =
    owner_update (owner (registry sp)) address (address + len) (Some (has prot PROT_EXEC)) x;
  in_outside : same_outside address len (sp_bytes sp) (sp_bytes sp');
  in_fetch : forall b, b mod 4 = 0 ->
    fetch (sp_patches sp') (sp_bytes sp') b = fetch (sp_patches sp) m1 b;
  in_clean : has flags LINUX_MAP_ANONYMOUS = false -> forall sections x f,
    elf_sections (mh_elf host) (mh_file host fd) fd offset len = Some (Ok (Some sections)) ->
    x ∈ sections -> is_code x = true -> sh_offset x <= f -> f + 4 <= sh_offset x + sh_size x ->
    offset <= f -> f + 4 <= offset + len -> (address + (f - offset)) mod 4 = 0 ->
    clean (sp_bytes sp') (address + (f - offset)) }.

Section install.
Context `{!HostErrno, !HostProt} (host : mmap_host) (stale_errno : errno).
Context (sp : space) (m1 : gmap Z Z) (fd offset address len flags : Z).
Hypothesis wf : space_wf sp.
Hypothesis free : forall x, inside address len x = true -> sp_bytes sp !! x = None.
Hypothesis outside : same_outside address len (sp_bytes sp) m1.
Hypothesis m1_wf : mem_wf m1.
Hypothesis m1_mapped : mapped m1 address len.
Hypothesis aligned : address mod 4 = 0 /\ len mod 4 = 0.
Hypothesis bounds : GUEST_MIN_ADDRESS <= address /\ 0 < len /\ address + len <= GUEST_MAX_ADDRESS.
Hypothesis bytes : Forall is_byte (mh_file host fd).
Hypothesis answers : elf_host_answers (mh_elf host).

Lemma in_bounds : 0 <= address /\ address + len <= UINTPTR_MAX.
Proof. unfold GUEST_MIN_ADDRESS, GUEST_MAX_ADDRESS, UINTPTR_MAX in *. lia. Qed.

Lemma m1_patches : patches_wf (sp_patches sp) m1.
Proof.
  eapply patches_wf_ext; [apply wf|]. intros x [b Hb]. apply outside, not_true_iff_false.
  intros Hin. by rewrite free in Hb.
Qed.

Lemma forget_nothing : arm_patch_forget_range (sp_patches sp) address len = sp_patches sp.
Proof.
  pose proof in_bounds. apply forget_keep; [lia|apply wf|lia|].
  eapply patches_outside; [apply wf|exact free].
Qed.

(** The patching step, on an anonymous mapping or on a file. *)
Lemma install_patches :
  exists r p m, (if has flags LINUX_MAP_ANONYMOUS then Some (Ok tt, sp_patches sp, m1)
    else arm_patch_elf_mapping (mh_elf host) (mh_file host fd) fd offset address len
           (sp_patches sp) m1) = Some (r, p, m) /\
  elf_patched (mh_elf host) (mh_file host fd) fd offset address len (sp_patches sp) m1
    (if has flags LINUX_MAP_ANONYMOUS then fail_with EINVAL else r) p m.
Proof.
  pose proof in_bounds. pose proof m1_patches. destruct (has flags LINUX_MAP_ANONYMOUS).
  - exists (Ok tt), (sp_patches sp), m1. split; [done|]. split; try done.
    exists []. by rewrite app_nil_r.
  - apply elf_mapping_spec; try done; lia.
Qed.

(** Giving up after any of the steps restores the address space. *)
Lemma discard_patched r p m sp1 :
  elf_patched (mh_elf host) (mh_file host fd) fd offset address len (sp_patches sp) m1 r p m ->
  sp_memory sp1 = sp_memory sp -> sp_patches sp1 = p -> sp_bytes sp1 = m ->
  same_space sp (unmapped address len (forgotten address len sp1)).
Proof.
  intros [Hp Hb _ (new & -> & Hu & Hin) _ _] E1 E2 E3. pose proof in_bounds.
  unfold same_space, unmapped, forgotten. cbn [with_patches sp_memory sp_patches sp_bytes].
  split_and!; [done| |].
  - rewrite E2, forget_app, forget_nothing, (forget_all new) by (done || lia). apply app_nil_r.
  - rewrite E3. apply mem_unmap_restore; [done|]. intros x Hx.
    rewrite (patched_outside new m1 m _ address len Hu Hp) by (apply aligned || done).
    by apply outside.
Qed.

Lemma installed_complete p m sp1 l prot :
  elf_patched (mh_elf host) (mh_file host fd) fd offset address len (sp_patches sp) m1
    (if has flags LINUX_MAP_ANONYMOUS then fail_with EINVAL else Ok tt) p m ->
  sp_memory sp1 = sp_memory sp -> sp_patches sp1 = p -> sp_bytes sp1 = m -> registry_wf l ->
  (forall x, owner l x = owner_update (owner (registry sp)) address (address + len)
                           (Some (has prot PROT_EXEC)) x) ->
  installed host sp (with_registry l sp1) m1 fd offset address len flags prot.
Proof.
  intros [Hp Hb Hf (new & -> & Hu & Hin) Hmap Hc] E1 E2 E3 Hl Hup. pose proof in_bounds.
  assert (Hout : same_outside address len (sp_bytes sp) m).
  { intros x Hx. rewrite (patched_outside new m1 m _ address len Hu Hp) by (apply aligned || done).
    by apply outside. }
  split; cbn [with_registry sp_patches sp_bytes registry]; rewrite ?E2, ?E3; try done.
  - destruct wf as [Hpg _ _ H32 _ Hback].
    split; unfold registry; cbn [with_registry sp_memory page_size runtime_mappings sp_patches sp_bytes];
      rewrite ?E1, ?E2, ?E3; try done.
    + apply Forall_app. split; [done|]. eapply Forall_impl; [exact Hin|]. unfold is_u32. simpl. lia.
    + intros x Hx. destruct (owner_update_some _ _ _ _ _ _ Hup Hx) as [Hi|Ho].
      * by apply (Hmap address len m1_mapped).
      * destruct (inside address len x) eqn:Hi; [apply inside_spec in Hi; by apply (Hmap address len m1_mapped)|].
        rewrite Hout by done. by apply Hback.
  - intros Ha. rewrite Ha in Hc. by apply Hc.
Qed.

(** The rest of [mmap2]: nothing is left of a mapping that is given up. *)
Lemma install_fresh mapping_protection prot :
  exists rc sp', mmap2_install host stale_errno (with_patches (sp_patches sp) m1 sp) fd offset
      address len flags mapping_protection prot = Some (rc, sp') /\
    (same_space sp sp' \/
     rc = s32 address /\ installed host sp sp' m1 fd offset address len flags prot).
Proof.
  unfold mmap2_install. cbv zeta.
  replace (forgotten address len (with_patches (sp_patches sp) m1 sp))
    with (with_patches (sp_patches sp) m1 sp) by (unfold forgotten; simpl; by rewrite forget_nothing).
  cbn [with_patches sp_patches sp_bytes]. destruct install_patches as (r & p & m & -> & Hep).
  pose proof (fun sp1 => discard_patched _ _ _ sp1 Hep) as Hdis.
  destruct r as [[]|e]; [|do 2 eexists; split; [done|]; left; by apply Hdis].
  set (sp2 := with_patches p m _).
  assert (Hsync : exists o sp3, (if has prot PROT_EXEC
      then protect host 0 (MsyncInvalidateIcache address len) sp2 else (None, sp2)) = (o, sp3) /\
    same_space sp2 sp3).
  { destruct (has prot PROT_EXEC); [|by do 2 eexists]. do 2 eexists.
    split; [apply surjective_pairing|apply protect_same]. }
  destruct Hsync as (o & sp3 & -> & Hs3). pose proof Hs3 as (M3 & P3 & B3).
  destruct o as [e|]; [do 2 eexists; split; [done|]; left; by apply Hdis|].
  assert (Hprot : exists o sp4, (if negb (mapping_protection =? prot)
      then protect host 1 (Mprotect address len prot) sp3 else (None, sp3)) = (o, sp4) /\
    same_space sp3 sp4).
  { destruct (negb _); [|by do 2 eexists]. do 2 eexists.
    split; [apply surjective_pairing|apply protect_same]. }
  destruct Hprot as (o & sp4 & -> & Hs4). pose proof (same_space_trans _ _ _ Hs3 Hs4) as (M4 & P4 & B4).
  destruct o as [e|]; [do 2 eexists; split; [done|]; left; by apply Hdis|].
  assert (Hreg : registry sp4 = registry sp) by (unfold registry; by rewrite M4).
  rewrite Hreg. pose proof in_bounds.
  pose proof (runtime_map_spec (registry sp) address len (has prot PROT_EXEC) (spw_registry _ wf)) as Hmap.
  destruct (guest_memory_runtime_map _ _ _ _) as [[[]|e] l];
    [|do 2 eexists; split; [done|]; left; by apply Hdis].
  destruct Hmap as (Hl & _ & Hup); [split; lia|lia|].
  do 2 eexists. split; [done|]. right. split; [done|]. by eapply installed_complete.
Qed.
End install.

(** The byte a mapping of a file shows at index [i]: [len] bytes of the file are
    copied when the mapping is executable and private. *)
Definition mapping_byte (file : list Z) (offset len : Z) (anonymous copied : bool) (i : Z) : Z :=
  if anonymous then 0
  else if copied && (len <=? i) then 0
  else nth (Z.to_nat (offset + i)) file 0.

(** The answers of the host the call relies on: without [MAP_FIXED] a mapping is
    placed on free pages, sizes are those of the files, reads are answered. *)
Record mmap_host_ok `{!HostMap} (host : mmap_host) (sp : space) (len fd : Z) : Prop := {
  mo_place : forall address prot shared f d off a,
    shared = MAP_SHARED \/ shared = MAP_PRIVATE -> f = shared \/ f = shared .| MAP_ANON ->
    mh_mmap host (sp_bytes sp) address len prot f d off = MmapAt a ->
    a mod page_size (sp_memory sp) = 0 /\ is_u32 a /\
    forall x, inside a (align_up len (page_size (sp_memory sp))) x = true -> sp_bytes sp !! x = None;
  mo_size : forall size, mh_fstat host fd = Ok size -> size = Z.of_nat (length (mh_file host fd));
  mo_bytes : Forall is_byte (mh_file host fd);
  mo_read : forall n, (n <= length (filter (fun x => x <> PInterrupted) (mh_read host n)))%nat;
  mo_elf : elf_host_answers (mh_elf host) }.

Lemma file_window_lookup file off n i :
  (i < n)%nat -> file_window file off n !! i = Some (nth (off + i) file 0).
Proof.
  intros Hi. unfold file_window. rewrite lookup_take_lt by done.
  destruct (decide (i < length (drop off file))%nat) as [Hlt|Hge].
  - rewrite lookup_app_l, lookup_drop by done. rewrite length_drop in Hlt.
    destruct (lookup_lt_is_Some_2 file (off + i)) as [b Hb]; [lia|]. rewrite Hb. f_equal.
    symmetry. by apply nth_lookup_Some.
  - rewrite lookup_app_r by lia. rewrite lookup_replicate_2 by lia. f_equal. symmetry.
    apply nth_overflow. rewrite length_drop in Hge. lia.
Qed.

Lemma file_window_length file off n : length (file_window file off n) = n.
Proof. unfold file_window. rewrite length_take, length_app, length_replicate. lia. Qed.

Lemma file_window_bytes file off n : Forall is_byte file -> Forall is_byte (file_window file off n).
Proof.
  intros Hf. apply Forall_take, Forall_app. split; [by apply Forall_drop|].
  apply Forall_replicate. split; done.
Qed.

Section copy.
Context `{!HostErrno, !HostMap} (off_t : Z -> Z) (host : mmap_host) (stale_errno : errno).
Context (sp : space) (len fd offset : Z).
Hypothesis host_good : mmap_host_ok host sp len fd.
Hypothesis off_t_wide : forall x, - 2 ^ 63 <= x < 2 ^ 63 -> off_t x = x.
Hypothesis len_ok : 0 < len <= UINTPTR_MAX.

(** The bytes [copy_file] reads are the file's, up to [len] of them. *)
Lemma copy_file_spec :
  0 <= offset ->
  exists r, copy_file off_t host stale_errno fd offset len = Some r /\
    forall bytes, r = inr bytes -> (length bytes <= Z.to_nat len)%nat /\ Forall is_byte bytes /\
      forall i, (i < Z.to_nat len)%nat -> nth i bytes 0 = nth (Z.to_nat offset + i) (mh_file host fd) 0.
Proof.
  intros Ho. unfold copy_file. destruct (mh_fstat host fd) as [size|e] eqn:Es; [|by eexists].
  cond; [by eexists|]. bprop. rewrite off_t_wide by (unfold UINTPTR_MAX in *; lia).
  set (n := if size - offset <? len then u32 (size - offset) else len).
  assert (Hn : n = Z.min len (size - offset)).
  { subst n. cond; bprop; [|lia]. rewrite u32_small by (unfold is_u32; lia). lia. }
  destruct (read_exact_at_returns (mh_read host (Z.to_nat n)) (mh_file host fd) (Z.to_nat n)
    (Z.to_nat offset)) as [r Er]; [apply host_good|]. rewrite Er.
  destruct r as [bytes|e]; [|by eexists]. eexists. split; [done|]. intros ? [= <-].
  apply read_exact_at_ok in Er as [-> Hlen]. split; [lia|].
  split; [apply Forall_take, Forall_drop, host_good|].
  pose proof (mo_size _ _ _ _ host_good size Es) as Hsz. intros i Hi.
  destruct (decide (i < Z.to_nat n)%nat) as [Hlt|Hge].
  - destruct (lookup_lt_is_Some_2 (mh_file host fd) (Z.to_nat offset + i)) as [b Hb]; [lia|].
    rewrite (nth_lookup_Some _ _ _ b), (nth_lookup_Some (mh_file host fd) _ _ b); [done|done|].
    by rewrite lookup_take_lt, lookup_drop.
  - rewrite !nth_overflow; [done|lia|]. lia.
Qed.
End copy.

Lemma mmap2_checks_spec `{!HostErrno, !HostProt} sp address len protection flags :
  space_wf sp -> has flags LINUX_MAP_FIXED = false ->
  exists r, mmap2_checks sp address len protection flags = Some r /\
    forall prot, r = inr prot -> translate_protection protection = Some prot /\
      (len =? 0) || has 0 (u32 (page_size (sp_memory sp) - 1)) ||
        (UINTPTR_MAX - u32 (page_size (sp_memory sp) - 1) <? len) = false.
Proof.
  intros Hwf Hfix. unfold mmap2_checks. rewrite Hfix.
  destruct (translate_protection protection) as [prot|]; [|by eexists].
  do 3 (cond; [by eexists|]). destruct (_ || _) eqn:El; [by eexists|].
  cond; [by eexists|]. eexists. split; [done|]. intros ? [= <-]. split; [done|].
  bprop. by rewrite !orb_false_iff, Z.eqb_neq, Z.ltb_ge.
Qed.

(** The fresh contents of the mapping: [copied] over [contents]. *)
Lemma fresh_contents m a n contents copied :
  mem_wf m -> length contents = Z.to_nat n -> (length copied <= Z.to_nat n)%nat -> 0 <= n ->
  Forall is_byte contents -> Forall is_byte copied ->
  let m1 := mem_store (mem_store m a contents) a copied in
  mem_wf m1 /\ same_outside a n m m1 /\ mapped m1 a n /\
  forall i, 0 <= i < n ->
    m1 !! (a + i) = if decide (i < Z.of_nat (length copied)) then copied !! Z.to_nat i
                    else contents !! Z.to_nat i.
Proof.
  intros Hm Hlen Hcl Hn Hc Hcc. cbv zeta.
  set (m1 := mem_store (mem_store m a contents) a copied).
  assert (Hl : forall x, m1 !! x = if inside a (Z.of_nat (length copied)) x
      then copied !! Z.to_nat (x - a) else if inside a n x then contents !! Z.to_nat (x - a)
      else m !! x).
  { intros x. subst m1. rewrite !mem_store_lookup, Hlen, Z2Nat.id by done. done. }
  split; [by apply mem_store_wf; [apply mem_store_wf|]|]. split; [|split].
  - intros x Hx. rewrite Hl, Hx. replace (inside a _ x) with false; [done|]. symmetry.
    unfold inside in *. apply not_true_iff_false. intros Ht. blia.
  - intros x Hx. rewrite Hl. rewrite (proj2 (inside_spec a n x)) by lia. cond.
    + apply inside_spec in E. apply lookup_lt_is_Some_2. lia.
    + apply lookup_lt_is_Some_2. lia.
  - intros i Hi. rewrite Hl, (proj2 (inside_spec a n (a + i))) by lia.
    replace (a + i - a) with i by lia. unfold inside. repeat cond; done || blia.
Qed.

(** A new mapping: where it is, what it shows, and the state after it. *)
Record mapping_made `{!HostProt} (host : mmap_host) (sp sp' : space) (rc len protection flags fd
    offset : Z) : Prop := {
  mm_made : exists a prot m1,
    let whole := align_up len (page_size (sp_memory sp)) in
    rc = s32 a /\ translate_protection protection = Some prot /\
    GUEST_MIN_ADDRESS <= a /\ a + whole <= GUEST_MAX_ADDRESS /\ len <= whole /\
    (forall x, inside a whole x = true -> sp_bytes sp !! x = None) /\
    same_outside a whole (sp_bytes sp) m1 /\
    (forall i, 0 <= i < whole -> m1 !! (a + i) =
       Some (mapping_byte (mh_file host fd) offset len (has flags LINUX_MAP_ANONYMOUS)
               (has flags LINUX_MAP_PRIVATE && has prot PROT_EXEC) i)) /\
    installed host sp sp' m1 fd offset a whole flags prot }.

Section mmap2.
Context `{!HostErrno, !HostProt, !HostMap} (off_t : Z -> Z) (host : mmap_host) (stale_errno : errno).
Context (sp : space) (len fd : Z).
Hypothesis wf : space_wf sp.
Hypothesis host_good : mmap_host_ok host sp len (s32 fd).
Hypothesis off_t_wide : forall x, - 2 ^ 63 <= x < 2 ^ 63 -> off_t x = x.

Abbreviation file := (mh_file host (s32 fd)).
Abbreviation whole := (align_up len (page_size (sp_memory sp))).

(** Nothing is left of a mapping that is unmapped before anything is patched. *)
Lemma unmapped_fresh a m1 :
  (forall x, inside a whole x = true -> sp_bytes sp !! x = None) ->
  same_outside a whole (sp_bytes sp) m1 ->
  same_space sp (unmapped a whole (with_patches (sp_patches sp) m1 sp)).
Proof. intros Hfree Hout. split_and!; [done|done|]. by apply mem_unmap_restore. Qed.

(** What the code copies over the contents the host gave the mapping. *)
Lemma copied_bytes (copy : bool) offset :
  0 < len <= UINTPTR_MAX -> 0 <= offset ->
  exists r, (if copy then copy_file off_t host stale_errno (s32 fd) offset len
             else Some (inr [])) = Some r /\
    forall bytes, r = inr bytes -> (length bytes <= Z.to_nat len)%nat /\ Forall is_byte bytes /\
      (copy = false -> bytes = []) /\
      (copy = true -> forall i, (i < Z.to_nat len)%nat ->
         nth i bytes 0 = nth (Z.to_nat offset + i) file 0).
Proof.
  intros Hlen Hoff. destruct copy.
  - destruct (copy_file_spec off_t host stale_errno sp len (s32 fd) offset host_good off_t_wide Hlen Hoff)
      as (r & -> & Hr). exists r. split; [done|]. intros bytes Hb. destruct (Hr bytes Hb) as (? & ? & ?).
    by split_and!.
  - eexists. split; [done|]. intros bytes [= <-]. split_and!; [simpl; lia|done|done|done].
Qed.

Lemma mapping_bytes m a offset anonymous copied bytes :
  mem_wf m -> 0 < len <= whole -> 0 <= offset -> (length bytes <= Z.to_nat len)%nat ->
  Forall is_byte bytes ->
  (copied && negb anonymous = false -> bytes = []) ->
  (copied && negb anonymous = true -> forall i, (i < Z.to_nat len)%nat ->
     nth i bytes 0 = nth (Z.to_nat offset + i) file 0) ->
  let contents := if anonymous || copied && negb anonymous then replicate (Z.to_nat whole) 0
                  else file_window file (Z.to_nat offset) (Z.to_nat whole) in
  let m1 := mem_store (mem_store m a contents) a bytes in
  mem_wf m1 /\ same_outside a whole m m1 /\ mapped m1 a whole /\
  forall i, 0 <= i < whole -> m1 !! (a + i) = Some (mapping_byte file offset len anonymous copied i).
Proof.
  intros Hm Hlen Hoff Hbl Hbb Hno Hyes. cbv zeta.
  set (contents := if _ || _ then _ else _).
  assert (Hcl : length contents = Z.to_nat whole)
    by (subst contents; cond; [apply length_replicate|apply file_window_length]).
  assert (Hcb : Forall is_byte contents).
  { subst contents. cond; [apply Forall_replicate; split; done|apply file_window_bytes, host_good]. }
  destruct (fresh_contents m a whole contents bytes Hm Hcl ltac:(lia) ltac:(lia) Hcb Hbb)
    as (R1 & R2 & R3 & R4).
  split_and!; [done..|]. intros i Hi. rewrite (R4 i Hi). unfold mapping_byte.
  subst contents. destruct anonymous; simpl in *.
  { rewrite andb_false_r in Hno. rewrite Hno by done. rewrite decide_False by (simpl; lia).
    apply lookup_replicate_2. lia. }
  rewrite andb_true_r in *. destruct copied; simpl in *.
  - specialize (Hyes eq_refl (Z.to_nat i)).
    replace (Z.to_nat (offset + i)) with (Z.to_nat offset + Z.to_nat i)%nat by lia.
    destruct (decide (i < Z.of_nat (length bytes))) as [Hlt|Hge].
    + rewrite (proj2 (Z.leb_gt _ _)), <- Hyes by lia.
      destruct (lookup_lt_is_Some_2 bytes (Z.to_nat i)) as [b Hb]; [lia|].
      by rewrite (nth_lookup_Some _ _ _ b Hb).
    + rewrite lookup_replicate_2 by lia. f_equal. cond; [done|]. bprop.
      rewrite <- Hyes by lia. symmetry. apply nth_overflow. lia.
  - rewrite Hno by done. rewrite decide_False by (simpl; lia).
    rewrite file_window_lookup by lia. do 2 f_equal. lia.
Qed.
Lemma mmap2_cases address protection flags page :
  0 <= len -> is_u32 page -> has flags LINUX_MAP_FIXED = false ->
  exists rc sp', linux_mmap2 off_t host stale_errno sp address len protection flags fd page
      = Some (rc, sp') /\
    (same_space sp sp' \/
     mapping_made host sp sp' rc len protection flags (s32 fd) (page * 4096)).
Proof.
  intros Hlen [Hpg0 Hpg1] Hfix. unfold linux_mmap2.
  destruct (mmap2_checks_spec sp address len protection flags wf Hfix) as (r & -> & Hr).
  destruct r as [err|prot]; [do 2 eexists; split; [done|by left]|].
  destruct (Hr prot eq_refl) as [Ht Hc]. rewrite Hfix. cbv zeta.
  destruct (checked_range sp 0 len wf) as [[_ Hw4] [Hl0 Hlw] [_ Hwmax]]; [by split|done|done|].
  replace (off_t (off_t page * 4096)) with (page * 4096)
    by (rewrite !off_t_wide by (unfold UINTPTR_MAX in *; rewrite ?off_t_wide; lia); done).
  set (anonymous := has flags LINUX_MAP_ANONYMOUS) in *.
  set (copied := has flags LINUX_MAP_PRIVATE && has prot PROT_EXEC).
  replace (has flags LINUX_MAP_PRIVATE && negb anonymous && has prot PROT_EXEC)
    with (copied && negb anonymous)
    by (subst copied; by destruct (has flags LINUX_MAP_PRIVATE), anonymous, (has prot PROT_EXEC)).
  set (copy := copied && negb anonymous).
  destruct (mh_mmap _ _ _ _ _ _ _ _) as [e|a] eqn:Em; [do 2 eexists; split; [done|by left]|].
  set (shared := if has flags LINUX_MAP_SHARED then MAP_SHARED else MAP_PRIVATE) in *.
  assert (Hsh : shared = MAP_SHARED \/ shared = MAP_PRIVATE) by (subst shared; cond; auto).
  assert (Hf : (if anonymous || copy then shared .| MAP_ANON else shared) = shared \/
    (if anonymous || copy then shared .| MAP_ANON else shared) = shared .| MAP_ANON)
    by (destruct (anonymous || copy); auto).
  destruct (mo_place _ _ _ _ host_good _ _ _ _ _ _ a Hsh Hf Em) as (Hapg & [Ha0 Ha1] & Hfree).
  set (contents := if anonymous || copy then replicate _ 0 else _).
  destruct (copied_bytes copy (page * 4096) ltac:(split; lia) ltac:(lia)) as (rb & Erb & Hrb).
  assert (H4 : a mod 4 = 0).
  { destruct (spw_page _ wf) as [Hp Hp4]. pose proof (is_page_range _ Hp).
    by eapply multiple_of_4; [exact Hp4|lia|]. }
  assert (Hout : same_outside a whole (sp_bytes sp) (mem_store (sp_bytes sp) a contents)).
  { apply mem_store_outside; [done|lia|]. subst contents.
    destruct (anonymous || copy); rewrite ?length_replicate, ?file_window_length; lia. }
  cond; [do 2 eexists; split; [done|left; by apply unmapped_fresh]|]. bprop.
  rewrite Erb. destruct rb as [err|bytes]; [do 2 eexists; split; [done|left; by apply unmapped_fresh]|].
  destruct (Hrb bytes eq_refl) as (Hbl & Hbb & Hno & Hyes).
  destruct (mapping_bytes (sp_bytes sp) a (page * 4096) anonymous copied bytes (spw_bytes _ wf)
    ltac:(lia) ltac:(lia) Hbl Hbb Hno Hyes) as (W1 & W2 & W3 & W4).
  destruct (install_fresh host stale_errno sp _ (s32 fd) (page * 4096) a whole flags wf Hfree W2 W1 W3
    (conj H4 Hw4) ltac:(lia) (mo_bytes _ _ _ _ host_good) (mo_elf _ _ _ _ host_good)
    (if has flags LINUX_MAP_PRIVATE && negb anonymous
     then (prot .| PROT_READ .| PROT_WRITE) .&~ PROT_EXEC else prot) prot) as (rc & sp' & E1 & Hor).
  exists rc, sp'. split; [exact E1|]. destruct Hor as [Hs|[-> Hi]]; [by left|right]. split.
  eexists a, prot, _. cbv zeta. split_and!; [done|done|lia|lia|lia|done|exact W2|exact W4|exact Hi].
Qed.
End mmap2.


(** ** Witnesses *)

Module MmapExamples.

#[local] Instance example_prot : HostProt :=
  {| PROT_NONE := 0; PROT_READ := 0x100; PROT_WRITE := 0x200; PROT_EXEC := 0x400 |}.
#[local] Instance example_map : HostMap :=
  {| MAP_SHARED := 1; MAP_PRIVATE := 2; MAP_FIXED := 0x10; MAP_ANON := 0x80000 |}.
#[local] Instance example_errno : HostErrno := ExampleErrno.host_errno.
#[local] Instance example_errno_ok : HostErrnoOk := ExampleErrno.host_errno_ok.

(** A space with two pages of 16 bytes, the first with a patched system call. *)
Definition bytes0 : gmap Z Z := store32 (mem_zero ∅ 0x20000000 32) 0x20000000 ARM_UDF_TRAP.
Definition sp0 : space :=
  Space (GuestMemory [] 16 0 0 0 [Mapping 0x20000000 0x20000020 true])
    [Patch 0x20000000 ARM_LINUX_SVC_0] bytes0 [].

(** Everything is granted, mappings at 0x30000000 or, fixed, where asked for. *)
Definition granting (protect : nat -> protect_call -> option errno) : mmap_host :=
  MmapHost (fun _ address _ _ flags _ _ => MmapAt (if has flags MAP_FIXED then address else 0x30000000))
    (fun _ _ => None) protect (fun _ => Ok 5) (fun _ => [1; 2; 3; 4; 5])
    (fun n => replicate n (PTransfer 3)) ArmPatchExamples.host0.
Definition host1 : mmap_host := granting (fun _ _ => None).

Lemma sp0_mapped x : 0x20000000 <= x < 0x20000020 -> is_Some (bytes0 !! x).
Proof.
  intros Hx. apply store32_is_Some. rewrite mem_zero_lookup, (proj2 (inside_spec _ _ _)) by lia.
  by eexists.
Qed.

Lemma sp0_wf : space_wf sp0.
Proof.
  split; cbn [sp_memory sp_patches sp_bytes page_size registry runtime_mappings sp0].
  - split; [by exists 4|reflexivity].
  - apply (run_op_wf (OpMap 0x20000000 32 true) []); [apply registry_wf_nil|].
    by repeat constructor.
  - split; [|apply NoDup_singleton|unfold MAX_PATCHES; simpl; lia].
    apply Forall_singleton. split; [reflexivity|]. split; [reflexivity|].
    apply load32_store32_eq. by split; vm_compute.
  - apply Forall_singleton. split; vm_compute; discriminate.
  - apply store32_wf, mem_zero_wf, map_Forall_empty.
  - intros x. simpl. unfold covers, in_range. cbn [rm_start rm_end]. cond; [|by intros []].
    intros _. bprop. apply sp0_mapped. lia.
Qed.

Lemma munmap_correct_witness :
  exists sp', linux_munmap_runtime host1 None 0 sp0 0x20000000 10 = Some (0, sp', None) /\
    arm_patch_original (sp_patches sp') 0x20000000 = None /\ sp_bytes sp' !! 0x2000000f = None.
Proof.
  destruct (munmap_correct host1 None 0 sp0 0x20000000 10 sp0_wf)
    as (rc & sp' & t' & E & Hor); [split; vm_compute; discriminate..|].
  assert (Hrc : rc = 0 /\ length (sp_patches sp') = O /\ t' = None).
  { assert (Hv : option_map (fun x => (x.1.1, length (sp_patches x.1.2), x.2))
      (linux_munmap_runtime host1 None 0 sp0 0x20000000 10) = Some (0, O, None))
      by (vm_compute; reflexivity).
    rewrite E in Hv. simpl in Hv. injection Hv. auto. }
  destruct Hrc as (-> & Hlen & ->). exists sp'. split; [exact E|].
  destruct Hor as [(-> & _ & _)|[(_ & -> & _)|(_ & _ & _ & _ & _ & Hg)]]; [discriminate Hlen..|].
  split.
  - apply (rg_patches _ _ _ _ Hg); [reflexivity|]. vm_compute. split; [discriminate|reflexivity].
  - rewrite (rg_bytes _ _ _ _ Hg), mem_unmap_lookup. reflexivity.
Defined.

Lemma protected0 rc sp' : linux_mprotect_runtime host1 EIO sp0 0x20000010 16 5 = Some (rc, sp') -> rc = 0.
Proof.
  assert (Hv : match linux_mprotect_runtime host1 EIO sp0 0x20000010 16 5 with Some (v, _) => v | None => 1 end = 0)
    by (vm_compute; reflexivity).
  intros E. by rewrite E in Hv.
Qed.

Lemma whole0 : align_up 16 (page_size (sp_memory sp0)) = 16.
Proof. reflexivity. Qed.

Lemma owned0 x : 0x20000000 <= x < 0x20000020 -> is_Some (owner (registry sp0) x).
Proof.
  intros Hx. cbn [registry sp0 sp_memory runtime_mappings owner]. unfold covers, in_range. cbn [rm_start rm_end].
  cond; [by eexists|]. bprop; lia.
Qed.

Lemma fetched0 : fetch (sp_patches sp0) (sp_bytes sp0) 0x20000000 = Some ARM_LINUX_SVC_0.
Proof. vm_compute. reflexivity. Qed.

Lemma mprotect_correct_witness :
  exists sp', linux_mprotect_runtime host1 EIO sp0 0x20000010 16 5 = Some (0, sp') /\ space_wf sp' /\
    fetch (sp_patches sp') (sp_bytes sp') 0x20000000 = Some ARM_LINUX_SVC_0 /\
    forall b, b mod 4 = 0 -> 0x20000010 <= b < 0x20000010 + 16 -> clean (sp_bytes sp') b.
Proof.
  destruct (mprotect_correct host1 EIO sp0 0x20000010 16 5 sp0_wf)
    as (rc & sp' & E & Hwf & Hf & Ho); [split; vm_compute; discriminate..|].
  pose proof (protected0 _ _ E) as ->. rewrite whole0 in Ho. exists sp'. split; [exact E|].
  split; [exact Hwf|]. split; [rewrite (Hf 0x20000000 eq_refl); exact fetched0|].
  destruct Ho as [[H _]|(prot & Hp & [Hs|[_ Ho]])]; [discriminate| |].
  - exfalso. apply (sg_not_owned _ _ _ _ _ _ Hs). split; [discriminate|]. split; [discriminate|].
    intros x Hx. apply owned0. lia.
  - destruct Ho as [H _|sp1 l _ _ _ _ _ _ Hc|H _ _]; [discriminate| |discriminate].
    apply Hc. injection Hp as <-. reflexivity.
Defined.

Lemma granting_ok : mmap_host_ok host1 sp0 20 (s32 3).
Proof.
  split.
  - intros address prot shared f d off a Hs Hf. cbn [mh_mmap host1 granting].
    assert (Hfix : has f MAP_FIXED = false)
      by (destruct Hs as [-> | ->], Hf as [-> | ->]; vm_compute; reflexivity).
    rewrite Hfix. intros [= <-]. split; [reflexivity|].
    split; [split; vm_compute; discriminate|]. intros x Hx.
    change (align_up 20 (page_size (sp_memory sp0))) with 32 in Hx. apply inside_spec in Hx.
    change (sp_bytes sp0) with bytes0. unfold bytes0.
    rewrite store32_lookup_out by lia. rewrite mem_zero_lookup. unfold inside.
    cond; [bprop; lia|]. apply lookup_empty.
  - intros size [= <-]. reflexivity.
  - repeat (apply Forall_cons_2 || apply Forall_nil_2); split; done.
  - intros n. cbn [mh_read host1 granting]. induction n as [|n IH]; [cbn [length]; lia|].
    cbn [replicate]. rewrite filter_cons_True by done. cbn [length]. lia.
  - exact ArmPatchExamples.host0_answers.
Qed.


(** A failing [mmap2] with [MAP_FIXED] is not undone.  When a step after the
    host's mapping fails (here the instruction cache synchronisation), the range,
    which the guest had mapped before, is unmapped, but the registry still owns
    it. *)
Theorem fixed_failure_loses_pages :
  exists host sp rc sp', space_wf sp /\
    linux_mmap2 (fun x => x) host EIO sp 0x20000010 16 5 0x32 0 0 = Some (rc, sp') /\
    rc < 0 /\ is_Some (sp_bytes sp !! 0x20000010) /\
    sp_bytes sp' !! 0x20000010 = None /\ owner (registry sp') 0x20000010 = Some true.
Proof.
  exists (granting (fun _ _ => Some EIO)), sp0. do 2 eexists. split; [exact sp0_wf|].
  split; [vm_compute; reflexivity|]. split; [vm_compute; reflexivity|].
  split; [apply sp0_mapped; lia|]. split; vm_compute; reflexivity.
Qed.

End MmapExamples.
