(* ===== verification/ThreadLife.v ===== *)
(** * The life of guest threads: [src/src/guest_thread.c]

    The operations on the registry of threads as a whole: the main thread at
    start, a thread that ends (the deferred unmapping of its stack, its removal,
    the clearing of its identifier word with the wake up of those who join it),
    the state of a child process after a fork.  [GuestThread] has the operations
    on one thread and [guest_thread_clone]; here they form a state machine. *)

From S2P Require Import Prelude Errno Bytes Util RuntimeRegistry GuestMemory ArmPatch.
From S2P Require Import Futex GuestThread Mmap.
Open Scope Z_scope.

(** The state the threads of a process share.  [thread_registry] is a list whose
    last element is [main_thread]: new threads are put in front of it and it never
    ends without the process.  A thread is named by its position. *)
Record process := Process {
  pr_space : space;
  pr_threads : list thread;
  pr_next_tid : Z;
  pr_waiters : list futex_waiter }.

Definition is_main (p : process) (i : nat) : bool := (S i =? length (pr_threads p))%nat.

Definition main_thread (pid tls : Z) (mask : sigwords) (altstack_pointer altstack_size : Z) : thread :=
  Thread (replicate 16 0) tls 0 0 (initial_guest_tid pid) (Words 0 0) (replicate 31 zero_siginfo)
    (replicate REALTIME_SIGNALS empty_queue) mask None None false false (-1) (-1)
    altstack_pointer altstack_size 0 0.

(** [guest_thread_initialize], when the two calls on the key succeed. *)
Definition guest_thread_initialize (pid : Z) (p : process) : process :=
  Process (pr_space p) [main_thread pid 0 (Words 0 0) 0 0] (u32 (initial_guest_tid pid + 1))
    (pr_waiters p).

(** The descriptors of a thread that are open. *)
Definition open_descriptors (t : thread) : list Z :=
  List.filter (fun fd => 0 <=? fd) [t_wait_read_fd t; t_wait_write_fd t].

(** The first block of [finish_guest_thread]. *)
Definition deferred_unmap (t : thread) (sp : space) : space :=
  if negb (t_deferred_length t =? 0) then
    let sp := forgotten (t_deferred_start t) (t_deferred_length t)
                (unmapped (t_deferred_start t) (t_deferred_length t) sp) in
    with_registry (guest_memory_runtime_unmap (registry sp) (t_deferred_start t)
                     (t_deferred_length t)) sp
  else sp.

Section life.
Context `{!HostErrno}.

(** [finish_guest_thread]: the process and the descriptors closed.  [None] is a
    fault of the store to the identifier word. *)
Definition finish_guest_thread (host : futex_host) (i : nat) (t : thread) (p : process)
  : option (process * list Z) :=
  let sp := deferred_unmap t (pr_space p) in
  let threads := delete i (pr_threads p) in
  let clear_child_tid := t_clear_child_tid t in
  if clear_child_tid =? 0 then
    Some (Process sp threads (pr_next_tid p) (pr_waiters p), open_descriptors t)
  else match load32 (sp_bytes sp) clear_child_tid with
  | None => None
  | Some _ =>
    let sp := with_patches (sp_patches sp) (store32 (sp_bytes sp) clear_child_tid 0) sp in
    let (_, waiters) := linux_futex_wake host (pr_waiters p) clear_child_tid INT_MAX 0xffffffff in
    Some (Process sp threads (pr_next_tid p) waiters, open_descriptors t)
  end.

(** [guest_thread_exit] of the thread at a position ([None]: no thread state). *)
Inductive exit_outcome :=
| ProcessExit (status : Z)
| ThreadEnds (after : option (process * list Z)).

Definition guest_thread_exit (host : futex_host) (i : option nat) (status : Z) (p : process)
  : exit_outcome :=
  match i with
  | None => ProcessExit (status .& 0xff)
  | Some i =>
    match pr_threads p !! i with
    | None => ProcessExit (status .& 0xff)
    | Some t => if is_main p i then ProcessExit (status .& 0xff)
                else ThreadEnds (finish_guest_thread host i t p)
    end
  end.
End life.

(** [guest_thread_after_fork] in the child, [t] being the thread that forked: the
    process and the descriptors closed. *)
Definition guest_thread_after_fork (pid : Z) (t : option thread) (p : process) : process * list Z :=
  let main := match t with
              | None => main_thread pid 0 (Words 0 0) 0 0
              | Some t => main_thread pid (t_tls t) (t_mask t) (t_altstack_pointer t) (t_altstack_size t)
              end in
  (Process (pr_space p) [main] (u32 (initial_guest_tid pid + 1)) (linux_futex_after_fork (pr_waiters p)),
   flat_map open_descriptors (pr_threads p)).

(** [linuxemu_resume_guest (registers)]: the registers of the guest when it
    resumes.  The program counter goes through [ip], the register 12. *)
Definition linuxemu_resume_guest (registers : list Z) : list Z :=
  take 12 registers ++
  [nth 15 registers 0; nth 13 registers 0; nth 14 registers 0; nth 15 registers 0 .&~ 1].

(** [guest_thread_start] once [start] is set: the memory and the registers. *)
Definition guest_thread_start (t : thread) (m : gmap Z Z) : option (gmap Z Z * list Z) :=
  if t_child_tid t =? 0 then Some (m, linuxemu_resume_guest (t_registers t))
  else match load32 m (t_child_tid t) with
       | None => None
       | Some _ => Some (store32 m (t_child_tid t) (u32 (t_tid t)), linuxemu_resume_guest (t_registers t))
       end.

(** ** A thread that ends *)

(** The range a thread has deferred is one that [munmap] accepted. *)
Definition deferred_ok (t : thread) : Prop :=
  t_deferred_length t <> 0 ->
  t_deferred_start t mod 4 = 0 /\ t_deferred_length t mod 4 = 0 /\ is_u32 (t_deferred_start t) /\
  is_u32 (t_deferred_length t) /\ bad_range (t_deferred_start t) (t_deferred_length t) = false.

Lemma deferred_unmap_gone t sp :
  space_wf sp -> deferred_ok t ->
  if t_deferred_length t =? 0 then deferred_unmap t sp = sp
  else range_gone sp (deferred_unmap t sp) (t_deferred_start t) (t_deferred_length t).
Proof.
  intros Hwf Hd. unfold deferred_unmap. destruct (_ =? 0) eqn:E; bprop; simpl; [done|].
  destruct (Hd E) as (? & ? & ? & ? & ?). by apply unmap_range.
Qed.

Lemma wake_all `{!HostErrno} host l address w :
  lock_error host = None -> Z.of_nat (length l) <= INT_MAX ->
  w ∈ l -> fw_address w = address -> has (fw_bitset w) 0xffffffff = true -> fw_woken w = false ->
  wake_waiter w ∈ (linux_futex_wake host l address INT_MAX 0xffffffff).2.
Proof.
  intros Hl Hlen Hw Ha Hb Hn. unfold linux_futex_wake. simpl. rewrite Hl, wake_loop_spec by done.
  apply wake_first_all; [lia|done|]. unfold wakeable. by rewrite Ha, Hb, Hn, Z.eqb_refl.
Qed.

(** C26: A thread that ends takes its own record off the registry, and no other.  The
    range whose unmapping it has deferred is gone, with its patches and its
    ownership, before its identifier word is cleared; the word then reads zero and
    every thread that waits for it is woken.  The call can only fault on an
    identifier word that is not mapped once the stack is gone. *)
Theorem finish_thread_correct `{!HostErrno} (host : futex_host) (i : nat) (t : thread) (p : process) :
  space_wf (pr_space p) -> deferred_ok t -> lock_error host = None ->
  Z.of_nat (length (pr_waiters p)) <= INT_MAX ->
  exists sp1, (if t_deferred_length t =? 0 then sp1 = pr_space p
               else range_gone (pr_space p) sp1 (t_deferred_start t) (t_deferred_length t)) /\
  match finish_guest_thread host i t p with
  | Some (p', closed) =>
    pr_threads p' = delete i (pr_threads p) /\ pr_next_tid p' = pr_next_tid p /\
    closed = open_descriptors t /\ sp_patches (pr_space p') = sp_patches sp1 /\
    registry (pr_space p') = registry sp1 /\
    if t_clear_child_tid t =? 0 then sp_bytes (pr_space p') = sp_bytes sp1 /\ pr_waiters p' = pr_waiters p
    else load32 (sp_bytes (pr_space p')) (t_clear_child_tid t) = Some 0 /\
      sp_bytes (pr_space p') = store32 (sp_bytes sp1) (t_clear_child_tid t) 0 /\
      forall w, w ∈ pr_waiters p -> fw_address w = t_clear_child_tid t -> fw_woken w = false ->
        has (fw_bitset w) 0xffffffff = true -> wake_waiter w ∈ pr_waiters p'
  | None => t_clear_child_tid t <> 0 /\ load32 (sp_bytes sp1) (t_clear_child_tid t) = None
  end.
Proof.
  intros Hwf Hd Hl Hlen. exists (deferred_unmap t (pr_space p)).
  pose proof (deferred_unmap_gone t (pr_space p) Hwf Hd) as Hgone. split; [done|]. clear Hgone.
  unfold finish_guest_thread. set (sp1 := deferred_unmap t (pr_space p)). clearbody sp1.
  destruct (t_clear_child_tid t =? 0) eqn:E; bprop; [done|].
  destruct (load32 _ _) as [old|] eqn:El; [|done].
  pose proof (wake_all host (pr_waiters p) (t_clear_child_tid t)) as Hwake.
  destruct (linux_futex_wake _ _ _ _ _) as [n waiters]. simpl in *. split_and!; try done.
  - by apply load32_store32_eq.
  - intros w Hw Ha Hn Hb. by apply (Hwake w).
Qed.

(** ** Resuming a thread *)

(** The new thread gets the registers it was given, and its program counter, but
    for register 12, in which it finds the program counter instead. *)
Theorem resume_guest_registers (registers : list Z) (i : nat) :
  length registers = 16%nat -> nth 15 registers 0 mod 2 = 0 -> (i < 16)%nat ->
  nth i (linuxemu_resume_guest registers) 0 =
  if decide (i = 12%nat) then nth 15 registers 0 else nth i registers 0.
Proof.
  intros Hl He Hi. unfold linuxemu_resume_guest.
  assert (forall x, x mod 2 = 0 -> x .&~ 1 = x) as Heven.
  { intros x Hx. change 1 with (2 ^ 1 - 1). rewrite ldiff_ones by lia. change (2 ^ 1) with 2. lia. }
  do 16 (destruct registers as [|? registers]; [done|]). destruct registers; [|done].
  simpl in He. cbn [nth take app]. rewrite Heven by done.
  do 16 (destruct i as [|i]; [done|]). lia.
Qed.

(** ** The threads of a process as a state machine *)

Definition with_threads (threads : list thread) (p : process) : process :=
  Process (pr_space p) threads (pr_next_tid p) (pr_waiters p).

(** A host whose [pipe] gives descriptors. *)
Definition pipe_ok (host : wait_host) : Prop :=
  forall r w, wh_pipe host = inr (r, w) -> 0 <= r /\ 0 <= w.

(** The steps of the process whose host identifier is the first component: a thread
    creates another, ends, forks (the process is then the child's), starts or stops
    waiting for signals, queues a signal, takes one, or changes its mask. *)
Inductive process_step `{!HostErrno} : Z * process -> Z * process -> Prop :=
| step_clone pid p host gpr i parent v threads next m :
    pr_threads p !! i = Some parent -> length gpr = 16%nat ->
    guest_thread_clone host gpr parent (pr_threads p) (pr_next_tid p) (sp_bytes (pr_space p)) =
      Some (v, threads, next, m) ->
    process_step (pid, p)
      (pid, Process (with_patches (sp_patches (pr_space p)) m (pr_space p)) threads next (pr_waiters p))
| step_exit pid p host i status p' closed :
    guest_thread_exit host (Some i) status p = ThreadEnds (Some (p', closed)) ->
    process_step (pid, p) (pid, p')
| step_fork pid p pid' i t :
    pr_threads p !! i = Some t ->
    process_step (pid, p) (pid', (guest_thread_after_fork pid' (Some t) p).1)
| step_wait_begin pid p host i t r t' closed :
    pr_threads p !! i = Some t -> pipe_ok host ->
    guest_thread_signal_wait_begin host (Some t) = (r, Some t', closed) ->
    process_step (pid, p) (pid, with_threads (<[i := t']> (pr_threads p)) p)
| step_wait_end pid p i t t' closed :
    pr_threads p !! i = Some t -> guest_thread_signal_wait_end (Some t) = (Some t', closed) ->
    process_step (pid, p) (pid, with_threads (<[i := t']> (pr_threads p)) p)
| step_signal pid p i t n information t' notes :
    pr_threads p !! i = Some t -> queueable n ->
    guest_thread_signal_pending (Some t) n information = (Some t', notes) ->
    process_step (pid, p) (pid, with_threads (<[i := t']> (pr_threads p)) p)
| step_take pid p i t n information known t' :
    pr_threads p !! i = Some t ->
    guest_thread_take_pending (Some t) = (n, information, known, Some t') ->
    process_step (pid, p) (pid, with_threads (<[i := t']> (pr_threads p)) p)
| step_mask pid p i t words t' :
    pr_threads p !! i = Some t -> guest_thread_signal_mask_set (Some t) words = Some t' ->
    process_step (pid, p) (pid, with_threads (<[i := t']> (pr_threads p)) p).

Inductive process_reachable `{!HostErrno} : Z * process -> Prop :=
| reach_start pid p : process_reachable (pid, guest_thread_initialize pid p)
| reach_step s s' : process_reachable s -> process_step s s' -> process_reachable s'.

(** What holds of each thread: its queues have their shape, its identifier is one
    a futex word can hold (30 bits, not zero), and the two ends of its pipe are
    both open or both closed. *)
Record thread_ok (t : thread) : Prop := {
  to_wf : thread_shape t;
  to_tid : 1 <= t_tid t <= TID_MASK;
  to_wait : (t_wait_read_fd t = -1 /\ t_wait_write_fd t = -1) \/
            (0 <= t_wait_read_fd t /\ 0 <= t_wait_write_fd t) }.

(** The last thread of the registry is the main one. *)
Record process_wf (pid : Z) (p : process) : Prop := {
  pw_threads : Forall thread_ok (pr_threads p);
  pw_main : t_tid <$> last (pr_threads p) = Some (initial_guest_tid pid);
  pw_next : is_u32 (pr_next_tid p) }.

Lemma initial_tid_range pid : 1 <= initial_guest_tid pid <= TID_MASK.
Proof.
  unfold initial_guest_tid, TID_MASK. pose proof (land_bound_r (u32 pid) 0x3fffffff ltac:(lia)).
  cond; bprop; lia.
Qed.

Lemma main_thread_ok pid tls mask pointer size : thread_ok (main_thread pid tls mask pointer size).
Proof. split; [by apply thread_wf_shape, fresh_thread_wf|apply initial_tid_range|by left]. Qed.

Lemma single_process_wf pid sp t next waiters :
  thread_ok t -> t_tid t = initial_guest_tid pid -> is_u32 next ->
  process_wf pid (Process sp [t] next waiters).
Proof. intros Ht Hi Hn. split; [by constructor|simpl; by rewrite Hi|done]. Qed.

(** Replacing a thread by one with the same identifier. *)
Lemma process_wf_update pid p i t t' :
  process_wf pid p -> pr_threads p !! i = Some t -> thread_ok t' -> t_tid t' = t_tid t ->
  process_wf pid (with_threads (<[i := t']> (pr_threads p)) p).
Proof.
  intros [Ht Hm Hn] Hi Ht' Htid. split; [by apply Forall_insert| |done]. simpl. rewrite <- Hm.
  rewrite !last_lookup, length_insert. destruct (decide (i = pred (length (pr_threads p)))) as [->|Hne].
  - rewrite list_lookup_insert_eq by (by eapply lookup_lt_Some). by rewrite Hi; simpl; rewrite Htid.
  - by rewrite list_lookup_insert_ne.
Qed.

Lemma clone_ok `{!HostErrno} host gpr parent threads next m v threads' next' m' :
  is_u32 next -> guest_thread_clone host gpr parent threads next m = Some (v, threads', next', m') ->
  is_u32 next' /\ (threads' = threads \/ exists t, threads' = t :: threads /\ thread_ok t).
Proof.
  intros Hn. unfold guest_thread_clone.
  destruct (_ || (nth 1 gpr 0 =? 0)); [intros [= <- <- <- <-]; tauto|].
  destruct (calloc_ok host); simpl; [|intros [= <- <- <- <-]; tauto].
  destruct (allocate_tid_spec next Hn) as (tid & next1 & -> & Htid & Hn1).
  destruct (create_error host); intros [= <- <- <- <-]; [tauto|].
  split; [done|]. right. eexists. split; [done|]. split; [by apply thread_wf_shape, fresh_thread_wf|done|by left].
Qed.

Lemma last_delete_other (l : list thread) i :
  (S i < length l)%nat -> last (delete i l) = last l.
Proof.
  intros Hi. rewrite !last_lookup, length_delete by (by apply lookup_lt_is_Some_2; lia).
  rewrite list_lookup_delete_ge by lia. f_equal. lia.
Qed.

(** The operations on one thread keep its identifier and its descriptors. *)
Definition same_thread (t t' : thread) : Prop :=
  t_tid t' = t_tid t /\ t_wait_read_fd t' = t_wait_read_fd t /\ t_wait_write_fd t' = t_wait_write_fd t.

Lemma thread_ok_same t t' : thread_ok t -> thread_shape t' -> same_thread t t' -> thread_ok t'.
Proof. intros [_ Ht Hw] Hwf (Hi & Hr & Hww). split; [done|by rewrite Hi|by rewrite Hr, Hww]. Qed.

Lemma signal_pending_same t n information t' notes :
  guest_thread_signal_pending (Some t) n information = (Some t', notes) -> same_thread t t'.
Proof.
  unfold guest_thread_signal_pending. intros H. repeat (case_match; simplify_eq/=); done.
Qed.

Lemma take_realtime_same k t n number information t' :
  take_realtime k t n = Some (number, information, t') -> same_thread t t'.
Proof.
  revert n. induction k as [|k IH]; intros n; simpl; [done|].
  repeat case_match; intros; simplify_eq/=; eauto; done.
Qed.

Lemma take_pending_same t n information known t' :
  guest_thread_take_pending (Some t) = (n, information, known, Some t') -> same_thread t t'.
Proof.
  unfold guest_thread_take_pending. generalize (count_trailing_zeros 32).
  intros ctz. cond; [by intros [= <- <- <- <-]|].
  destruct (take_realtime _ _ _) as [[[k info] t1]|] eqn:Er; intros [= <- <- <- <-]; [|done].
  by eapply take_realtime_same.
Qed.

Lemma wait_begin_ok host t r t' closed :
  pipe_ok host -> thread_ok t -> guest_thread_signal_wait_begin host (Some t) = (r, Some t', closed) ->
  thread_ok t' /\ t_tid t' = t_tid t.
Proof.
  intros Hp [Hwf Ht Hw]. unfold guest_thread_signal_wait_begin.
  destruct (wh_pipe host) as [e|[r0 w0]] eqn:E; [by intros [= <- <- <-]|].
  destruct (omap _ _); intros [= <- <- <-]; [|done]. split; [|done].
  split; [by destruct Hwf|done|]. right. by apply Hp.
Qed.

Lemma finish_threads `{!HostErrno} host i t p p' closed :
  finish_guest_thread host i t p = Some (p', closed) ->
  pr_threads p' = delete i (pr_threads p) /\ pr_next_tid p' = pr_next_tid p.
Proof.
  unfold finish_guest_thread. generalize (deferred_unmap t (pr_space p)). intros sp.
  cond; [by intros [= <- _]|]. destruct (load32 _ _); [|done].
  destruct (linux_futex_wake _ _ _ _ _). by intros [= <- _].
Qed.

Lemma exit_wf `{!HostErrno} pid host i status p p' closed :
  process_wf pid p -> guest_thread_exit host (Some i) status p = ThreadEnds (Some (p', closed)) ->
  process_wf pid p'.
Proof.
  intros [Ht Hm Hn]. unfold guest_thread_exit, is_main.
  destruct (pr_threads p !! i) as [t|] eqn:Hi; [|done]. cond; [done|]. bprop. intros [= Hf].
  apply finish_threads in Hf as [Hth Hnx]. apply lookup_lt_Some in Hi.
  split; [rewrite Hth; by apply Forall_delete|rewrite Hth, last_delete_other by lia; done|by rewrite Hnx].
Qed.

Lemma process_step_wf `{!HostErrno} pid p pid' p' :
  process_step (pid, p) (pid', p') -> process_wf pid p -> process_wf pid' p'.
Proof.
  intros Hstep Hwf. pose proof Hwf as [Ht Hm Hn].
  inversion Hstep as [? ? host gpr i parent v threads next m Hi _ Hc
    |? ? host i status ? closed He|? ? ? i t Hi|? ? host i t r t' closed Hi Hp Hb
    |? ? i t t' closed Hi He|? ? i t n information t' notes Hi Hq Hs
    |? ? i t n information known t' Hi Hs|? ? i t words t' Hi Hs]; subst.
  2: { by eapply exit_wf. }
  2: { apply single_process_wf; [apply main_thread_ok|done|apply u32_is_u32]. }
  { destruct (clone_ok _ _ _ _ _ _ _ _ _ _ Hn Hc) as [Hn' [->|(t & -> & Hok)]]; [by split|].
    split; [by constructor| |done]. simpl. by destruct (pr_threads p). }
  all: pose proof (Forall_lookup_1 _ _ _ _ Ht Hi) as Hok.
  - destruct (wait_begin_ok _ _ _ _ _ Hp Hok Hb). by eapply process_wf_update.
  - injection He as <- _. eapply process_wf_update; [done..| |done].
    destruct Hok as [[] ? ?]. split; [done|done|by left].
  - pose proof (signal_pending_same _ _ _ _ _ Hs) as Hsame.
    eapply process_wf_update; [done..| |apply Hsame]. eapply thread_ok_same; [done| |done].
    apply (pending_shape t n information); [apply Hok|by rewrite Hs].
  - pose proof (take_pending_same _ _ _ _ _ Hs) as Hsame.
    eapply process_wf_update; [done..| |apply Hsame]. eapply thread_ok_same; [done| |done].
    by eapply take_pending_shape; [apply Hok|].
  - injection Hs as <-. eapply process_wf_update; [done..| |done].
    destruct Hok as [[] ? ?]. by split.
Qed.

(** Every reachable process has its main thread last, with the identifier of the
    process; all identifiers fit the 30 bits of a futex word, no thread has half a
    pipe open, and the queues of all threads have their shape. *)
Theorem process_reachable_wf `{!HostErrno} (pid : Z) (p : process) :
  process_reachable (pid, p) -> process_wf pid p.
Proof.
  intros Hr. remember (pid, p) as s eqn:Es. revert pid p Es.
  induction Hr as [pid0 p0|[pid0 p0] s' _ IH Hstep]; intros pid p Es.
  - injection Es as <- <-. by apply single_process_wf; [apply main_thread_ok| |apply u32_is_u32].
  - subst s'. by eapply process_step_wf; [|by apply IH].
Qed.

(** ** A process with one thread that ends *)

Module ThreadLifeExamples.
#[local] Existing Instance ExampleErrno.host_errno.

Definition start : process := Process MmapExamples.sp0 [] 0 [Waiter 9 0x20000004 0xffffffff false 0].
Definition p1 : process := guest_thread_initialize 4242 start.

(** The registers of a [clone] with the flags of musl: stack, TLS and identifier
    words given. *)
Definition clone_gpr : list Z :=
  [0x7d0f00; 0x20000020; 0x20000008; 0x20000010; 0x20000004; 0; 0; 0; 0; 0; 0; 0; 77; 0; 0; 0x20000000].
Definition after_clone : option (Z * list thread * Z * gmap Z Z) :=
  guest_thread_clone (CloneHost true None) clone_gpr (main_thread 4242 0 (Words 0 0) 0 0)
    (pr_threads p1) (pr_next_tid p1) (sp_bytes (pr_space p1)).
Definition p2 : process :=
  match after_clone with
  | Some (_, threads, next, m) =>
    Process (with_patches (sp_patches (pr_space p1)) m (pr_space p1)) threads next (pr_waiters p1)
  | None => p1
  end.

Lemma process_reachable_wf_witness :
  map t_tid (pr_threads p2) = [4243; 4242] /\ process_wf 4242 p2.
Proof.
  split; [vm_compute; reflexivity|]. apply process_reachable_wf.
  eapply reach_step; [apply (reach_start 4242 start)|].
  assert (Hsome : bool_decide (is_Some after_clone) = true) by (vm_compute; reflexivity).
  destruct after_clone as [[[[v threads] next] m]|] eqn:E; [clear Hsome|discriminate Hsome].
  unfold p2. rewrite E.
  apply (step_clone 4242 p1 (CloneHost true None) clone_gpr 0 (main_thread 4242 0 (Words 0 0) 0 0)
    v threads next m); [reflexivity|reflexivity|exact E].
Defined.

(** A thread that has unmapped its stack, the second page, and now ends. *)
Definition ending : thread :=
  set_deferred 0x20000010 16 (set_clear_child_tid 0x20000004 (set_wait 5 6 zero_thread)).
Definition p3 : process :=
  Process MmapExamples.sp0 [ending; zero_thread] 7 [Waiter 9 0x20000004 0xffffffff false 0].

Lemma finish_thread_witness :
  match finish_guest_thread (FutexHost None None None None) 0 ending p3 with
  | Some (p', closed) => pr_threads p' = [zero_thread] /\ closed = [5; 6] /\
      load32 (sp_bytes (pr_space p')) 0x20000004 = Some 0 /\
      sp_bytes (pr_space p') !! 0x20000010 = None /\
      Waiter 9 0x20000004 0xffffffff true 1 ∈ pr_waiters p'
  | None => False
  end.
Proof.
  destruct (finish_thread_correct (FutexHost None None None None) 0 ending p3 MmapExamples.sp0_wf)
    as (sp1 & Hgone & Hf); [|reflexivity|vm_compute; discriminate|].
  { intros _. split_and!; try reflexivity; split; vm_compute; discriminate. }
  assert (Hgone' : range_gone MmapExamples.sp0 sp1 0x20000010 16) by exact Hgone.
  destruct (finish_guest_thread _ _ _ _) as [[p' closed]|] eqn:E.
  - destruct Hf as (-> & _ & -> & _ & _ & Hload & Hbytes & Hwake).
    split; [reflexivity|]. split; [reflexivity|]. split; [exact Hload|]. split.
    + rewrite Hbytes, (rg_bytes _ _ _ _ Hgone'), store32_lookup_out, mem_unmap_lookup by (right; done).
      reflexivity.
    + apply (Hwake (Waiter 9 0x20000004 0xffffffff false 0)); [left|reflexivity..].
  - exfalso. revert E. vm_compute. discriminate.
Defined.

Lemma resume_guest_registers_witness :
  nth 12 (linuxemu_resume_guest clone_gpr) 0 = 0x20000000 /\ nth 12 clone_gpr 0 = 77.
Proof.
  split; [|reflexivity].
  rewrite (resume_guest_registers clone_gpr 12); [reflexivity|reflexivity|reflexivity|lia].
Defined.
End ThreadLifeExamples.
