(* ===== verification/Trap.v ===== *)
(** * The trap handler: [src/src/trap.c]

    Patched instructions, signal trampolines and the kernel helper page all
    arrive as [SIGILL] or [SIGSEGV].  [trap_handler] either resumes the guest
    with a changed context or ends the process with a message.  The system call
    layer ([linux_syscall_dispatch]) is a parameter. *)

From S2P Require Import Prelude Errno Bytes RuntimeRegistry GuestMemory.
From S2P Require Import ArmPatch GuestThread GuestSignal.
From Stdlib Require Import Ascii String.
Open Scope Z_scope.

Definition LINUX_KUSER_MEMORY_BARRIER : Z := 0xffff0fa0.
Definition LINUX_KUSER_CMPXCHG : Z := 0xffff0fc0.
Definition LINUX_KUSER_GET_TLS : Z := 0xffff0fe0.
Definition LINUX_KUSER_VERSION_ADDRESS : Z := 0xffff0ffc.
Definition LINUX_KUSER_VERSION : Z := 5.
Definition ARM_KUSER_VERSION_LOAD : Z := 0xe51cc003.

(** ** Fatal signals *)

(** [append_hex32]: the eight digits of the word, most significant first. *)
Definition hex_digit (n : Z) : ascii := nth (Z.to_nat n) (list_ascii_of_string "0123456789abcdef") "0"%char.
Definition append_hex32 (buffer : list ascii) (value : Z) : list ascii :=
  buffer ++ map (fun shift => hex_digit (Z.shiftr value shift .& 15)) [28; 24; 20; 16; 12; 8; 4; 0].

(** The message [fatal_signal] writes before it exits with status 125. *)
Definition fatal_message (sig address pc : Z) : list ascii :=
  let m := append_hex32 (list_ascii_of_string "linuxemu: fatal signal=0x") (u32 sig) in
  let m := append_hex32 (m ++ list_ascii_of_string " pc=0x") (u32 pc) in
  let m := append_hex32 (m ++ list_ascii_of_string " address=0x") (u32 address) in
  m ++ ["010"%char].

(** ** The handler *)

(** The state the handler and what it calls work on. *)
Record world := World {
  w_patches : list patch_record;
  w_memory : guest_memory;
  w_signals : signal_state;
  w_bytes : gmap Z Z }.

Inductive trap_outcome :=
| Resume (w : world) (c : ucontext)
| Fatal (message : list ascii)
| TrapFault.

Definition set_gpr (i : nat) (v : Z) (c : ucontext) : ucontext :=
  Ucontext (<[i := v]> (uc_gpr c)) (uc_spsr c) (uc_vfp c) (uc_sigmask c).

(** [runtime_guest_tls], [guest_thread_syscall_enter] and [_leave]. *)
Definition runtime_guest_tls (t : option thread) : Z :=
  match t with None => 0 | Some t => t_tls t end.
Definition set_syscall_active (active : bool) (t : option thread) : option thread :=
  match t with
  | None => None
  | Some t =>
    Some (Thread (t_registers t) (t_tls t) (t_clear_child_tid t) (t_child_tid t) (t_tid t)
      (t_pending t) (t_pending_info t) (t_realtime t) (t_mask t) (t_suspend_restore t)
      (t_futex_semaphore t) (t_futex_interrupted t) active (t_wait_read_fd t) (t_wait_write_fd t)
      (t_altstack_pointer t) (t_altstack_size t) (t_deferred_start t) (t_deferred_length t))
  end.
Definition with_active (active : bool) (w : world) : world :=
  World (w_patches w) (w_memory w)
    (SignalState (guest_actions (w_signals w)) (set_syscall_active active (ss_thread (w_signals w))))
    (w_bytes w).
Definition with_signals (w : world) (st : signal_state) (m : gmap Z Z) : world :=
  World (w_patches w) (w_memory w) st m.

Section trap.
Context `{!HostErrno, !HostSignals, !HostProt}.
Context (trampoline rt_trampoline : Z).

Definition fatal (sig : Z) (info : siginfo) (c : ucontext) : trap_outcome :=
  Fatal (fatal_message sig (si_addr info) (gpr c 15)).

(** [if (guest_signal_return (context, realtime) == 0) return; fatal_signal (..)] *)
Definition return_or_fatal (w : world) (c : ucontext) (sig : Z) (info : siginfo) (realtime : bool)
  : trap_outcome :=
  match guest_signal_return (w_signals w) c (w_bytes w) realtime with
  | None => TrapFault
  | Some (v, st, c') => if v =? 0 then Resume (with_signals w st (w_bytes w)) c'
                        else fatal sig info c
  end.

(** [if (guest_memory_is_executable (pc, 4) && guest_signal_deliver (..) == 0)
    return; fatal_signal (..)] *)
Definition deliver_or_fatal (w : world) (c : ucontext) (sig linux_signal : Z) (info : siginfo)
  : trap_outcome :=
  if guest_memory_is_executable (w_memory w) (gpr c 15) 4 then
    match guest_signal_deliver trampoline rt_trampoline (w_signals w) c (w_bytes w) linux_signal
            (Some info) with
    | None => TrapFault
    | Some (v, st, c', m, _) => if v =? 0 then Resume (with_signals w st m) c' else fatal sig info c
    end
  else fatal sig info c.

(** Returns from a kernel helper: [pc = lr]. *)
Definition helper_return (c : ucontext) : ucontext := set_gpr 15 (gpr c 14) c.

(** The [SIGSEGV] branch. *)
Definition segv_trap (w : world) (c : ucontext) (info : siginfo) : trap_outcome :=
  let pc := gpr c 15 in
  if pc =? LINUX_KUSER_GET_TLS then
    Resume w (helper_return (set_gpr 0 (runtime_guest_tls (ss_thread (w_signals w))) c))
  else if pc =? LINUX_KUSER_MEMORY_BARRIER then Resume w (helper_return c)
  else if pc =? LINUX_KUSER_CMPXCHG then
    match load32 (w_bytes w) (gpr c 2) with
    | None => TrapFault
    | Some value =>
      let m := if value =? gpr c 0 then store32 (w_bytes w) (gpr c 2) (gpr c 1) else w_bytes w in
      Resume (with_signals w (w_signals w) m)
        (helper_return (set_gpr 0 (if value =? gpr c 0 then 0 else UINTPTR_MAX) c))
    end
  else if (si_addr info =? LINUX_KUSER_VERSION_ADDRESS) &&
          guest_memory_is_executable (w_memory w) pc 4 &&
          bool_decide (load32 (w_bytes w) pc = Some ARM_KUSER_VERSION_LOAD) then
    Resume w (set_gpr 15 (u32 (pc + 4)) (set_gpr 12 LINUX_KUSER_VERSION c))
  else deliver_or_fatal w c SIGSEGV 11 info.

(** The system call branch before [guest_thread_syscall_enter]: the two returns from
    a signal; [None] for every other call. *)
Definition syscall_branch (w : world) (c : ucontext) (info : siginfo) : option trap_outcome :=
  let syscall_number := gpr c 7 in
  if syscall_number =? 119 then Some (return_or_fatal w c SIGILL info false)
  else if syscall_number =? 173 then Some (return_or_fatal w c SIGILL info true)
  else None.

(** The handler without the part that serves a call: how it ends, or [None] when it
    comes to [guest_thread_syscall_enter]. *)
Definition trap_branch (w : world) (c : ucontext) (sig : Z) (info : siginfo) : option trap_outcome :=
  let pc := gpr c 15 in
  if (sig =? SIGILL) && (pc =? trampoline) then Some (return_or_fatal w c sig info false)
  else if (sig =? SIGILL) && (pc =? rt_trampoline) then Some (return_or_fatal w c sig info true)
  else if sig =? SIGSEGV then Some (segv_trap w c info)
  else if negb (sig =? SIGILL) then Some (fatal sig info c)
  else match arm_patch_original (w_patches w) pc with
  | None => Some (deliver_or_fatal w c sig 4 info)
  | Some original =>
    if (original .& ARM_TPIDRURO_MASK) =? ARM_TPIDRURO_READ then
      let destination := Z.to_nat (Z.shiftr original 12 .& 15) in
      Some (Resume w (set_gpr 15 (u32 (pc + 4))
                        (set_gpr destination (runtime_guest_tls (ss_thread (w_signals w))) c)))
    else if original =? ARM_LINUX_SVC_0 then syscall_branch w c info
    else Some (fatal sig info c)
  end.

(** These branches leave the patch table and the segments alone. *)
Lemma trap_branch_frames w c sig info w' c' :
  trap_branch w c sig info = Some (Resume w' c') ->
  w_patches w' = w_patches w /\ w_memory w' = w_memory w.
Proof.
  unfold trap_branch, syscall_branch, segv_trap, deliver_or_fatal, return_or_fatal, fatal.
  intros Hb. repeat case_match; simplify_eq/=; done.
Qed.

Context (linux_syscall_dispatch : world -> ucontext -> world * ucontext).

(** From [guest_thread_syscall_enter] to the return. *)
Definition serve_trap (w : world) (c : ucontext) : trap_outcome :=
  let pc := gpr c 15 in
  let syscall_number := gpr c 7 in
  let original_r0 := gpr c 0 in
  let (w, c) := linux_syscall_dispatch (with_active true w) c in
  let w := with_active false w in
  let c := set_gpr 15 (u32 (pc + 4)) c in
  match guest_signal_deliver_pending trampoline rt_trampoline (w_signals w) c (w_bytes w)
          syscall_number original_r0 with
  | None => TrapFault
  | Some (_, st, c, m, _) => Resume (with_signals w st m) c
  end.

Definition syscall_trap (w : world) (c : ucontext) (info : siginfo) : trap_outcome :=
  match syscall_branch w c info with Some outcome => outcome | None => serve_trap w c end.

Definition trap_handler (w : world) (c : ucontext) (sig : Z) (info : siginfo) : trap_outcome :=
  match trap_branch w c sig info with Some outcome => outcome | None => serve_trap w c end.

(** [install_guest_traps]: the signals whose handler was set, and the error of the
    call that failed. *)
Definition install_guest_traps (sigaction : Z -> option errno) : list Z * option errno :=
  match sigaction SIGILL with
  | Some e => ([], Some e)
  | None =>
    match sigaction SIGSEGV with
    | Some e => ([SIGILL], Some e)
    | None => ([SIGILL; SIGSEGV], None)
    end
  end.

(** ** Properties *)

End trap.

(** ** Witness *)

Module TrapExamples.
Import ExampleErrno GuestSignalExamples GuestMemoryExamples.
#[local] Existing Instance host_errno.
#[local] Existing Instance example_signals.
#[local] Existing Instance example_prot.

(** The instruction [mrc p15, 0, r3, c13, c0, 3], patched. *)
Definition mrc_r3 : Z := 0xee1d3f70.
Definition bytes0 : gmap Z Z := store32 ∅ 0x10008 ARM_UDF_TRAP.
Definition thread_with_tls : thread :=
  Thread (replicate 16 0) 0x1234 0 0 0 (Words 0 0) (replicate 31 zero_siginfo)
    (replicate REALTIME_SIGNALS empty_queue) (Words 0 0) None None false false (-1) (-1) 0 0 0 0.
Definition w0 : world :=
  World [Patch 0x10008 mrc_r3] GuestMemoryExamples.s0 (SignalState handlers (Some thread_with_tls)) bytes0.

Lemma w0_wf : patches_wf (w_patches w0) (w_bytes w0).
Proof.
  split; [|apply NoDup_singleton|unfold MAX_PATCHES; simpl; lia].
  apply Forall_singleton. split; [reflexivity|]. split; [reflexivity|].
  apply load32_store32_eq. by split; vm_compute.
Qed.


End TrapExamples.
