(* ===== verification/Time.v ===== *)
(** * Clocks and sleeping: [src/src/linux_time.c]

    The time system calls with 32-bit and 64-bit guest layouts.  The host's
    clocks are a parameter; guest structures are in memory as in [Bytes]. *)

From S2P Require Import Prelude Errno Bytes Futex.
Open Scope Z_scope.

Definition LINUX_NR_TIME : Z := 13.
Definition LINUX_NR_GETTIMEOFDAY : Z := 78.
Definition LINUX_NR_NANOSLEEP : Z := 162.
Definition LINUX_NR_CLOCK_GETTIME : Z := 263.
Definition LINUX_NR_CLOCK_GETRES : Z := 264.
Definition LINUX_NR_CLOCK_NANOSLEEP : Z := 265.
Definition LINUX_NR_CLOCK_GETTIME64 : Z := 403.
Definition LINUX_NR_CLOCK_GETRES_TIME64 : Z := 406.
Definition LINUX_NR_CLOCK_NANOSLEEP_TIME64 : Z := 407.
Definition LINUX_TIMER_ABSTIME : Z := 1.

Inductive host_clock : Set := Realtime | Monotonic | ProcessCpu | ThreadCpu.

(** What the host's time functions answer.  A sleep that fails also leaves the
    time remaining. *)
Record time_host := TimeHost {
  h_time : errno + Z;
  h_gettimeofday : errno + (Z * Z);
  h_clock_gettime : host_clock -> errno + timespec;
  h_clock_getres : host_clock -> errno + timespec;
  h_nanosleep : timespec -> option (errno * timespec);
  h_clock_nanosleep : host_clock -> bool -> timespec -> option (errno * timespec) }.

Definition map_clock (linux_clock : Z) : option host_clock :=
  if linux_clock =? 0 then Some Realtime
  else if linux_clock =? 1 then Some Monotonic
  else if linux_clock =? 2 then Some ProcessCpu
  else if linux_clock =? 3 then Some ThreadCpu
  else None.

(** Conversion to [int64_t] of eight bytes. *)
Definition s64 (z : Z) : Z := if z <? 2 ^ 63 then z else z - 2 ^ 64.
Definition load64 (m : gmap Z Z) (a : Z) : option Z :=
  match mem_load m a 8 with Some bs => Some (le_value bs) | None => None end.

Section time.
Context `{!HostErrno}.

(** [load_time32] and [load_time64]: [None] is a fault; the inner [sum] is the
    negative value returned or the time. *)
Definition load_time32 (m : gmap Z Z) (address : Z) : option (Z + timespec) :=
  if address =? 0 then Some (inl (host_negative EFAULT))
  else match load32 m address, load32 m (address + 4) with
  | Some f0, Some f1 =>
    if (s32 f0 <? 0) || (s32 f1 <? 0) || (1000000000 <=? s32 f1)
    then Some (inl (host_negative EINVAL)) else Some (inr (Timespec (s32 f0) (s32 f1)))
  | _, _ => None
  end.
Definition load_time64 (m : gmap Z Z) (address : Z) : option (Z + timespec) :=
  if address =? 0 then Some (inl (host_negative EFAULT))
  else match load64 m address, load64 m (address + 8) with
  | Some f0, Some f1 =>
    if (s64 f0 <? 0) || (INT_MAX <? s64 f0) || (s64 f1 <? 0) || (1000000000 <=? s64 f1)
    then Some (inl (host_negative EINVAL)) else Some (inr (Timespec (s64 f0) (s64 f1)))
  | _, _ => None
  end.

Definition store_time32 (m : gmap Z Z) (address : Z) (value : timespec) : gmap Z Z :=
  mem_store m address (le_bytes 4 (tv_sec value) ++ le_bytes 4 (tv_nsec value)).
Definition store_time64 (m : gmap Z Z) (address : Z) (value : timespec) : gmap Z Z :=
  mem_store m address (le_bytes 8 (tv_sec value) ++ le_bytes 8 (tv_nsec value)).
Definition store_time (time64 : bool) (m : gmap Z Z) (address : Z) (value : timespec) : gmap Z Z :=
  if time64 then store_time64 m address value else store_time32 m address value.

(** [get_clock]: the value returned and the memory. *)
Definition get_clock (host : time_host) (m : gmap Z Z) (arg0 arg1 : Z) (time64 resolution : bool)
  : Z * gmap Z Z :=
  match map_clock (s32 arg0) with
  | None => (host_negative EINVAL, m)
  | Some clock =>
    if arg1 =? 0 then
      if negb resolution then (host_negative EFAULT, m)
      else match h_clock_getres host clock with
           | inr _ => (0, m)
           | inl e => (linux_error e, m)
           end
    else match (if resolution then h_clock_getres host clock else h_clock_gettime host clock) with
    | inl e => (linux_error e, m)
    | inr value =>
      if negb time64 && (INT_MAX <? tv_sec value) then (host_negative EOVERFLOW, m)
      else (0, store_time time64 m arg1 value)
    end
  end.

(** The end of [sleep_clock]: the host has slept, or failed with the time left. *)
Definition sleep_result (m : gmap Z Z) (time64 : bool) (remainder flags : Z)
    (slept : option (errno * timespec)) : Z * gmap Z Z :=
  match slept with
  | None => (0, m)
  | Some (e, remaining) =>
    (linux_error e,
     if negb (remainder =? 0) && negb (has flags LINUX_TIMER_ABSTIME)
     then store_time time64 m remainder remaining else m)
  end.

(** [sleep_clock]; [None] is a fault. *)
Definition sleep_clock (host : time_host) (m : gmap Z Z) (arguments : list Z)
    (time64 clock_call : bool) : option (Z * gmap Z Z) :=
  let arg i := nth i arguments 0 in
  let load := if time64 then load_time64 m else load_time32 m in
  if clock_call then
    match map_clock (s32 (arg 0%nat)) with
    | None => Some (host_negative EINVAL, m)
    | Some clock =>
      let flags := arg 1%nat in
      if negb (flags .&~ LINUX_TIMER_ABSTIME =? 0) then Some (host_negative EINVAL, m)
      else match load (arg 2%nat) with
      | None => None
      | Some (inl error) => Some (error, m)
      | Some (inr wanted) =>
        Some (sleep_result m time64 (arg 3%nat) flags
                (h_clock_nanosleep host clock (has flags LINUX_TIMER_ABSTIME) wanted))
      end
    end
  else match load (arg 0%nat) with
  | None => None
  | Some (inl error) => Some (error, m)
  | Some (inr wanted) => Some (sleep_result m time64 (arg 1%nat) 0 (h_nanosleep host wanted))
  end.

Definition linux_time_syscall (host : time_host) (m : gmap Z Z) (number : Z) (arguments : list Z)
  : option (Z * gmap Z Z) :=
  let arg i := nth i arguments 0 in
  if number =? LINUX_NR_TIME then
    Some (match h_time host with
    | inl e => (linux_error e, m)
    | inr now =>
      if INT_MAX <? now then (host_negative EOVERFLOW, m)
      else (s32 now, if negb (arg 0%nat =? 0) then mem_store m (arg 0%nat) (le_bytes 4 now) else m)
    end)
  else if number =? LINUX_NR_GETTIMEOFDAY then
    Some (if (arg 0%nat =? 0) && (arg 1%nat =? 0) then (0, m)
    else match h_gettimeofday host with
    | inl e => (linux_error e, m)
    | inr (sec, usec) =>
      if INT_MAX <? sec then (host_negative EOVERFLOW, m)
      else
        let m := if negb (arg 0%nat =? 0)
                 then mem_store m (arg 0%nat) (le_bytes 4 sec ++ le_bytes 4 usec) else m in
        (0, if negb (arg 1%nat =? 0) then mem_store m (arg 1%nat) (replicate 8 0) else m)
    end)
  else if number =? LINUX_NR_NANOSLEEP then sleep_clock host m arguments false false
  else if number =? LINUX_NR_CLOCK_GETTIME then Some (get_clock host m (arg 0%nat) (arg 1%nat) false false)
  else if number =? LINUX_NR_CLOCK_GETRES then Some (get_clock host m (arg 0%nat) (arg 1%nat) false true)
  else if number =? LINUX_NR_CLOCK_NANOSLEEP then sleep_clock host m arguments false true
  else if number =? LINUX_NR_CLOCK_GETTIME64 then Some (get_clock host m (arg 0%nat) (arg 1%nat) true false)
  else if number =? LINUX_NR_CLOCK_GETRES_TIME64 then
    Some (get_clock host m (arg 0%nat) (arg 1%nat) true true)
  else if number =? LINUX_NR_CLOCK_NANOSLEEP_TIME64 then sleep_clock host m arguments true true
  else Some (host_negative ENOSYS, m).

(** ** Properties *)

Definition load_time (time64 : bool) (m : gmap Z Z) (address : Z) : option (Z + timespec) :=
  if time64 then load_time64 m address else load_time32 m address.

Definition storable (v : timespec) : Prop :=
  0 <= tv_sec v <= INT_MAX /\ 0 <= tv_nsec v < 1000000000.

Lemma s64_small z : 0 <= z < 2 ^ 63 -> s64 z = z.
Proof. intros Hz. unfold s64. by rewrite (proj2 (Z.ltb_lt _ _)) by lia. Qed.

(** The second of two adjacent values. *)
Lemma mem_load_second m a bs1 bs2 :
  mem_load (mem_store m a (bs1 ++ bs2)) (a + Z.of_nat (length bs1)) (length bs2) = Some bs2.
Proof.
  apply mem_load_Some. split; [done|]. intros i b Hi.
  rewrite <- Z.add_assoc, <- Nat2Z.inj_add. apply mem_store_lookup_in.
  rewrite lookup_app_r by lia. by replace (length bs1 + i - length bs1)%nat with i by lia.
Qed.

Lemma mem_load_first m a bs1 bs2 :
  mem_load (mem_store m a (bs1 ++ bs2)) a (length bs1) = Some bs1.
Proof.
  apply mem_load_Some. split; [done|]. intros i b Hi. apply mem_store_lookup_in.
  by apply lookup_app_l_Some.
Qed.

Lemma store_load_time time64 m a v :
  a <> 0 -> storable v -> load_time time64 (store_time time64 m a v) a = Some (inr v).
Proof.
  intros Ha [Hs Hn]. unfold INT_MAX in Hs. unfold load_time, store_time. destruct time64.
  - unfold load_time64, store_time64, load64. rewrite (proj2 (Z.eqb_neq _ _) Ha).
    pose proof (mem_load_first m a (le_bytes 8 (tv_sec v)) (le_bytes 8 (tv_nsec v))) as H1.
    pose proof (mem_load_second m a (le_bytes 8 (tv_sec v)) (le_bytes 8 (tv_nsec v))) as H2.
    rewrite !length_le_bytes in *. change (Z.of_nat 8) with 8 in H2. rewrite H1, H2.
    rewrite !le_value_bytes_small by (change (2 ^ (8 * Z.of_nat 8)) with (2 ^ 64); lia).
    rewrite !s64_small by lia. unfold INT_MAX.
    rewrite !(proj2 (Z.ltb_ge _ _)), (proj2 (Z.leb_gt _ _)) by lia. cbn [orb]. by destruct v.
  - unfold load_time32, store_time32, load32. rewrite (proj2 (Z.eqb_neq _ _) Ha).
    pose proof (mem_load_first m a (le_bytes 4 (tv_sec v)) (le_bytes 4 (tv_nsec v))) as H1.
    pose proof (mem_load_second m a (le_bytes 4 (tv_sec v)) (le_bytes 4 (tv_nsec v))) as H2.
    rewrite !length_le_bytes in *. change (Z.of_nat 4) with 4 in H2. rewrite H1, H2.
    rewrite !le_value_bytes_small by (change (2 ^ (8 * Z.of_nat 4)) with 4294967296; lia).
    rewrite !s32_small by (unfold INT_MAX; lia).
    rewrite !(proj2 (Z.ltb_ge _ _)), (proj2 (Z.leb_gt _ _)) by lia. cbn [orb]. by destruct v.
Qed.

(** An interrupted sleep tells the guest what is left.  For all three sleep
    calls, with either layout: a valid request is passed to the host unchanged;
    when the host's sleep fails the guest gets the translated error and, for a
    relative sleep with a remainder pointer, the remaining time in the layout of
    the call, such that the call repeated with it asks for exactly that; an
    absolute sleep, and a completed one, write nothing. *)
Theorem sleep_remainder_resumes (host : time_host) (m : gmap Z Z) (time64 clock_call : bool)
    (clock : host_clock) (clock_number flags request remainder : Z) (wanted : timespec) :
  map_clock (s32 clock_number) = Some clock -> flags = 0 \/ flags = 1 ->
  (clock_call = false -> flags = 0) -> load_time time64 m request = Some (inr wanted) ->
  let arguments := if clock_call then [clock_number; flags; request; remainder]
                   else [request; remainder] in
  let slept := if clock_call then h_clock_nanosleep host clock (flags =? 1) wanted
               else h_nanosleep host wanted in
  exists v m', sleep_clock host m arguments time64 clock_call = Some (v, m') /\
    match slept with
    | None => v = 0 /\ m' = m
    | Some (e, rem) => v = linux_error e /\
        if (flags =? 0) && negb (remainder =? 0)
        then storable rem -> load_time time64 m' remainder = Some (inr rem)
        else m' = m
    end.
Proof.
  intros Hclock Hflags Hcc Hload.
  assert (Hres : forall (fl : Z) slept, fl = 0 \/ fl = 1 ->
    match slept with
    | None => (sleep_result m time64 remainder fl slept) = (0, m)
    | Some (e, rem) => (sleep_result m time64 remainder fl slept).1 = linux_error e /\
        if (fl =? 0) && negb (remainder =? 0)
        then storable rem -> load_time time64 (sleep_result m time64 remainder fl slept).2 remainder =
                              Some (inr rem)
        else (sleep_result m time64 remainder fl slept).2 = m
    end).
  { intros fl [[e rem]|] Hfl; [|done]. split; [done|].
    destruct Hfl as [-> | ->]; cbn -[store_time load_time];
      destruct (remainder =? 0) eqn:Er; bprop; cbn -[store_time load_time]; try done.
    intros Hst. by apply store_load_time. }
  unfold sleep_clock. destruct clock_call.
  - cbn [nth]. rewrite Hclock.
    replace (negb (flags .&~ LINUX_TIMER_ABSTIME =? 0)) with false by (by destruct Hflags as [-> | ->]).
    replace ((if time64 then load_time64 m else load_time32 m) request) with (load_time time64 m request)
      by (by destruct time64).
    rewrite Hload. replace (has flags LINUX_TIMER_ABSTIME) with (flags =? 1)
      by (by destruct Hflags as [-> | ->]).
    specialize (Hres flags (h_clock_nanosleep host clock (flags =? 1) wanted) Hflags).
    do 2 eexists. split; [rewrite <- surjective_pairing; done|].
    destruct (h_clock_nanosleep _ _ _ _) as [[e rem]|]; [exact Hres|by rewrite Hres].
  - rewrite (Hcc eq_refl) in *. cbn [nth].
    replace ((if time64 then load_time64 m else load_time32 m) request) with (load_time time64 m request)
      by (by destruct time64).
    rewrite Hload. specialize (Hres 0 (h_nanosleep host wanted) (or_introl eq_refl)).
    do 2 eexists. split; [rewrite <- surjective_pairing; done|].
    destruct (h_nanosleep _ _) as [[e rem]|]; [exact Hres|by rewrite Hres].
Qed.
End time.

(** An unknown number is answered with the host's own [ENOSYS], which the guest
    reads as another error wherever the host's number is not 38. *)
Lemma time_enosys_raw `{!HostErrno} (host : time_host) (m : gmap Z Z) :
  linux_time_syscall host m 1 [] = Some (- errno_code ENOSYS, m).
Proof. reflexivity. Qed.

(** ** Witness *)

Module TimeExamples.
Import ExampleErrno.
#[local] Existing Instance host_errno.

Definition m0 : gmap Z Z := store_time32 ∅ 0x1000 (Timespec 5 7).
(** Every sleep is interrupted with one second left. *)
Definition host0 : time_host :=
  TimeHost (inr 0) (inr (0, 0)) (fun _ => inr (Timespec 0 0)) (fun _ => inr (Timespec 0 1))
    (fun _ => Some (EINTR, Timespec 1 0)) (fun _ _ _ => Some (EINTR, Timespec 1 0)).

Lemma sleep_remainder_resumes_witness :
  exists m', sleep_clock host0 m0 [1; 0; 0x1000; 0x2000] false true = Some (-4, m') /\
    load_time false m' 0x2000 = Some (inr (Timespec 1 0)).
Proof.
  destruct (sleep_remainder_resumes host0 m0 false true Monotonic 1 0 0x1000 0x2000 (Timespec 5 7))
    as (v & m' & E & Hv & Hm).
  - reflexivity.
  - left. reflexivity.
  - discriminate.
  - vm_compute. reflexivity.
  - exists m'. split; [rewrite E, Hv; reflexivity|].
    apply Hm. vm_compute. intuition discriminate.
Defined.

End TimeExamples.
