(* ===== verification/Poll.v ===== *)
(** * Waiting for descriptors: [src/src/linux_poll.c]

    [poll], [ppoll], [select] and [pselect6] with 32-bit and 64-bit times: the
    translation of events, sets and times, and the replacement of the signal mask
    for the time of the wait.  The host's [poll] and [select] are parameters; so
    are the signals that arrive while they block. *)

From stdpp Require Import sets.
From S2P Require Import Prelude Errno Bytes Abi Futex GuestThread GuestSignal Time.
Open Scope Z_scope.

Definition LINUX_NR_SELECT : Z := 82.
Definition LINUX_NR_NEWSELECT : Z := 142.
Definition LINUX_NR_POLL : Z := 168.
Definition LINUX_NR_PSELECT6 : Z := 335.
Definition LINUX_NR_PPOLL : Z := 336.
Definition LINUX_NR_PSELECT6_TIME64 : Z := 413.
Definition LINUX_NR_PPOLL_TIME64 : Z := 414.

(** The host's [poll.h] and the size of its [fd_set]. *)
Class HostPoll := {
  POLLRDNORM : Z; POLLRDBAND : Z; POLLPRI : Z; POLLOUT : Z; POLLWRBAND : Z;
  POLLERR : Z; POLLHUP : Z; POLLNVAL : Z; POLLIN : Z; FD_SETSIZE : Z }.

(** What the calls of one system call answer.  [ph_during] is what the signal
    handler does to the thread while the call blocks; the first argument of
    [ph_poll] and [ph_select] is what has been written to the thread's pipe. *)
Record poll_host := PollHost {
  ph_wait : wait_host;
  ph_sigprocmask : option errno;
  ph_during : thread -> thread;
  ph_calloc : bool;
  ph_poll : list notification -> list (Z * Z) -> Z -> errno + (Z * list Z);
  ph_select : list notification -> Z -> option (gset Z) -> option (gset Z) -> option (gset Z) -> option (Z * Z) ->
    errno + (Z * gset Z * gset Z * gset Z * (Z * Z)) }.

(** The calling thread: its state, its host mask, and the memory. *)
Record wait_state := WaitState {
  ws_thread : option thread;
  ws_mask : gset Z;
  ws_bytes : gmap Z Z }.
Definition ws_with_thread (t : option thread) (st : wait_state) : wait_state :=
  WaitState t (ws_mask st) (ws_bytes st).
Definition ws_with_bytes (m : gmap Z Z) (st : wait_state) : wait_state :=
  WaitState (ws_thread st) (ws_mask st) m.

(** ** Sets of descriptors *)

(** The loops over the descriptors from [fd] on; [None] is a fault. *)
Fixpoint to_host_loop (n : nat) (fd : Z) (m : gmap Z Z) (guest : Z) (host : gset Z)
  : option (gset Z) :=
  match n with
  | O => Some host
  | S n =>
    match load32 m (guest + 4 * (fd / 32)) with
    | None => None
    | Some word =>
      to_host_loop n (fd + 1) m guest
        (if has word (Z.shiftl 1 (fd mod 32)) then {[fd]} ∪ host else host)
    end
  end.
Definition fdset_to_host (m : gmap Z Z) (guest count : Z) : option (gset Z) :=
  if guest =? 0 then Some ∅ else to_host_loop (Z.to_nat count) 0 m guest ∅.

Fixpoint to_guest_loop (n : nat) (fd : Z) (host : gset Z) (m : gmap Z Z) (guest : Z)
  : option (gmap Z Z) :=
  match n with
  | O => Some m
  | S n =>
    if decide (fd ∈ host) then
      match load32 m (guest + 4 * (fd / 32)) with
      | None => None
      | Some word =>
        to_guest_loop n (fd + 1) host
          (store32 m (guest + 4 * (fd / 32)) (word .| Z.shiftl 1 (fd mod 32))) guest
      end
    else to_guest_loop n (fd + 1) host m guest
  end.
Definition fdset_to_guest (m : gmap Z Z) (guest count : Z) (host : gset Z) : option (gmap Z Z) :=
  if guest =? 0 then Some m
  else to_guest_loop (Z.to_nat count) 0 host
         (mem_store m guest (replicate (Z.to_nat (4 * ((count + 31) / 32))) 0)) guest.

(** ** Events and times *)

Section events.
Context `{!HostErrno, !HostPoll}.

(** [if (value & tested) result |= bits;] *)
Definition add_if (value tested bits result : Z) : Z :=
  if has value tested then result .| bits else result.

Definition poll_events_to_host (value : Z) : Z :=
  let result := 0 in
  let result := add_if value (0x001 .| 0x040) POLLRDNORM result in
  let result := add_if value 0x080 POLLRDBAND result in
  let result := add_if value 0x002 POLLPRI result in
  let result := add_if value (0x004 .| 0x100) POLLOUT result in
  add_if value 0x200 POLLWRBAND result.

Definition poll_events_to_linux (value : Z) : Z :=
  let result := 0 in
  let result := add_if value POLLRDNORM (0x001 .| 0x040) result in
  let result := add_if value POLLRDBAND (0x001 .| 0x080) result in
  let result := add_if value POLLPRI 0x002 result in
  let result := add_if value POLLOUT (0x004 .| 0x100) result in
  let result := add_if value POLLWRBAND 0x200 result in
  let result := add_if value POLLERR 0x008 result in
  let result := add_if value POLLHUP 0x010 result in
  add_if value POLLNVAL 0x020 result.

(** The two fields of a time in memory; [None] is a fault. *)
Definition load_fields (m : gmap Z Z) (address : Z) (time64 : bool) : option (Z * Z) :=
  if time64 then
    match load64 m address, load64 m (address + 8) with
    | Some f0, Some f1 => Some (s64 f0, s64 f1)
    | _, _ => None
    end
  else match load32 m address, load32 m (address + 4) with
  | Some f0, Some f1 => Some (s32 f0, s32 f1)
  | _, _ => None
  end.

(** The milliseconds of a time that [timespec_timeout] accepts. *)
Definition timeout_milliseconds (seconds nanoseconds : Z) : Z :=
  if (INT_MAX - 1) / 1000 <? seconds then INT_MAX
  else s32 (seconds * 1000 + (nanoseconds + 999999) / 1000000).

Definition timespec_timeout (m : gmap Z Z) (address : Z) (time64 : bool) : option (Z + Z) :=
  if address =? 0 then Some (inr (-1))
  else match load_fields m address time64 with
  | None => None
  | Some (seconds, nanoseconds) =>
    if (seconds <? 0) || (nanoseconds <? 0) || (1000000000 <=? nanoseconds)
    then Some (inl (host_negative EINVAL))
    else Some (inr (timeout_milliseconds seconds nanoseconds))
  end.

(** ** [do_poll] *)

Definition s16 (z : Z) : Z := if z <? 32768 then z else z - 65536.
Definition load16 (m : gmap Z Z) (a : Z) : option Z :=
  match mem_load m a 2 with Some bs => Some (s16 (le_value bs)) | None => None end.

(** The guest's array of [struct linux_pollfd]: the descriptors and the events for
    the host. *)
Fixpoint load_pollfds (m : gmap Z Z) (guest : Z) (n : nat) : option (list (Z * Z)) :=
  match n with
  | O => Some []
  | S n =>
    match load32 m guest, load16 m (guest + 4), load_pollfds m (guest + 8) n with
    | Some fd, Some events, Some rest => Some ((s32 fd, poll_events_to_host events) :: rest)
    | _, _, _ => None
    end
  end.
Fixpoint store_revents (m : gmap Z Z) (guest : Z) (revents : list Z) : gmap Z Z :=
  match revents with
  | [] => m
  | r :: rest =>
    store_revents (mem_store m (guest + 6) (le_bytes 2 (poll_events_to_linux r))) (guest + 8) rest
  end.

Definition during (host : poll_host) (st : wait_state) : wait_state :=
  ws_with_thread (ph_during host <$> ws_thread st) st.

(** [do_poll]: the result and [*signal_interrupted]; [None] is a fault. *)
Definition do_poll (host : poll_host) (st : wait_state) (armed : list notification)
    (guest count timeout signal_wait_fd : Z)
  : option (Z * bool * wait_state) :=
  if 65536 <? count then Some (host_negative EINVAL, false, st)
  else if negb (ph_calloc host) && negb ((count =? 0) && (signal_wait_fd <? 0))
  then Some (host_negative ENOMEM, false, st)
  else match load_pollfds (ws_bytes st) guest (Z.to_nat count) with
  | None => None
  | Some fds =>
    let fds' := if 0 <=? signal_wait_fd then fds ++ [(signal_wait_fd, POLLIN)] else fds in
    let st := during host st in
    match ph_poll host armed fds' timeout with
    | inl e => Some (linux_error e, bool_decide (e = EINTR), st)
    | inr (result, revents) =>
      if (0 <? result) && (0 <=? signal_wait_fd) && negb (nth (Z.to_nat count) revents 0 =? 0)
      then Some (linux_error EINTR, true, st)
      else Some (result, false,
                 ws_with_bytes (store_revents (ws_bytes st) guest (take (Z.to_nat count) revents)) st)
    end
  end.
End events.

(** ** Waiting with another signal mask *)

Section wait.
Context `{!HostErrno, !HostPoll, !HostSignals}.

Inductive entering :=
| EnterFault
| EnterReturn (value : Z) (st : wait_state)
| Entered (signal_wait_fd : Z) (old_words : sigwords) (old : gset Z) (armed : list notification)
    (st : wait_state).

(** [guest_signal_host_mask] and the copy of the words. *)
Definition requested_mask (m : gmap Z Z) (guest_set signal_set_size : Z) : option (Z + sigwords) :=
  if (guest_set =? 0) || negb (signal_set_size =? 8) then Some (inl (host_negative EINVAL))
  else match load32 m guest_set, load32 m (guest_set + 4) with
  | Some w0, Some w1 => Some (inr (Words w0 w1))
  | _, _ => None
  end.

(** The blocks of [do_select] and [linux_poll_syscall] that replace the mask;
    [limit] is [FD_SETSIZE] in the first. *)
Definition replace_mask (host : poll_host) (st : wait_state) (guest_set signal_set_size : Z)
    (limit : option Z) : entering :=
  match requested_mask (ws_bytes st) guest_set signal_set_size with
  | None => EnterFault
  | Some (inl result) => EnterReturn result st
  | Some (inr words) =>
    let requested_words := blockable words in
    let old_words := guest_thread_signal_mask_get (ws_thread st) in
    match guest_thread_signal_wait_begin (ph_wait host) (ws_thread st) with
    | (inl e, t, _) => EnterReturn (linux_error e) (ws_with_thread t st)
    | (inr signal_wait_fd, t, _) =>
      let ended := ws_with_thread (guest_thread_signal_wait_end t).1 st in
      if match limit with Some size => size <=? signal_wait_fd | None => false end
      then EnterReturn (host_negative EMFILE) ended
      else match ph_sigprocmask host with
      | Some e => EnterReturn (linux_error e) ended
      | None =>
        let t := guest_thread_signal_mask_set t requested_words in
        Entered signal_wait_fd old_words (ws_mask st) (guest_thread_signal_wait_arm t)
          (WaitState t (linux_set_to_host words) (ws_bytes st))
      end
    end
  end.

(** The blocks after the wait. *)
Definition restore_mask (interrupted : bool) (old_words : sigwords) (old : gset Z) (st : wait_state)
  : wait_state :=
  let t := if interrupted then guest_thread_signal_wait_interrupted (ws_thread st) old_words
           else guest_thread_signal_wait_complete (ws_thread st) old_words in
  WaitState (guest_thread_signal_wait_end t).1 old (ws_bytes st).

(** ** [do_select] *)

(** The timeout: the outer [option] is a fault, the inner one a null pointer. *)
Definition select_timeout (m : gmap Z Z) (address : Z) (pselect_call time64 : bool)
  : option (Z + option (Z * Z)) :=
  if address =? 0 then Some (inr None)
  else match load_fields m address time64 with
  | None => None
  | Some (seconds, fraction) =>
    if (seconds <? 0) || (fraction <? 0) ||
       ((if pselect_call then 1000000000 else 1000000) <=? fraction) || (INT_MAX <? seconds)
    then Some (inl (host_negative EINVAL))
    else Some (inr (Some (seconds, if pselect_call then fraction / 1000 else fraction)))
  end.

(** The call of [select] and the test of the pipe after it: an error, or the
    result, the three sets and the time that remains. *)
Definition select_outcome (host : poll_host) (armed : list notification) (arguments : list Z)
    (signal_wait_fd : Z) (read_set write_set except_set : gset Z) (timeout : option (Z * Z))
  : errno + (Z * gset Z * gset Z * gset Z * (Z * Z)) :=
  let arg i := nth i arguments 0 in
  let count := s32 (arg 0%nat) in
  let read_set := if 0 <=? signal_wait_fd then {[signal_wait_fd]} ∪ read_set else read_set in
  let host_count := if count <=? signal_wait_fd then signal_wait_fd + 1 else count in
  let given (address : Z) (s : gset Z) := if negb (address =? 0) then Some s else None in
  match ph_select host armed host_count
          (if negb (arg 1%nat =? 0) || (0 <=? signal_wait_fd) then Some read_set else None)
          (given (arg 2%nat) write_set) (given (arg 3%nat) except_set) timeout with
  | inl e => inl e
  | inr (result, r, w, x, remaining) =>
    if (0 <? result) && (0 <=? signal_wait_fd) && bool_decide (signal_wait_fd ∈ r)
    then inl EINTR else inr (result, r, w, x, remaining)
  end.

(** The end of a call that succeeded. *)
Definition select_store (st : wait_state) (arguments : list Z) (pselect_call : bool)
    (answer : Z * gset Z * gset Z * gset Z * (Z * Z)) : option (Z * wait_state) :=
  let arg i := nth i arguments 0 in
  let count := s32 (arg 0%nat) in
  let '(result, r, w, x, remaining) := answer in
  match fdset_to_guest (ws_bytes st) (arg 1%nat) count r with
  | None => None
  | Some m =>
    match fdset_to_guest m (arg 2%nat) count w with
    | None => None
    | Some m =>
      match fdset_to_guest m (arg 3%nat) count x with
      | None => None
      | Some m =>
        let m := if negb pselect_call && negb (arg 4%nat =? 0)
                 then mem_store m (arg 4%nat) (le_bytes 4 remaining.1 ++ le_bytes 4 remaining.2)
                 else m in
        Some (result, ws_with_bytes m st)
      end
    end
  end.

(** The part from [select] on. *)
Definition select_wait (host : poll_host) (st : wait_state) (arguments : list Z) (pselect_call : bool)
    (read_set write_set except_set : gset Z) (timeout : option (Z * Z))
    (waiting : option (Z * sigwords * gset Z * list notification)) : option (Z * wait_state) :=
  let signal_wait_fd := match waiting with Some (fd, _, _, _) => fd | None => -1 end in
  let armed := match waiting with Some (_, _, _, armed) => armed | None => [] end in
  let outcome := select_outcome host armed arguments signal_wait_fd read_set write_set except_set timeout in
  let interrupted := match outcome with inl e => bool_decide (e = EINTR) | inr _ => false end in
  let st := during host st in
  let st := match waiting with
            | Some (_, old_words, old, _) => restore_mask interrupted old_words old st
            | None => st
            end in
  match outcome with
  | inl e => Some (linux_error e, st)
  | inr answer => select_store st arguments pselect_call answer
  end.

Definition do_select (host : poll_host) (st : wait_state) (arguments : list Z)
    (pselect_call time64 : bool) : option (Z * wait_state) :=
  let arg i := nth i arguments 0 in
  let count := s32 (arg 0%nat) in
  let m := ws_bytes st in
  if (count <? 0) || (FD_SETSIZE <? count) then Some (host_negative EINVAL, st)
  else match fdset_to_host m (arg 1%nat) count, fdset_to_host m (arg 2%nat) count,
             fdset_to_host m (arg 3%nat) count with
  | Some read_set, Some write_set, Some except_set =>
    match select_timeout m (arg 4%nat) pselect_call time64 with
    | None => None
    | Some (inl result) => Some (result, st)
    | Some (inr timeout) =>
      if pselect_call && negb (arg 5%nat =? 0) then
        match load32 m (arg 5%nat), load32 m (arg 5%nat + 4) with
        | Some guest_set, Some size =>
          match replace_mask host st guest_set size (Some FD_SETSIZE) with
          | EnterFault => None
          | EnterReturn result st => Some (result, st)
          | Entered fd old_words old armed st =>
            select_wait host st arguments pselect_call read_set write_set except_set timeout
              (Some (fd, old_words, old, armed))
          end
        | _, _ => None
        end
      else select_wait host st arguments pselect_call read_set write_set except_set timeout None
    end
  | _, _, _ => None
  end.

(** ** [linux_poll_syscall] *)

Definition ppoll (host : poll_host) (st : wait_state) (arguments : list Z) (time64 : bool)
  : option (Z * wait_state) :=
  let arg i := nth i arguments 0 in
  match timespec_timeout (ws_bytes st) (arg 2%nat) time64 with
  | None => None
  | Some (inl result) => Some (result, st)
  | Some (inr timeout) =>
    if arg 3%nat =? 0 then
      match do_poll host st [] (arg 0%nat) (arg 1%nat) timeout (-1) with
      | None => None
      | Some (result, _, st) => Some (result, st)
      end
    else match replace_mask host st (arg 3%nat) (arg 4%nat) None with
    | EnterFault => None
    | EnterReturn result st => Some (result, st)
    | Entered fd old_words old armed st =>
      match do_poll host st armed (arg 0%nat) (arg 1%nat) timeout fd with
      | None => None
      | Some (result, interrupted, st) => Some (result, restore_mask interrupted old_words old st)
      end
    end
  end.

Definition linux_poll_syscall (host : poll_host) (st : wait_state) (number : Z) (arguments : list Z)
  : option (Z * wait_state) :=
  let arg i := nth i arguments 0 in
  if number =? LINUX_NR_POLL then
    match do_poll host st [] (arg 0%nat) (arg 1%nat) (s32 (arg 2%nat)) (-1) with
    | None => None
    | Some (result, _, st) => Some (result, st)
    end
  else if (number =? LINUX_NR_PPOLL) || (number =? LINUX_NR_PPOLL_TIME64)
  then ppoll host st arguments (number =? LINUX_NR_PPOLL_TIME64)
  else if number =? LINUX_NR_SELECT then
    if arg 0%nat =? 0 then Some (host_negative EFAULT, st)
    else match load_words (ws_bytes st) (arg 0%nat) 5 with
    | None => None
    | Some old_arguments => do_select host st (old_arguments ++ [0]) false false
    end
  else do_select host st arguments
         ((number =? LINUX_NR_PSELECT6) || (number =? LINUX_NR_PSELECT6_TIME64))
         (number =? LINUX_NR_PSELECT6_TIME64).
End wait.

(** ** Times *)

(** A time below 2147483 seconds waits for the least number of milliseconds that
    is not shorter: never early, and less than a millisecond late. *)
Lemma timeout_milliseconds_exact seconds nanoseconds :
  0 <= seconds < 2147483 -> 0 <= nanoseconds < 1000000000 ->
  let total := seconds * 1000000000 + nanoseconds in
  let ms := timeout_milliseconds seconds nanoseconds in
  0 <= ms <= INT_MAX /\ total <= ms * 1000000 < total + 1000000.
Proof.
  intros Hs Hn. unfold timeout_milliseconds, INT_MAX.
  change ((2147483647 - 1) / 1000) with 2147483. cond; bprop; [lia|].
  rewrite s32_small by (unfold INT_MAX; mlia). mlia.
Qed.

(** From the 2147484th second on the wait is the longest one of the host. *)
Lemma timeout_milliseconds_long seconds nanoseconds :
  2147484 <= seconds -> timeout_milliseconds seconds nanoseconds = INT_MAX.
Proof.
  intros Hs. unfold timeout_milliseconds, INT_MAX.
  change ((2147483647 - 1) / 1000) with 2147483. cond; bprop; [done|lia].
Qed.

(** A valid guest timeout of a poll is never early and less than a millisecond
    late, or as long as the host can wait; the one second in which this fails is
    the last one below that limit, in which the sum of milliseconds can exceed
    [int]. *)
Theorem timespec_timeout_exact `{!HostErrno} (m : gmap Z Z) (address seconds nanoseconds : Z)
    (time64 : bool) :
  address <> 0 -> load_fields m address time64 = Some (seconds, nanoseconds) -> seconds <> 2147483 ->
  exists r, timespec_timeout m address time64 = Some r /\
  if decide (0 <= seconds /\ 0 <= nanoseconds < 1000000000) then
    exists ms, r = inr ms /\ 0 <= ms <= INT_MAX /\
      let total := seconds * 1000000000 + nanoseconds in
      (total <= ms * 1000000 < total + 1000000 \/ (ms = INT_MAX /\ ms * 1000000 <= total))
  else r = inl (host_negative EINVAL).
Proof.
  intros Ha Hl Hs. unfold timespec_timeout. rewrite (proj2 (Z.eqb_neq _ _) Ha), Hl.
  case_decide as Hv.
  - destruct (_ || _) eqn:E; [exfalso; blia|]. eexists. split; [done|]. eexists. split; [done|].
    destruct (Z.lt_ge_cases seconds 2147483) as [Hlt|Hge].
    + destruct (timeout_milliseconds_exact seconds nanoseconds) as [H1 H2]; [lia..|]. tauto.
    + rewrite timeout_milliseconds_long by lia. split; [by vm_compute|]. right. unfold INT_MAX. lia.
  - destruct (_ || _) eqn:E; [by eexists|]. exfalso. apply Hv. blia.
Qed.

(** In that second the number of milliseconds wraps to a negative one, for which
    the host waits without end. *)
Theorem timeout_wraps :
  timeout_milliseconds 2147483 647000001 = -2147483648 /\
  timeout_milliseconds 2147483 647000000 = INT_MAX.
Proof. split; reflexivity. Qed.

(** ** Sets *)

(** The bit of a descriptor in the guest's array; [false] in unmapped memory. *)
Definition guest_bit (m : gmap Z Z) (guest fd : Z) : bool :=
  match load32 m (guest + 4 * (fd / 32)) with
  | Some word => Z.testbit word (fd mod 32)
  | None => false
  end.

Lemma to_host_loop_spec n fd m guest h :
  (forall x, fd <= x < fd + Z.of_nat n -> is_Some (load32 m (guest + 4 * (x / 32)))) ->
  exists s, to_host_loop n fd m guest h = Some s /\
    forall x, x ∈ s <-> x ∈ h \/ (fd <= x < fd + Z.of_nat n /\ guest_bit m guest x = true).
Proof.
  revert fd h. induction n as [|n IH]; intros fd h Hmap; simpl.
  { exists h. split; [done|]. intros x. intuition lia. }
  destruct (Hmap fd) as [w Hw]; [lia|]. rewrite Hw.
  destruct (IH (fd + 1) (if has w (Z.shiftl 1 (fd mod 32)) then {[fd]} ∪ h else h)) as (s & -> & Hs).
  { intros x Hx. apply Hmap. lia. }
  exists s. split; [done|]. intros x. rewrite Hs.
  assert (Hbit : guest_bit m guest fd = has w (Z.shiftl 1 (fd mod 32))).
  { unfold guest_bit. by rewrite Hw, has_bit by mlia. }
  assert (x ∈ (if has w (Z.shiftl 1 (fd mod 32)) then {[fd]} ∪ h else h) <->
          x ∈ h \/ (x = fd /\ guest_bit m guest fd = true)) as ->.
  { rewrite Hbit. destruct (has _ _); set_solver. }
  destruct (decide (x = fd)) as [->|]; [|intuition lia].
  split; [intros [[|[_ ?]]|[? _]]; [by left|right; split; [lia|done]|lia]|].
  intros [|[_ ?]]; left; [by left|by right].
Qed.

Lemma lor_bit_u32 w k : is_u32 w -> 0 <= k < 32 -> is_u32 (w .| Z.shiftl 1 k).
Proof.
  unfold is_u32, UINTPTR_MAX. intros Hw Hk. rewrite Z.shiftl_1_l. split; [apply Z.lor_nonneg; lia|].
  assert (w .| 2 ^ k < 2 ^ 32); [|lia].
  destruct (Z.eq_dec w 0) as [->|]; [rewrite Z.lor_0_l; apply Z.pow_lt_mono_r; lia|].
  assert (0 < w .| 2 ^ k).
  { assert (0 <= w .| 2 ^ k) by (apply Z.lor_nonneg; lia).
    assert (w .| 2 ^ k <> 0); [|lia]. intros H0. apply Z.lor_eq_0_iff in H0. lia. }
  apply Z.log2_lt_pow2; [done|]. rewrite Z.log2_lor by lia.
  apply Z.max_lub_lt; [apply Z.log2_lt_pow2; lia|]. rewrite Z.log2_pow2; lia.
Qed.

(** One round of the second loop. *)
Lemma store_bit_spec m guest fd w x :
  mem_wf m -> 0 <= fd -> 0 <= x -> load32 m (guest + 4 * (fd / 32)) = Some w ->
  let m' := store32 m (guest + 4 * (fd / 32)) (w .| Z.shiftl 1 (fd mod 32)) in
  guest_bit m' guest x = guest_bit m guest x || (x =? fd).
Proof.
  intros Hwf Hfd Hx Hw m'. pose proof (load32_u32 _ _ _ Hwf Hw) as Hu. unfold guest_bit, m'.
  destruct (decide (x / 32 = fd / 32)) as [Heq|Hne].
  - rewrite Heq, load32_store32_eq, Hw by (apply lor_bit_u32; [done|mlia]).
    rewrite Z.lor_spec, Z.shiftl_1_l, Z.pow2_bits_eqb by mlia. f_equal.
    destruct (fd mod 32 =? x mod 32) eqn:E1, (x =? fd) eqn:E2; bprop; try done; mlia.
  - rewrite load32_store32_ne by lia. rewrite (proj2 (Z.eqb_neq x fd)) by (by intros ->).
    by rewrite orb_false_r.
Qed.

Lemma range_step (b : bool) fd x n :
  b = false \/ x <> fd ->
  b && (fd + 1 <=? x) && (x <? fd + 1 + Z.of_nat n) = b && (fd <=? x) && (x <? fd + Z.of_nat (S n)).
Proof.
  intros [->|Hne]; [done|]. destruct b; cbn [andb]; [|done].
  destruct (fd + 1 <=? x) eqn:E1, (fd <=? x) eqn:E2, (x <? fd + 1 + _) eqn:E3,
    (x <? fd + _) eqn:E4; bprop; try done; lia.
Qed.

Lemma to_guest_loop_spec n fd host m guest words :
  mem_wf m -> 0 <= fd -> (fd + Z.of_nat n + 31) / 32 <= words ->
  (forall k, 0 <= k < words -> is_Some (load32 m (guest + 4 * k))) ->
  exists m', to_guest_loop n fd host m guest = Some m' /\ mem_wf m' /\
    same_outside guest (4 * words) m m' /\
    (forall k, 0 <= k < words -> is_Some (load32 m' (guest + 4 * k))) /\
    forall x, 0 <= x -> guest_bit m' guest x =
      guest_bit m guest x || (bool_decide (x ∈ host) && (fd <=? x) && (x <? fd + Z.of_nat n)).
Proof.
  revert fd m. induction n as [|n IH]; intros fd m Hwf Hfd Hn Hmap; simpl.
  { exists m. split_and!; try done. intros x Hx.
    replace (bool_decide (x ∈ host) && (fd <=? x) && (x <? fd + 0)) with false; [by rewrite orb_false_r|].
    destruct (bool_decide _); simpl; [|done]. destruct (_ <=? _) eqn:E1, (_ <? _) eqn:E2; bprop; try done; lia. }
  case_decide as Hin.
  - assert (Hk : 0 <= fd / 32 < words) by mlia.
    destruct (Hmap (fd / 32) Hk) as [w Hw]. rewrite Hw.
    set (m1 := store32 m (guest + 4 * (fd / 32)) (w .| Z.shiftl 1 (fd mod 32))).
    destruct (IH (fd + 1) m1) as (m' & -> & Hwf' & Hout & Hmap' & Hbits).
    + by apply store32_wf.
    + lia.
    + mlia.
    + intros k Hk'. by apply load32_store32_is_Some, Hmap.
    + exists m'. split_and!; try done.
      * intros y Hy. rewrite Hout by done. unfold m1. apply store32_lookup_out.
        unfold inside in Hy. blia.
      * intros x Hx. rewrite Hbits by done. unfold m1. rewrite (store_bit_spec m guest fd w x) by done.
        rewrite <- orb_assoc. f_equal.
        destruct (x =? fd) eqn:Ex; bprop; [|by apply range_step; right].
        subst x. cbn [orb]. rewrite bool_decide_true by done. rewrite (proj2 (Z.leb_le _ _)) by lia.
        by rewrite (proj2 (Z.ltb_lt _ _)) by lia.
  - destruct (IH (fd + 1) m) as (m' & -> & Hwf' & Hout & Hmap' & Hbits); [done|lia|mlia|done|].
    exists m'. split_and!; try done. intros x Hx. rewrite Hbits by done. f_equal.
    apply range_step. destruct (decide (x = fd)) as [->|]; [left; by apply bool_decide_false|by right].
Qed.

Lemma guest_bit_zeroed m guest n x :
  0 <= x -> (x / 32 < n) -> guest_bit (mem_store m guest (replicate (Z.to_nat (4 * n)) 0)) guest x = false.
Proof.
  intros Hx Hn. unfold guest_bit. set (a := guest + 4 * (x / 32)).
  assert (load32 (mem_store m guest (replicate (Z.to_nat (4 * n)) 0)) a = Some 0) as ->; [|apply Z.bits_0].
  unfold load32. replace (mem_load _ a 4) with (Some [0; 0; 0; 0]); [done|]. symmetry.
  apply mem_load_Some. split; [done|]. intros i b Hi.
  assert (b = 0) as -> by (do 4 (destruct i as [|i]; [by injection Hi as <-|]); done).
  apply lookup_lt_Some in Hi. simpl in Hi.
  replace (a + Z.of_nat i) with (guest + Z.of_nat (Z.to_nat (4 * (x / 32)) + i)) by (unfold a; mlia).
  apply mem_store_lookup_in, lookup_replicate_2. mlia.
Qed.

(** C34: What [select] leaves in a guest set: the whole words that hold [count] bits
    are written, exactly the bits of the host's descriptors below [count] are set,
    no other memory changes; and reading the set back gives those descriptors. *)
Theorem fdset_roundtrip (m : gmap Z Z) (guest count : Z) (host : gset Z) :
  mem_wf m -> guest <> 0 -> 0 <= count ->
  exists m', fdset_to_guest m guest count host = Some m' /\
    same_outside guest (4 * ((count + 31) / 32)) m m' /\
    (forall fd, 0 <= fd < 32 * ((count + 31) / 32) ->
       guest_bit m' guest fd = bool_decide (fd ∈ host) && (fd <? count)) /\
    exists s, fdset_to_host m' guest count = Some s /\
      forall fd, fd ∈ s <-> fd ∈ host /\ 0 <= fd < count.
Proof.
  intros Hwf Hg Hc. unfold fdset_to_guest, fdset_to_host. rewrite (proj2 (Z.eqb_neq _ _) Hg).
  set (words := (count + 31) / 32). set (m0 := mem_store m guest _).
  assert (Hlen : Z.of_nat (Z.to_nat count) = count) by lia.
  assert (Hw0 : 0 <= words) by (unfold words; mlia).
  destruct (to_guest_loop_spec (Z.to_nat count) 0 host m0 guest words) as (m' & -> & Hwf' & Hout & Hmap & Hbits).
  - apply mem_store_wf; [done|]. apply Forall_replicate. unfold is_byte. lia.
  - done.
  - by rewrite Hlen.
  - intros k Hk. apply load32_mapped. intros x Hx. unfold m0. rewrite mem_store_lookup, length_replicate.
    rewrite (proj2 (inside_spec _ _ _)) by lia. eexists. apply lookup_replicate_2. lia.
  - assert (Hbit : forall fd, 0 <= fd < 32 * words ->
      guest_bit m' guest fd = bool_decide (fd ∈ host) && (fd <? count)).
    { intros fd Hfd. rewrite Hbits by lia. unfold m0. rewrite guest_bit_zeroed by mlia. simpl.
      rewrite (proj2 (Z.leb_le 0 fd)), andb_true_r, Hlen by lia. done. }
    exists m'. split_and!; [done| |done|].
    { intros x Hx. rewrite Hout by done. unfold m0. apply mem_store_lookup_out.
      rewrite length_replicate. unfold inside in Hx. blia. }
    destruct (to_host_loop_spec (Z.to_nat count) 0 m' guest ∅) as (s & -> & Hs).
    { intros x Hx. apply Hmap. unfold words. mlia. }
    exists s. split; [done|]. intros fd. rewrite Hs, Hlen.
    split; [intros [|[Hr Hb]]; [set_solver|]|intros [Hin Hr]; right; split; [lia|]];
      rewrite ?Hbit in * by (unfold words; mlia).
    + bprop. by apply bool_decide_eq_true in H.
    + rewrite bool_decide_true by done. apply Z.ltb_lt. lia.
Qed.

(** ** Masks *)

(** The signal handler queues signals and leaves the masks and the pipe alone. *)
Definition only_queues (f : thread -> thread) : Prop :=
  forall t, t_mask (f t) = t_mask t /\ t_suspend_restore (f t) = t_suspend_restore t /\
    t_wait_read_fd (f t) = t_wait_read_fd t /\ t_wait_write_fd (f t) = t_wait_write_fd t.

(** A thread at rest: no mask to restore, no pipe. *)
Record at_rest (words : sigwords) (t : thread) : Prop := {
  ar_mask : t_mask t = words;
  ar_restore : t_suspend_restore t = None;
  ar_wait : t_wait_read_fd t = -1 /\ t_wait_write_fd t = -1 }.

(** A thread whose wait was interrupted: the mask to restore is recorded. *)
Record to_restore (words : sigwords) (t : thread) : Prop := {
  tr_restore : t_suspend_restore t = Some words;
  tr_wait : t_wait_read_fd t = -1 /\ t_wait_write_fd t = -1 }.

(** The state of a thread that has the given host mask. *)
Definition in_state (Q : thread -> Prop) (mask : gset Z) (st : wait_state) : Prop :=
  ws_mask st = mask /\ exists t, ws_thread st = Some t /\ Q t.

Section masks.
Context `{!HostErrno, !HostPoll, !HostSignals}.
Context (host : poll_host).
Context (Hduring : only_queues (ph_during host)).

Lemma during_state Q mask st :
  (forall t t', t_mask t' = t_mask t -> t_suspend_restore t' = t_suspend_restore t ->
     t_wait_read_fd t' = t_wait_read_fd t -> t_wait_write_fd t' = t_wait_write_fd t -> Q t -> Q t') ->
  in_state Q mask st -> in_state Q mask (during host st).
Proof.
  intros HQ (Hm & t & Ht & Hq). split; [done|]. exists (ph_during host t). unfold during. simpl.
  rewrite Ht. split; [done|]. destruct (Hduring t) as (? & ? & ? & ?). by apply (HQ t).
Qed.

Lemma at_rest_during words mask st :
  in_state (at_rest words) mask st -> in_state (at_rest words) mask (during host st).
Proof. apply during_state. intros t t' ? ? ? ? [? ? ?]. by split; congruence. Qed.

(** [replace_mask] either returns with everything as it was, or enters the wait
    with the guest's mask and the host's remembered. *)
Lemma replace_mask_spec words mask st guest_set size limit :
  in_state (at_rest words) mask st ->
  match replace_mask host st guest_set size limit with
  | EnterFault => True
  | EnterReturn _ st' => in_state (at_rest words) mask st'
  | Entered _ old_words old _ st' => old_words = words /\ old = mask /\ is_Some (ws_thread st')
  end.
Proof.
  intros Hst. pose proof Hst as (Hm & t & Ht & Hr). pose proof Hr as [Hr1 Hr2 Hr3].
  unfold replace_mask. destruct (requested_mask _ _ _) as [[r|w]|]; [done| |done].
  rewrite Ht. unfold guest_thread_signal_wait_begin.
  destruct (wh_pipe (ph_wait host)) as [e|[r0 w0]]; [by split; [|eexists]|].
  destruct (omap _ _); [|by split; [|eexists]]. simpl.
  destruct (match limit with Some size => size <=? r0 | None => false end).
  { split; [done|]. eexists. split; [done|]. by split. }
  destruct (ph_sigprocmask host).
  { split; [done|]. eexists. split; [done|]. by split. }
  split_and!; [done|done|by eexists].
Qed.

Lemma restore_mask_spec (interrupted : bool) words mask st :
  is_Some (ws_thread st) ->
  in_state (if interrupted then to_restore words else at_rest words) mask
    (restore_mask interrupted words mask st).
Proof.
  intros [t Ht]. unfold restore_mask. rewrite Ht. split; [done|].
  destruct interrupted; (eexists; split; [done|]); by split.
Qed.

Lemma do_poll_thread st armed guest count timeout fd r interrupted st' :
  do_poll host st armed guest count timeout fd = Some (r, interrupted, st') ->
  ws_mask st' = ws_mask st /\
  (ws_thread st' = ws_thread st \/ ws_thread st' = ph_during host <$> ws_thread st) /\
  (interrupted = true -> r = linux_error EINTR).
Proof.
  unfold do_poll. do 2 (cond; [intros [= <- <- <-]; split_and!; [done|by left|done]|]).
  destruct (load_pollfds _ _ _) as [fds|]; [|done].
  destruct (ph_poll _ _ _ _) as [e|[result revents]].
  - intros [= <- <- <-]. split_and!; [done|by right|]. by intros ->%bool_decide_eq_true.
  - cond; intros [= <- <- <-]; (split_and!; [done|by right|done]).
Qed.

(** What a wait leaves: the state it started from, or an interrupted wait. *)
Definition settled (words : sigwords) (mask : gset Z) (r : Z) (st : wait_state) : Prop :=
  in_state (at_rest words) mask st \/ (in_state (to_restore words) mask st /\ r = linux_error EINTR).

Lemma do_poll_rest words mask st armed guest count timeout r interrupted st' :
  in_state (at_rest words) mask st -> do_poll host st armed guest count timeout (-1) = Some (r, interrupted, st') ->
  in_state (at_rest words) mask st'.
Proof.
  intros Hst Hp. apply do_poll_thread in Hp as (Hm & Ht & _). pose proof Hst as (Hm0 & t & Ht0 & Hr).
  pose proof (at_rest_during _ _ _ Hst) as (_ & t1 & Ht1 & Hr1).
  split; [congruence|]. destruct Ht as [Ht|Ht]; rewrite Ht; eauto.
Qed.

Lemma ppoll_settled words mask st arguments time64 r st' :
  in_state (at_rest words) mask st -> ppoll host st arguments time64 = Some (r, st') ->
  settled words mask r st'.
Proof.
  intros Hst. unfold ppoll. destruct (timespec_timeout _ _ _) as [[e|timeout]|]; [|cond|done].
  { intros [= <- <-]. by left. }
  { destruct (do_poll _ _ _ _ _ _ _) as [[[r1 i1] st1]|] eqn:Ep; [|done]. intros [= <- <-].
    left. by eapply do_poll_rest. }
  pose proof (replace_mask_spec words mask st (nth 3 arguments 0) (nth 4 arguments 0) None Hst) as Hr.
  destruct (replace_mask _ _ _ _ _) as [|r1 st1|fd ow old armed st1]; [done|intros [= <- <-]; by left|].
  destruct Hr as (-> & -> & t1 & Ht1).
  destruct (do_poll _ _ _ _ _ _ _) as [[[r2 interrupted] st2]|] eqn:Ep; [|done]. intros [= <- <-].
  apply do_poll_thread in Ep as (_ & Ht & Hi).
  assert (is_Some (ws_thread st2)) as Hs by (destruct Ht as [->| ->]; rewrite Ht1; by eexists).
  pose proof (restore_mask_spec interrupted words mask st2 Hs) as Hrest.
  destruct interrupted; [right; auto|by left].
Qed.

Lemma select_store_state Q mask st arguments pselect_call answer r st' :
  in_state Q mask st -> select_store st arguments pselect_call answer = Some (r, st') ->
  in_state Q mask st'.
Proof.
  intros Hst. unfold select_store. destruct answer as [[[[result r1] w1] x1] remaining].
  do 3 (destruct (fdset_to_guest _ _ _ _); [|done]). by intros [= <- <-].
Qed.

(** The wait of [select], given where the masks are to come back to. *)
Lemma select_wait_settled words mask st arguments pselect_call rs ws xs timeout waiting r st' :
  match waiting with
  | None => in_state (at_rest words) mask st
  | Some (_, old_words, old, _) => old_words = words /\ old = mask /\ is_Some (ws_thread st)
  end ->
  select_wait host st arguments pselect_call rs ws xs timeout waiting = Some (r, st') ->
  settled words mask r st'.
Proof.
  intros Hw. unfold select_wait. cbv zeta.
  assert (forall interrupted, in_state (if interrupted && bool_decide (is_Some waiting)
            then to_restore words else at_rest words) mask
            match waiting with
            | Some (_, old_words, old, _) => restore_mask interrupted old_words old (during host st)
            | None => during host st
            end) as Hend.
  { intros interrupted. destruct waiting as [[[[fd ow] old] armed]|].
    - destruct Hw as (-> & -> & t & Ht). rewrite andb_true_r. apply restore_mask_spec.
      unfold during. simpl. rewrite Ht. by eexists.
    - rewrite andb_false_r. by apply at_rest_during. }
  destruct (select_outcome _ _ _ _ _ _ _ _) as [e|answer].
  - intros [= <- <-]. specialize (Hend (bool_decide (e = EINTR))).
    destruct (decide (e = EINTR)) as [He|He];
      [rewrite bool_decide_true in * by done|rewrite bool_decide_false in * by done; by left].
    subst e. destruct waiting; simpl in Hend; [right; auto|by left].
  - intros Hs. left. specialize (Hend false). by eapply select_store_state.
Qed.

Lemma do_select_settled words mask st arguments pselect_call time64 r st' :
  in_state (at_rest words) mask st -> do_select host st arguments pselect_call time64 = Some (r, st') ->
  settled words mask r st'.
Proof.
  intros Hst. unfold do_select. cond; [intros [= <- <-]; by left|].
  do 3 (destruct (fdset_to_host _ _ _) as [?|]; [|done]).
  destruct (select_timeout _ _ _ _) as [[e|timeout]|]; [intros [= <- <-]; by left| |done].
  cond; [|by apply select_wait_settled].
  do 2 (destruct (load32 _ _) as [?|]; [|done]).
  match goal with |- context [replace_mask host st ?a ?b ?c] =>
    pose proof (replace_mask_spec words mask st a b c Hst) as Hr; destruct (replace_mask host st a b c) end;
    [done|intros [= <- <-]; by left|]. by apply select_wait_settled.
Qed.
End masks.

(** C20: However a wait ends (the events, the timeout, an error before or after the
    mask was replaced, a signal), the host's mask and the pipe of the thread are
    as before; the guest's mask is as before too, or the call returns the error
    of an interrupted call and the mask is recorded for the signal frame, so that
    the mask the next handler saves is the one the guest had. *)
Theorem poll_mask_restored `{!HostErrno, !HostPoll, !HostSignals} (host : poll_host)
    (st : wait_state) (t : thread) (number : Z) (arguments : list Z) (r : Z) (st' : wait_state) :
  only_queues (ph_during host) -> ws_thread st = Some t -> at_rest (t_mask t) t ->
  linux_poll_syscall host st number arguments = Some (r, st') ->
  ws_mask st' = ws_mask st /\
  exists t', ws_thread st' = Some t' /\
    t_wait_read_fd t' = -1 /\ t_wait_write_fd t' = -1 /\
    (guest_thread_signal_delivery_mask (Some t')).1 = t_mask t /\
    (t_mask t' = t_mask t \/ r = linux_error EINTR).
Proof.
  intros Hd Ht Hr Hp.
  assert (in_state (at_rest (t_mask t)) (ws_mask st) st) as Hst by (split; eauto).
  assert (settled (t_mask t) (ws_mask st) r st') as Hs.
  { revert Hp. unfold linux_poll_syscall. cond; [|cond; [|cond; [cond|]]].
    - destruct (do_poll _ _ _ _ _ _ _) as [[[r1 i1] st1]|] eqn:Ep; [|done]. intros [= <- <-].
      left. by eapply do_poll_rest.
    - by apply ppoll_settled.
    - intros [= <- <-]. by left.
    - destruct (load_words _ _ _); [|done]. by apply do_select_settled.
    - by apply do_select_settled. }
  destruct Hs as [(Hm & t' & Ht' & [Ha Hb [? ?]])|[(Hm & t' & Ht' & [Ha [? ?]]) Hr']];
    (split; [done|]; exists t'; split_and!; try done); try (by left); try (by right);
    unfold guest_thread_signal_delivery_mask; rewrite ?Hb, ?Ha; done.
Qed.

(** ** Events *)

Definition poll_bits `{!HostPoll} : list Z :=
  [POLLRDNORM; POLLRDBAND; POLLPRI; POLLOUT; POLLWRBAND; POLLERR; POLLHUP; POLLNVAL].

(** The event macros of the host are distinct bits. *)
Class HostPollOk `{!HostPoll} : Prop :=
  poll_bits_apart : forall i j x y, poll_bits !! i = Some x -> poll_bits !! j = Some y ->
    has x y = bool_decide (i = j).

Ltac poll_index x :=
  match x with
  | POLLRDNORM => constr:(0%nat) | POLLRDBAND => constr:(1%nat) | POLLPRI => constr:(2%nat)
  | POLLOUT => constr:(3%nat) | POLLWRBAND => constr:(4%nat) | POLLERR => constr:(5%nat)
  | POLLHUP => constr:(6%nat) | POLLNVAL => constr:(7%nat)
  end.

Lemma has_lor a b m : has (a .| b) m = has a m || has b m.
Proof.
  unfold has. rewrite Z.land_lor_distr_l.
  destruct (Z.eqb_spec (a .& m) 0) as [->|Ha]; simpl; [by rewrite Z.lor_0_l|].
  apply negb_true_iff, Z.eqb_neq. intros [? ?]%Z.lor_eq_0_iff. done.
Qed.

Lemma has_add v t b r m : has (add_if v t b r) m = has r m || (has v t && has b m).
Proof. unfold add_if. destruct (has v t); simpl; [apply has_lor|by rewrite orb_false_r]. Qed.

Lemma add_if_lor v t b r : add_if v t b r = r .| (if has v t then b else 0).
Proof. unfold add_if. destruct (has v t); [done|by rewrite Z.lor_0_r]. Qed.

(** Asked for an event and told that it is there, the guest reads the event with
    those Linux reports together with it; nothing else is reported. *)
Theorem poll_events_roundtrip `{!HostPoll} (Hok : HostPollOk) (value : Z) :
  poll_events_to_linux (poll_events_to_host value) =
  (if has value 0x41 then 0x41 else 0) .| (if has value 0x80 then 0x81 else 0) .|
  (if has value 0x2 then 0x2 else 0) .| (if has value 0x104 then 0x104 else 0) .|
  (if has value 0x200 then 0x200 else 0).
Proof.
  unfold poll_events_to_linux. cbv zeta. rewrite !add_if_lor. unfold poll_events_to_host. cbv zeta.
  rewrite !has_add. assert (forall m, has 0 m = false) as H0 by done. rewrite !H0. clear H0.
  repeat match goal with |- context [has ?x ?y] =>
    let i := poll_index x in let j := poll_index y in rewrite (Hok i j x y eq_refl eq_refl) end.
  repeat (rewrite bool_decide_true by done || rewrite bool_decide_false by done).
  change (0x4 .| 0x100) with 0x104. change (0x1 .| 0x40) with 0x41.
  destruct (has value 0x41), (has value 0x80), (has value 0x2), (has value 0x104), (has value 0x200);
    reflexivity.
Qed.

(** ** Results of a poll *)

Lemma store_revents_spec `{!HostPoll} revents m guest :
  (forall i r, revents !! i = Some r ->
     mem_load (store_revents m guest revents) (guest + 8 * Z.of_nat i + 6) 2 =
     Some (le_bytes 2 (poll_events_to_linux r))) /\
  (forall x, (forall i, (i < length revents)%nat ->
                ~ (guest + 8 * Z.of_nat i + 6 <= x < guest + 8 * Z.of_nat i + 8)) ->
     store_revents m guest revents !! x = m !! x).
Proof.
  revert m guest. induction revents as [|r revents IH]; intros m guest; cbn [store_revents length]; [done|].
  set (m1 := mem_store m (guest + 6) (le_bytes 2 (poll_events_to_linux r))).
  destruct (IH m1 (guest + 8)) as [IH1 IH2]. split.
  - intros [|i] r' Hr; [injection Hr as <-|].
    + replace (guest + 8 * Z.of_nat 0 + 6) with (guest + 6) by lia.
      rewrite <- (mem_load_store m (guest + 6) (le_bytes 2 (poll_events_to_linux r))), length_le_bytes.
      apply mem_load_ext. intros x Hx. apply IH2. lia.
    + rewrite <- (IH1 i r' Hr). f_equal. lia.
  - intros x Hx. rewrite IH2.
    + apply mem_store_lookup_out. rewrite length_le_bytes. specialize (Hx 0%nat). lia.
    + intros i Hi. specialize (Hx (S i)). lia.
Qed.

(** A poll that is not interrupted returns the host's count, and the guest's array
    then holds, for each descriptor, the translation of what the host reported
    about it; the descriptors and the events it asked for are not touched, nor is
    any other memory. *)
Theorem poll_reports `{!HostErrno, !HostPoll} (host : poll_host) (st : wait_state)
    (guest count timeout result : Z) (fds : list (Z * Z)) (revents : list Z) :
  0 <= count <= 65536 -> ph_calloc host = true ->
  load_pollfds (ws_bytes st) guest (Z.to_nat count) = Some fds ->
  ph_poll host [] fds timeout = inr (result, revents) -> length revents = length fds ->
  exists st', do_poll host st [] guest count timeout (-1) = Some (result, false, st') /\
    (forall i r, revents !! i = Some r -> Z.of_nat i < count ->
       mem_load (ws_bytes st') (guest + 8 * Z.of_nat i + 6) 2 =
       Some (le_bytes 2 (poll_events_to_linux r))) /\
    (forall x, (forall i, 0 <= i < count -> ~ (guest + 8 * i + 6 <= x < guest + 8 * i + 8)) ->
       ws_bytes st' !! x = ws_bytes st !! x).
Proof.
  intros Hc Ha Hl Hp Hlen. unfold do_poll.
  rewrite (proj2 (Z.ltb_ge _ _)), Ha, Hl by lia. simpl. rewrite Hp, andb_false_r. simpl.
  eexists. split; [done|]. simpl.
  destruct (store_revents_spec (take (Z.to_nat count) revents) (ws_bytes st) guest) as [H1 H2]. split.
  - intros i r Hr Hi. apply H1. rewrite lookup_take_lt by lia. done.
  - intros x Hx. apply H2. intros i Hi. rewrite length_take in Hi.
    specialize (Hx (Z.of_nat i)). lia.
Qed.

(** ** A host *)

Module PollExamples.
#[local] Existing Instance ExampleErrno.host_errno.
#[local] Existing Instance GuestSignalExamples.example_signals.
#[local] Instance example_poll : HostPoll :=
  {| POLLRDNORM := 1; POLLRDBAND := 4; POLLPRI := 8; POLLOUT := 2; POLLWRBAND := 16;
     POLLERR := 32; POLLHUP := 64; POLLNVAL := 4096; POLLIN := 5; FD_SETSIZE := 256 |}.

Lemma example_poll_ok : HostPollOk.
Proof.
  intros i j x y Hi Hj.
  do 8 (destruct i as [|i]; [injection Hi as <-;
    do 8 (destruct j as [|j]; [injection Hj as <-; reflexivity|]); done|]). done.
Qed.

(** The array of one descriptor, a mask and a time, in memory. *)
Definition m0 : gmap Z Z :=
  mem_store (mem_store (mem_zero ∅ 0x1000 64) 0x1000 (le_bytes 4 7 ++ le_bytes 2 0x41 ++ le_bytes 2 0))
    0x1020 (le_bytes 4 0x101 ++ le_bytes 4 0).

(** The descriptor is readable; the pipe is not. *)
Definition host1 : poll_host :=
  PollHost (WaitHost (inr (5, 6)) (fun _ => None)) None (fun t => t) true
    (fun _ fds _ => inr (1, 1 :: replicate (length fds - 1) 0))
    (fun _ _ r _ _ _ => inr (0, default ∅ r, ∅, ∅, (0, 0))).
(** A signal arrives: the pipe is readable too. *)
Definition host2 : poll_host :=
  PollHost (WaitHost (inr (5, 6)) (fun _ => None)) None (fun t => t) true
    (fun _ fds _ => inr (2, map (fun _ => 1) fds)) (fun _ _ _ _ _ _ => inl EINTR).
Definition t0 : thread := set_mask (Words 0x4 0) None zero_thread.
Definition st0 : wait_state := WaitState (Some t0) ∅ m0.

Lemma t0_at_rest : at_rest (t_mask t0) t0.
Proof. by split. Qed.

Lemma timespec_timeout_exact_witness :
  timespec_timeout m0 0x1008 false = Some (inr 0) /\
  exists r, timespec_timeout m0 0x1008 false = Some r.
Proof.
  split; [vm_compute; reflexivity|].
  destruct (timespec_timeout_exact m0 0x1008 0 0 false) as (r & Hr & _);
    [discriminate|vm_compute; reflexivity|discriminate|]. exists r. exact Hr.
Defined.

Lemma fdset_roundtrip_witness :
  exists m', fdset_to_guest m0 0x1030 40 {[3; 39; 41]} = Some m' /\
    guest_bit m' 0x1030 39 = true /\ guest_bit m' 0x1030 41 = false.
Proof.
  destruct (fdset_roundtrip m0 0x1030 40 {[3; 39; 41]}) as (m' & Hm & _ & Hbit & _);
    [|discriminate|discriminate|].
  { apply mem_store_wf; [apply mem_store_wf; [apply mem_zero_wf, map_Forall_empty|]|];
      repeat apply Forall_app_2; apply le_bytes_byte. }
  exists m'. split; [exact Hm|].
  split; rewrite Hbit by (vm_compute; split; [discriminate|reflexivity]); reflexivity.
Defined.

(** An interrupted [ppoll] with a mask: the mask the guest had is the one the
    handler will save. *)
Lemma poll_mask_restored_witness :
  match linux_poll_syscall host2 st0 LINUX_NR_PPOLL [0x1000; 1; 0; 0x1020; 8; 0] with
  | Some (r, st') => r = -4 /\ ws_mask st' = ∅ /\
      exists t', ws_thread st' = Some t' /\ (guest_thread_signal_delivery_mask (Some t')).1 = Words 4 0
  | None => False
  end.
Proof.
  destruct (linux_poll_syscall host2 st0 LINUX_NR_PPOLL [0x1000; 1; 0; 0x1020; 8; 0]) as [[r st']|] eqn:E.
  - destruct (poll_mask_restored host2 st0 t0 LINUX_NR_PPOLL [0x1000; 1; 0; 0x1020; 8; 0] r st')
      as (Hm & t' & Ht & _ & _ & Hd & _); [intros t; auto|reflexivity|exact t0_at_rest|exact E|].
    split; [|split; [exact Hm|exists t'; split; [exact Ht|exact Hd]]].
    apply (f_equal (fun o => fst <$> o)) in E. vm_compute in E. injection E as <-. reflexivity.
  - apply (f_equal (fun o => fst <$> o)) in E. vm_compute in E. discriminate E.
Defined.

Lemma poll_events_roundtrip_witness : poll_events_to_linux (poll_events_to_host 0x1) = 0x41.
Proof. rewrite (poll_events_roundtrip example_poll_ok 0x1). reflexivity. Defined.

Lemma poll_reports_witness :
  exists st', do_poll host1 st0 [] 0x1000 1 (-1) (-1) = Some (1, false, st') /\
    mem_load (ws_bytes st') 0x1006 2 = Some [0x41; 0] /\ ws_bytes st' !! 0x1004 = Some 0x41.
Proof.
  destruct (poll_reports host1 st0 0x1000 1 (-1) 1 [(7, 1)] [1]) as (st' & Hp & Hr & Hx);
    [lia|reflexivity|vm_compute; reflexivity|reflexivity|reflexivity|].
  exists st'. split; [exact Hp|]. split.
  - exact (Hr 0%nat 1 eq_refl eq_refl).
  - rewrite Hx by lia. reflexivity.
Defined.
End PollExamples.
