(* ===== verification/SysCalls.v ===== *)
(** * The small system calls of [src/src/linux_syscall.c]

    The calls whose handler translates one request: limits, identities, waiting,
    file status, positions, random bytes, locks on whole files, signals to other
    processes, and the trace messages written around every call.  They are
    programs ([io]) on the state of the descriptors, of which they change the
    guest's memory only. *)

From Stdlib Require Import Ascii String.
From S2P Require Import Prelude Errno Bytes Abi GuestPath HostCalls Descriptors Sockets GuestThread GuestSignal.
Open Scope Z_scope.

(** ** Trace messages *)

(** A buffer is what has been written of it, its length the position. *)
Definition append_text (buffer : list ascii) (text : string) : list ascii := buffer ++ chars text.

Definition hex_digits : list ascii := chars "0123456789abcdef".

(** The loop of [append_hex32] with [n] digits left: [shift = 4 * (n - 1)]. *)
Fixpoint append_hex (n : nat) (buffer : list ascii) (value : Z) : list ascii :=
  match n with
  | O => buffer
  | S n =>
    append_hex n (buffer ++ [nth (Z.to_nat (Z.shiftr value (4 * Z.of_nat n) .& 15)) hex_digits "0"%char]) value
  end.
Definition append_hex32 (buffer : list ascii) (value : Z) : list ascii := append_hex 8 buffer value.

(** The loop of [trace_call] from register [i] on. *)
Fixpoint append_registers (n i : nat) (gpr : list Z) (buffer : list ascii) : list ascii :=
  match n with
  | O => buffer
  | S n =>
    let buffer := append_text buffer " r" ++ [ascii_of_nat (48 + i)] in
    append_registers n (S i) gpr (append_hex32 (append_text buffer "=0x") (nth i gpr 0))
  end.

Definition call_message (number : Z) (gpr : list Z) : list ascii :=
  let m := append_hex32 (append_text [] "linuxemu: syscall=0x") number in
  let m := append_registers 6 0 gpr m in
  let m := append_hex32 (append_text m " lr=0x") (nth 14 gpr 0) in
  let m := append_hex32 (append_text m " pc=0x") (nth 15 gpr 0) in
  m ++ ["010"%char].

Definition result_message (result : Z) : list ascii :=
  append_hex32 (append_text [] "linuxemu: result=0x") result ++ ["010"%char].

Definition write_message (trace_enabled : bool) (message : list ascii) : io unit :=
  if trace_enabled then
    _ <~ Write 2 (Z.of_nat (length message)) (Some (bytes_of message));; Ret tt
  else Ret tt.

Definition trace_call (trace_enabled : bool) (number : Z) (gpr : list Z) : io unit :=
  write_message trace_enabled (call_message number gpr).
Definition trace_result (trace_enabled : bool) (result : Z) : io unit :=
  write_message trace_enabled (result_message result).

(** ** The host's headers *)

(** [sys/resource.h]: [RLIM_INFINITY], the conversion to [rlim_t], and which of the
    resources guarded with [#ifdef] it has. *)
Class HostLimits := {
  RLIM_INFINITY : Z; rlim_t : Z -> Z; has_RLIMIT_RSS : bool; has_RLIMIT_NPROC : bool; has_RLIMIT_AS : bool }.

(** [sys/wait.h]; [WCONTINUED] is guarded. *)
Class HostWait := {
  WNOHANG : Z; WUNTRACED : Z; WCONTINUED : option Z;
  WIFSIGNALED : Z -> bool; WTERMSIG : Z -> Z; WIFSTOPPED : Z -> bool; WSTOPSIG : Z -> Z }.

(** [sys/statvfs.h]; both flags are guarded. *)
Class HostStatvfs := { ST_RDONLY : option Z; ST_NOSUID : option Z }.

Definition UINT64_MAX : Z := 2 ^ 64 - 1.
Definition LINUX_WNOHANG : Z := 0x1.
Definition LINUX_WUNTRACED : Z := 0x2.
Definition LINUX_WCONTINUED : Z := 0x8.

(** ** Limits *)

Section limits.
Context `{!HostErrno, !HostLimits}.

Definition guarded (defined : bool) (r : resource) : option resource := if defined then Some r else None.

(** [None] is -1. *)
Definition linux_resource_number (what : Z) : option resource :=
  if what =? 0 then Some RLIMIT_CPU else if what =? 1 then Some RLIMIT_FSIZE
  else if what =? 2 then Some RLIMIT_DATA else if what =? 3 then Some RLIMIT_STACK
  else if what =? 4 then Some RLIMIT_CORE else if what =? 5 then guarded has_RLIMIT_RSS RLIMIT_RSS
  else if what =? 6 then guarded has_RLIMIT_NPROC RLIMIT_NPROC
  else if what =? 7 then Some RLIMIT_NOFILE else if what =? 9 then guarded has_RLIMIT_AS RLIMIT_AS
  else None.

Definition linux_rlimit_value (value : Z) : Z := if value =? RLIM_INFINITY then UINT64_MAX else value.
Definition host_rlimit_value (value : Z) : Z := if value =? UINT64_MAX then RLIM_INFINITY else rlim_t value.

(** A [struct linux_rlimit64] in memory. *)
Definition load_rlimit64 (m : gmap Z Z) (a : Z) : option (Z * Z) :=
  match mem_load m a 8, mem_load m (a + 8) 8 with
  | Some current, Some maximum => Some (le_value current, le_value maximum)
  | _, _ => None
  end.
Definition store_rlimit64 (m : gmap Z Z) (a : Z) (limits : Z * Z) : gmap Z Z :=
  mem_store (mem_store m a (le_bytes 8 limits.1)) (a + 8) (le_bytes 8 limits.2).

Definition linux_prlimit64 (process what guest_new_limit guest_old_limit : Z) (st : fd_state)
  : io (Z * fd_state) :=
  other <- (if process =? 0 then Ret false
            else pid <~ Identity ProcessId;; Ret (negb (process =? s32 pid)));;
  if other then Ret (host_negative ESRCH, st)
  else match linux_resource_number what with
  | None => Ret (host_negative EINVAL, st)
  | Some host_resource =>
    answer <~ Getrlimit host_resource;;
    match answer with
    | inl e => Ret (linux_error e, st)
    | inr (current, maximum) =>
      let st :=
        if negb (guest_old_limit =? 0)
        then set_memory (fun m => store_rlimit64 m guest_old_limit
               (linux_rlimit_value current, linux_rlimit_value maximum)) st
        else st in
      if negb (guest_new_limit =? 0) then
        limits <- load_or_fault (load_rlimit64 (fd_memory st) guest_new_limit);;
        answer <~ Setrlimit host_resource (host_rlimit_value limits.1) (host_rlimit_value limits.2);;
        Ret (done_or_error answer, st)
      else Ret (0, st)
    end
  end.
End limits.

(** ** Status of files *)

Section calls.
Context `{!HostErrno, !HostOpen, !HostSeek, !HostWait, !HostStatvfs, !HostSignals}.
Context (off_t : Z -> Z).
(** The value of [errno] before the call. *)
Context (errno_before : Z).

Definition statfs64_fields (status : statvfs) : list (nat * nat * Z) :=
  let flag bit host flags := match host with
    | Some host => if has (f_flag status) host then flags .| bit else flags
    | None => flags
    end in
  let flags := flag 2 ST_NOSUID (flag 1 ST_RDONLY 0) in
  [ (4, 4, f_bsize status); (8, 8, f_blocks status); (8, 16, f_bfree status);
    (8, 24, f_bavail status); (8, 32, f_files status); (8, 40, f_ffree status);
    (4, 56, f_namemax status); (4, 60, f_frsize status); (4, 64, flags) ]%nat.

Definition statfs64_store (status : statvfs) : list Z :=
  store_fields (statfs64_fields status) (replicate 88 0).

Definition linux_fstatfs64 (descriptor guest_size guest_buffer : Z) (st : fd_state) : io (Z * fd_state) :=
  if guest_size <? 88 then Ret (host_negative EINVAL, st)
  else
    answer <~ Fstatvfs descriptor;;
    match answer with
    | inl e => Ret (linux_error e, st)
    | inr status => Ret (0, set_memory (fun m => mem_store m guest_buffer (statfs64_store status)) st)
    end.

Definition linux_fstat_fd (fd guest_status : Z) (st : fd_state) : io (Z * fd_state) :=
  answer <~ Fstat fd;;
  match answer with
  | inl e => Ret (linux_error e, st)
  | inr status => Ret (0, set_memory (fun m => mem_store m guest_status (linux_stat64_store status)) st)
  end.

(** ** Waiting *)

Definition linux_wait_status (host_status : Z) : Z :=
  if WIFSIGNALED host_status then host_signal_to_linux (WTERMSIG host_status) .| (host_status .& 0x80)
  else if WIFSTOPPED host_status
  then Z.shiftl (host_signal_to_linux (WSTOPSIG host_status)) 8 .| 0x7f
  else host_status.

(** [None] is the return with [-EINVAL]. *)
Definition wait_options (linux_options : Z) : option Z :=
  if negb (linux_options .&~ (LINUX_WNOHANG .| LINUX_WUNTRACED .| LINUX_WCONTINUED) =? 0) then None
  else
    let options := if has linux_options LINUX_WNOHANG then WNOHANG else 0 in
    let options := if has linux_options LINUX_WUNTRACED then options .| WUNTRACED else options in
    if has linux_options LINUX_WCONTINUED then
      match WCONTINUED with Some bit => Some (options .| bit) | None => None end
    else Some options.

Definition linux_wait4 (pid guest_status linux_options guest_usage : Z) (st : fd_state)
  : io (Z * fd_state) :=
  match wait_options linux_options with
  | None => Ret (host_negative EINVAL, st)
  | Some host_options =>
    answer <~ Waitpid pid host_options;;
    match answer with
    | inl e => Ret (linux_error e, st)
    | inr (result, host_status) =>
      let st :=
        if negb (result =? 0) && negb (guest_status =? 0)
        then set_memory (fun m => store32 m guest_status (linux_wait_status host_status)) st else st in
      if negb (result =? 0) && negb (guest_usage =? 0) then
        usage <~ ChildrenUsage;;
        match usage with
        | inl e => Ret (linux_error e, st)
        | inr usage =>
          Ret (result, set_memory (fun m => mem_store m guest_usage (linux_rusage_store usage)) st)
        end
      else Ret (result, st)
    end
  end.

(** ** Names *)

(** [strncpy (field, text, 64)] into 65 bytes of zeros. *)
Definition name_field (text : list ascii) : list Z :=
  let copied := bytes_of (take 64 text) in copied ++ replicate (65 - length copied) 0.

Definition uname_bytes (nodename : list ascii) : list Z :=
  concat (map name_field
    [chars "Linux"; nodename; chars "5.15.0-linuxemu"; chars "Linuxemu on BlackBerry 10/QNX";
     chars "armv7l"; []]).

Definition linux_uname (guest_buffer : Z) (st : fd_state) : io (Z * fd_state) :=
  answer <~ Uname;;
  match answer with
  | inl e => Ret (linux_error e, st)
  | inr nodename => Ret (0, set_memory (fun m => mem_store m guest_buffer (uname_bytes nodename)) st)
  end.

(** ** Random bytes and whole-file locks *)

Definition linux_getrandom (buffer length flags : Z) (st : fd_state) : io (Z * fd_state) :=
  if negb (flags .&~ 3 =? 0) then Ret (host_negative EINVAL, st)
  else if length =? 0 then Ret (0, st)
  else
    let open_flags := if has flags 1 then O_RDONLY .| O_NONBLOCK else O_RDONLY in
    answer <~ Open (if has flags 2 then chars "/dev/random" else chars "/dev/urandom") open_flags 0;;
    match answer with
    | inl e => Ret (linux_error e, st)
    | inr descriptor =>
      answer <~ Read descriptor length;;
      _ <~ Close descriptor;;
      match answer with
      | inl e => Ret (linux_error e, st)
      | inr bytes => Ret (s32 (Z.of_nat (List.length bytes)), set_memory (fun m => mem_store m buffer bytes) st)
      end
    end.

Definition linux_flock (descriptor operation : Z) (st : fd_state) : io (Z * fd_state) :=
  let kind := operation .&~ 4 in
  if negb (kind =? 1) && negb (kind =? 2) && negb (kind =? 8) then Ret (host_negative EINVAL, st)
  else
    let type := if kind =? 1 then F_RDLCK else if kind =? 2 then F_WRLCK else F_UNLCK in
    answer <~ Lock descriptor (if has operation 4 then F_SETLK else F_SETLKW) (Flock type SEEK_SET 0 0 0);;
    Ret (match answer with inl e => linux_error e | inr _ => 0 end, st).

(** ** Signals to others *)

(** The host's number, [None] after [-EINVAL]. *)
Definition signal_to_send (linux_signal : Z) : option Z :=
  let host_signal := if linux_signal =? 0 then 0 else linux_signal_to_host linux_signal in
  if negb (linux_signal =? 0) && (host_signal =? 0) then None else Some host_signal.

Definition guest_signal_send (process linux_signal : Z) (st : fd_state) : io (Z * fd_state) :=
  match signal_to_send linux_signal with
  | None => Ret (host_negative EINVAL, st)
  | Some host_signal => answer <~ Kill process host_signal;; Ret (done_or_error answer, st)
  end.

(** [pthread_kill] is what the host answers for the thread of an identifier. *)
Definition guest_signal_send_thread (registry : list thread) (pthread_kill : Z -> option errno)
    (process tid linux_signal : Z) (st : fd_state) : io (Z * fd_state) :=
  other <- (if process =? 0 then Ret false
            else pid <~ Identity ProcessId;; Ret (negb (process =? s32 pid)));;
  if other then Ret (host_negative ESRCH, st)
  else match signal_to_send linux_signal with
  | None => Ret (host_negative EINVAL, st)
  | Some host_signal => Ret (guest_thread_kill registry pthread_kill tid host_signal, st)
  end.

(** ** The cases of the dispatcher that are one host call *)

(** [(uint64_t)low | ((uint64_t)high << 32)] *)
Definition join64 (low high : Z) : Z := low .| Z.shiftl high 32.

Definition linux_pread64 (fd buffer length low high : Z) (st : fd_state) : io (Z * fd_state) :=
  answer <~ Pread fd length (off_t (join64 low high));;
  match answer with
  | inl e => Ret (linux_error e, st)
  | inr bytes => Ret (s32 (Z.of_nat (List.length bytes)), set_memory (fun m => mem_store m buffer bytes) st)
  end.

Definition linux_pwrite64 (fd buffer length low high : Z) (st : fd_state) : io (Z * fd_state) :=
  answer <~ Pwrite fd length (off_t (join64 low high)) (mem_load (fd_memory st) buffer (Z.to_nat length));;
  Ret (value_or_error answer, st).

Definition linux_readv (fd vectors count : Z) (st : fd_state) : io (Z * fd_state) :=
  answer <~ Readv fd vectors count;;
  match answer with
  | inl e => Ret (linux_error e, st)
  | inr (n, writes) => Ret (n, set_memory (apply_writes writes) st)
  end.

(** [linux_result (lseek (..))]: the [off_t] becomes a [ssize_t] of 32 bits first,
    and a position whose bit 31 is set is taken for an error. *)
Definition linux_lseek (fd offset whence : Z) (st : fd_state) : io (Z * fd_state) :=
  answer <~ Lseek fd (off_t (s32 offset)) whence;;
  Ret (match answer with
       | inl e => linux_error e
       | inr position =>
         if s32 position <? 0 then - linux_errno_number errno_before else s32 position
       end, st).

Definition linux_llseek (fd high low result whence : Z) (st : fd_state) : io (Z * fd_state) :=
  answer <~ Lseek fd (off_t (join64 low high)) whence;;
  match answer with
  | inl e => Ret (linux_error e, st)
  | inr position => Ret (0, set_memory (fun m => mem_store m result (le_bytes 8 position)) st)
  end.

Definition linux_getpgid (process : Z) (st : fd_state) : io (Z * fd_state) :=
  own <- (if process =? 0 then Ret true
          else pid <~ Identity ProcessId;; Ret (process =? pid));;
  if own then group <~ Identity ProcessGroup;; Ret (s32 group, st)
  else answer <~ Getpgid process;; Ret (value_or_error answer, st).
End calls.

(** ** Trace messages fit their buffers *)

(** The value of a hexadecimal digit, and of a sequence of digits. *)
Fixpoint digit_value (digits : list ascii) (c : ascii) : Z :=
  match digits with
  | [] => 0
  | d :: digits => if bool_decide (c = d) then 0 else 1 + digit_value digits c
  end.
Definition hex_value (text : list ascii) : Z :=
  fold_left (fun v c => 16 * v + digit_value hex_digits c) text 0.

Lemma append_hex_app n buffer value : append_hex n buffer value = buffer ++ append_hex n [] value.
Proof.
  revert buffer. induction n as [|n IH]; intros buffer; cbn [append_hex]; [by rewrite app_nil_r|].
  rewrite app_nil_l, (IH (buffer ++ _)), (IH [_]). by rewrite app_assoc.
Qed.

Lemma append_hex_length n buffer value : length (append_hex n buffer value) = (length buffer + n)%nat.
Proof.
  revert buffer. induction n as [|n IH]; intros buffer; cbn [append_hex]; [lia|].
  rewrite IH, length_app. cbn [length]. lia.
Qed.

Lemma append_registers_length n i gpr buffer :
  length (append_registers n i gpr buffer) = (length buffer + 14 * n)%nat.
Proof.
  revert i buffer. induction n as [|n IH]; intros i buffer; cbn [append_registers]; [lia|].
  rewrite IH. unfold append_hex32, append_text. rewrite append_hex_length, !length_app. simpl. lia.
Qed.

Lemma append_registers_prefix n i gpr buffer :
  exists rest, append_registers n i gpr buffer = buffer ++ rest.
Proof.
  revert i buffer. induction n as [|n IH]; intros i b; [exists []; by rewrite app_nil_r|].
  cbn [append_registers]. edestruct IH as [rest ->].
  unfold append_hex32, append_text. rewrite append_hex_app. rewrite <- !app_assoc. by eexists.
Qed.

Lemma digit_value_nth d : 0 <= d < 16 -> digit_value hex_digits (nth (Z.to_nat d) hex_digits "0"%char) = d.
Proof.
  intros Hd. assert (H : forallb (fun d => digit_value hex_digits (nth (Z.to_nat d) hex_digits "0"%char) =? d)
    [0;1;2;3;4;5;6;7;8;9;10;11;12;13;14;15] = true) by (vm_compute; reflexivity).
  rewrite forallb_forall in H. apply Z.eqb_eq, H. simpl. lia.
Qed.

Lemma nibble value k : 0 <= k -> Z.shiftr value (4 * k) .& 15 = (value / 16 ^ k) mod 16.
Proof.
  intros Hk. change 15 with (Z.ones 4). rewrite Z.land_ones, Z.shiftr_div_pow2 by lia.
  by rewrite Z.pow_mul_r by lia.
Qed.

Lemma hex_value_fold n value v :
  fold_left (fun v c => 16 * v + digit_value hex_digits c) (append_hex n [] value) v =
  16 ^ Z.of_nat n * v + value mod 16 ^ Z.of_nat n.
Proof.
  revert v. induction n as [|n IH]; intros v; cbn [append_hex fold_left].
  - change (Z.of_nat 0) with 0. rewrite Z.pow_0_r, Z.mod_1_r. lia.
  - rewrite append_hex_app, app_nil_l. cbn [fold_left app]. rewrite IH.
    rewrite nibble by lia. rewrite digit_value_nth by (apply Z.mod_pos_bound; lia).
    rewrite Nat2Z.inj_succ, Z.pow_succ_r by lia. set (p := 16 ^ Z.of_nat n).
    assert (Hp : 0 < p) by (apply Z.pow_pos_nonneg; lia).
    rewrite (Z.mul_comm 16 p), (Z.rem_mul_r value p 16) by lia. lia.
Qed.

(** The trace of a call is one line that fits the arrays [message] of
    [trace_call] (160 bytes) and [trace_result] (40 bytes), and its numbers can be
    read back: the eight digits after [syscall=0x] and [result=0x] are the
    number of the call and the value returned. *)
Theorem trace_messages_fit (number : Z) (gpr : list Z) :
  length (call_message number gpr) = 141%nat /\ length (result_message number) = 28%nat /\
  (is_u32 number ->
   hex_value (take 8 (drop 20 (call_message number gpr))) = number /\
   hex_value (take 8 (drop 19 (result_message number))) = number).
Proof.
  unfold call_message, result_message, append_hex32. split; [|split].
  - unfold append_text. rewrite length_app. rewrite append_hex_length, length_app.
    rewrite append_hex_length, length_app, append_registers_length, append_hex_length. done.
  - rewrite length_app, append_hex_length. done.
  - intros Hn.
    assert (Hv : hex_value (append_hex 8 [] number) = number).
    { unfold hex_value. rewrite hex_value_fold. rewrite Z.mod_small; [lia|].
      change (16 ^ Z.of_nat 8) with 4294967296. unfold is_u32, UINTPTR_MAX in Hn. lia. }
    split; cycle 1.
    + rewrite append_hex_app. rewrite <- app_assoc.
      rewrite (drop_app_length' (append_text [] "linuxemu: result=0x")) by done.
      rewrite take_app_length' by (by rewrite append_hex_length). done.
    + rewrite (append_hex_app 8 (append_text [] _) number).
      destruct (append_registers_prefix 6 0 gpr (append_text [] "linuxemu: syscall=0x" ++ append_hex 8 [] number))
        as [rest ->]. rewrite <- (app_assoc (append_text [] "linuxemu: syscall=0x")).
      unfold append_text at 1 2. rewrite !(append_hex_app _ (_ ++ chars _)), <- !app_assoc.
      rewrite (drop_app_length' (append_text [] "linuxemu: syscall=0x")) by done.
      rewrite take_app_length' by (by rewrite append_hex_length). done.
Qed.

(** ** Limits *)

Section limit_properties.
Context `{!HostErrno, !HostLimits}.

(** A limit that is a value of [rlim_t] and is told from "no limit" on both sides. *)
Definition host_limit (v : Z) : Prop :=
  v = RLIM_INFINITY \/ (0 <= v < UINT64_MAX /\ rlim_t v = v).

Lemma rlimit_value_inverse v :
  host_limit v ->
  host_rlimit_value (le_value (le_bytes 8 (linux_rlimit_value v))) = v.
Proof.
  intros Hv. unfold linux_rlimit_value.
  destruct (v =? RLIM_INFINITY) eqn:E; bprop; subst.
  - rewrite le_value_bytes_small by (unfold UINT64_MAX; lia). unfold host_rlimit_value. by rewrite Z.eqb_refl.
  - destruct Hv as [?|[Hv Hr]]; [done|].
    rewrite le_value_bytes_small by (unfold UINT64_MAX in Hv; lia).
    unfold host_rlimit_value. by rewrite (proj2 (Z.eqb_neq _ _)) by lia.
Qed.

Lemma load_store_rlimit64 m a limits :
  load_rlimit64 (store_rlimit64 m a limits) a =
  Some (le_value (le_bytes 8 limits.1), le_value (le_bytes 8 limits.2)).
Proof.
  unfold load_rlimit64, store_rlimit64.
  rewrite mem_load_store_ne by (rewrite length_le_bytes; lia).
  pose proof (mem_load_store m a (le_bytes 8 limits.1)) as H1. rewrite length_le_bytes in H1. rewrite H1.
  pose proof (mem_load_store (mem_store m a (le_bytes 8 limits.1)) (a + 8) (le_bytes 8 limits.2)) as H2.
  rewrite length_le_bytes in H2. by rewrite H2.
Qed.

(** The host's limits are these, and a call asks for these. *)
Definition limits_are (current maximum : Z) (B : Set) (c : host_call B) : B -> Prop :=
  match c in host_call B return B -> Prop with
  | Getrlimit _ => fun answer => answer = inr (current, maximum)
  | _ => fun _ => True
  end.
Definition sets_limits (current maximum : Z) (B : Set) (c : host_call B) : Prop :=
  match c with
  | Setrlimit _ current' maximum' => current' = current /\ maximum' = maximum
  | _ => True
  end.

(** The part of the call after the limits of the host have been read. *)
Lemma prlimit_calls what new old st current maximum asked :
  (forall r, linux_resource_number what = Some r ->
     load_rlimit64 (fd_memory (if negb (old =? 0)
        then set_memory (fun m => store_rlimit64 m old (linux_rlimit_value current, linux_rlimit_value maximum)) st
        else st)) new = Some asked) ->
  calls (limits_are current maximum)
    (sets_limits (host_rlimit_value asked.1) (host_rlimit_value asked.2)) (linux_prlimit64 0 what new old st).
Proof.
  intros Hload. unfold linux_prlimit64. cbn [bind Z.eqb].
  destruct (linux_resource_number what) as [r|]; [|done]. specialize (Hload r eq_refl).
  cbn [calls limits_are]. split; [done|]. intros answer ->.
  cond; [|done]. rewrite Hload. cbn [load_or_fault bind calls sets_limits]. done.
Qed.
End limit_properties.

(** Limits survive the trip through the guest: when the host's limits are
    [current] and [maximum], [prlimit64] leaves the guest a structure that, given
    back to [prlimit64], sets exactly these limits, [RLIM_INFINITY] included. *)
Theorem prlimit_roundtrip `{!HostErrno, !HostLimits} (st : fd_state) (what a current maximum : Z) :
  a <> 0 -> host_limit current -> host_limit maximum ->
  ends (limits_are current maximum) (linux_prlimit64 0 what 0 a st) (fun out =>
    (linux_resource_number what = None /\ out = (host_negative EINVAL, st)) \/
    (out.1 = 0 /\ forall any other,
       calls (limits_are any other) (sets_limits current maximum) (linux_prlimit64 0 what a 0 out.2))).
Proof.
  intros Ha Hc Hm. unfold linux_prlimit64 at 1. cbn [bind Z.eqb].
  destruct (linux_resource_number what) as [r|] eqn:Er; [|by left].
  cbn [ends limits_are]. intros answer ->. rewrite (proj2 (Z.eqb_neq _ _) Ha). cbn [negb Z.eqb ends].
  right. split; [done|]. intros any other.
  pose proof (prlimit_calls what a 0 (set_memory (fun m => store_rlimit64 m a
    (linux_rlimit_value current, linux_rlimit_value maximum)) st) any other _
    (fun _ _ => load_store_rlimit64 _ _ _)) as Hcalls.
  cbn [fst snd] in Hcalls. by rewrite (rlimit_value_inverse current Hc), (rlimit_value_inverse maximum Hm) in Hcalls.
Qed.

(** A request that reads the old limits into the structure of the new ones is
    lost: [prlimit64] stores the old limits before it reads the new ones, and sets
    the limits that were in force already, whatever the guest asked for. *)
Theorem prlimit_same_pointer_ignored `{!HostErrno, !HostLimits} (st : fd_state)
    (what a current maximum : Z) :
  a <> 0 -> host_limit current -> host_limit maximum ->
  calls (limits_are current maximum) (sets_limits current maximum) (linux_prlimit64 0 what a a st).
Proof.
  intros Ha Hc Hm.
  assert (Hload : forall r, linux_resource_number what = Some r -> load_rlimit64 (fd_memory
    (if negb (a =? 0) then set_memory (fun m => store_rlimit64 m a
       (linux_rlimit_value current, linux_rlimit_value maximum)) st else st)) a =
    Some (le_value (le_bytes 8 (linux_rlimit_value current)), le_value (le_bytes 8 (linux_rlimit_value maximum)))).
  { intros r _. rewrite (proj2 (Z.eqb_neq _ _) Ha). apply load_store_rlimit64. }
  pose proof (prlimit_calls what a a st current maximum _ Hload) as Hcalls.
  cbn [fst snd] in Hcalls. by rewrite (rlimit_value_inverse current Hc), (rlimit_value_inverse maximum Hm) in Hcalls.
Qed.

(** ** Structures *)

(** [fstatfs64] writes the Linux [struct statfs64]: 88 bytes in which every
    field reads back as the host's value truncated to its width. *)
Theorem statfs64_layout `{!HostStatvfs} (status : statvfs) :
  length (statfs64_store status) = 88%nat /\
  forall w off v, (w, off, v) ∈ statfs64_fields status ->
    load_le w off (statfs64_store status) = v mod 2 ^ (8 * Z.of_nat w).
Proof.
  split; [apply length_store_fields|]. intros w off v Hin. by apply load_store_fields.
Qed.

Lemma length_name_field text : length (name_field text) = 65%nat.
Proof.
  unfold name_field, bytes_of. rewrite length_app, length_replicate, length_map, length_take. lia.
Qed.

(** [uname] writes six fields of 65 bytes, each a text of at most 64
    characters followed by zeros up to its end, so that every field is a
    terminated string; the second is the host's name for the node. *)
Theorem uname_layout (nodename : list ascii) :
  length (uname_bytes nodename) = 390%nat /\
  forall i text, [chars "Linux"; nodename; chars "5.15.0-linuxemu"; chars "Linuxemu on BlackBerry 10/QNX";
     chars "armv7l"; []] !! i = Some text ->
    exists padding, (0 < padding)%nat /\
    take 65 (drop (i * 65) (uname_bytes nodename)) = bytes_of (take 64 text) ++ replicate padding 0.
Proof.
  unfold uname_bytes. set (texts := [_; _; _; _; _; _]). split.
  - rewrite length_concat. simpl. rewrite !length_name_field. done.
  - intros i text Hi. exists (65 - length (bytes_of (take 64 text)))%nat. split.
    { unfold bytes_of. rewrite length_map, length_take. lia. }
    change (_ ++ _) with (name_field text). clearbody texts. revert i Hi.
    induction texts as [|t texts IH]; intros i Hi; [done|]. cbn [map concat]. destruct i as [|i].
    + injection Hi as ->. rewrite drop_0, take_app_length' by (by rewrite length_name_field). done.
    + replace (S i * 65)%nat with (65 + i * 65)%nat by lia. rewrite <- drop_drop.
      rewrite (drop_app_length' (name_field t)) by (by rewrite length_name_field). by apply IH.
Qed.

(** ** Wait statuses *)

Lemma ordinary_signal_back `{!HostSignals} n :
  1 <= n <= 31 -> linux_signal_to_host n <> 0 -> host_signal_to_linux (linux_signal_to_host n) = n.
Proof.
  intros Hn Hne. destruct (to_host_cases n) as [[? _]|[?|Hin]]; [lia|done|].
  pose proof table_inverse as Ht. rewrite Forall_forall in Ht. by destruct (Ht _ Hin) as (_ & _ & ?).
Qed.

Lemma low_bits_or n x : 0 <= n < 0x80 -> (n .| (x .& 0x80)) .& 0x7f = n.
Proof.
  intros Hn. rewrite Z.land_lor_distr_l, <- Z.land_assoc. change (0x80 .& 0x7f) with 0.
  rewrite Z.land_0_r, Z.lor_0_r. change 0x7f with (Z.ones 7). rewrite Z.land_ones by lia.
  apply Z.mod_small. lia.
Qed.

(** The status of a child as Linux encodes it.  A child killed by the host's
    number of an ordinary signal reads as killed by that signal, with the flag of
    the core dump; a stopped one reads as stopped by its signal; any other status
    is passed on. *)
Theorem wait_status_translated `{!HostSignals, !HostWait} (status n : Z) :
  1 <= n <= 31 -> linux_signal_to_host n <> 0 ->
  let result := linux_wait_status status in
  (WIFSIGNALED status = true -> WTERMSIG status = linux_signal_to_host n ->
     result .& 0x7f = n /\ result .& 0x80 = status .& 0x80) /\
  (WIFSIGNALED status = false -> WIFSTOPPED status = true -> WSTOPSIG status = linux_signal_to_host n ->
     result .& 0xff = 0x7f /\ Z.shiftr result 8 = n) /\
  (WIFSIGNALED status = false -> WIFSTOPPED status = false -> result = status).
Proof.
  intros Hn Hne result. unfold result, linux_wait_status. split_and!.
  - intros -> ->. rewrite ordinary_signal_back by done. split; [apply low_bits_or; lia|].
    rewrite Z.land_lor_distr_l, <- Z.land_assoc, Z.land_diag.
    assert (Hlow : n = n .& 0x7f) by (change 0x7f with (Z.ones 7); rewrite Z.land_ones, Z.mod_small; lia).
    rewrite Hlow, <- Z.land_assoc. change (0x7f .& 0x80) with 0. rewrite Z.land_0_r. apply Z.lor_0_l.
  - intros -> -> ->. rewrite ordinary_signal_back by done. split.
    + rewrite Z.land_lor_distr_l. change (0x7f .& 0xff) with 0x7f. change 0xff with (Z.ones 8).
      rewrite Z.land_ones, Z.shiftl_mul_pow2, Z.mod_mul by lia. done.
    + rewrite Z.shiftr_lor, Z.shiftr_shiftl_l by lia. rewrite Z.shiftl_0_r. apply Z.lor_0_r.
  - by intros -> ->.
Qed.

(** ** The descriptors *)

(** A call that leaves the tables and the host's descriptors as they are. *)
Definition keeps (st : fd_state) (h : host) (out : Z * fd_state) (h' : host) : Prop :=
  h' = h /\ same_tables st out.2.

Lemma keeps_refl st h r f : keeps st h (r, set_memory f st) h.
Proof. done. Qed.
Lemma keeps_same st h r : keeps st h (r, st) h.
Proof. done. Qed.

(** Goes through a program whose calls all leave the host's table alone. *)
Ltac keep :=
  repeat first
    [ done
    | progress cbn [wp bind load_or_fault]
    | progress intros ?
    | match goal with
      | H : host_step (match ?x with _ => _ end) _ _ _ |- _ => destruct x
      | H : host_step _ _ _ _ |- _ =>
          simpl in H; lazymatch type of H with _ /\ _ => destruct H as [-> _] | _ => subst end
      | |- wp (bind _ _) _ _ => apply wp_bind
      | |- wp (match ?x with _ => _ end) _ _ => destruct x eqn:?
      | |- wp (load_or_fault ?x) _ _ => destruct x eqn:?
      | |- keeps _ _ _ _ => repeat case_match; done
      end ].

Section kept.
Context `{!HostErrno, !HostOpen, !HostSeek, !HostLimits, !HostWait, !HostStatvfs, !HostSignals}.
Context (off_t : Z -> Z) (errno_before : Z).
Implicit Types (st : fd_state) (h : host).

Lemma prlimit_keeps process what new old st h : wp (linux_prlimit64 process what new old st) h (keeps st h).
Proof. unfold linux_prlimit64. keep. Qed.
Lemma fstatfs_keeps fd size buffer st h : wp (linux_fstatfs64 fd size buffer st) h (keeps st h).
Proof. unfold linux_fstatfs64. keep. Qed.
Lemma fstat_keeps fd status st h : wp (linux_fstat_fd fd status st) h (keeps st h).
Proof. unfold linux_fstat_fd. keep. Qed.
Lemma wait_keeps pid status options usage st h : wp (linux_wait4 pid status options usage st) h (keeps st h).
Proof. unfold linux_wait4. keep. Qed.
Lemma uname_keeps buffer st h : wp (linux_uname buffer st) h (keeps st h).
Proof. unfold linux_uname. keep. Qed.
Lemma flock_keeps fd operation st h : wp (linux_flock fd operation st) h (keeps st h).
Proof. unfold linux_flock. keep. Qed.
Lemma send_keeps process signal st h : wp (guest_signal_send process signal st) h (keeps st h).
Proof. unfold guest_signal_send. keep. Qed.
Lemma send_thread_keeps registry kill process tid signal st h :
  wp (guest_signal_send_thread registry kill process tid signal st) h (keeps st h).
Proof. unfold guest_signal_send_thread. keep. Qed.
Lemma pread_keeps fd buffer length low high st h :
  wp (linux_pread64 off_t fd buffer length low high st) h (keeps st h).
Proof. unfold linux_pread64. keep. Qed.
Lemma pwrite_keeps fd buffer length low high st h :
  wp (linux_pwrite64 off_t fd buffer length low high st) h (keeps st h).
Proof. unfold linux_pwrite64. keep. Qed.
Lemma readv_keeps fd vectors count st h : wp (linux_readv fd vectors count st) h (keeps st h).
Proof. unfold linux_readv. keep. Qed.
Lemma lseek_keeps fd offset whence st h :
  wp (linux_lseek off_t errno_before fd offset whence st) h (keeps st h).
Proof. unfold linux_lseek. keep. Qed.
Lemma llseek_keeps fd high low result whence st h :
  wp (linux_llseek off_t fd high low result whence st) h (keeps st h).
Proof. unfold linux_llseek. keep. Qed.
Lemma getpgid_keeps process st h : wp (linux_getpgid process st) h (keeps st h).
Proof. unfold linux_getpgid. keep. Qed.

(** The descriptor of the random device is closed on every path. *)
Lemma getrandom_keeps buffer length flags st h : wp (linux_getrandom buffer length flags st) h (keeps st h).
Proof.
  unfold linux_getrandom. cond; [keep|]. cond; [keep|]. cbn [wp].
  intros [e|fd] h1 Hstep; [simpl in Hstep; subst; keep|]. destruct Hstep as [[Hnn Hfree] ->]. cbn [wp].
  intros answer h1 [-> _]. intros _ h1 ->. rewrite delete_insert_id by done. destruct answer; done.
Qed.
End kept.
