(* ===== verification/System.v ===== *)
(** * The emulator as a whole

    The state of all components together and the operations of
    [src/src/linux_syscall.c], [src/src/guest_signal.c] and
    [src/src/guest_thread.c] that work on several of them: the signal calls with
    the guest's memory they read and write, [fork], [clone] and [execve], the end
    of a thread.  There is one memory: [fd_memory] of the descriptors' state. *)

From Stdlib Require Import Ascii String.
From S2P Require Import Prelude Errno Bytes Abi RuntimeRegistry GuestMemory ArmPatch GuestPath HostCalls.
From S2P Require Import Descriptors FileCalls Sockets ElfLoader Process Termios Futex GuestThread GuestSignal.
From S2P Require Import Mmap ThreadLife Trap Time Poll SysCalls.
Open Scope Z_scope.

(** ** Strings and vectors of the guest *)

(** The characters up to the zero; [None] when memory ends before it. *)
Fixpoint load_chars (fuel : nat) (m : gmap Z Z) (a : Z) : option (list ascii) :=
  match fuel with
  | O => None
  | S fuel =>
    match m !! a with
    | None => None
    | Some b =>
      if b =? 0 then Some []
      else match load_chars fuel m (a + 1) with
           | Some text => Some (ascii_of_N (Z.to_N b) :: text)
           | None => None
           end
    end
  end.
Definition load_cstring (m : gmap Z Z) (a : Z) : option (list ascii) := load_chars (S (size m)) m a.

(** A [const char *] argument: the inner [None] is the null pointer. *)
Definition guest_string (m : gmap Z Z) (a : Z) : option (option (list ascii)) :=
  if a =? 0 then Some None
  else match load_cstring m a with Some text => Some (Some text) | None => None end.

(** A vector of strings up to its null pointer. *)
Fixpoint load_vector (fuel : nat) (m : gmap Z Z) (a : Z) : option (list (list ascii)) :=
  match fuel with
  | O => None
  | S fuel =>
    match load32 m a with
    | None => None
    | Some pointer =>
      if pointer =? 0 then Some []
      else match load_cstring m pointer, load_vector fuel m (a + 4) with
           | Some text, Some texts => Some (text :: texts)
           | _, _ => None
           end
    end
  end.

(** ** The state *)

(** [sys_self] is the position of the calling thread in the registry, [None] for a
    thread without a state. *)
Record system := System {
  sys_fds : fd_state;
  sys_paths : path_state;
  sys_memory : guest_memory;
  sys_patches : list patch_record;
  sys_log : list protect_call;
  sys_threads : list thread;
  sys_next_tid : Z;
  sys_waiters : list futex_waiter;
  sys_actions : list linux_sigaction;
  sys_self : option nat }.

Definition sys_bytes (s : system) : gmap Z Z := fd_memory (sys_fds s).

Definition with_fds (st : fd_state) (s : system) : system :=
  System st (sys_paths s) (sys_memory s) (sys_patches s) (sys_log s) (sys_threads s) (sys_next_tid s)
    (sys_waiters s) (sys_actions s) (sys_self s).
Definition with_bytes (m : gmap Z Z) (s : system) : system := with_fds (set_memory (fun _ => m) (sys_fds s)) s.
Definition with_paths (ps : path_state) (s : system) : system :=
  System (sys_fds s) ps (sys_memory s) (sys_patches s) (sys_log s) (sys_threads s) (sys_next_tid s)
    (sys_waiters s) (sys_actions s) (sys_self s).
Definition with_waiters (l : list futex_waiter) (s : system) : system :=
  System (sys_fds s) (sys_paths s) (sys_memory s) (sys_patches s) (sys_log s) (sys_threads s)
    (sys_next_tid s) l (sys_actions s) (sys_self s).

(** The address space, as the memory calls see it. *)
Definition space_of (s : system) : Mmap.space :=
  Space (sys_memory s) (sys_patches s) (sys_bytes s) (sys_log s).
Definition with_space (sp : Mmap.space) (s : system) : system :=
  System (set_memory (fun _ => sp_bytes sp) (sys_fds s)) (sys_paths s) (sp_memory sp) (sp_patches sp)
    (sp_log sp) (sys_threads s) (sys_next_tid s) (sys_waiters s) (sys_actions s) (sys_self s).

(** The process, as the thread calls see it; [self] is where the calling thread is
    afterwards. *)
Definition process_of (s : system) : process :=
  ThreadLife.Process (space_of s) (sys_threads s) (sys_next_tid s) (sys_waiters s).
Definition with_process (p : process) (self : option nat) (s : system) : system :=
  let s := with_space (pr_space p) s in
  System (sys_fds s) (sys_paths s) (sys_memory s) (sys_patches s) (sys_log s) (pr_threads p) (pr_next_tid p)
    (pr_waiters p) (sys_actions s) self.

(** [current_thread ()] *)
Definition current (s : system) : option thread :=
  match sys_self s with Some i => sys_threads s !! i | None => None end.
Definition with_current (t : option thread) (s : system) : system :=
  match sys_self s, t with
  | Some i, Some t =>
    System (sys_fds s) (sys_paths s) (sys_memory s) (sys_patches s) (sys_log s)
      (<[i := t]> (sys_threads s)) (sys_next_tid s) (sys_waiters s) (sys_actions s) (sys_self s)
  | _, _ => s
  end.

(** The signals, as [guest_signal.c] sees them. *)
Definition signals_of (s : system) : signal_state := SignalState (sys_actions s) (current s).
Definition with_signals (st : signal_state) (s : system) : system :=
  let s := with_current (ss_thread st) s in
  System (sys_fds s) (sys_paths s) (sys_memory s) (sys_patches s) (sys_log s) (sys_threads s)
    (sys_next_tid s) (sys_waiters s) (guest_actions st) (sys_self s).

(** How a case of the dispatcher ends: with a value for the guest, or elsewhere. *)
Inductive departure : Type :=
| ProcessExits (status : Z)
| ThreadExits (s : system)
| Execs (arguments environment : list (list ascii))
| Waits (s : system) (deadline : option timespec).
Inductive reply : Type :=
| Value (result : Z) (s : system) (c : ucontext)
| Departs (d : departure).

(** ** The host of the components that are not programs *)

(** What the host answers during one call. *)
Record call_host := CallHost {
  ch_errno : Z;
  ch_stale : errno;
  ch_fs : host_fs;
  ch_trace : bool;
  ch_tty : Z -> tty_host;
  ch_brk : Z -> Z -> mmap_result;
  ch_mmap : mmap_host;
  ch_active_stack : Z;
  ch_exec : exec_host;
  ch_emulator : list ascii;
  ch_clone : clone_host;
  ch_sigaction : Z -> host_action -> option errno;
  ch_sigmask : Z -> option (gset Z) -> option errno;
  ch_sigsuspend : gset Z -> option errno;
  ch_pthread_kill : Z -> option errno;
  ch_time : time_host;
  ch_poll : poll_host;
  ch_mask : gset Z;
  ch_futex : futex_host;
  ch_waiter : Z }.

Section system.
Context `{!HostErrno, !HostSignals, !HostActions}.
Context (PATH_MAX : nat) (ch : call_host).

Definition value (result : Z) (s : system) (c : ucontext) : io reply := Ret (Value result s c).

(** A program on the descriptors as a case of the dispatcher. *)
Definition on_fds (s : system) (c : ucontext) (p : fd_state -> io (Z * fd_state)) : io reply :=
  out <- p (sys_fds s);; value out.1 (with_fds out.2 s) c.

(** [close] of descriptors the emulator has for itself. *)
Fixpoint close_all (fds : list Z) : io unit :=
  match fds with
  | [] => Ret tt
  | fd :: fds => _ <~ Close fd;; close_all fds
  end.

(** ** Signals *)

Definition action_words (a : linux_sigaction) : list Z :=
  [sa_handler a; sa_flags a; sa_restorer a; word0 (sa_mask a); word1 (sa_mask a)].
Definition load_sigaction (m : gmap Z Z) (a : Z) : option linux_sigaction :=
  match load_words m a 5 with
  | Some [handler; flags; restorer; mask0; mask1] =>
      Some (Sigaction handler flags restorer (Words mask0 mask1))
  | _ => None
  end.
Definition load_sigwords (m : gmap Z Z) (a : Z) : option sigwords :=
  match load_words m a 2 with Some [w0; w1] => Some (Words w0 w1) | _ => None end.

(** A structure behind a pointer that may be null. *)
Definition load_optional {A} (load : gmap Z Z -> Z -> option A) (m : gmap Z Z) (a : Z) : io (option A) :=
  if a =? 0 then Ret None else x <- load_or_fault (load m a);; Ret (Some x).

(** The whole [guest_signal_action]: the old action is stored before the new one is
    read. *)
Definition signal_action (s : system) (linux_signal guest_action guest_old_action signal_set_size : Z)
  : io (Z * system) :=
  if negb (signal_set_size =? 8) || (linux_signal <=? 0) || (LINUX_SIGNAL_COUNT <? linux_signal) ||
     (linux_signal_to_host linux_signal =? 0)
  then Ret (host_negative EINVAL, s)
  else
    let s := if negb (guest_old_action =? 0)
             then with_bytes (mem_store (sys_bytes s) guest_old_action
                    (concat_words (action_words (action_of (signals_of s) linux_signal)))) s
             else s in
    action <- load_optional load_sigaction (sys_bytes s) guest_action;;
    let (result, st) := guest_signal_action (ch_sigaction ch) (signals_of s) linux_signal action
                          signal_set_size in
    Ret (result, with_signals st s).

(** The whole [guest_signal_mask]: the old mask is stored before the new one is
    read. *)
Definition signal_mask (s : system) (how guest_set guest_old_set signal_set_size : Z) : io (Z * system) :=
  if negb (signal_set_size =? 8) || (how <? 0) || (2 <? how) then Ret (host_negative EINVAL, s)
  else
    let old := guest_thread_signal_mask_get (current s) in
    let s := if negb (guest_old_set =? 0)
             then with_bytes (mem_store (sys_bytes s) guest_old_set (concat_words [word0 old; word1 old])) s
             else s in
    set <- load_optional load_sigwords (sys_bytes s) guest_set;;
    let '(result, _, st) := guest_signal_mask (ch_sigmask ch) (signals_of s) how set signal_set_size in
    Ret (result, with_signals st s).

Definition signal_suspend (s : system) (guest_set signal_set_size : Z) : io (Z * system) :=
  if (guest_set =? 0) || negb (signal_set_size =? 8) then Ret (host_negative EINVAL, s)
  else
    set <- load_or_fault (load_sigwords (sys_bytes s) guest_set);;
    let (result, st) := guest_signal_suspend (ch_sigsuspend ch) (signals_of s) (Some set) signal_set_size in
    Ret (result, with_signals st s).

Definition signal_altstack (s : system) (c : ucontext) (guest_stack guest_old_stack : Z) : io (Z * system) :=
  out <- load_or_fault (guest_signal_altstack (signals_of s) c (sys_bytes s) guest_stack guest_old_stack);;
  let '(result, st, m) := out in Ret (result, with_signals st (with_bytes m s)).

(** ** Processes and threads *)

Definition linux_fork_process (s : system) (c : ucontext) (child_stack : Z) : io reply :=
  answer <~ Fork;;
  match answer with
  | inl e => value (linux_error e) s c
  | inr child =>
    if child =? 0 then
      pid <~ Identity ProcessId;;
      let (p, closed) := guest_thread_after_fork pid (current s) (process_of s) in
      _ <- close_all closed;;
      value 0 (with_process p (Some 0%nat) s)
        (if negb (child_stack =? 0) then set_gpr 13 child_stack c else c)
    else value (s32 child) s c
  end.

Definition LINUX_CLONE_VFORK : Z := 0x4000.
Definition LINUX_SIGCHLD : Z := 17.

(** [guest_thread_clone] on the system; the caller has a state, which is read for
    the child.  A new thread is put in front of the registry. *)
Definition clone_thread (s : system) (c : ucontext) : io reply :=
  parent <- load_or_fault (current s);;
  out <- load_or_fault (guest_thread_clone (ch_clone ch) (uc_gpr c) parent (sys_threads s) (sys_next_tid s)
                          (sys_bytes s));;
  let '(result, threads, next_tid, m) := out in
  let self := match sys_self s with
              | Some i => Some (i + (length threads - length (sys_threads s)))%nat
              | None => None
              end in
  value result (with_process (ThreadLife.Process (with_patches (sys_patches s) m (space_of s)) threads next_tid
                                (sys_waiters s)) self s) c.

(** The case [LINUX_NR_CLONE]. *)
Definition linux_clone (s : system) (c : ucontext) : io reply :=
  let flags := gpr c 0 in
  if (flags .&~ 0xff =? 0) && negb (flags .& 0xff =? 0) && negb (flags .& 0xff =? LINUX_SIGCHLD)
  then value (host_negative EINVAL) s c
  else if flags .&~ 0xff =? 0 then linux_fork_process s c 0
  else if flags =? LINUX_CLONE_VM .| LINUX_CLONE_VFORK .| LINUX_SIGCHLD
  then linux_fork_process s c (gpr c 1)
  else clone_thread s c.

(** The case [LINUX_NR_EXIT]: [guest_thread_exit] on the system. *)
Definition linux_exit (s : system) (status : Z) : io reply :=
  match guest_thread_exit (ch_futex ch) (sys_self s) status (process_of s) with
  | ProcessExit status => Ret (Departs (ProcessExits status))
  | ThreadEnds None => Fault
  | ThreadEnds (Some (p, closed)) =>
    _ <- close_all closed;; Ret (Departs (ThreadExits (with_process p None s)))
  end.

(** [linux_execve]; the vectors are null in the second test. *)
Definition linux_execve (s : system) (c : ucontext) (guest_path guest_argv guest_envp : Z) : io reply :=
  path <- load_or_fault (guest_string (sys_bytes s) guest_path);;
  with_path (ch_errno ch) (guest_path_resolve PATH_MAX (ch_fs ch) (sys_paths s) path false PATH_MAX)
    (fun e => Value e s c)
    (fun host_path =>
      if (guest_argv =? 0) || (guest_envp =? 0) then value (linux_error EINVAL) s c
      else
        argv <- load_or_fault (load_vector (S (size (sys_bytes s))) (sys_bytes s) guest_argv);;
        envp <- load_or_fault (load_vector (S (size (sys_bytes s))) (sys_bytes s) guest_envp);;
        ended <- load_or_fault (guest_process_exec PATH_MAX (ch_fs ch) (ch_exec ch) (ch_emulator ch) (sys_paths s)
                                  (ch_trace ch) host_path (default [] path) argv envp);;
        match ended with
        | ExecFails e => value (path_error (ch_errno ch) e) s c
        | Executes arguments environment => Ret (Departs (Execs arguments environment))
        end).

(** [linux_futex] on the system.  A wait that blocks registers its semaphore. *)
Definition futex_call (s : system) (c : ucontext) : io reply :=
  let (outcome, waiters) :=
    linux_futex (ch_futex ch) (sys_bytes s) (sys_waiters s) (ch_waiter ch) (gpr c 0) (gpr c 1) (gpr c 2)
      (gpr c 3) (gpr c 4) (gpr c 5) in
  let s := with_waiters waiters s in
  match outcome with
  | FReturn result => value result s c
  | FBlock deadline =>
    Ret (Departs (Waits (with_current (guest_thread_futex_wait_begin (current s) (ch_waiter ch)) s) deadline))
  | FFault => Fault
  end.
End system.

(** ** The strings are read whole *)

Lemma mapped_size (m : gmap Z Z) a n :
  (forall i, (i < n)%nat -> is_Some (m !! (a + Z.of_nat i))) -> (n <= size m)%nat.
Proof.
  intros Hm. rewrite <- (size_dom m (D := gset Z)).
  assert (Hl : length (seqZ a (Z.of_nat n)) = n) by (rewrite length_seqZ; lia).
  rewrite <- Hl. rewrite <- (size_list_to_set (C := gset Z)) by apply NoDup_seqZ.
  apply subseteq_size. intros x. rewrite elem_of_list_to_set, elem_of_seqZ, elem_of_dom. intros Hx.
  replace x with (a + Z.of_nat (Z.to_nat (x - a))) by lia. apply Hm. lia.
Qed.

Lemma load_chars_enough fuel m a text :
  (length text < fuel)%nat -> zero ∉ text -> mem_load m a (S (length text)) = Some (bytes_of text ++ [0]) ->
  load_chars fuel m a = Some text.
Proof.
  revert fuel a. induction text as [|ch text IH]; intros [|fuel] a Hf Hz; simpl in Hf; try lia.
  - simpl. destruct (m !! a); [|done]. by intros [= ->].
  - cbn [length mem_load bytes_of map app load_chars]. destruct (m !! a) as [b|] eqn:Eb; [|done].
    intros Hm.
    destruct (mem_load m (a + 1) (S (length text))) as [bs|] eqn:El; cbn [mem_load] in El, Hm; rewrite El in Hm;
      [|done].
    injection Hm as -> ->.
    apply not_elem_of_cons in Hz as [Hc Hz].
    destruct (Z.of_N (N_of_ascii ch) =? 0) eqn:E; bprop.
    { destruct Hc. rewrite <- (ascii_N_embedding ch). by replace (N_of_ascii ch) with 0%N by lia. }
    rewrite (IH fuel (a + 1)); [|lia|done|done]. by rewrite N2Z.id, ascii_N_embedding.
Qed.

(** A string of the guest is read completely: the fuel of [load_cstring] is
    enough for every text without a zero that is followed by one in memory. *)
Theorem load_cstring_complete (m : gmap Z Z) (a : Z) (text : list ascii) :
  zero ∉ text -> mem_load m a (S (length text)) = Some (bytes_of text ++ [0]) ->
  load_cstring m a = Some text.
Proof.
  intros Hz Hm. apply load_chars_enough; [|done|done].
  assert (S (length text) <= size m)%nat; [|lia]. apply (mapped_size m a). intros i Hi.
  apply mem_load_Some in Hm as [Hl Hm].
  destruct (lookup_lt_is_Some_2 (bytes_of text ++ [0]) i) as [b Hb]; [lia|]. exists b. by apply Hm.
Qed.

(** ** Aliased arguments *)

(** A request of [rt_sigprocmask] to block signals that also asks for the old
    mask in the same place is lost: the old mask is stored before the new set is
    read, and the mask stays as it was whatever the guest asked for. *)
Theorem signal_mask_same_pointer_ignored `{!HostErrno, !HostSignals, !HostActions} (ch : call_host) (s : system) (a : Z)
    (t : thread) :
  SIG_BLOCK = 0 -> (forall how set, ch_sigmask ch how set = None) -> a <> 0 -> current s = Some t ->
  is_u32 (word0 (t_mask t)) -> is_u32 (word1 (t_mask t)) ->
  exists s', signal_mask ch s 0 a a 8 = Ret (0, s') /\
    guest_thread_signal_mask_get (current s') = t_mask t.
Proof.
  intros Hb Hok Ha Ht Hw0 Hw1. unfold signal_mask. cbn [Z.eqb negb orb Z.ltb Z.compare Pos.eqb].
  rewrite (proj2 (Z.eqb_neq _ _) Ha). cbn [negb]. unfold load_optional. rewrite (proj2 (Z.eqb_neq _ _) Ha), Ht.
  cbn [guest_thread_signal_mask_get]. set (words := [word0 (t_mask t); word1 (t_mask t)]).
  assert (Hw : load_sigwords (mem_store (sys_bytes s) a (concat_words words)) a = Some (t_mask t)).
  { assert (Hu : Forall is_u32 words) by (by apply Forall_cons_2; [|apply Forall_singleton]).
    pose proof (load_frame_words (sys_bytes s) a [] words [] 0 2 Hu ltac:(simpl; lia)) as Hl.
    rewrite app_nil_l, app_nil_r in Hl. cbn [length] in Hl. rewrite !Z.add_0_r in Hl.
    unfold load_sigwords. rewrite Hl. by destruct (t_mask t). }
  cbn [sys_bytes with_bytes with_fds sys_fds set_memory fd_memory]. rewrite Hw. cbn [load_or_fault bind].
  unfold guest_signal_mask. rewrite Hok, Hb. cbn [Z.eqb Pos.eqb negb orb Z.ltb Z.compare].
  eexists. split; [reflexivity|]. unfold current in Ht. destruct (sys_self s) as [i|] eqn:Es; [|done].
  assert (Hi : (i < length (sys_threads s))%nat) by (by eapply lookup_lt_Some).
  unfold with_signals, signals_of, current, with_current, with_bytes, with_fds.
  cbn [sys_self sys_threads ss_thread guest_actions]. rewrite Es, Ht.
  cbn [guest_thread_signal_mask_get guest_thread_signal_mask_set sys_self sys_threads ss_thread].
  rewrite list_lookup_insert_eq by done. cbn [t_mask set_mask]. destruct (t_mask t) as [w0 w1].
  unfold blockable. cbn [word0 word1 guest_thread_signal_mask_get set_mask t_mask]. f_equal; [|apply Z.lor_diag].
  apply Z.bits_inj'. intros k Hk. rewrite Z.lor_spec, Z.ldiff_spec by done. by destruct (Z.testbit w0 k).
Qed.
