(* ===== verification/Dispatch.v ===== *)
(** * The system call dispatcher: [linux_syscall_dispatch] of [src/src/linux_syscall.c]

    The switch over the number of a system call, over the state of the whole
    emulator: each case hands registers of the guest to the operation of a
    component and the value goes to register 0.  The switch is a sequence of
    functions, one per stretch of its cases in the order of the source. *)

From Stdlib Require Import Ascii String.
From S2P Require Import Prelude Errno Bytes Abi RuntimeRegistry GuestMemory ArmPatch GuestPath HostCalls.
From S2P Require Import Descriptors FileCalls Sockets ElfLoader Process Termios Futex GuestThread GuestSignal.
From S2P Require Import Mmap ThreadLife Trap Time Poll SysCalls System.
Open Scope Z_scope.

(** ** Numbers *)

Inductive linux_nr : Set :=
| NR_EXIT | NR_FORK | NR_READ | NR_WRITE | NR_OPEN | NR_CLOSE | NR_LINK | NR_UNLINK | NR_EXECVE
| NR_CHDIR | NR_CHMOD | NR_LSEEK | NR_GETPID | NR_ACCESS | NR_KILL | NR_RENAME | NR_MKDIR | NR_RMDIR
| NR_IOCTL | NR_UMASK | NR_SETPGID | NR_SELECT | NR_GETTIMEOFDAY | NR_TIME | NR_PIPE | NR_DUP | NR_BRK
| NR_DUP2 | NR_GETPPID | NR_GETPGRP | NR_SETSID | NR_READLINK | NR_SYMLINK | NR_MUNMAP | NR_SOCKETCALL
| NR_WAIT4 | NR_FSYNC | NR_CLONE | NR_UNAME | NR_FCHDIR | NR_GETPGID | NR_LLSEEK | NR_FLOCK | NR_READV
| NR_WRITEV | NR_FDATASYNC | NR_NEWSELECT | NR_NANOSLEEP | NR_POLL | NR_RT_SIGACTION
| NR_RT_SIGPROCMASK | NR_RT_SIGSUSPEND | NR_PREAD64 | NR_PWRITE64 | NR_SIGALTSTACK | NR_MPROTECT
| NR_GETCWD | NR_VFORK | NR_MMAP2 | NR_FTRUNCATE64 | NR_STAT64 | NR_LSTAT64 | NR_FSTAT64 | NR_GETUID32
| NR_GETGID32 | NR_GETEUID32 | NR_GETEGID32 | NR_SETUID32 | NR_SETGID32 | NR_EXIT_GROUP
| NR_SET_TID_ADDRESS | NR_GETDENTS64 | NR_GETTID | NR_TKILL | NR_FCNTL64 | NR_FUTEX | NR_CLOCK_GETTIME
| NR_CLOCK_GETRES | NR_CLOCK_NANOSLEEP | NR_FSTATFS64 | NR_TGKILL | NR_SOCKET | NR_BIND | NR_CONNECT
| NR_LISTEN | NR_ACCEPT | NR_GETSOCKNAME | NR_GETPEERNAME | NR_SOCKETPAIR | NR_SEND | NR_SENDTO
| NR_RECV | NR_RECVFROM | NR_SHUTDOWN | NR_SETSOCKOPT | NR_GETSOCKOPT | NR_SENDMSG | NR_RECVMSG
| NR_OPENAT | NR_MKDIRAT | NR_FSTATAT64 | NR_UNLINKAT | NR_RENAMEAT | NR_LINKAT | NR_SYMLINKAT
| NR_READLINKAT | NR_FCHMODAT | NR_FACCESSAT | NR_UTIMENSAT | NR_EVENTFD2 | NR_PSELECT6 | NR_PPOLL
| NR_DUP3 | NR_PIPE2 | NR_ACCEPT4 | NR_PRLIMIT64 | NR_GETRANDOM | NR_CLOCK_GETTIME64
| NR_CLOCK_GETRES_TIME64 | NR_CLOCK_NANOSLEEP_TIME64 | NR_PSELECT6_TIME64 | NR_PPOLL_TIME64
| ARM_NR_SET_TLS.

Definition nr_table : list (linux_nr * Z) :=
  [(NR_EXIT, 1); (NR_FORK, 2); (NR_READ, 3); (NR_WRITE, 4); (NR_OPEN, 5); (NR_CLOSE, 6); (NR_LINK, 9);
   (NR_UNLINK, 10); (NR_EXECVE, 11); (NR_CHDIR, 12); (NR_CHMOD, 15); (NR_LSEEK, 19); (NR_GETPID, 20);
   (NR_ACCESS, 33); (NR_KILL, 37); (NR_RENAME, 38); (NR_MKDIR, 39); (NR_RMDIR, 40); (NR_IOCTL, 54);
   (NR_UMASK, 60); (NR_SETPGID, 57); (NR_SELECT, 82); (NR_GETTIMEOFDAY, 78); (NR_TIME, 13);
   (NR_PIPE, 42); (NR_DUP, 41); (NR_BRK, 45); (NR_DUP2, 63); (NR_GETPPID, 64); (NR_GETPGRP, 65);
   (NR_SETSID, 66); (NR_READLINK, 85); (NR_SYMLINK, 83); (NR_MUNMAP, 91); (NR_SOCKETCALL, 102);
   (NR_WAIT4, 114); (NR_FSYNC, 118); (NR_CLONE, 120); (NR_UNAME, 122); (NR_FCHDIR, 133);
   (NR_GETPGID, 132); (NR_LLSEEK, 140); (NR_FLOCK, 143); (NR_READV, 145); (NR_WRITEV, 146);
   (NR_FDATASYNC, 148); (NR_NEWSELECT, 142); (NR_NANOSLEEP, 162); (NR_POLL, 168);
   (NR_RT_SIGACTION, 174); (NR_RT_SIGPROCMASK, 175); (NR_RT_SIGSUSPEND, 179); (NR_PREAD64, 180);
   (NR_PWRITE64, 181); (NR_SIGALTSTACK, 186); (NR_MPROTECT, 125); (NR_GETCWD, 183); (NR_VFORK, 190);
   (NR_MMAP2, 192); (NR_FTRUNCATE64, 194); (NR_STAT64, 195); (NR_LSTAT64, 196); (NR_FSTAT64, 197);
   (NR_GETUID32, 199); (NR_GETGID32, 200); (NR_GETEUID32, 201); (NR_GETEGID32, 202);
   (NR_SETUID32, 213); (NR_SETGID32, 214); (NR_EXIT_GROUP, 248); (NR_SET_TID_ADDRESS, 256);
   (NR_GETDENTS64, 217); (NR_GETTID, 224); (NR_TKILL, 238); (NR_FCNTL64, 221); (NR_FUTEX, 240);
   (NR_CLOCK_GETTIME, 263); (NR_CLOCK_GETRES, 264); (NR_CLOCK_NANOSLEEP, 265); (NR_FSTATFS64, 267);
   (NR_TGKILL, 268); (NR_SOCKET, 281); (NR_BIND, 282); (NR_CONNECT, 283); (NR_LISTEN, 284);
   (NR_ACCEPT, 285); (NR_GETSOCKNAME, 286); (NR_GETPEERNAME, 287); (NR_SOCKETPAIR, 288);
   (NR_SEND, 289); (NR_SENDTO, 290); (NR_RECV, 291); (NR_RECVFROM, 292); (NR_SHUTDOWN, 293);
   (NR_SETSOCKOPT, 294); (NR_GETSOCKOPT, 295); (NR_SENDMSG, 296); (NR_RECVMSG, 297); (NR_OPENAT, 322);
   (NR_MKDIRAT, 323); (NR_FSTATAT64, 327); (NR_UNLINKAT, 328); (NR_RENAMEAT, 329); (NR_LINKAT, 330);
   (NR_SYMLINKAT, 331); (NR_READLINKAT, 332); (NR_FCHMODAT, 333); (NR_FACCESSAT, 334);
   (NR_UTIMENSAT, 348); (NR_EVENTFD2, 356); (NR_PSELECT6, 335); (NR_PPOLL, 336); (NR_DUP3, 358);
   (NR_PIPE2, 359); (NR_ACCEPT4, 366); (NR_PRLIMIT64, 369); (NR_GETRANDOM, 384);
   (NR_CLOCK_GETTIME64, 403); (NR_CLOCK_GETRES_TIME64, 406); (NR_CLOCK_NANOSLEEP_TIME64, 407);
   (NR_PSELECT6_TIME64, 413); (NR_PPOLL_TIME64, 414); (ARM_NR_SET_TLS, 0xf0005)].

Fixpoint find_nr (table : list (linux_nr * Z)) (number : Z) : option linux_nr :=
  match table with
  | [] => None
  | (nr, n) :: table => if number =? n then Some nr else find_nr table number
  end.

(** The case of a number, [None] for the default. *)
Definition nr_of (number : Z) : option linux_nr := find_nr nr_table number.

(** ** The cases *)

Section dispatch.
Context `{!HostErrno, !HostOpen, !HostSeek, !HostMode, !HostSocket, !HostLimits, !HostWait, !HostStatvfs}.
Context `{!HostSignals, !HostActions, !HostTermios, !HostProt, !HostMap, !HostPoll}.
Context (PATH_MAX : nat) (off_t : Z -> Z) (ch : call_host).
Implicit Types (s : system) (c : ucontext).

(** A call on descriptors. *)
Definition fd_case s c (call : fd_call) : io reply :=
  on_fds s c (serve PATH_MAX (ch_fs ch) off_t (ch_errno ch) (sys_paths s) call).

(** A call on a path at an address, and on two of them.  The strings are read when
    the call starts. *)
Definition path_case s c (a : Z) (call : option (list ascii) -> path_call) : io reply :=
  path <- load_or_fault (guest_string (sys_bytes s) a);;
  on_fds s c (serve_path PATH_MAX (ch_fs ch) (ch_errno ch) (sys_paths s) (call path)).
Definition paths_case s c (a b : Z) (call : option (list ascii) -> option (list ascii) -> path_call)
  : io reply :=
  first <- load_or_fault (guest_string (sys_bytes s) a);;
  second <- load_or_fault (guest_string (sys_bytes s) b);;
  on_fds s c (serve_path PATH_MAX (ch_fs ch) (ch_errno ch) (sys_paths s) (call first second)).

(** One host call whose answer is the result. *)
Definition done_case s c (call : host_call (option errno)) : io reply :=
  answer <~ call;; value (done_or_error answer) s c.
Definition value_case s c (call : host_call (errno + Z)) : io reply :=
  answer <~ call;; value (value_or_error answer) s c.
Definition number_case s c (call : host_call Z) : io reply :=
  answer <~ call;; value (s32 answer) s c.

(** A call on the system. *)
Definition system_case c (p : io (Z * system)) : io reply := out <- p;; value out.1 out.2 c.

(** A memory call: [None] is a fault. *)
Definition space_case s c (out : option (Z * Mmap.space)) : io reply :=
  out <- load_or_fault out;; value out.1 (with_space out.2 s) c.
Definition bytes_case s c (out : option (Z * gmap Z Z)) : io reply :=
  out <- load_or_fault out;; value out.1 (with_bytes out.2 s) c.

(** [(int)gpr[i]] *)
Definition int c (i : nat) : Z := s32 (gpr c i).

(** From [LINUX_NR_FORK] to [LINUX_NR_FLOCK]. *)
Definition dispatch_io (nr : linux_nr) s c : option (io reply) :=
  match nr with
  | NR_FORK => Some (linux_fork_process s c 0)
  | NR_READ => Some (fd_case s c (CRead (int c 0) (gpr c 1) (gpr c 2)))
  | NR_WRITE => Some (fd_case s c (CWrite (int c 0) (gpr c 1) (gpr c 2)))
  | NR_PREAD64 =>
      Some (on_fds s c (linux_pread64 off_t (int c 0) (gpr c 1) (gpr c 2) (gpr c 4) (gpr c 5)))
  | NR_PWRITE64 =>
      Some (on_fds s c (linux_pwrite64 off_t (int c 0) (gpr c 1) (gpr c 2) (gpr c 4) (gpr c 5)))
  | NR_FSYNC | NR_FDATASYNC => Some (done_case s c (Fsync (int c 0)))
  | NR_FTRUNCATE64 => Some (done_case s c (Ftruncate (int c 0) (off_t (join64 (gpr c 2) (gpr c 3)))))
  | NR_READV => Some (on_fds s c (linux_readv (int c 0) (gpr c 1) (int c 2)))
  | NR_WRITEV => Some (fd_case s c (CWritev (int c 0) (gpr c 1) (int c 2)))
  | NR_UMASK => Some (number_case s c (Umask (gpr c 0)))
  | NR_FLOCK => Some (on_fds s c (linux_flock (int c 0) (gpr c 1)))
  | _ => None
  end.

(** From [LINUX_NR_OPEN] to [LINUX_NR_UTIMENSAT]. *)
Definition dispatch_paths (nr : linux_nr) s c : option (io reply) :=
  let cwd := LINUX_AT_FDCWD in
  match nr with
  | NR_OPEN => Some (path_case s c (gpr c 0) (fun p => POpen cwd p (gpr c 1) (gpr c 2)))
  | NR_LINK => Some (paths_case s c (gpr c 0) (gpr c 1) (fun p q => PLink cwd p cwd q 0))
  | NR_UNLINK => Some (path_case s c (gpr c 0) (fun p => PUnlink cwd p 0))
  | NR_SYMLINK => Some (paths_case s c (gpr c 0) (gpr c 1) (fun p q => PSymlink p cwd q))
  | NR_RENAME => Some (paths_case s c (gpr c 0) (gpr c 1) (fun p q => PRename cwd p cwd q))
  | NR_MKDIR => Some (path_case s c (gpr c 0) (fun p => PMkdir cwd p (gpr c 1)))
  | NR_RMDIR => Some (path_case s c (gpr c 0) (fun p => PUnlink cwd p LINUX_AT_REMOVEDIR))
  | NR_CHMOD => Some (path_case s c (gpr c 0) (fun p => PChmod cwd p (gpr c 1)))
  | NR_OPENAT => Some (path_case s c (gpr c 1) (fun p => POpen (int c 0) p (gpr c 2) (gpr c 3)))
  | NR_MKDIRAT => Some (path_case s c (gpr c 1) (fun p => PMkdir (int c 0) p (gpr c 2)))
  | NR_UNLINKAT => Some (path_case s c (gpr c 1) (fun p => PUnlink (int c 0) p (gpr c 2)))
  | NR_RENAMEAT => Some (paths_case s c (gpr c 1) (gpr c 3) (fun p q => PRename (int c 0) p (int c 2) q))
  | NR_LINKAT =>
      Some (paths_case s c (gpr c 1) (gpr c 3) (fun p q => PLink (int c 0) p (int c 2) q (gpr c 4)))
  | NR_SYMLINKAT => Some (paths_case s c (gpr c 0) (gpr c 2) (fun p q => PSymlink p (int c 1) q))
  | NR_FCHMODAT => Some (path_case s c (gpr c 1) (fun p => PChmod (int c 0) p (gpr c 2)))
  | NR_FACCESSAT => Some (path_case s c (gpr c 1) (fun p => PFaccess (int c 0) p (gpr c 2)))
  | NR_UTIMENSAT => Some (path_case s c (gpr c 1) (fun p => PUtimens (int c 0) p (gpr c 2) (gpr c 3)))
  | _ => None
  end.

(** [guest_path_chdir] and the case [LINUX_NR_FCHDIR], which change the working
    directory. *)
Definition chdir_case s c (a : Z) : io reply :=
  path <- load_or_fault (guest_string (sys_bytes s) a);;
  match guest_path_chdir PATH_MAX (ch_fs ch) (sys_paths s) path with
  | (Returns (Ok _), ps) => value 0 (with_paths ps s) c
  | (Returns (Err e), ps) => value (path_error (ch_errno ch) e) (with_paths ps s) c
  | (ArrayOverflow, _) => Fault
  end.
Definition fchdir_case s c (fd : Z) : io reply :=
  out <- linux_fchdir PATH_MAX (ch_fs ch) (ch_errno ch) (sys_paths s) fd (sys_fds s);;
  value out.1 (with_paths out.2 s) c.

(** From [LINUX_NR_CLOSE] to [LINUX_NR_PIPE]. *)
Definition dispatch_descriptors (nr : linux_nr) s c : option (io reply) :=
  match nr with
  | NR_CLOSE => Some (fd_case s c (CClose (int c 0)))
  | NR_EXECVE => Some (linux_execve PATH_MAX ch s c (gpr c 0) (gpr c 1) (gpr c 2))
  | NR_CHDIR => Some (chdir_case s c (gpr c 0))
  | NR_LSEEK => Some (on_fds s c (linux_lseek off_t (ch_errno ch) (int c 0) (gpr c 1) (int c 2)))
  | NR_LLSEEK =>
      Some (on_fds s c (linux_llseek off_t (int c 0) (gpr c 1) (gpr c 2) (gpr c 3) (int c 4)))
  | NR_DUP => Some (fd_case s c (CDup (int c 0)))
  | NR_DUP2 => Some (fd_case s c (CDup2 (int c 0) (int c 1)))
  | NR_ACCESS => Some (path_case s c (gpr c 0) (fun p => PAccess p (gpr c 1)))
  | NR_IOCTL =>
      Some (out <- load_or_fault (linux_ioctl (ch_tty ch (int c 0)) (gpr c 1) (gpr c 2) (sys_bytes s));;
            value out.1.1 (with_bytes out.1.2 s) c)
  | NR_PIPE => Some (fd_case s c (CPipe (gpr c 0) 0))
  | _ => None
  end.

(** From [LINUX_NR_GETPPID] to [LINUX_NR_MUNMAP]. *)
Definition dispatch_process (nr : linux_nr) s c : option (io reply) :=
  match nr with
  | NR_GETPPID => Some (number_case s c (Identity ParentId))
  | NR_GETPGRP => Some (number_case s c (Identity ProcessGroup))
  | NR_GETPGID => Some (on_fds s c (linux_getpgid (int c 0)))
  | NR_SETPGID => Some (done_case s c (Setpgid (int c 0) (int c 1)))
  | NR_KILL => Some (on_fds s c (guest_signal_send (int c 0) (int c 1)))
  | NR_SETSID => Some (value_case s c Setsid)
  | NR_BRK =>
      let '(result, memory, m) := guest_brk_set (ch_brk ch) (sys_memory s) (sys_bytes s) (gpr c 0) in
      Some (value (s32 result) (with_space (Space memory (sys_patches s) m (sys_log s)) s) c)
  | NR_MMAP2 =>
      Some (space_case s c (linux_mmap2 off_t (ch_mmap ch) (ch_stale ch) (space_of s) (gpr c 0) (gpr c 1)
                              (gpr c 2) (gpr c 3) (gpr c 4) (gpr c 5)))
  | NR_MPROTECT =>
      Some (space_case s c (linux_mprotect_runtime (ch_mmap ch) (ch_stale ch) (space_of s) (gpr c 0)
                              (gpr c 1) (gpr c 2)))
  | NR_MUNMAP =>
      Some (out <- load_or_fault (linux_munmap_runtime (ch_mmap ch) (current s) (ch_active_stack ch)
                                    (space_of s) (gpr c 0) (gpr c 1));;
            let '(result, sp, t) := out in value result (with_current t (with_space sp s)) c)
  | _ => None
  end.

(** The cases of [linux_socket_syscall]. *)
Definition dispatch_sockets (nr : linux_nr) s c : option (io reply) :=
  match nr with
  | NR_SOCKETCALL | NR_SOCKET | NR_BIND | NR_CONNECT | NR_LISTEN | NR_ACCEPT | NR_GETSOCKNAME
  | NR_GETPEERNAME | NR_SOCKETPAIR | NR_SEND | NR_SENDTO | NR_RECV | NR_RECVFROM | NR_SHUTDOWN
  | NR_SETSOCKOPT | NR_GETSOCKOPT | NR_SENDMSG | NR_RECVMSG | NR_ACCEPT4 =>
      Some (on_fds s c (linux_socket_syscall (gpr c 7) (uc_gpr c)))
  | _ => None
  end.

(** The case [LINUX_NR_GETCWD]. *)
Definition getcwd_case s c (buffer size : Z) : io reply :=
  match guest_path_getcwd (sys_paths s) (Z.to_nat size) with
  | Ok (text, count) =>
      value (Z.of_nat count) (with_bytes (mem_store (sys_bytes s) buffer (bytes_of text ++ [0])) s) c
  | Err e => value (path_error (ch_errno ch) e) s c
  end.

(** From [LINUX_NR_GETRANDOM] to [LINUX_NR_FCNTL64]. *)
Definition dispatch_status (nr : linux_nr) s c : option (io reply) :=
  let cwd := LINUX_AT_FDCWD in
  match nr with
  | NR_GETRANDOM => Some (on_fds s c (linux_getrandom (gpr c 0) (gpr c 1) (gpr c 2)))
  | NR_PRLIMIT64 => Some (on_fds s c (linux_prlimit64 (int c 0) (gpr c 1) (gpr c 2) (gpr c 3)))
  | NR_FSTATFS64 => Some (on_fds s c (linux_fstatfs64 (int c 0) (gpr c 1) (gpr c 2)))
  | NR_WAIT4 => Some (on_fds s c (linux_wait4 (int c 0) (gpr c 1) (gpr c 2) (gpr c 3)))
  | NR_CLONE => Some (linux_clone ch s c)
  | NR_UNAME => Some (on_fds s c (linux_uname (gpr c 0)))
  | NR_FCHDIR => Some (fchdir_case s c (int c 0))
  | NR_GETCWD => Some (getcwd_case s c (gpr c 0) (gpr c 1))
  | NR_VFORK => Some (linux_fork_process s c 0)
  | NR_STAT64 => Some (path_case s c (gpr c 0) (fun p => PStat cwd p (gpr c 1) true))
  | NR_LSTAT64 => Some (path_case s c (gpr c 0) (fun p => PStat cwd p (gpr c 1) false))
  | NR_FSTAT64 => Some (on_fds s c (linux_fstat_fd (int c 0) (gpr c 1)))
  | NR_FSTATAT64 => Some (path_case s c (gpr c 1) (fun p => PFstatat (int c 0) p (gpr c 2) (gpr c 3)))
  (* [guest_path_readlink] resolves and reads as [LINUX_NR_READLINKAT] does *)
  | NR_READLINK => Some (path_case s c (gpr c 0) (fun p => PReadlink cwd p (gpr c 1) (gpr c 2)))
  | NR_READLINKAT => Some (path_case s c (gpr c 1) (fun p => PReadlink (int c 0) p (gpr c 2) (gpr c 3)))
  | NR_GETDENTS64 => Some (fd_case s c (CGetdents (int c 0) (gpr c 1) (gpr c 2)))
  | NR_FCNTL64 => Some (fd_case s c (CFcntl (int c 0) (int c 1) (gpr c 2)))
  | _ => None
  end.

(** From [LINUX_NR_RT_SIGACTION] to [LINUX_NR_TGKILL]. *)
Definition dispatch_signals (nr : linux_nr) s c : option (io reply) :=
  let kill := guest_signal_send_thread (sys_threads s) (ch_pthread_kill ch) in
  match nr with
  | NR_RT_SIGACTION => Some (system_case c (signal_action ch s (int c 0) (gpr c 1) (gpr c 2) (gpr c 3)))
  | NR_RT_SIGPROCMASK => Some (system_case c (signal_mask ch s (int c 0) (gpr c 1) (gpr c 2) (gpr c 3)))
  | NR_RT_SIGSUSPEND => Some (system_case c (signal_suspend ch s (gpr c 0) (gpr c 1)))
  | NR_SIGALTSTACK => Some (system_case c (signal_altstack s c (gpr c 0) (gpr c 1)))
  | NR_TKILL => Some (on_fds s c (kill 0 (int c 0) (int c 1)))
  | NR_TGKILL => Some (on_fds s c (kill (int c 0) (int c 1) (int c 2)))
  | _ => None
  end.

(** The cases of [linux_time_syscall] and [linux_poll_syscall]. *)
Definition dispatch_waits (nr : linux_nr) s c : option (io reply) :=
  match nr with
  | NR_TIME | NR_GETTIMEOFDAY | NR_NANOSLEEP | NR_CLOCK_GETTIME | NR_CLOCK_GETRES | NR_CLOCK_NANOSLEEP
  | NR_CLOCK_GETTIME64 | NR_CLOCK_GETRES_TIME64 | NR_CLOCK_NANOSLEEP_TIME64 =>
      Some (bytes_case s c (linux_time_syscall (ch_time ch) (sys_bytes s) (gpr c 7) (uc_gpr c)))
  | NR_SELECT | NR_NEWSELECT | NR_POLL | NR_PSELECT6 | NR_PPOLL | NR_PSELECT6_TIME64 | NR_PPOLL_TIME64 =>
      Some (out <- load_or_fault (linux_poll_syscall (ch_poll ch)
                     (WaitState (current s) (ch_mask ch) (sys_bytes s)) (gpr c 7) (uc_gpr c));;
            value out.1 (with_current (ws_thread out.2) (with_bytes (ws_bytes out.2) s)) c)
  | _ => None
  end.

(** From [LINUX_NR_GETPID] to [LINUX_ARM_NR_SET_TLS]. *)
Definition dispatch_threads (nr : linux_nr) s c : option (io reply) :=
  match nr with
  | NR_GETPID => Some (number_case s c (Identity ProcessId))
  | NR_GETTID => Some (pid <~ Identity ProcessId;; value (guest_thread_tid pid (current s)) s c)
  | NR_SET_TID_ADDRESS =>
      Some (pid <~ Identity ProcessId;;
            let (result, t) := guest_thread_set_tid_address pid (current s) (gpr c 0) in
            value result (with_current t s) c)
  | NR_FUTEX => Some (futex_call ch s c)
  | NR_GETUID32 => Some (number_case s c (Identity UserId))
  | NR_GETGID32 => Some (number_case s c (Identity GroupId))
  | NR_GETEUID32 => Some (number_case s c (Identity EffectiveUserId))
  | NR_GETEGID32 => Some (number_case s c (Identity EffectiveGroupId))
  | NR_SETUID32 => Some (done_case s c (Setuid (gpr c 0)))
  | NR_SETGID32 => Some (done_case s c (Setgid (gpr c 0)))
  | NR_DUP3 => Some (fd_case s c (CDup3 (int c 0) (int c 1) (gpr c 2)))
  | NR_EVENTFD2 => Some (fd_case s c (CEventfd (gpr c 0) (gpr c 1)))
  | NR_PIPE2 => Some (fd_case s c (CPipe (gpr c 0) (gpr c 1)))
  | NR_EXIT_GROUP => Some (Ret (Departs (ProcessExits (gpr c 0 .& 0xff))))
  | NR_EXIT => Some (linux_exit ch s (gpr c 0 .& 0xff))
  | ARM_NR_SET_TLS => Some (value 0 (with_current (runtime_set_guest_tls (current s) (gpr c 0)) s) c)
  | _ => None
  end.

Definition LINUX_ENOSYS : Z := 38.

(** The switch: the first of the stretches that has the case. *)
Definition linux_switch (number : Z) s c : io reply :=
  match nr_of number with
  | None => value (- LINUX_ENOSYS) s c
  | Some nr =>
    let try (f : linux_nr -> system -> ucontext -> option (io reply)) (otherwise : io reply) :=
      match f nr s c with Some p => p | None => otherwise end in
    try dispatch_io (try dispatch_paths (try dispatch_descriptors (try dispatch_process
      (try dispatch_sockets (try dispatch_status (try dispatch_signals (try dispatch_waits
        (try dispatch_threads (value (- LINUX_ENOSYS) s c)))))))))
  end.

(** [linux_syscall_dispatch]: the state and the context the guest resumes with. *)
Definition linux_syscall_dispatch s c : io (departure + system * ucontext) :=
  let number := gpr c 7 in
  _ <- trace_call (ch_trace ch) number (uc_gpr c);;
  reply <- linux_switch number s c;;
  match reply with
  | Departs d => Ret (inl d)
  | Value result s c =>
    _ <- trace_result (ch_trace ch) (u32 result);;
    Ret (inr (s, set_gpr 0 (u32 result) c))
  end.
End dispatch.

(** ** Every number has its case *)

Section numbers.
Context `{!HostErrno, !HostOpen, !HostSeek, !HostMode, !HostSocket, !HostLimits, !HostWait, !HostStatvfs}.
Context `{!HostSignals, !HostActions, !HostTermios, !HostProt, !HostMap, !HostPoll}.
Context (PATH_MAX : nat) (off_t : Z -> Z) (ch : call_host) (s : system) (c : ucontext).

(** The stretches of the switch, in order. *)
Definition stretches (nr : linux_nr) : list (option (io reply)) :=
  [dispatch_io PATH_MAX off_t ch nr s c; dispatch_paths PATH_MAX ch nr s c;
   dispatch_descriptors PATH_MAX off_t ch nr s c; dispatch_process off_t ch nr s c;
   dispatch_sockets nr s c; dispatch_status PATH_MAX off_t ch nr s c; dispatch_signals ch nr s c;
   dispatch_waits ch nr s c; dispatch_threads PATH_MAX off_t ch nr s c].

(** The cases of a number. *)
Definition cases (nr : linux_nr) : list (io reply) := omap id (stretches nr).

Lemma cases_one nr : exists p, cases nr = [p].
Proof.
  destruct nr; try (by eexists).
  unfold cases, stretches. cbn [dispatch_process].
  destruct (guest_brk_set _ _ _ _) as [[result memory] m]. by eexists.
Qed.

Lemma switch_cases number nr p :
  nr_of number = Some nr -> cases nr = [p] -> linux_switch PATH_MAX off_t ch number s c = p.
Proof.
  intros Hn. unfold linux_switch. rewrite Hn. unfold cases, stretches. cbn [omap list_omap id].
  repeat (match goal with |- context [match ?o with Some p => p | None => _ end] => destruct o end;
    [by intros [= ->]|]).
  done.
Qed.
End numbers.

(** ** What the guest gets back *)

Section registers.
Context `{!HostErrno, !HostOpen, !HostSeek, !HostMode, !HostSocket, !HostLimits, !HostWait, !HostStatvfs}.
Context `{!HostSignals, !HostActions, !HostTermios, !HostProt, !HostMap, !HostPoll}.
Context (PATH_MAX : nat) (off_t : Z -> Z) (ch : call_host).
Implicit Types (s : system) (c : ucontext).

Notation any := (fun _ _ _ => True).

(** The context a case leaves: the one it got, or with the stack of a child. *)
Definition leaves (stack : Z) c (r : reply) : Prop :=
  match r with
  | Value result _ c' => c' = c \/ (result = 0 /\ stack <> 0 /\ c' = set_gpr 13 stack c)
  | Departs _ => True
  end.

Lemma leaves_value stack c result s : ends any (value result s c) (leaves stack c).
Proof. by left. Qed.

Lemma leaves_bind {A} stack c (p : io A) (f : A -> io reply) :
  (forall a, ends any (f a) (leaves stack c)) -> ends any (bind p f) (leaves stack c).
Proof. intros Hf. apply ends_bind. by apply ends_true. Qed.

Lemma leaves_call {B : Set} stack c (call : host_call B) (k : B -> io reply) :
  (forall b, ends any (k b) (leaves stack c)) -> ends any (Call call k) (leaves stack c).
Proof. intros Hk b _. apply Hk. Qed.

Lemma fork_leaves s c stack : ends any (linux_fork_process s c stack) (leaves stack c).
Proof.
  unfold linux_fork_process. apply leaves_call. intros [e|child]; [apply leaves_value|].
  cond; [|apply leaves_value]. apply leaves_call. intros pid.
  destruct (guest_thread_after_fork _ _ _) as [p closed]. apply leaves_bind. intros _.
  destruct (stack =? 0) eqn:Es; bprop; [by left|by right].
Qed.

Lemma leaves_weaken stack c p : ends any p (leaves 0 c) -> ends any p (leaves stack c).
Proof.
  induction p as [r|B call k IH|]; simpl; [|by eauto|done].
  destruct r; simpl; [|done]. intros [?|(_ & ? & _)]; [by left|done].
Qed.

Lemma execve_leaves s c a b d stack : ends any (linux_execve PATH_MAX ch s c a b d) (leaves stack c).
Proof.
  unfold linux_execve. apply leaves_bind. intros path. unfold with_path.
  destruct (guest_path_resolve _ _ _ _ _ _) as [[host_path|e]|]; [|by left|done].
  cond; [apply leaves_value|]. apply leaves_bind. intros argv. apply leaves_bind. intros envp.
  apply leaves_bind. intros [e|arguments environment]; [apply leaves_value|done].
Qed.

Lemma clone_leaves s c : ends any (linux_clone ch s c) (leaves (gpr c 1) c).
Proof.
  unfold linux_clone. cond; [apply leaves_value|]. cond; [apply leaves_weaken, fork_leaves|].
  cond; [apply fork_leaves|]. unfold clone_thread. apply leaves_bind. intros parent.
  apply leaves_bind. intros [[[result threads] next_tid] m]. apply leaves_value.
Qed.

Lemma exit_leaves s c status stack : ends any (linux_exit ch s status) (leaves stack c).
Proof.
  unfold linux_exit. destruct (guest_thread_exit _ _ _ _) as [status'|[[p closed]|]]; [done| |done].
  apply leaves_bind. done.
Qed.

Lemma futex_leaves s c stack : ends any (futex_call ch s c) (leaves stack c).
Proof.
  unfold futex_call. destruct (linux_futex _ _ _ _ _ _ _ _ _ _) as [[result|deadline|] waiters];
    [apply leaves_value|done|done].
Qed.

(** Only [clone] gives a child another stack. *)
Definition child_stack (nr : linux_nr) c : Z := match nr with NR_CLONE => gpr c 1 | _ => 0 end.

Ltac leaves_solve :=
  repeat first
    [ apply leaves_value | apply fork_leaves | apply execve_leaves | apply clone_leaves | apply exit_leaves
    | apply futex_leaves
    | match goal with
      | |- ends _ (match ?x with _ => _ end) _ => destruct x
      | |- ends _ (let '(_, _) := ?x in _) _ => destruct x
      end
    | apply leaves_bind; intros ?
    | apply leaves_call; intros ?
    | exact I ].

Lemma case_leaves nr s c p : p ∈ cases PATH_MAX off_t ch s c nr -> ends any p (leaves (child_stack nr c) c).
Proof.
  destruct (cases_one PATH_MAX off_t ch s c nr) as [q Hq]. rewrite Hq. rewrite list_elem_of_singleton.
  intros ->. revert Hq.
  destruct nr; unfold cases, stretches; cbn [omap list_omap id dispatch_io dispatch_paths dispatch_descriptors
    dispatch_process dispatch_sockets dispatch_status dispatch_signals dispatch_waits dispatch_threads child_stack];
    try (destruct (guest_brk_set _ _ _ _) as [[result memory] m]; cbn [omap list_omap id]);
    intros Hq; injection Hq as <-;
    unfold fd_case, path_case, paths_case, done_case, value_case, number_case, system_case, space_case,
      bytes_case, chdir_case, fchdir_case, getcwd_case, on_fds; leaves_solve.
Qed.

(** An end of the dispatcher that resumes the guest. *)
Definition resumed (stack : Z) s c (out : departure + system * ucontext) : Prop :=
  match out with
  | inl _ => True
  | inr (s', c') => exists result,
      c' = set_gpr 0 (u32 result) c \/ (result = 0 /\ stack <> 0 /\ c' = set_gpr 0 0 (set_gpr 13 stack c))
  end.

Lemma dispatch_resumes s c nr :
  nr_of (gpr c 7) = Some nr ->
  ends any (linux_syscall_dispatch PATH_MAX off_t ch s c) (resumed (child_stack nr c) s c).
Proof.
  intros Hnr. unfold linux_syscall_dispatch. apply ends_bind, ends_true. intros _. apply ends_bind.
  destruct (cases_one PATH_MAX off_t ch s c nr) as [p Hp]. rewrite (switch_cases _ _ _ _ _ _ _ _ Hnr Hp).
  apply ends_mono with (leaves (child_stack nr c) c).
  { eapply case_leaves. rewrite Hp. by apply list_elem_of_singleton. }
  intros [result s' c'|d] Hl; [|done]. apply ends_bind, ends_true. intros _. exists result.
  destruct Hl as [->|(-> & Hs & ->)]; [by left|by right].
Qed.
End registers.

(** A number that has no case is answered with [-ENOSYS] and changes nothing. *)
Lemma unknown_number `{!HostErrno, !HostOpen, !HostSeek, !HostMode, !HostSocket, !HostLimits, !HostWait}
    `{!HostStatvfs, !HostSignals, !HostActions, !HostTermios, !HostProt, !HostMap, !HostPoll} PATH_MAX off_t ch s c :
  nr_of (gpr c 7) = None ->
  ends (fun _ _ _ => True) (linux_syscall_dispatch PATH_MAX off_t ch s c) (fun out =>
    out = inr (s, set_gpr 0 (u32 (- LINUX_ENOSYS)) c)).
Proof.
  intros Hn. unfold linux_syscall_dispatch, linux_switch. rewrite Hn.
  apply ends_bind, ends_true. intros _. cbn [bind value]. apply ends_bind, ends_true. done.
Qed.

Lemma gpr_set_ne i j v c : i <> j -> gpr (set_gpr i v c) j = gpr c j.
Proof. intros Hne. unfold gpr, set_gpr. simpl. by apply nth_insert_ne. Qed.
Lemma gpr_set_eq i v c : (i < length (uc_gpr c))%nat -> gpr (set_gpr i v c) i = v.
Proof. intros Hl. unfold gpr, set_gpr. simpl. by apply nth_insert_eq. Qed.

(** C8: What the guest finds after a system call.  Whatever the call did, the
    guest resumes with its context but for register 0, which holds a word: its
    status, floating point state, mask and all other registers are those it called
    with.  The one exception is the child that [clone] makes with a stack of its
    own: it gets 0 and that stack.  A number outside the switch is answered with
    [-ENOSYS] and leaves the state of the emulator as it was. *)
Theorem dispatch_registers `{!HostErrno, !HostOpen, !HostSeek, !HostMode, !HostSocket, !HostLimits, !HostWait}
    `{!HostStatvfs, !HostSignals, !HostActions, !HostTermios, !HostProt, !HostMap, !HostPoll} (PATH_MAX : nat)
    (off_t : Z -> Z) (ch : call_host) (s s' : system) (c c' : ucontext) (h h' : host) :
  (16 <= length (uc_gpr c))%nat ->
  runs (linux_syscall_dispatch PATH_MAX off_t ch s c) h (inr (s', c')) h' ->
  is_u32 (gpr c' 0) /\ uc_spsr c' = uc_spsr c /\ uc_vfp c' = uc_vfp c /\ uc_sigmask c' = uc_sigmask c /\
  (forall i, i <> 0%nat -> i <> 13%nat -> gpr c' i = gpr c i) /\
  (gpr c' 13 = gpr c 13 \/
   (nr_of (gpr c 7) = Some NR_CLONE /\ gpr c 1 <> 0 /\ gpr c' 13 = gpr c 1 /\ gpr c' 0 = 0)) /\
  (nr_of (gpr c 7) = None -> gpr c' 0 = 4294967258 /\ s' = s).
Proof.
  intros Hl Hrun.
  assert (Hplain : forall v, c' = set_gpr 0 (u32 v) c -> is_u32 (gpr c' 0) /\ uc_spsr c' = uc_spsr c /\
    uc_vfp c' = uc_vfp c /\ uc_sigmask c' = uc_sigmask c /\
    (forall i, i <> 0%nat -> i <> 13%nat -> gpr c' i = gpr c i) /\ gpr c' 13 = gpr c 13 /\ gpr c' 0 = u32 v).
  { intros v ->. rewrite gpr_set_eq by lia. split_and!; try done; [apply u32_is_u32| |].
    - intros i ? _. by apply gpr_set_ne.
    - by apply gpr_set_ne. }
  destruct (nr_of (gpr c 7)) as [nr|] eqn:Hnr.
  - pose proof (ends_runs _ _ _ _ _ (dispatch_resumes PATH_MAX off_t ch s c nr Hnr) Hrun) as [v Hv].
    destruct Hv as [Hv|(-> & Hs & ->)].
    + destruct (Hplain _ Hv) as (? & ? & ? & ? & ? & ? & _). split_and!; try done. by left.
    + destruct nr; try done. simpl in Hs |- *. rewrite gpr_set_eq by (simpl; rewrite length_insert; lia).
      split_and!; try done.
      * intros i ? ?. by rewrite !gpr_set_ne.
      * right. rewrite gpr_set_ne, gpr_set_eq by (done || lia). done.
  - pose proof (ends_runs _ _ _ _ _ (unknown_number PATH_MAX off_t ch s c Hnr) Hrun) as [= -> Hc].
    destruct (Hplain _ Hc) as (? & ? & ? & ? & ? & ? & Hr). split_and!; try done. by left.
Qed.
