(* ===== verification/Confinement.v ===== *)
(** * Confinement: what the dispatcher can make the host do

    The theorems about [linux_syscall_dispatch] that hold of every call at once,
    whatever the guest has put into its registers and memory: the paths the host
    gets, and the agreement of the emulator's tables with the host's
    descriptors. *)

From Stdlib Require Import Ascii String.
From S2P Require Import Prelude Errno Bytes Abi RuntimeRegistry GuestMemory ArmPatch GuestPath HostCalls.
From S2P Require Import Descriptors FileCalls Sockets ElfLoader Process Termios Futex GuestThread GuestSignal.
From S2P Require Import Mmap ThreadLife Trap Time Poll SysCalls System Dispatch.
Open Scope Z_scope.

(** ** Programs without paths *)

(** The names of sockets a host call carries; that of a UNIX socket is a path. *)
Definition socket_names {B : Set} (c : host_call B) : list sockaddr :=
  match c with
  | Bind _ address | Connect _ address | Sendto _ _ _ _ address | Sendmsg _ _ _ _ (Some address) => [address]
  | _ => []
  end.

(** No call of the program has the name of a socket. *)
Definition nameless {A} (p : io A) : Prop :=
  calls (fun _ _ _ => True) (fun _ c => socket_names c = []) p.

(** No call of the program has a path or, unless [sockets] are named, the name of a
    socket. *)
Definition pathless_but `{!HostOpen} {A} (sockets : bool) (p : io A) : Prop :=
  calls (fun _ _ _ => True) (fun _ c => paths c = [] /\ (sockets = false -> socket_names c = [])) p.
Definition pathless `{!HostOpen} {A} (p : io A) : Prop := pathless_but false p.

Ltac pathless :=
  repeat first
    [ exact I | reflexivity
    | progress cbn [calls bind load_or_fault]
    | progress intros ?
    | match goal with
      | |- _ /\ _ => split
      | |- calls _ _ (bind _ _) => apply calls_bind
      | |- calls _ _ (load_or_fault ?x) => destruct x
      | |- calls _ _ (match ?x with _ => _ end) => destruct x
      | |- paths (match ?x with _ => _ end) = [] => destruct x
      | |- socket_names (match ?x with _ => _ end) = [] => destruct x
      end ].

Section pathless.
Context `{!HostErrno, !HostOpen, !HostSeek, !HostSocket, !HostLimits, !HostWait, !HostStatvfs, !HostSignals}.
Context (PATH_MAX : nat) (fs : host_fs) (off_t : Z -> Z) (errno_before : Z) (ps : path_state).
Implicit Types st : fd_state.

Lemma copy_fd_path_pathless source d st : pathless (copy_fd_path source d st).
Proof. unfold pathless, pathless_but, copy_fd_path, close_stream, set_fd_path. pathless. Qed.
Lemma release_pathless fd st : pathless (release_wake_eventfd fd st).
Proof. unfold pathless, pathless_but, release_wake_eventfd. pathless. Qed.
Lemma configure_pipe_pathless r w nonblock cloexec : pathless (configure_pipe r w nonblock cloexec).
Proof. unfold pathless, pathless_but, configure_pipe. pathless. Qed.
Lemma total_length_pathless m vectors count total : pathless (total_length m vectors count total).
Proof.
  unfold pathless, pathless_but. revert vectors total. induction count as [|count IH]; intros; cbn [total_length]; [done|].
  apply calls_bind; [pathless|]. intros len. cond; [done|apply IH].
Qed.
Lemma fill_pathless directory unread buffer capacity used m :
  pathless (fill_entries directory unread buffer capacity used m).
Proof.
  unfold pathless, pathless_but. revert used m. induction unread as [|e unread IH]; intros; cbn [fill_entries]; [pathless|].
  cond; [done|apply IH].
Qed.

(** The calls on descriptors other than the two that open something. *)
Lemma serve_pathless c st :
  match c with COpen _ _ _ _ | CGetdents _ _ _ => False | _ => True end ->
  pathless (serve PATH_MAX fs off_t errno_before ps c st).
Proof.
  unfold pathless, pathless_but. destruct c; intros Hc; try done; cbn [serve];
    unfold linux_close_fd, linux_dup, linux_dup2, linux_dup3, linux_fcntl64, linux_pipe, linux_eventfd2,
      linux_read, linux_write, linux_writev_compat, linux_eventfd_write, host_read, duplicate, linux_lock,
      close_stream;
    repeat first
      [ apply copy_fd_path_pathless | apply release_pathless | apply configure_pipe_pathless
      | apply total_length_pathless | progress pathless ].
Qed.

(** The calls that name a socket: [bind], [connect], [sendto] and [sendmsg], also by
    way of [socketcall]. *)
Definition naming (number : Z) : bool :=
  (number =? LINUX_NR_BIND) || (number =? LINUX_NR_CONNECT) || (number =? LINUX_NR_SENDTO)
  || (number =? LINUX_NR_SENDMSG).
Definition names_sockets (c : ucontext) : bool :=
  naming (if gpr c 7 =? LINUX_NR_SOCKETCALL then socketcall_number (gpr c 0) else gpr c 7).

Lemma address_pathless number a0 a1 a2 st :
  pathless_but (naming number) (address_call number a0 a1 a2 st).
Proof.
  unfold pathless_but, address_call, with_address, storing, naming.
  destruct (number =? LINUX_NR_BIND), (number =? LINUX_NR_CONNECT); pathless; done.
Qed.

Lemma transfer_pathless number a0 a1 a2 a3 a4 a5 st :
  pathless_but (naming number) (transfer number a0 a1 a2 a3 a4 a5 st).
Proof.
  unfold pathless_but, transfer, with_address, storing, naming. destruct (message_flags a3); [|done]. cbv zeta.
  destruct (number =? LINUX_NR_SEND); [pathless|]. destruct (number =? LINUX_NR_RECV); [pathless|].
  destruct (number =? LINUX_NR_SENDTO); [rewrite orb_true_r|]; pathless; done.
Qed.

Lemma message_pathless number a0 a1 a2 st :
  pathless_but (naming number) (message_call number a0 a1 a2 st).
Proof.
  unfold pathless_but, message_call, with_address, naming.
  destruct (number =? LINUX_NR_SENDMSG); [rewrite orb_true_r|]; pathless; done.
Qed.

Lemma switch_pathless number arguments st : pathless_but (naming number) (socket_switch number arguments st).
Proof.
  assert (Hany : forall p : io (Z * fd_state), pathless p -> pathless_but (naming number) p).
  { intros p Hp. eapply calls_mono; [exact Hp| |done]. intros B c [? Hc]. auto. }
  unfold socket_switch. cbv zeta.
  repeat (cond; [first [ apply address_pathless | apply transfer_pathless | apply message_pathless
    | apply Hany; unfold pathless, pathless_but, make_socket, accept_socket, socket_pair, socket_option_call,
        configured, storing, configure_socket; pathless; fail ]|]). done.
Qed.

Lemma socket_pathless c st :
  pathless_but (names_sockets c) (linux_socket_syscall (gpr c 7) (uc_gpr c) st).
Proof.
  unfold linux_socket_syscall, names_sockets. cond; [|apply switch_pathless].
  change (nth 0 (uc_gpr c) 0) with (gpr c 0). cond; [done|].
  apply calls_bind; [destruct (load_words _ _ _); done|]. intros words. apply switch_pathless.
Qed.
End pathless.

(** ** What the host gets *)

(** The paths a call of the dispatcher may have: the random devices of
    [getrandom], a recorded path for [opendir], and otherwise what is allowed to
    the calls on paths; and the name of a socket only when the guest's call is one
    that names [sockets]. *)
Definition path_confined `{!HostOpen} (fs : host_fs) (root : list ascii) (B : Set) (c : host_call B) : Prop :=
  match c with
  | Opendir path => inside root path
  | Open path _ _ => path = chars "/dev/random" \/ path = chars "/dev/urandom" \/ safe_call fs root B c
  | _ => safe_call fs root B c
  end.
Definition confined `{!HostOpen} (fs : host_fs) (root : list ascii) (sockets : bool) (B : Set)
    (c : host_call B) : Prop :=
  path_confined fs root B c /\ (sockets = false -> socket_names c = []).

Lemma safe_confined `{!HostOpen} fs root (B : Set) (c : host_call B) :
  safe_call fs root B c -> path_confined fs root B c.
Proof.
  destruct c; try done; cbn [path_confined]; [by right; right|]. unfold safe_call. cbn [paths].
  rewrite Forall_singleton. intros [->|[missing Hc]]; [by right; left|]. by eapply contained_inside.
Qed.

Section confined.
Context `{!HostErrno, !HostOpen, !HostOpenOk, !HostNofollow, !HostSeek, !HostMode, !HostSocket, !HostLimits}.
Context `{!HostWait, !HostStatvfs, !HostSignals, !HostActions, !HostTermios, !HostProt, !HostMap, !HostPoll}.
Context (PATH_MAX : nat) (off_t : Z -> Z) (ch : call_host).
Implicit Types (s : system) (c : ucontext).

Notation agrees := (lstat_agrees (ch_fs ch)).
Context (sockets : bool).
Notation ok s := (confined (ch_fs ch) (root_path (sys_paths s)) sockets).

(** Every path the tables record is inside the root. *)
Definition paths_inside s : Prop :=
  forall fd p, fd_paths (sys_fds s) !! fd = Some p -> inside (root_path (sys_paths s)) p.

Lemma but_confined {A} s (p : io A) : pathless_but sockets p -> calls agrees (ok s) p.
Proof.
  intros Hp. eapply calls_mono; [exact Hp| |done]. intros B c [Hc Hs]. split; [|done].
  apply safe_confined. unfold safe_call. rewrite Hc. by apply Forall_nil.
Qed.

Lemma pathless_confined {A} s (p : io A) : pathless p -> calls agrees (ok s) p.
Proof.
  intros Hp. apply but_confined. eapply calls_mono; [exact Hp| |done]. intros B c [? Hs]. auto.
Qed.

Lemma serve_path_nameless call st :
  nameless (serve_path PATH_MAX (ch_fs ch) (ch_errno ch) (sys_paths st) call (sys_fds st)).
Proof.
  unfold nameless. destruct call; cbn [serve_path];
    unfold linux_open_path, linux_fstatat64, linux_stat_path, linux_mkdirat, linux_unlinkat, linux_renameat,
      linux_faccessat, linux_access, linux_linkat, linux_symlinkat, linux_chmodat, linux_utimensat,
      linux_readlinkat, set_times, resolving, with_path, finally, set_fd_path; pathless.
Qed.

Lemma value_confined s c result s' : calls agrees (ok s) (value result s' c).
Proof. done. Qed.

Lemma load_confined {A} s (o : option A) : calls agrees (ok s) (load_or_fault o).
Proof. by destruct o. Qed.

Lemma on_fds_confined s c p : calls agrees (ok s) (p (sys_fds s)) -> calls agrees (ok s) (on_fds s c p).
Proof. intros Hp. unfold on_fds. by apply calls_bind. Qed.

Lemma path_call_confined s c call :
  touches_link call = false ->
  calls agrees (ok s) (on_fds s c (serve_path PATH_MAX (ch_fs ch) (ch_errno ch) (sys_paths s) call)).
Proof.
  intros Ht. apply on_fds_confined. eapply calls_mono; [|intros B call' Hb; exact Hb|done].
  apply calls_and; [eapply calls_mono; [by apply serve_path_safe| |done]; intros B call'; apply safe_confined|].
  eapply calls_mono; [apply serve_path_nameless| |done]. auto.
Qed.

Lemma path_case_confined s c a call :
  (forall path, touches_link (call path) = false) ->
  calls agrees (ok s) (path_case PATH_MAX ch s c a call).
Proof. intros Ht. apply calls_bind; [apply load_confined|]. intros path. by apply path_call_confined. Qed.

Lemma paths_case_confined s c a b call :
  (forall p q, touches_link (call p q) = false) ->
  calls agrees (ok s) (paths_case PATH_MAX ch s c a b call).
Proof.
  intros Ht. apply calls_bind; [apply load_confined|]. intros p.
  apply calls_bind; [apply load_confined|]. intros q. by apply path_call_confined.
Qed.

Lemma fd_case_confined s c call :
  paths_inside s -> match call with COpen _ _ _ _ => False | _ => True end ->
  calls agrees (ok s) (fd_case PATH_MAX off_t ch s c call).
Proof.
  intros Hin Hc. apply on_fds_confined.
  destruct call; try done; try (by apply pathless_confined, serve_pathless). cbn [serve].
  unfold linux_getdents64. cond; [done|].
  assert (Hread : forall directory,
    calls agrees (ok s) (read_directory fd buffer capacity directory (sys_fds s))).
  { intros directory. apply calls_bind; [apply pathless_confined, fill_pathless|].
    intros [[[unread used] m] [e|]]; [cond|]; done. }
  destruct (directory_streams (sys_fds s) !! fd); [apply Hread|].
  destruct (fd_paths (sys_fds s) !! fd) as [path|] eqn:Ep; [|done]. split; [split; [by eapply Hin|done]|].
  intros [e|directory] _; [done|apply Hread].
Qed.

Lemma pathless_on_fds s c p : pathless (p (sys_fds s)) -> calls agrees (ok s) (on_fds s c p).
Proof. intros Hp. by apply on_fds_confined, pathless_confined. Qed.

Lemma getrandom_confined s c buffer length flags :
  calls agrees (ok s) (on_fds s c (linux_getrandom buffer length flags)).
Proof.
  apply on_fds_confined. unfold linux_getrandom. cond; [done|]. cond; [done|]. split.
  - split; [|done]. cbn [path_confined]. cond; auto.
  - intros [e|fd] _; [done|]. apply pathless_confined. unfold pathless, pathless_but. pathless.
Qed.

Lemma close_all_pathless fds : pathless (close_all fds).
Proof. unfold pathless, pathless_but. induction fds; [done|]. by split. Qed.

Lemma fork_pathless s c stack : pathless (linux_fork_process s c stack).
Proof.
  unfold pathless, pathless_but, linux_fork_process. split; [done|]. intros [e|child] _; [done|]. cond; [|done].
  split; [done|]. intros pid _. destruct (guest_thread_after_fork _ _ _) as [p closed].
  apply calls_bind; [apply close_all_pathless|done].
Qed.

Lemma clone_pathless s c : pathless (linux_clone ch s c).
Proof.
  unfold pathless, pathless_but, linux_clone, clone_thread. repeat (cond; [done || apply fork_pathless|]). pathless.
Qed.

Lemma exit_pathless s status : pathless (linux_exit ch s status).
Proof.
  unfold pathless, pathless_but, linux_exit. destruct (guest_thread_exit _ _ _ _) as [?|[[p closed]|]]; [done| |done].
  apply calls_bind; [apply close_all_pathless|done].
Qed.

Lemma execve_pathless s c a b d : pathless (linux_execve PATH_MAX ch s c a b d).
Proof. unfold pathless, pathless_but, linux_execve, with_path. pathless. Qed.

Lemma futex_pathless s c : pathless (futex_call ch s c).
Proof. unfold pathless, pathless_but, futex_call. pathless. Qed.

Lemma socket_confined s c :
  names_sockets c = sockets -> calls agrees (ok s) (on_fds s c (linux_socket_syscall (gpr c 7) (uc_gpr c))).
Proof. intros Hs. apply on_fds_confined, but_confined. rewrite <- Hs. apply socket_pathless. Qed.

(** The call [utimensat] that lets the host follow a link. *)
Definition follows_link c : bool :=
  (gpr c 7 =? 348) && (gpr c 2 =? 0) && has (gpr c 3) LINUX_AT_SYMLINK_NOFOLLOW.

Ltac open_case :=
  first
    [ apply path_case_confined; done
    | apply paths_case_confined; done
    | apply fd_case_confined; done
    | apply getrandom_confined
    | apply pathless_confined;
      first [ apply fork_pathless | apply clone_pathless | apply exit_pathless | apply execve_pathless
            | apply futex_pathless ]
    | apply socket_confined; assumption
    | apply pathless_confined;
      unfold pathless, pathless_but, on_fds, chdir_case, fchdir_case, number_case, done_case, value_case, bytes_case,
        system_case, space_case, getcwd_case, signal_action, signal_mask, signal_suspend, signal_altstack,
        load_optional, linux_fchdir, linux_lseek, linux_llseek, linux_pread64, linux_pwrite64, linux_readv,
        linux_flock, linux_getpgid, linux_fstat_fd, linux_fstatfs64, linux_uname, linux_wait4,
        linux_prlimit64, guest_signal_send, guest_signal_send_thread;
      pathless; fail ].

Lemma utimensat_number n : nr_of n = Some NR_UTIMENSAT -> n = 348.
Proof.
  unfold nr_of, nr_table. cbn [find_nr]. repeat (cond; [try discriminate; intros _; by bprop|]). done.
Qed.

Lemma case_confined nr s c p :
  paths_inside s -> nr_of (gpr c 7) = Some nr -> follows_link c = false -> names_sockets c = sockets ->
  p ∈ cases PATH_MAX off_t ch s c nr -> calls agrees (ok s) p.
Proof.
  intros Hin Hnr Hf Hns. destruct (cases_one PATH_MAX off_t ch s c nr) as [q Hq]. rewrite Hq.
  rewrite list_elem_of_singleton. intros ->. revert Hq.
  destruct nr; unfold cases, stretches; cbn [omap list_omap id dispatch_io dispatch_paths dispatch_descriptors
    dispatch_process dispatch_sockets dispatch_status dispatch_signals dispatch_waits dispatch_threads];
    try (destruct (guest_brk_set _ _ _ _) as [[result memory] m]; cbn [omap list_omap id]);
    intros Hq; injection Hq as <-; try open_case.
  apply path_case_confined. intros path. unfold follows_link in Hf. simpl.
  by rewrite (utimensat_number _ Hnr) in Hf.
Qed.

Lemma trace_pathless enabled message : pathless (write_message enabled message).
Proof. unfold write_message. by destruct enabled. Qed.

Lemma dispatch_confined s c :
  paths_inside s -> follows_link c = false -> names_sockets c = sockets ->
  calls agrees (ok s) (linux_syscall_dispatch PATH_MAX off_t ch s c).
Proof.
  intros Hin Hf Hns. apply calls_bind; [apply pathless_confined, trace_pathless|]. intros _.
  apply calls_bind.
  - destruct (nr_of (gpr c 7)) as [nr|] eqn:Hnr.
    + destruct (cases_one PATH_MAX off_t ch s c nr) as [p Hp]. rewrite (switch_cases _ _ _ _ _ _ _ _ Hnr Hp).
      eapply case_confined; [done|done|done|done|]. rewrite Hp. by apply list_elem_of_singleton.
    + unfold linux_switch. by rewrite Hnr.
  - intros [result s' c'|d]; [|done]. apply calls_bind; [apply pathless_confined, trace_pathless|done].
Qed.
End confined.

(** C4: Whatever the registers and the memory of the guest hold, and whatever the
    host answers, every path that a system call hands to the host, other than the
    name of a UNIX socket, is the root, the null device or a canonical path below
    the root on which the host meets no symbolic link (the end may be one where the
    host does not follow it); [opendir] gets a path that was recorded when it was
    opened, and [getrandom] opens the random devices.  Names of sockets reach the
    host from [bind], [connect], [sendto] and [sendmsg] only; a UNIX one is not
    resolved below the root.  The theorem excepts [utimensat] with [AT_SYMLINK_NOFOLLOW] and
    no times, needs a host that defines [O_NOFOLLOW], and rests on a file system that
    answers [lstat] alike during the call.  What [guest_path.c] itself inspects
    while it resolves a path, and the files [execve] reads, are not calls here. *)
Theorem dispatch_calls_confined
    `{!HostErrno, !HostOpen, !HostOpenOk, !HostNofollow, !HostSeek, !HostMode, !HostSocket, !HostLimits}
    `{!HostWait, !HostStatvfs, !HostSignals, !HostActions, !HostTermios, !HostProt, !HostMap, !HostPoll} (PATH_MAX : nat)
    (off_t : Z -> Z) (ch : call_host) (s : system) (c : ucontext) (h : host) :
  tables_wf (root_path (sys_paths s)) None (sys_fds s) h -> follows_link c = false ->
  calls (lstat_agrees (ch_fs ch)) (confined (ch_fs ch) (root_path (sys_paths s)) (names_sockets c))
    (linux_syscall_dispatch PATH_MAX off_t ch s c).
Proof. intros [Hp _ _ _ _ _] Hf. apply dispatch_confined; [|done|done]. intros fd p Hfd. by destruct (Hp fd p Hfd) as (_ & ? & _). Qed.

(** ** The tables and the host *)

Section tables.
Context `{!HostErrno, !HostErrnoOk, !HostOpen, !HostSeek, !HostMode, !HostSocket, !HostLimits, !HostWait}.
Context `{!HostStatvfs, !HostSignals, !HostActions, !HostTermios, !HostProt, !HostMap, !HostPoll}.
Context (PATH_MAX : nat) (off_t : Z -> Z) (ch : call_host) (root : list ascii).
Implicit Types (s : system) (c : ucontext) (h : host).

Notation wf := (tables_wf root None).

Lemma wf_same st st' h : Sockets.same_tables st st' -> wf st h -> wf st' h.
Proof.
  intros (Hp & Hs & He) []. split; rewrite ?Hp, ?Hs, ?He; auto.
Qed.

(** The state after a case: the tables agree with the host, the root is the same. *)
Definition in_step s h : Prop := wf (sys_fds s) h /\ root_path (sys_paths s) = root.
Definition in_step_reply (r : reply) h : Prop :=
  match r with
  | Value _ s _ | Departs (ThreadExits s) | Departs (Waits s _) => in_step s h
  | Departs (ProcessExits _) | Departs (Execs _ _) => True
  end.

Lemma good_memory s s' h f :
  in_step s h -> sys_fds s' = set_memory f (sys_fds s) -> root_path (sys_paths s') = root_path (sys_paths s) ->
  in_step s' h.
Proof. intros [Hwf Hr] Hfds Hps. split; [|congruence]. rewrite Hfds. by apply wf_set_memory. Qed.

Lemma good_tables s s' h : in_step s h -> sys_fds s' = sys_fds s -> sys_paths s' = sys_paths s -> in_step s' h.
Proof. intros [Hwf Hr] Hfds Hps. split; congruence. Qed.

Lemma value_good s c result h : in_step s h -> wp (value result s c) h in_step_reply.
Proof. done. Qed.

Lemma on_fds_good s c p h :
  in_step s h -> wp (p (sys_fds s)) h (fun out h' => wf out.2 h') -> wp (on_fds s c p) h in_step_reply.
Proof. intros [_ Hr] Hp. apply wp_bind. eapply wp_mono; [exact Hp|]. intros [r st] h' Hwf. by split. Qed.

Lemma keeps_good s c p h :
  in_step s h -> wp (p (sys_fds s)) h (keeps (sys_fds s) h) -> wp (on_fds s c p) h in_step_reply.
Proof.
  intros Hg Hp. apply on_fds_good; [done|]. eapply wp_mono; [exact Hp|].
  intros [r st] h' [-> Ht]. eapply wf_same; [exact Ht|apply Hg].
Qed.

Lemma fd_case_good s c call h :
  in_step s h -> Forall (fun fd => ~ internal (sys_fds s) fd) (named call) ->
  wp (fd_case PATH_MAX off_t ch s c call) h in_step_reply.
Proof.
  intros Hg Hn. pose proof Hg as [Hwf Hr]. apply on_fds_good; [done|].
  destruct (abs_exists (sys_fds s) h) as [v Hv]. eapply wp_mono.
  - apply (serve_ok PATH_MAX (ch_fs ch) off_t (ch_errno ch) (sys_paths s)); [by rewrite Hr|exact Hv|exact Hn].
  - intros [r st] h' [Hwf' _]. by rewrite Hr in Hwf'.
Qed.

Lemma path_keeps fs e ps call st h :
  match call with POpen _ _ _ _ => False | _ => True end ->
  wp (serve_path PATH_MAX fs e ps call st) h (keeps st h).
Proof.
  destruct call; intros Hc; try done; cbn [serve_path];
    unfold linux_fstatat64, linux_stat_path, linux_mkdirat, linux_unlinkat, linux_renameat, linux_faccessat,
      linux_access, linux_linkat, linux_symlinkat, linux_chmodat, linux_utimensat, linux_readlinkat, set_times,
      resolving, with_path, finally; keep.
Qed.

Lemma path_serve_good s c call h :
  in_step s h -> wp (on_fds s c (serve_path PATH_MAX (ch_fs ch) (ch_errno ch) (sys_paths s) call)) h in_step_reply.
Proof.
  intros Hg. destruct call; try (by apply keeps_good, path_keeps).
  pose proof Hg as [Hwf Hr]. apply on_fds_good; [done|]. destruct (abs_exists (sys_fds s) h) as [v Hv].
  cbn [serve_path]. eapply wp_mono.
  - apply open_ok; [by rewrite Hr|exact Hv].
  - intros [r st] h' [Hwf' _]. by rewrite Hr in Hwf'.
Qed.

Lemma load_good {A} (o : option A) (f : A -> io reply) h :
  (forall a, o = Some a -> wp (f a) h in_step_reply) -> wp (bind (load_or_fault o) f) h in_step_reply.
Proof. intros Hf. destruct o as [a|]; [by apply Hf|done]. Qed.

Lemma path_case_good s c a call h : in_step s h -> wp (path_case PATH_MAX ch s c a call) h in_step_reply.
Proof. intros Hg. apply load_good. intros path _. by apply path_serve_good. Qed.
Lemma paths_case_good s c a b call h : in_step s h -> wp (paths_case PATH_MAX ch s c a b call) h in_step_reply.
Proof. intros Hg. apply load_good. intros p _. apply load_good. intros q _. by apply path_serve_good. Qed.

Lemma socket_good s c number arguments h :
  in_step s h -> wp (on_fds s c (linux_socket_syscall number arguments)) h in_step_reply.
Proof.
  intros Hg. pose proof Hg as [Hwf _]. apply on_fds_good; [done|].
  eapply wp_mono; [apply socket_syscall_ok|]. intros [r st] h' (Ht & Hm). eapply wf_same; [exact Ht|].
  unfold socket_made in Hm. cbn [fst snd] in Hm. destruct (r <? 0); [by rewrite Hm|].
  destruct (call_makes _ _ _) as [|pointer|].
  - destruct Hm as [[_ Hf] ->]. by apply wf_fresh.
  - destruct Hm as (_ & a & b & [_ Ha] & [_ Hb] & Hne & -> & _).
    apply wf_fresh; [apply wf_fresh; done| |done]. by rewrite lookup_insert_ne.
  - by rewrite Hm.
Qed.

(** The pipes of the threads are nothing the tables know of. *)
Definition pipes_private s : Prop :=
  forall fd, fd ∈ flat_map open_descriptors (sys_threads s) ->
    fd_paths (sys_fds s) !! fd = None /\ eventfd_write_peers (sys_fds s) !! fd = None /\
    directory_streams (sys_fds s) !! fd = None /\ ~ internal (sys_fds s) fd.

Lemma close_all_wf fds st h :
  wf st h ->
  (forall fd, fd ∈ fds -> fd_paths st !! fd = None /\ eventfd_write_peers st !! fd = None /\
     directory_streams st !! fd = None /\ ~ internal st fd) ->
  wp (close_all fds) h (fun _ h' => wf st h').
Proof.
  revert h. induction fds as [|fd fds IH]; intros h Hwf Hp; [done|]. cbn [close_all wp]. intros b h' ->.
  apply IH; [|intros x Hx; apply Hp; by right]. destruct (Hp fd) as (? & ? & ? & ?); [left|]. by apply wf_close.
Qed.

Lemma fork_good s c stack h :
  in_step s h -> pipes_private s -> wp (linux_fork_process s c stack) h in_step_reply.
Proof.
  intros [Hwf Hr] Hp. unfold linux_fork_process. cbn [wp]. intros [e|child] h1 Hs; simpl in Hs; subst h1.
  { by split. }
  cond; [|by split]. cbn [wp]. intros pid h1 Hs. simpl in Hs. subst h1.
  cbn [guest_thread_after_fork process_of]. apply wp_bind. eapply wp_mono; [by apply (close_all_wf _ (sys_fds s))|].
  simpl. intros _ h1 Hwf1. split; [|done]. cbn [with_process sys_fds with_space]. by apply wf_set_memory.
Qed.

Lemma clone_good s c h : in_step s h -> pipes_private s -> wp (linux_clone ch s c) h in_step_reply.
Proof.
  intros Hg Hp. unfold linux_clone. cond; [done|]. cond; [by apply fork_good|]. cond; [by apply fork_good|].
  unfold clone_thread. apply load_good. intros parent _. apply load_good.
  intros [[[result threads] next_tid] m] _. apply value_good. by eapply good_memory.
Qed.

Lemma exit_good s status h : in_step s h -> pipes_private s -> wp (linux_exit ch s status) h in_step_reply.
Proof.
  intros [Hwf Hr] Hp. unfold linux_exit, guest_thread_exit. destruct (sys_self s) as [i|]; [|done].
  cbn [process_of pr_threads]. destruct (sys_threads s !! i) as [t|] eqn:Et; [|done]. cond; [done|].
  assert (Hc : forall fd, fd ∈ open_descriptors t -> fd ∈ flat_map open_descriptors (sys_threads s)).
  { intros fd Hfd. apply list_elem_of_In, in_flat_map. exists t. split; apply list_elem_of_In; [|done].
    by eapply list_elem_of_lookup_2. }
  destruct (finish_guest_thread _ _ _ _) as [[p closed]|] eqn:Ef; [|done].
  assert (closed = open_descriptors t) as ->.
  { unfold finish_guest_thread in Ef. cond_in Ef; [by injection Ef as _ <-|].
    destruct (load32 _ _); [|done]. destruct (linux_futex_wake _ _ _ _ _). by injection Ef as _ <-. }
  apply wp_bind. eapply wp_mono; [apply (close_all_wf _ (sys_fds s)); [exact Hwf|]; auto|].
  simpl. intros _ h1 Hwf1. split; [|done]. cbn [with_process sys_fds with_space]. by apply wf_set_memory.
Qed.

Lemma execve_good s c a b d h : in_step s h -> wp (linux_execve PATH_MAX ch s c a b d) h in_step_reply.
Proof.
  intros Hg. unfold linux_execve, with_path. apply load_good. intros path _.
  destruct (guest_path_resolve _ _ _ _ _ _) as [[p|e]|]; [|done|done]. cond; [done|].
  apply load_good. intros argv _. apply load_good. intros envp _. apply load_good. by intros [] _.
Qed.

Lemma current_good s t h : in_step s h -> in_step (with_current t s) h.
Proof. intros Hg. unfold with_current. destruct (sys_self s), t; done. Qed.

Lemma signals_good s st h : in_step s h -> in_step (with_signals st s) h.
Proof. intros Hg%(current_good s (ss_thread st)). done. Qed.

Lemma bytes_good s m h : in_step s h -> in_step (with_bytes m s) h.
Proof. intros Hg. by eapply good_memory. Qed.

Lemma futex_good s c h : in_step s h -> wp (futex_call ch s c) h in_step_reply.
Proof.
  intros Hg. unfold futex_call. destruct (linux_futex _ _ _ _ _ _ _ _ _ _) as [[result|deadline|] waiters].
  - done.
  - by apply current_good.
  - done.
Qed.

Lemma chdir_root ps path : root_path (guest_path_chdir PATH_MAX (ch_fs ch) ps path).2 = root_path ps.
Proof. unfold guest_path_chdir. repeat case_match; done. Qed.
Lemma fchdir_root ps path : root_path (guest_path_fchdir PATH_MAX (ch_fs ch) ps path).2 = root_path ps.
Proof. unfold guest_path_fchdir. repeat case_match; done || apply chdir_root. Qed.

Lemma chdir_good s c a h : in_step s h -> wp (chdir_case PATH_MAX ch s c a) h in_step_reply.
Proof.
  intros [Hwf Hr]. apply load_good. intros path _.
  pose proof (chdir_root (sys_paths s) path) as Hc. destruct (guest_path_chdir _ _ _ _) as [[[]|] ps]; [| |done].
  all: split; [done|]; simpl in *; congruence.
Qed.

Lemma fchdir_good s c fd h : in_step s h -> wp (fchdir_case PATH_MAX ch s c fd) h in_step_reply.
Proof.
  intros [Hwf Hr]. unfold fchdir_case, linux_fchdir.
  destruct (if tracked fd then _ else _) as [path|]; [|done].
  pose proof (fchdir_root (sys_paths s) (Some path)) as Hc.
  destruct (guest_path_fchdir _ _ _ _) as [[[]|] ps]; [| |done].
  all: split; [done|]; simpl in *; congruence.
Qed.

(** A call that gives a new state without a host call. *)
Lemma system_case_good s c p h :
  in_step s h -> wp p h (fun out h' => in_step out.2 h') -> wp (system_case c p) h in_step_reply.
Proof. intros Hg Hp. by apply wp_bind. Qed.

Lemma optional_load {A} load m a h (Q : option A -> host -> Prop) :
  (forall o, Q o h) -> wp (load_optional load m a) h Q.
Proof. intros HQ. unfold load_optional. cond; [apply HQ|]. destruct (load m a); [apply HQ|done]. Qed.

Lemma action_good s sig a b size h : in_step s h ->
  wp (signal_action ch s sig a b size) h (fun out h' => in_step out.2 h').
Proof.
  intros Hg. unfold signal_action. cond; [done|]. apply wp_bind, optional_load. intros action.
  destruct (guest_signal_action _ _ _ _ _) as [result st]. apply signals_good. cond; [by apply bytes_good|done].
Qed.
Lemma mask_good s how a b size h : in_step s h ->
  wp (signal_mask ch s how a b size) h (fun out h' => in_step out.2 h').
Proof.
  intros Hg. unfold signal_mask. cond; [done|]. apply wp_bind, optional_load. intros set.
  destruct (guest_signal_mask _ _ _ _ _) as [[result old] st]. apply signals_good. cond; [by apply bytes_good|done].
Qed.
Lemma suspend_good s a size h : in_step s h ->
  wp (signal_suspend ch s a size) h (fun out h' => in_step out.2 h').
Proof.
  intros Hg. unfold signal_suspend. cond; [done|]. apply wp_bind.
  destruct (load_sigwords _ _) as [set|]; [|done]. cbn [load_or_fault wp].
  destruct (guest_signal_suspend _ _ _ _) as [result st]. by apply signals_good.
Qed.
Lemma altstack_good s c a b h : in_step s h ->
  wp (signal_altstack s c a b) h (fun out h' => in_step out.2 h').
Proof.
  intros Hg. unfold signal_altstack. apply wp_bind.
  destruct (guest_signal_altstack _ _ _ _ _) as [[[result st] m]|]; [|done]. by apply signals_good, bytes_good.
Qed.

Lemma space_good s sp h : in_step s h -> in_step (with_space sp s) h.
Proof. intros Hg. by eapply good_memory. Qed.

(** The descriptors a call names in its registers. *)
Definition names (nr : linux_nr) c : list Z :=
  match nr with
  | NR_READ | NR_WRITE | NR_WRITEV | NR_CLOSE | NR_DUP | NR_GETDENTS64 | NR_FCNTL64 => [int c 0]
  | NR_DUP2 | NR_DUP3 => [int c 0; int c 1]
  | _ => []
  end.

Ltac table_case :=
  first
    [ apply path_case_good; assumption
    | apply paths_case_good; assumption
    | apply fd_case_good; [assumption|]; simpl in *; first [assumption | by apply Forall_nil]
    | apply socket_good; assumption
    | apply fork_good; assumption
    | apply clone_good; assumption
    | apply exit_good; assumption
    | apply execve_good; assumption
    | apply futex_good; assumption
    | apply chdir_good; assumption
    | apply fchdir_good; assumption
    | apply keeps_good; [assumption|];
      first [ apply prlimit_keeps | apply fstatfs_keeps | apply fstat_keeps | apply wait_keeps | apply uname_keeps
            | apply flock_keeps | apply send_keeps | apply send_thread_keeps | apply pread_keeps
            | apply pwrite_keeps | apply readv_keeps | apply lseek_keeps | apply llseek_keeps
            | apply getpgid_keeps | apply getrandom_keeps ]
    | eapply system_case_good; [eassumption|];
      first [ apply action_good | apply mask_good | apply suspend_good | apply altstack_good ]; assumption
    | unfold done_case, value_case, number_case; cbn [wp]; intros ? ? ->;
      repeat apply current_good; assumption
    | unfold getcwd_case; destruct (guest_path_getcwd _ _) as [[]|]; [by apply value_good, bytes_good|assumption]
    | unfold space_case, bytes_case; apply load_good; intros ? _; repeat case_match; apply value_good;
      repeat first [ assumption | apply current_good | apply bytes_good | apply space_good ]
    | apply value_good; repeat first [ assumption | apply current_good | apply space_good ]
    | exact I ].

Lemma case_good nr s c p h :
  in_step s h -> pipes_private s -> Forall (fun fd => ~ internal (sys_fds s) fd) (names nr c) ->
  p ∈ cases PATH_MAX off_t ch s c nr -> wp p h in_step_reply.
Proof.
  intros Hg Hpp Hn. destruct (cases_one PATH_MAX off_t ch s c nr) as [q Hq]. rewrite Hq.
  rewrite list_elem_of_singleton. intros ->. revert Hq.
  destruct nr; unfold cases, stretches; cbn [omap list_omap id dispatch_io dispatch_paths dispatch_descriptors
    dispatch_process dispatch_sockets dispatch_status dispatch_signals dispatch_waits dispatch_threads];
    try (destruct (guest_brk_set _ _ _ _) as [[result memory] m]; cbn [omap list_omap id]);
    intros Hq; injection Hq as <-; table_case.
Qed.

Lemma trace_good {A} enabled message (f : unit -> io A) h Q :
  wp (f tt) h Q -> wp (bind (write_message enabled message) f) h Q.
Proof. intros Hf. unfold write_message. destruct enabled; [|done]. cbn [bind wp]. by intros b h' [-> _]. Qed.

(** The state after a call. *)
Definition in_step_after (out : departure + system * ucontext) h : Prop :=
  match out with
  | inr (s, _) | inl (ThreadExits s) | inl (Waits s _) => in_step s h
  | inl (ProcessExits _) | inl (Execs _ _) => True
  end.

Lemma dispatch_good s c h :
  in_step s h -> pipes_private s ->
  (forall nr, nr_of (gpr c 7) = Some nr -> Forall (fun fd => ~ internal (sys_fds s) fd) (names nr c)) ->
  wp (linux_syscall_dispatch PATH_MAX off_t ch s c) h in_step_after.
Proof.
  intros Hg Hpp Hn. unfold linux_syscall_dispatch, trace_call. apply trace_good. apply wp_bind.
  apply wp_mono with in_step_reply.
  - destruct (nr_of (gpr c 7)) as [nr|] eqn:Hnr.
    + destruct (cases_one PATH_MAX off_t ch s c nr) as [p Hp]. rewrite (switch_cases _ _ _ _ _ _ _ _ Hnr Hp).
      eapply case_good; [done|done|by apply Hn|]. rewrite Hp. by apply list_elem_of_singleton.
    + unfold linux_switch. by rewrite Hnr.
  - intros [result s' c'|d] h' Hr; [|by destruct d]. by apply trace_good.
Qed.
End tables.

(** The emulator's tables and the host's descriptors stay in step under every
    system call.  When the descriptors a call names are not among those the
    emulator keeps for itself, and the pipes of its threads are not in the tables,
    then whatever the 123 calls do, and whether the call returns, ends the thread
    or blocks: every recorded path is still inside the same root and the one its
    descriptor was opened with, every eventfd still has its pipe, and every
    directory stream its directory. *)
Theorem dispatch_keeps_tables
    `{!HostErrno, !HostErrnoOk, !HostOpen, !HostSeek, !HostMode, !HostSocket, !HostLimits, !HostWait}
    `{!HostStatvfs, !HostSignals, !HostActions, !HostTermios, !HostProt, !HostMap, !HostPoll} (PATH_MAX : nat)
    (off_t : Z -> Z) (ch : call_host) (s : system) (c : ucontext) (h h' : host)
    (out : departure + system * ucontext) :
  tables_wf (root_path (sys_paths s)) None (sys_fds s) h -> pipes_private s ->
  (forall nr, nr_of (gpr c 7) = Some nr -> Forall (fun fd => ~ internal (sys_fds s) fd) (names nr c)) ->
  runs (linux_syscall_dispatch PATH_MAX off_t ch s c) h out h' ->
  in_step_after (root_path (sys_paths s)) out h'.
Proof.
  intros Hwf Hpp Hn. apply wp_runs. by apply dispatch_good.
Qed.

(** ** Witnesses *)

Module DispatchExamples.
#[local] Existing Instance ExampleErrno.host_errno.
#[local] Existing Instance ExampleErrno.host_errno_ok.
#[local] Existing Instance example_open.
#[local] Existing Instance example_open_ok.
#[local] Existing Instance FileCallExamples.example_nofollow.
#[local] Existing Instance DescriptorExamples.example_seek.
#[local] Existing Instance FileCallExamples.example_mode.
#[local] Existing Instance SocketExamples.host_socket.
#[local] Existing Instance GuestSignalExamples.example_signals.
#[local] Existing Instance TermiosExamples.host_termios_h.
#[local] Existing Instance MmapExamples.example_prot.
#[local] Existing Instance MmapExamples.example_map.
#[local] Existing Instance PollExamples.example_poll.
#[local] Instance example_limits : HostLimits :=
  {| RLIM_INFINITY := 0xffffffff; rlim_t := u32; has_RLIMIT_RSS := true; has_RLIMIT_NPROC := true;
     has_RLIMIT_AS := true |}.
#[local] Instance example_wait : HostWait :=
  {| WNOHANG := 0x40; WUNTRACED := 0x80; WCONTINUED := Some 0x4;
     WIFSIGNALED s := negb (s .& 0x7f =? 0) && negb (s .& 0x7f =? 0x7f); WTERMSIG s := s .& 0x7f;
     WIFSTOPPED s := s .& 0xff =? 0x7f; WSTOPSIG s := Z.shiftr s 8 .& 0xff |}.
#[local] Instance example_actions : HostActions :=
  {| SA_SIGINFO := 2; SA_NOCLDSTOP := 1; SA_NOCLDWAIT := 0x40; SA_NODEFER := 0x10; SA_RESETHAND := 4 |}.
#[local] Instance example_statvfs : HostStatvfs := {| ST_RDONLY := Some 1; ST_NOSUID := Some 2 |}.

(** A host that grants what it is asked for. *)
Definition ch0 : call_host := {|
  ch_errno := 0; ch_stale := EIO; ch_fs := GuestPathExamples.fs0; ch_trace := true;
  ch_tty := fun _ => TermiosExamples.tty1; ch_brk := fun a _ => MmapAt a; ch_mmap := MmapExamples.host1;
  ch_active_stack := 0; ch_exec := ProcessExamples.script_host; ch_emulator := chars "/linuxemu";
  ch_clone := CloneHost true None; ch_sigaction := fun _ _ => None; ch_sigmask := fun _ _ => None;
  ch_sigsuspend := fun _ => Some EINTR; ch_pthread_kill := fun _ => None; ch_time := TimeExamples.host0;
  ch_poll := PollExamples.host1; ch_mask := ∅; ch_futex := FutexExamples.host0; ch_waiter := 1 |}.

(** A process of one thread with the text [/a] in its memory. *)
Definition m0 : gmap Z Z := mem_store ∅ 0x1000 (bytes_of (chars "/a") ++ [0]).
Definition s0 : system :=
  System (FdState ∅ ∅ ∅ m0) GuestPathExamples.st0 (GuestMemory [] 16 0 0 0 []) [] [] [zero_thread] 2 [] []
    (Some 0%nat).
(** [open("/a", O_RDONLY)] *)
Definition c0 : ucontext :=
  Ucontext [0x1000; 0; 0; 0; 0; 0; 0; 5; 0; 0; 0; 0; 0; 0x2000; 0; 0x8000] 0x10
    (Vfp [] 0 0 0 0) ∅.
Definition out0 : option ((departure + system * ucontext) * host) :=
  execute DescriptorExamples.answer (linux_syscall_dispatch 64 (fun x => x) ch0 s0 c0) DescriptorExamples.h0.

Example opened : exists s c h, out0 = Some (inr (s, c), h) /\ gpr c 0 = 3 /\
  fd_paths (sys_fds s) !! 3 = Some (chars "/r/a") /\ h !! 3 = Some (OFile (chars "/r/a")).
Proof. vm_compute. do 3 eexists. split; [reflexivity|]. split_and!; reflexivity. Qed.

Definition s1 : system := match out0 with Some (inr (s, _), _) => s | _ => s0 end.
Definition c1 : ucontext := match out0 with Some (inr (_, c), _) => c | _ => c0 end.
Definition h1 : host := match out0 with Some (_, h) => h | _ => ∅ end.

Lemma run0 :
  runs (linux_syscall_dispatch 64 (fun x => x) ch0 s0 c0) DescriptorExamples.h0 (inr (s1, c1)) h1.
Proof.
  apply (execute_runs DescriptorExamples.answer); [apply DescriptorExamples.answer_law|].
  fold out0. vm_compute. reflexivity.
Qed.

Lemma dispatch_start_wf : tables_wf (chars "/r") None (sys_fds s0) DescriptorExamples.h0.
Proof.
  apply start_wf. intros fd p E. unfold DescriptorExamples.h0 in E.
  repeat (apply lookup_insert_Some in E as [[_ ?]|[_ E]]; [done|]). by rewrite lookup_empty in E.
Qed.

Lemma dispatch_registers_witness :
  gpr c1 13 = 0x2000 \/ (nr_of 5 = Some NR_CLONE /\ gpr c1 13 = 0).
Proof.
  destruct (dispatch_registers 64 (fun x => x) ch0 s0 s1 c0 c1 DescriptorExamples.h0 h1 ltac:(vm_compute; lia) run0)
    as (_ & _ & _ & _ & _ & [H|(H & _ & H' & _)] & _); [left; exact H|right; split; [exact H|exact H']].
Defined.

Lemma dispatch_calls_confined_witness :
  calls (lstat_agrees GuestPathExamples.fs0) (confined GuestPathExamples.fs0 (chars "/r") false)
    (linux_syscall_dispatch 64 (fun x => x) ch0 s0 c0).
Proof.
  apply (dispatch_calls_confined 64 (fun x => x) ch0 s0 c0 DescriptorExamples.h0); [apply dispatch_start_wf|].
  vm_compute. reflexivity.
Defined.

Lemma dispatch_keeps_tables_witness : in_step (chars "/r") s1 h1.
Proof.
  apply (dispatch_keeps_tables 64 (fun x => x) ch0 s0 c0 DescriptorExamples.h0 h1 (inr (s1, c1))).
  - apply dispatch_start_wf.
  - intros fd Hfd. by apply elem_of_nil in Hfd.
  - intros nr [= <-]. apply Forall_nil_2.
  - apply run0.
Defined.

(** A child killed by the host's bus error, with a core. *)
Lemma wait_status_translated_witness :
  linux_wait_status (linux_signal_to_host 7 .| 0x80) .& 0x7f = 7.
Proof.
  apply (wait_status_translated (linux_signal_to_host 7 .| 0x80) 7); [lia|done|reflexivity|reflexivity].
Defined.

(** A thread that blocks signal 2 asks to block signal 3 as well. *)
Definition blocking : system :=
  System (FdState ∅ ∅ ∅ (mem_store ∅ 0x1000 (le_bytes 4 4 ++ le_bytes 4 0))) GuestPathExamples.st0
    (GuestMemory [] 16 0 0 0 []) [] [] [set_mask (Words 2 0) None zero_thread] 2 [] [] (Some 0%nat).

Lemma signal_mask_same_pointer_witness :
  exists s', signal_mask ch0 blocking 0 0x1000 0x1000 8 = Ret (0, s') /\
    guest_thread_signal_mask_get (current s') = Words 2 0.
Proof.
  apply (signal_mask_same_pointer_ignored ch0 blocking 0x1000 (set_mask (Words 2 0) None zero_thread));
    try done; unfold is_u32, UINTPTR_MAX; simpl; lia.
Defined.
End DispatchExamples.
