(* ===== verification/Integrity.v ===== *)
(** * The tables of a running emulator

    The invariants of the components' tables (segments, break and mappings, patch
    records, threads with their queues and masks, futex waiters, signal actions) as
    one property of the whole state, whatever the guest has written to its memory:
    unlike the invariants of [Mmap] and [ArmPatch] it does not say what the memory
    holds, so that it survives a guest that overwrites its own code. *)

From Stdlib Require Import Ascii String.
From S2P Require Import Prelude Errno Bytes Util Abi RuntimeRegistry GuestMemory ArmPatch GuestPath HostCalls.
From S2P Require Import Descriptors FileCalls Sockets ElfLoader Process Termios Futex GuestThread GuestSignal.
From S2P Require Import Mmap ThreadLife Trap Time Poll SysCalls System Dispatch.
Open Scope Z_scope.

(** ** The patch table by itself *)

(** A record is of an aligned word and of an instruction the trap handler can
    perform. *)
Definition record_sound (r : patch_record) : Prop :=
  pr_address r mod 4 = 0 /\ needs_patch (pr_original r) = true.
Record table_sound (p : list patch_record) : Prop := {
  tb_records : Forall record_sound p;
  tb_count : (length p <= MAX_PATCHES)%nat }.

Lemma patch_words_sound n a p m r p' m' :
  a mod 4 = 0 -> table_sound p -> patch_words n a p m = Some (r, p', m') -> table_sound p'.
Proof.
  revert a p m. induction n as [|n IH]; intros a p m Ha Hp; cbn [patch_words].
  { by intros [= _ <- _]. }
  destruct (load32 m a) as [w|]; [|done]. assert ((a + 4) mod 4 = 0) by mlia.
  cond; [by apply IH|]. bprop. cond; [by intros [= _ <- _]|]. bprop. destruct Hp as [Hr Hc].
  apply IH; [done|]. split; [|rewrite length_app; simpl; lia].
  apply Forall_app. split; [done|]. by apply Forall_singleton.
Qed.

Lemma patch_range_sound p m start len r p' m' :
  table_sound p -> arm_patch_range p m start len = Some (r, p', m') -> table_sound p'.
Proof.
  intros Hp. unfold arm_patch_range. cond; [by intros [= _ <- _]|]. bprop.
  apply patch_words_sound; [|done]. by apply has_3.
Qed.

Lemma patch_sections_sound sections address start end_ p m r p' m' :
  table_sound p -> patch_sections sections address start end_ p m = Some (r, p', m') -> table_sound p'.
Proof.
  revert p m. induction sections as [|x sections IH]; intros p m Hp; cbn [patch_sections].
  { by intros [= _ <- _]. }
  destruct (section_patch _ _ _ _) as [[a b]|]; [|by apply IH].
  destruct (arm_patch_range _ _ _ _) as [[[[?|e] p1] m1]|] eqn:Er; [| |done].
  - apply patch_range_sound in Er; [|done]. by apply IH.
  - intros [= _ <- _]. by eapply patch_range_sound.
Qed.

Lemma elf_mapping_sound host file fd offset address len p m r p' m' :
  table_sound p -> arm_patch_elf_mapping host file fd offset address len p m = Some (r, p', m') ->
  table_sound p'.
Proof.
  intros Hp. unfold arm_patch_elf_mapping.
  destruct (elf_sections _ _ _ _ _) as [[[sections|]|e]|]; [by apply patch_sections_sound|by intros [= _ <- _]..|done].
Qed.

Lemma table_sound_take n p : table_sound p -> table_sound (take n p).
Proof. intros [Hr Hc]. split; [by apply Forall_take|rewrite length_take; lia]. Qed.

Lemma forget_sound p a n : table_sound p -> table_sound (arm_patch_forget_range p a n).
Proof.
  intros [Hr Hc]. unfold arm_patch_forget_range. split.
  - apply List.Forall_forall. intros x [Hx _]%List.filter_In. rewrite List.Forall_forall in Hr. by apply Hr.
  - etransitivity; [apply List.filter_length_le|done].
Qed.

(** The trap handler can perform every recorded instruction. *)
Lemma original_sound p a w :
  table_sound p -> arm_patch_original p a = Some w ->
  w = ARM_LINUX_SVC_0 \/ w .& ARM_TPIDRURO_MASK = ARM_TPIDRURO_READ.
Proof.
  intros [Hr _] Ho%original_Some. rewrite Forall_forall in Hr. destruct (Hr _ Ho) as [_ Hn].
  by apply needs_patch_true.
Qed.

(** ** The address space *)

Record memory_sound (s : guest_memory) : Prop := {
  ms_segments : segments_wf s;
  ms_break : brk_wf s }.
Record space_sound (sp : space) : Prop := {
  ss_memory : memory_sound (sp_memory sp);
  ss_table : table_sound (sp_patches sp) }.

Lemma with_patches_sound p m sp : space_sound sp -> table_sound p -> space_sound (with_patches p m sp).
Proof. intros [? _] ?. by split. Qed.

Lemma unmapped_sound a n sp : space_sound sp -> space_sound (unmapped a n sp).
Proof. intros [? ?]. by split. Qed.

Lemma forgotten_sound a n sp : space_sound sp -> space_sound (forgotten a n sp).
Proof. intros [? ?]. split; [done|by apply forget_sound]. Qed.

Lemma rolled_back_sound n sp : space_sound sp -> space_sound (patches_rolled_back n sp).
Proof. intros [? ?]. split; [done|by apply table_sound_take]. Qed.

Lemma protect_sound host n call sp : space_sound sp -> space_sound (protect host n call sp).2.
Proof. intros [? ?]. unfold protect. by destruct (mh_protect _ _ _). Qed.

Lemma with_registry_sound l sp : space_sound sp -> registry_wf l -> space_sound (with_registry l sp).
Proof. intros [[[] []] ?] Hl. split; [|done]. by split. Qed.

Lemma space_registry_wf sp : space_sound sp -> registry_wf (registry sp).
Proof. intros [[_ []] _]. done. Qed.

Create HintDb sound.
#[local] Hint Resolve with_patches_sound unmapped_sound forgotten_sound rolled_back_sound protect_sound
  with_registry_sound space_registry_wf : sound.

Section memory_calls.
Context `{!HostErrno, !HostProt, !HostMap}.
Context (off_t : Z -> Z) (host : mmap_host) (stale_errno : errno).

Lemma aligned_u32 s len :
  memory_sound s -> is_u32 len -> (UINTPTR_MAX - u32 (page_size s - 1) <? len) = false ->
  is_u32 (align_up len (page_size s)).
Proof.
  intros [[Hp _ _ _] _] [Hl _] Hle. pose proof (is_page_range _ Hp). bprop.
  rewrite u32_small in Hle by (unfold is_u32, UINTPTR_MAX; lia).
  destruct (align_up_spec len _ Hp) as [_ ?]; [lia|]. unfold is_u32, UINTPTR_MAX in *. lia.
Qed.

Lemma munmap_sound t active sp address len v sp' t' :
  space_sound sp -> is_u32 address -> is_u32 len ->
  linux_munmap_runtime host t active sp address len = Some (v, sp', t') -> space_sound sp'.
Proof.
  intros Hs Ha Hl. unfold linux_munmap_runtime. cond; [by intros [= _ <- _]|]. bprop.
  destruct (guest_memory_runtime_owned _ _ _) as [[]|]; [|by intros [= _ <- _]|done].
  destruct (guest_thread_defer_active_stack_unmap _ _ _ _) as [[] t1]; [by intros [= _ <- _]|].
  destruct (mh_munmap _ _ _); intros [= _ <- _]; [done|].
  apply with_registry_sound; [auto with sound|].
  apply (run_op_wf (OpUnmap address _)); [apply space_registry_wf; auto with sound|]. split; [done|].
  apply aligned_u32; [apply Hs|done|by apply Z.ltb_ge].
Qed.

Lemma make_executable_sound sp address len prot r sp' :
  space_sound sp -> make_executable host sp address len prot = Some (r, sp') -> space_sound sp'.
Proof.
  intros Hs. unfold make_executable.
  pose proof (protect_sound host 0 (Mprotect address len (prot .| PROT_READ .| PROT_WRITE)) sp Hs) as Hp.
  destruct (protect _ 0 _ _) as [[e|] sp1]; [by intros [= _ <-]|]. cbn [snd] in Hp.
  destruct (arm_patch_range _ _ _ _) as [[[[?|e] p] m]|] eqn:Er; [| |done];
    apply patch_range_sound in Er; [|apply Hp| |apply Hp].
  - pose proof (protect_sound host 1 (MsyncInvalidateIcache address len) _ (with_patches_sound p m _ Hp Er)) as Hq.
    destruct (protect _ 1 _ _) as [[e|] sp2]; intros [= _ <-]; auto with sound.
  - intros [= _ <-]. auto with sound.
Qed.

Lemma mprotect_sound sp address len prot v sp' :
  space_sound sp -> is_u32 address -> is_u32 len ->
  linux_mprotect_runtime host stale_errno sp address len prot = Some (v, sp') -> space_sound sp'.
Proof.
  intros Hs Ha Hl. unfold linux_mprotect_runtime. destruct (translate_protection _) as [hp|]; [|by intros [= _ <-]].
  cond; [by intros [= _ <-]|]. bprop.
  assert (Hn : is_u32 (align_up len (page_size (sp_memory sp)))).
  { apply aligned_u32; [apply Hs|done|by apply Z.ltb_ge]. }
  set (n := align_up len (page_size (sp_memory sp))) in *.
  destruct (guest_memory_runtime_owned _ _ _) as [[]|]; [| |done].
  2: { unfold mprotect_segment. destruct (guest_memory_range_owned _ _ _) as [[]|]; [|by intros [= _ <-]|done].
       cond; [by intros [= _ <-]|]. pose proof (protect_sound host 0 (Mprotect address n hp) sp Hs).
       destruct (protect _ _ _ _) as [[e|] sp1]; by intros [= _ <-]. }
  assert (Hm : forall r sp1, (if has hp PROT_EXEC then make_executable host sp address n hp else Some (Ok tt, sp)) =
    Some (r, sp1) -> space_sound sp1).
  { intros r sp1. cond; [by apply make_executable_sound|by intros [= _ <-]]. }
  destruct (if has hp PROT_EXEC then _ else _) as [[[?|e] sp1]|] eqn:Em; [|by intros [= _ <-]; eapply Hm|done].
  specialize (Hm _ _ eq_refl). pose proof (protect_sound host 2 (Mprotect address n hp) sp1 Hm) as Hp.
  destruct (protect _ _ _ _) as [[e|] sp2]; cbn [snd] in Hp.
  { intros [= _ <-]. cond; auto with sound. }
  pose proof (run_op_wf (OpProtect address n (has hp PROT_EXEC)) (registry sp2) (space_registry_wf _ Hp)
    (conj Ha Hn)) as Hw. cbn [run_op] in Hw.
  destruct (guest_memory_runtime_protect _ _ _ _) as [[[]|e] l]; intros [= _ <-]; auto with sound.
Qed.

Lemma mmap2_install_sound sp fd offset address len flags mp hp v sp' :
  space_sound sp -> is_u32 address -> is_u32 len ->
  mmap2_install host stale_errno sp fd offset address len flags mp hp = Some (v, sp') -> space_sound sp'.
Proof.
  intros Hs Ha Hl. unfold mmap2_install. set (sp0 := forgotten address len sp).
  assert (Hs0 : space_sound sp0) by (unfold sp0; auto with sound).
  assert (Hm : forall r p m, (if has flags LINUX_MAP_ANONYMOUS then Some (Ok tt, sp_patches sp0, sp_bytes sp0)
    else arm_patch_elf_mapping (mh_elf host) (mh_file host fd) fd offset address len (sp_patches sp0) (sp_bytes sp0)) =
    Some (r, p, m) -> table_sound p).
  { intros r p m. cond; [intros [= _ <- _]; apply Hs0|]. apply elf_mapping_sound, Hs0. }
  destruct (if has flags LINUX_MAP_ANONYMOUS then _ else _) as [[[[?|e] p] m]|]; [| |done];
    specialize (Hm _ _ _ eq_refl); [|intros [= _ <-]; auto with sound].
  set (sp1 := with_patches p m sp0). assert (Hs1 : space_sound sp1) by (unfold sp1; auto with sound).
  assert (Hp : space_sound (if has hp PROT_EXEC then protect host 0 (MsyncInvalidateIcache address len) sp1
    else (None, sp1)).2) by (cond; auto with sound).
  destruct (if has hp PROT_EXEC then _ else _) as [[e|] sp2]; cbn [snd] in Hp; [intros [= _ <-]; auto with sound|].
  assert (Hq : space_sound (if negb (mp =? hp) then protect host 1 (Mprotect address len hp) sp2
    else (None, sp2)).2) by (cond; auto with sound).
  destruct (if negb (mp =? hp) then _ else _) as [[e|] sp3]; cbn [snd] in Hq; [intros [= _ <-]; auto with sound|].
  pose proof (run_op_wf (OpMap address len (has hp PROT_EXEC)) (registry sp3) (space_registry_wf _ Hq)
    (conj Ha Hl)) as Hw. cbn [run_op] in Hw.
  destruct (guest_memory_runtime_map _ _ _ _) as [[?|e] l]; intros [= _ <-]; auto with sound.
Qed.

Lemma mmap2_sound sp address len prot flags fd page v sp' :
  space_sound sp -> is_u32 len ->
  linux_mmap2 off_t host stale_errno sp address len prot flags fd page = Some (v, sp') -> space_sound sp'.
Proof.
  intros Hs Hl. unfold linux_mmap2.
  destruct (mmap2_checks sp address len prot flags) as [[error|hp]|] eqn:Ec; [by intros [= _ <-]| |done].
  assert (Hn : is_u32 (align_up len (page_size (sp_memory sp)))).
  { apply aligned_u32; [apply Hs|done|]. revert Ec. unfold mmap2_checks.
    destruct (translate_protection _); [|done]. do 3 (cond; [done|]). cond; [done|]. by bprop; rewrite Z.ltb_ge. }
  cbn zeta. destruct (mh_mmap _ _ _ _ _ _ _ _) as [e|a]; [by intros [= _ <-]|].
  cond; [intros [= _ <-]; apply unmapped_sound, with_patches_sound; [done|apply Hs]|]. bprop.
  assert (Ha : is_u32 a) by (unfold is_u32, UINTPTR_MAX, GUEST_MIN_ADDRESS, GUEST_MAX_ADDRESS in *; lia).
  destruct (if _ && _ then _ else _) as [[error|bytes]|]; [| |done].
  - intros [= _ <-]. apply unmapped_sound, with_patches_sound; [done|apply Hs].
  - apply mmap2_install_sound; [|done|done]. apply with_patches_sound; [|apply Hs].
    apply with_patches_sound; [done|apply Hs].
Qed.
End memory_calls.

(** The tables after [guest_brk_set] do not depend on the memory. *)
Lemma brk_sound mmap s m requested :
  memory_sound s -> is_u32 requested -> memory_sound (guest_brk_set mmap s m requested).1.2.
Proof.
  intros [Hseg Hbrk] Hq.
  assert ((guest_brk_set mmap s m requested).1.2 = (guest_brk_set mmap s ∅ requested).1.2) as ->.
  { unfold guest_brk_set. repeat (cond; [done|]). repeat case_match; done. }
  pose proof (brk_set_outcome mmap s ∅ requested Hbrk Hq (fun _ _ _ _ x _ => lookup_empty x)) as Ho.
  inversion Ho as [Heq|l m' Hr new_end Hl Hm _ Heq]; cbn [fst snd]; [done|].
  destruct Hseg, Hbrk. by split; split; try done; simpl; lia.
Qed.

(** ** Threads *)

(** The invariant of [ThreadLife] with the ranges of the words a thread keeps. *)
Record thread_sound (t : thread) : Prop := {
  th_ok : thread_ok t;
  th_mask : words_ok (t_mask t);
  th_restore : forall w, t_suspend_restore t = Some w -> words_ok w;
  th_altstack : is_u32 (t_altstack_pointer t) /\ is_u32 (t_altstack_size t);
  th_deferred : is_u32 (t_deferred_start t) /\ is_u32 (t_deferred_length t) }.

Definition caller_sound (t : option thread) : Prop := forall u, t = Some u -> thread_sound u.

Lemma caller_none : caller_sound None.
Proof. done. Qed.
Lemma caller_some t : thread_sound t -> caller_sound (Some t).
Proof. by intros ? ? [= <-]. Qed.

(** An operation that leaves the fields the invariant speaks of. *)
Ltac thread_fields :=
  intros [[[] ? ?] ? ? ? ?]; split; simpl; [split; [by split|done|done]|done..].

Lemma words_ok_0 : words_ok (Words 0 0).
Proof. by repeat split. Qed.

(** A word is what its low 32 bits are. *)
Lemma is_u32_ones x : is_u32 x <-> x .& Z.ones 32 = x.
Proof.
  rewrite Z.land_ones by lia. unfold is_u32, UINTPTR_MAX. change (2 ^ 32) with 4294967296. split.
  - intros ?. apply Z.mod_small. lia.
  - intros <-. pose proof (Z.mod_pos_bound x 4294967296). lia.
Qed.

Lemma lor_u32 x y : is_u32 x -> is_u32 y -> is_u32 (x .| y).
Proof. rewrite !is_u32_ones. intros Hx Hy. by rewrite Z.land_lor_distr_l, Hx, Hy. Qed.

Lemma ldiff_u32 x y : is_u32 x -> is_u32 (x .&~ y).
Proof.
  rewrite !is_u32_ones. intros Hx. rewrite <- Hx at 2. rewrite !Z.ldiff_land, <- !Z.land_assoc.
  f_equal. apply Z.land_comm.
Qed.

Lemma bit_of_u32 n : is_u32 (bit_of n).
Proof.
  unfold bit_of, is_u32, UINTPTR_MAX. rewrite Z.shiftl_1_l. pose proof (Z.mod_pos_bound (n - 1) 32 ltac:(lia)).
  split; [lia|]. apply Z.lt_succ_r. change (Z.succ 4294967295) with (2 ^ 32). apply Z.pow_lt_mono_r; lia.
Qed.

#[local] Hint Resolve lor_u32 ldiff_u32 bit_of_u32 u32_is_u32 words_ok_0 : sound.

Lemma add_word_ok w n : words_ok w -> words_ok (add_word w n).
Proof. intros [H0 H1]. unfold add_word. cond; split; simpl; auto with sound. Qed.

Lemma blockable_ok w : words_ok w -> words_ok (blockable w).
Proof. intros [H0 H1]. split; simpl; auto with sound. Qed.

(** The fields of the invariant outside the queues. *)
Definition same_words (t t' : thread) : Prop :=
  same_thread t t' /\ t_mask t' = t_mask t /\ t_suspend_restore t' = t_suspend_restore t /\
  t_altstack_pointer t' = t_altstack_pointer t /\ t_altstack_size t' = t_altstack_size t /\
  t_deferred_start t' = t_deferred_start t /\ t_deferred_length t' = t_deferred_length t.

Lemma thread_sound_same t t' : thread_sound t -> thread_shape t' -> same_words t t' -> thread_sound t'.
Proof.
  intros [Hok Hm Hr Ha Hd] Hwf (Hs & Em & Er & Ep & Ez & Es & El).
  split; [by eapply thread_ok_same|by rewrite Em|by rewrite Er|by rewrite Ep, Ez|by rewrite Es, El].
Qed.

Lemma pending_same_words t n info : exists t', (guest_thread_signal_pending (Some t) n info).1 = Some t' /\ same_words t t'.
Proof.
  unfold guest_thread_signal_pending. cond; [|exists t; by repeat split].
  destruct (is_realtime n); cbn [t_futex_semaphore set_pending set_realtime]; destruct (t_futex_semaphore t);
    eexists; (split; [reflexivity|by repeat split]).
Qed.

Lemma pending_sound t n info : caller_sound t -> caller_sound (guest_thread_signal_pending t n info).1.
Proof.
  destruct t as [t|]; [|done]. intros Ht u Hu. specialize (Ht t eq_refl).
  destruct (pending_same_words t n info) as (t' & E & Hs). rewrite Hu in E. injection E as <-.
  eapply thread_sound_same; [done| |done]. eapply pending_shape; [|done]. apply Ht.
Qed.

Lemma take_pending_same_words t n info known t' :
  guest_thread_take_pending (Some t) = (n, info, known, Some t') -> same_words t t'.
Proof.
  assert (Hr : forall k t n number info t', take_realtime k t n = Some (number, info, t') -> same_words t t').
  { clear. intros k. induction k as [|k IH]; intros t n number info t'; simpl; [done|].
    repeat case_match; intros; simplify_eq/=; eauto; done. }
  unfold guest_thread_take_pending. generalize (count_trailing_zeros 32). intros ctz.
  cond; [by intros [= <- <- <- <-]|].
  destruct (take_realtime _ _ _) as [[[k i] t1]|] eqn:Er; intros [= <- <- <- <-]; [|done]. by eapply Hr.
Qed.

Lemma take_sound t : caller_sound t -> caller_sound (guest_thread_take_pending t).2.
Proof.
  destruct t as [t|]; [|done]. intros Ht. specialize (Ht t eq_refl).
  destruct (guest_thread_take_pending (Some t)) as [[[n info] known] [t'|]] eqn:E; [|done].
  apply caller_some. eapply thread_sound_same; [done| |by eapply take_pending_same_words].
  eapply take_pending_shape; [apply Ht|done].
Qed.

Lemma mask_set_sound t w : caller_sound t -> words_ok w -> caller_sound (guest_thread_signal_mask_set t w).
Proof. destruct t as [t|]; [|done]. intros Ht Hw. apply caller_some. generalize (Ht t eq_refl). thread_fields. Qed.

Lemma suspend_restore_sound t w :
  caller_sound t -> words_ok w -> caller_sound (guest_thread_signal_suspend_restore t w).
Proof.
  destruct t as [t|]; [|done]. intros Ht Hw. apply caller_some. generalize (Ht t eq_refl). 
  intros [[[] ? ?] ? ? ? ?]. split; simpl; [split; [by split|done|done]|done|by intros ? [= <-]|done|done].
Qed.

Lemma mask_get_ok t : caller_sound t -> words_ok (guest_thread_signal_mask_get t).
Proof. destruct t as [t|]; [|intros _; apply words_ok_0]. intros Ht. apply (Ht t eq_refl). Qed.

Lemma delivery_mask_sound t :
  caller_sound t -> words_ok (guest_thread_signal_delivery_mask t).1 /\
  caller_sound (guest_thread_signal_delivery_mask t).2.
Proof.
  intros Ht. pose proof (mask_get_ok t Ht). unfold guest_thread_signal_delivery_mask. destruct t as [t|]; [|done].
  pose proof (Ht t eq_refl) as Hs. destruct (t_suspend_restore t) as [w|] eqn:E; [|done].
  split; [by apply (th_restore _ Hs)|]. apply caller_some. revert Hs. 
  intros [[[] ? ?] ? ? ? ?]. by split.
Qed.

Lemma altstack_set_sound t p z :
  caller_sound t -> is_u32 p -> is_u32 z -> caller_sound (guest_thread_altstack_set t p z).
Proof. destruct t as [t|]; [|done]. intros Ht ? ?. apply caller_some. generalize (Ht t eq_refl). thread_fields. Qed.

Lemma active_sound active t : caller_sound t -> caller_sound (set_syscall_active active t).
Proof. destruct t as [t|]; [|done]. intros Ht. apply caller_some. generalize (Ht t eq_refl). thread_fields. Qed.

Lemma futex_begin_sound t semaphore : caller_sound t -> caller_sound (guest_thread_futex_wait_begin t semaphore).
Proof. destruct t as [t|]; [|done]. intros Ht. apply caller_some. generalize (Ht t eq_refl). thread_fields. Qed.

Lemma futex_end_sound t : caller_sound t -> caller_sound (guest_thread_futex_wait_end t).2.
Proof. destruct t as [t|]; [|done]. intros Ht. apply caller_some. generalize (Ht t eq_refl). thread_fields. Qed.

Lemma tls_sound t v : caller_sound t -> caller_sound (runtime_set_guest_tls t v).
Proof. destruct t as [t|]; [|done]. intros Ht. apply caller_some. generalize (Ht t eq_refl). thread_fields. Qed.

Lemma tid_address_sound pid t a : caller_sound t -> caller_sound (guest_thread_set_tid_address pid t a).2.
Proof. destruct t as [t|]; [|done]. intros Ht. apply caller_some. generalize (Ht t eq_refl). thread_fields. Qed.

Lemma defer_sound t active a n :
  caller_sound t -> is_u32 a -> caller_sound (guest_thread_defer_active_stack_unmap t active a n).2.
Proof.
  destruct t as [t|]; [|done]. intros Ht Ha. generalize (Ht t eq_refl).
  intros [[[] ? ?] ? ? ? [Hd Hl]]. unfold guest_thread_defer_active_stack_unmap.
  cond; [done|]. destruct (negb (t_deferred_length t =? 0)); apply caller_some;
    (split; simpl; [split; [by split|done|done]|done|done|done|]); (split; [|apply u32_is_u32]); [cond; done|done].
Qed.

Lemma wait_end_sound t : caller_sound t -> caller_sound (guest_thread_signal_wait_end t).1.
Proof.
  destruct t as [t|]; [|done]. intros Ht. apply caller_some. generalize (Ht t eq_refl).
  intros [[[] ? ?] ? ? ? ?]. split; simpl; try done. split; [by split|done|by left].
Qed.

Lemma wait_begin_sound host t :
  pipe_ok host -> caller_sound t -> caller_sound (guest_thread_signal_wait_begin host t).1.2.
Proof.
  intros Hp. destruct t as [t|]; [|done]. intros Ht. unfold guest_thread_signal_wait_begin.
  destruct (wh_pipe host) as [e|[r w]] eqn:E; [done|]. destruct (omap _ _); [|done].
  apply caller_some. generalize (Ht t eq_refl). intros [[[] ? ?] ? ? ? ?].
  split; simpl; try done. split; [by split|done|right; by apply Hp].
Qed.

(** A new thread has the mask of its creator and nothing else of it. *)
Lemma clone_threads_sound `{!HostErrno} host gpr parent threads next m v threads' next' m' :
  is_u32 next -> words_ok (t_mask parent) ->
  guest_thread_clone host gpr parent threads next m = Some (v, threads', next', m') ->
  is_u32 next' /\ (threads' = threads \/ exists t, threads' = t :: threads /\ thread_sound t).
Proof.
  intros Hn Hm. unfold guest_thread_clone. cond; [intros [= _ <- <- _]; tauto|]. cond; [intros [= _ <- <- _]; tauto|].
  destruct (allocate_tid_spec next Hn) as (tid & next1 & -> & Htid & Hn1).
  destruct (create_error host); intros [= _ <- <- _]; [tauto|]. split; [done|]. right. eexists. split; [done|].
  split; [split; [by apply thread_wf_shape, fresh_thread_wf|done|by left]|done|done|done|done].
Qed.

(** ** Signals *)

Record actions_sound (l : list linux_sigaction) : Prop := {
  ac_length : length l = 65%nat;
  ac_masks : Forall (fun a => words_ok (sa_mask a)) l }.
Record signals_sound (st : signal_state) : Prop := {
  sg_actions : actions_sound (guest_actions st);
  sg_thread : caller_sound (ss_thread st) }.

Lemma action_mask_ok st n : actions_sound (guest_actions st) -> words_ok (sa_mask (action_of st n)).
Proof.
  intros [_ Hf]. unfold action_of. destruct (nth_in_or_default (Z.to_nat n) (guest_actions st) zero_action) as [Hin| ->].
  - rewrite List.Forall_forall in Hf. by apply Hf.
  - apply words_ok_0.
Qed.

Lemma actions_insert l i a : actions_sound l -> words_ok (sa_mask a) -> actions_sound (<[i := a]> l).
Proof. intros [Hl Hf] Ha. split; [by rewrite length_insert|by apply Forall_insert]. Qed.

Lemma load_words_u32 m a n ws : mem_wf m -> load_words m a n = Some ws -> Forall is_u32 ws.
Proof.
  intros Hm. revert a ws. induction n as [|n IH]; intros a ws; simpl; [by intros [= <-]; constructor|].
  destruct (load32 m a) as [w|] eqn:Ew; [|done]. destruct (load_words m (a + 4) n) as [r|] eqn:Er; [|done].
  intros [= <-]. constructor; [by eapply load32_u32|by eapply IH].
Qed.

Lemma concat_words_byte ws : Forall is_byte (concat_words ws).
Proof.
  unfold concat_words. induction ws as [|w ws IH]; [done|]. cbn [fmap list_fmap concat].
  apply Forall_app. split; [apply le_bytes_byte|done].
Qed.

Section signals.
Context `{!HostErrno, !HostSignals}.
Context (trampoline rt_trampoline : Z).

Lemma deliver_sound st c m n info v st' c' m' notes :
  signals_sound st -> guest_signal_deliver trampoline rt_trampoline st c m n info = Some (v, st', c', m', notes) ->
  signals_sound st'.
Proof.
  intros [Ha Ht]. unfold guest_signal_deliver. cond; [by intros [= _ <- _ _ _]|]. cond.
  - pose proof (pending_sound (ss_thread st) n info Ht) as Hp.
    destruct (guest_thread_signal_pending _ _ _) as [t notes']. by intros [= _ <- _ _ _].
  - cond; [by intros [= _ <- _ _ _]|]. destruct (delivery_mask_sound _ Ht) as [Hw Hs].
    destruct (guest_thread_signal_delivery_mask _) as [old t], (guest_thread_altstack_get t) as [pointer size].
    cond; [done|]. intros [= _ <- _ _ _]. pose proof (action_mask_ok st n Ha) as Hm. split; cbn [guest_actions ss_thread].
    + cond; [by apply actions_insert|done].
    + apply mask_set_sound; [done|]. unfold handler_mask. destruct Hw, Hm.
      cond; [apply add_word_ok|]; split; simpl; auto with sound.
Qed.

Lemma deliver_pending_sound st c m number r0 v st' c' m' notes :
  signals_sound st ->
  guest_signal_deliver_pending trampoline rt_trampoline st c m number r0 = Some (v, st', c', m', notes) ->
  signals_sound st'.
Proof.
  intros [Ha Ht]. unfold guest_signal_deliver_pending. pose proof (take_sound _ Ht) as Hs.
  destruct (guest_thread_take_pending _) as [[[n info] has_info] t]. cbn [snd] in Hs.
  cond; [by intros [= _ <- _ _ _]|].
  destruct (guest_signal_deliver _ _ _ _ _ _ _) as [[[[[v1 st1] c1] m1] notes1]|] eqn:Ed; [|done].
  apply deliver_sound in Ed; [|done]. by intros [= _ <- _ _ _].
Qed.

Lemma return_sound st c m realtime v st' c' :
  mem_wf m -> signals_sound st -> guest_signal_return st c m realtime = Some (v, st', c') -> signals_sound st'.
Proof.
  intros Hm [Ha Ht]. unfold guest_signal_return. cond; [by intros [= _ <- _]|].
  destruct (restore_vfp _ _ _) as [[vfp|]|]; [|by intros [= _ <- _]|done].
  destruct (load_words m _ 2) as [[|m0 [|m1 [|]]]|] eqn:Em; try done.
  destruct (load_words m _ 16) as [registers|]; [|done]. destruct (load32 m _) as [cpsr|]; [|done].
  destruct (load_words m _ 3) as [[|pointer [|flags [|size [|]]]]|] eqn:Es; try done.
  apply load_words_u32 in Em, Es; [|done..]. intros [= _ <- _]. split; [done|]. cbn [ss_thread].
  apply Forall_cons in Em as [? Em], Es as [? Es]. apply Forall_cons in Em as [? _], Es as [_ Es].
  apply Forall_cons in Es as [? _].
  assert (Hs : caller_sound (guest_thread_signal_mask_set (ss_thread st) (Words m0 m1))) by (by apply mask_set_sound).
  repeat cond; try done; by apply altstack_set_sound.
Qed.

Lemma handler_sound executable st c m host_signal info st' c' m' :
  signals_sound st ->
  host_signal_handler trampoline rt_trampoline executable st c m host_signal info = Some (st', c', m') ->
  signals_sound st'.
Proof.
  intros Hs. unfold host_signal_handler. cond; [by intros [= <- _ _]|].
  assert (Hp : forall st, signals_sound st -> signals_sound (SignalState (guest_actions st)
    (guest_thread_signal_pending (ss_thread st) (guest_signal_from_host host_signal) info).1)).
  { intros st0 [? ?]. split; [done|by apply pending_sound]. }
  cond; [|intros [= <- _ _]; by apply Hp].
  destruct (guest_signal_deliver _ _ _ _ _ _ _) as [[[[[v st1] c1] m1] notes]|] eqn:Ed; [|done].
  apply deliver_sound in Ed; [|done]. cond; intros [= <- _ _]; [done|by apply Hp].
Qed.

Lemma mask_sound sigmask st how set size :
  signals_sound st -> (forall w, set = Some w -> words_ok w) ->
  signals_sound (guest_signal_mask sigmask st how set size).2.
Proof.
  intros [Ha Ht] Hw. unfold guest_signal_mask. cond; [done|]. destruct (sigmask _ _); [done|].
  destruct set as [w|]; [|done]. split; [done|]. cbn [ss_thread snd]. apply mask_set_sound; [done|].
  destruct (blockable_ok w (Hw w eq_refl)), (mask_get_ok _ Ht).
  repeat cond; split; cbn [word0 word1]; auto with sound.
Qed.

Lemma suspend_sound suspend st w size :
  signals_sound st -> words_ok w -> signals_sound (guest_signal_suspend suspend st (Some w) size).2.
Proof.
  intros [Ha Ht] Hw. unfold guest_signal_suspend. cond; [done|]. pose proof (mask_get_ok _ Ht).
  pose proof (mask_set_sound _ _ Ht (blockable_ok w Hw)).
  destruct (suspend _) as [e|]; (split; [done|]); cbn [snd ss_thread]; [case_decide|].
  - by apply suspend_restore_sound.
  - by apply mask_set_sound.
  - by apply mask_set_sound.
Qed.

Lemma action_sound `{!HostActions} sigaction st n action size :
  signals_sound st -> (forall a, action = Some a -> words_ok (sa_mask a)) ->
  signals_sound (guest_signal_action sigaction st n action size).2.
Proof.
  intros [Ha Ht] Hw. unfold guest_signal_action. cond; [done|]. destruct action as [a|]; [|done].
  cond; [done|]. pose proof (actions_insert _ (Z.to_nat n) a Ha (Hw a eq_refl)).
  cond; [done|]. by destruct (sigaction _ _).
Qed.

Lemma altstack_sound st c m a b v st' m' :
  mem_wf m -> signals_sound st -> guest_signal_altstack st c m a b = Some (v, st', m') -> signals_sound st'.
Proof.
  intros Hm [Ha Ht]. unfold guest_signal_altstack. destruct (guest_thread_altstack_get _) as [pointer size].
  set (m1 := if negb (b =? 0) then _ else m).
  assert (Hm1 : mem_wf m1) by (unfold m1; cond; [|done]; apply mem_store_wf; [done|apply concat_words_byte]).
  cond; [by intros [= _ <- _]|].
  destruct (load_words m1 a 3) as [[|p [|flags [|z [|]]]]|] eqn:El; try done.
  apply load_words_u32 in El; [|done]. apply Forall_cons in El as [? El]. apply Forall_cons in El as [_ El].
  apply Forall_cons in El as [? _].
  repeat (cond; [by intros [= _ <- _]|]). cond; [intros [= _ <- _]; split; [done|by apply altstack_set_sound]|].
  cond; [by intros [= _ <- _]|]. intros [= _ <- _]. split; [done|by apply altstack_set_sound].
Qed.
End signals.

(** ** Polling *)

(** What the signal handler does to the thread it interrupts in a wait. *)
Definition queues : relation thread :=
  rtc (fun t u => exists n info, (guest_thread_signal_pending (Some t) n info).1 = Some u).

Lemma queues_sound t u : queues t u -> thread_sound t -> thread_sound u.
Proof.
  induction 1 as [|t u w (n & info & E) _ IH]; [done|]. intros Ht. apply IH.
  apply (pending_sound (Some t) n info (caller_some _ Ht) u E).
Qed.

Lemma complete_sound t w :
  caller_sound t -> words_ok w -> caller_sound (guest_thread_signal_wait_complete t w).
Proof.
  intros Ht Hw. apply mask_set_sound; [|done]. destruct t as [t|]; [|done]. apply caller_some.
  generalize (Ht t eq_refl). intros [[[] ? ?] ? ? ? ?]. by split.
Qed.

Section poll.
Context `{!HostErrno, !HostPoll, !HostSignals}.
Context (host : poll_host) (Hpipe : pipe_ok (ph_wait host)) (Hduring : forall t, queues t (ph_during host t)).

Lemma during_sound st : caller_sound (ws_thread st) -> caller_sound (ws_thread (during host st)).
Proof.
  intros Ht u. unfold during. simpl. destruct (ws_thread st) as [t|]; [|done]. intros [= <-].
  eapply queues_sound; [apply Hduring|by apply Ht].
Qed.

Lemma do_poll_sound st armed guest count timeout fd v i st' :
  caller_sound (ws_thread st) -> do_poll host st armed guest count timeout fd = Some (v, i, st') ->
  caller_sound (ws_thread st').
Proof.
  intros Ht. unfold do_poll. pose proof (during_sound st Ht). cond; [by intros [= _ _ <-]|].
  cond; [by intros [= _ _ <-]|]. destruct (load_pollfds _ _ _) as [fds|]; [|done].
  destruct (ph_poll _ _ _ _) as [e|[result revents]]; [by intros [= _ _ <-]|].
  cond; by intros [= _ _ <-].
Qed.

Lemma replace_mask_sound st set size limit :
  mem_wf (ws_bytes st) -> caller_sound (ws_thread st) ->
  match replace_mask host st set size limit with
  | EnterFault => True
  | EnterReturn _ st' => caller_sound (ws_thread st')
  | Entered _ words _ _ st' => words_ok words /\ caller_sound (ws_thread st')
  end.
Proof.
  intros Hm Ht. unfold replace_mask, requested_mask. cond; [done|].
  destruct (load32 _ set) as [w0|] eqn:E0; [|done]. destruct (load32 _ (set + 4)) as [w1|] eqn:E1; [|done].
  apply load32_u32 in E0, E1; [|done..]. pose proof (wait_begin_sound (ph_wait host) _ Hpipe Ht) as Hb.
  destruct (guest_thread_signal_wait_begin _ _) as [[[e|fd] t] closed]; cbn [fst snd] in Hb; [done|].
  pose proof (wait_end_sound _ Hb). cond; [done|]. destruct (ph_sigprocmask host); [done|].
  split; [by apply mask_get_ok|]. apply mask_set_sound; [done|]. by apply blockable_ok.
Qed.

Lemma restore_mask_sound i words old st :
  words_ok words -> caller_sound (ws_thread st) -> caller_sound (ws_thread (restore_mask i words old st)).
Proof.
  intros Hw Ht. apply wait_end_sound. cond; [by apply suspend_restore_sound|by apply complete_sound].
Qed.

Lemma select_store_thread st arguments p answer v st' :
  select_store st arguments p answer = Some (v, st') -> ws_thread st' = ws_thread st.
Proof.
  unfold select_store. destruct answer as [[[[result r] w] x] remaining].
  do 3 (destruct (fdset_to_guest _ _ _ _); [|done]). by intros [= _ <-].
Qed.

Lemma select_wait_sound st arguments p r w x timeout waiting v st' :
  caller_sound (ws_thread st) ->
  (forall fd words old armed, waiting = Some (fd, words, old, armed) -> words_ok words) ->
  select_wait host st arguments p r w x timeout waiting = Some (v, st') -> caller_sound (ws_thread st').
Proof.
  intros Ht Hw. unfold select_wait.
  destruct (select_outcome _ _ _ _ _ _ _ _) as [e|answer]; destruct waiting as [[[[fd words] old] armed]|];
    try (intros [= _ <-]); try (intros Hs; rewrite (select_store_thread _ _ _ _ _ _ Hs));
    try apply restore_mask_sound; try (by eapply Hw); by apply during_sound.
Qed.

Lemma do_select_sound st arguments p t64 v st' :
  mem_wf (ws_bytes st) -> caller_sound (ws_thread st) ->
  do_select host st arguments p t64 = Some (v, st') -> caller_sound (ws_thread st').
Proof.
  intros Hm Ht. unfold do_select. cond; [by intros [= _ <-]|].
  do 3 (destruct (fdset_to_host _ _ _); [|done]).
  destruct (select_timeout _ _ _ _) as [[result|timeout]|]; [by intros [= _ <-]| |done].
  cond; [|by apply select_wait_sound].
  destruct (load32 _ _) as [set|]; [|done]. destruct (load32 _ _) as [size|]; [|done].
  pose proof (replace_mask_sound st set size (Some FD_SETSIZE) Hm Ht) as Hr.
  destruct (replace_mask _ _ _ _ _) as [|result st1|fd words old armed st1]; [done|by intros [= _ <-]|].
  destruct Hr. apply select_wait_sound; [done|]. by intros ? ? ? ? [= _ <- _ _].
Qed.

Lemma poll_sound st number arguments v st' :
  mem_wf (ws_bytes st) -> caller_sound (ws_thread st) ->
  linux_poll_syscall host st number arguments = Some (v, st') -> caller_sound (ws_thread st').
Proof.
  intros Hm Ht. unfold linux_poll_syscall. cond.
  { destruct (do_poll _ _ _ _ _ _ _) as [[[result i] st1]|] eqn:Ep; [|done]. intros [= _ <-].
    by eapply do_poll_sound. }
  cond; [|cond; [cond; [by intros [= _ <-]|]; destruct (load_words _ _ _); [|done]; by apply do_select_sound
         |by apply do_select_sound]].
  unfold ppoll. destruct (timespec_timeout _ _ _) as [[result|timeout]|]; [by intros [= _ <-]| |done]. cond.
  - destruct (do_poll _ _ _ _ _ _ _) as [[[result i] st1]|] eqn:Ep; [|done]. intros [= _ <-].
    by eapply do_poll_sound.
  - pose proof (replace_mask_sound st (nth 3 arguments 0) (nth 4 arguments 0) None Hm Ht) as Hr.
    destruct (replace_mask _ _ _ _ _) as [|result st1|fd words old armed st1]; [done|by intros [= _ <-]|].
    destruct (do_poll _ _ _ _ _ _ _) as [[[result i] st2]|] eqn:Ep; [|done]. intros [= _ <-].
    destruct Hr. apply restore_mask_sound; [done|]. by eapply do_poll_sound.
Qed.
End poll.

(** ** Futexes *)

Section futexes.
Context `{!HostErrno} (host : futex_host).

Lemma wake_inv l address count bitset : futex_inv l -> futex_inv (linux_futex_wake host l address count bitset).2.
Proof.
  intros Hl. unfold linux_futex_wake. cond; [done|]. bprop. destruct (lock_error host); [done|].
  rewrite wake_loop_spec by lia. cbn [snd]. rewrite (wake_first_requeue _ 0). apply requeue_inv; [|done].
  intros w. unfold wakeable. intros. by bprop.
Qed.

Lemma requeue_outcome_inv m l address wc rc second compare expected :
  futex_inv l -> futex_inv (requeue_outcome (futex_requeue host m l address wc rc second compare expected) l).2.
Proof.
  intros Hl. destruct (futex_requeue _ _ _ _ _ _ _ _ _) as [[[v woken] l']|] eqn:Eq; [|done].
  apply futex_requeue_cases in Eq as [[_ ->]|[_ ->]]; [done|]. apply requeue_inv; [|done].
  intros w. unfold requeueable. intros. by bprop.
Qed.

Lemma wait_inv m l id address expected timeout bitset clock :
  futex_inv l -> (id ∉ fw_id <$> l) -> futex_inv (futex_wait host m l id address expected timeout bitset clock).2.
Proof.
  intros Hl Hid. unfold futex_wait. cond; [done|]. bprop.
  assert (Hq : forall dl, futex_inv (futex_enqueue host m l id address expected bitset dl).2).
  { intros dl. unfold futex_enqueue. destruct (sem_init_error host), (lock_error host); try done.
    destruct (load32 _ _); [|done]. cond; [done|]. destruct Hl. split; [by apply NoDup_cons|by constructor]. }
  cond; [apply Hq|]. destruct (wait_deadline _ _ _ _) as [[dl|]|]; [apply Hq|done|done].
Qed.

Lemma futex_calls_inv m l id address operation value timeout second bitset :
  futex_inv l -> (id ∉ fw_id <$> l) ->
  futex_inv (linux_futex host m l id address operation value timeout second bitset).2.
Proof.
  intros Hl Hid. unfold linux_futex.
  assert (Hw : forall bits, futex_inv (let (v, l) := linux_futex_wake host l address value bits in (FReturn v, l)).2).
  { intros bits. pose proof (wake_inv l address value bits Hl). by destruct (linux_futex_wake _ _ _ _ _). }
  repeat (cond; [first [done|by apply wait_inv|apply requeue_outcome_inv; done|cond; [done|];
    first [apply Hw|by apply requeue_outcome_inv]]|]). done.
Qed.
End futexes.

(** ** The whole state *)

Record system_sound (s : system) : Prop := {
  sy_memory : memory_sound (sys_memory s);
  sy_patches : table_sound (sys_patches s);
  sy_threads : Forall thread_sound (sys_threads s);
  sy_main : sys_threads s <> [];
  sy_next : is_u32 (sys_next_tid s);
  sy_waiters : futex_inv (sys_waiters s);
  sy_actions : actions_sound (sys_actions s) }.

Lemma fds_sound st s : system_sound s -> system_sound (with_fds st s).
Proof. intros []. by split. Qed.
Lemma bytes_sound m s : system_sound s -> system_sound (with_bytes m s).
Proof. intros []. by split. Qed.
Lemma paths_sound ps s : system_sound s -> system_sound (with_paths ps s).
Proof. intros []. by split. Qed.
Lemma waiters_sound l s : system_sound s -> futex_inv l -> system_sound (with_waiters l s).
Proof. intros [] ?. by split. Qed.
Lemma space_sound_of s : system_sound s -> space_sound (space_of s).
Proof. intros []. by split. Qed.
Lemma with_space_sound sp s : system_sound s -> space_sound sp -> system_sound (with_space sp s).
Proof. intros [] []. by split. Qed.

Lemma current_sound s : system_sound s -> caller_sound (current s).
Proof.
  intros Hs t. unfold current. destruct (sys_self s) as [i|]; [|done]. intros Ht.
  by eapply Forall_lookup_1; [apply Hs|].
Qed.

Lemma with_current_sound t s : system_sound s -> caller_sound t -> system_sound (with_current t s).
Proof.
  intros [] Ht. unfold with_current. destruct (sys_self s) as [i|]; [|by split].
  destruct t as [t|]; [|by split]. split; try done; simpl.
  - apply Forall_insert; [done|by apply Ht].
  - intros E. apply (f_equal length) in E. rewrite length_insert in E. by destruct (sys_threads s).
Qed.

Lemma signals_sound_of s : system_sound s -> signals_sound (signals_of s).
Proof. intros Hs. split; [apply Hs|by apply current_sound]. Qed.

Lemma with_signals_sound st s : system_sound s -> signals_sound st -> system_sound (System.with_signals st s).
Proof. intros Hs [Ha Ht]. destruct (with_current_sound _ _ Hs Ht). by split. Qed.

Lemma with_process_sound sp threads next waiters self s :
  system_sound s -> space_sound sp -> Forall thread_sound threads -> threads <> [] -> is_u32 next ->
  futex_inv waiters -> system_sound (with_process (ThreadLife.Process sp threads next waiters) self s).
Proof. intros [] [] ? ? ? ?. by split. Qed.

Create HintDb whole.
#[local] Hint Resolve fds_sound bytes_sound paths_sound waiters_sound with_space_sound with_current_sound
  with_signals_sound current_sound signals_sound_of space_sound_of : whole.

(** The state of a reply. *)
Definition sound_reply (r : reply) : Prop :=
  match r with
  | Value _ s _ | Departs (ThreadExits s) | Departs (Waits s _) => system_sound s
  | Departs (ProcessExits _) | Departs (Execs _ _) => True
  end.

Section calls_sound.
Context `{!HostErrno, !HostOpen, !HostSeek, !HostMode, !HostSocket, !HostLimits, !HostWait, !HostStatvfs}.
Context `{!HostSignals, !HostActions, !HostTermios, !HostProt, !HostMap, !HostPoll}.
Context (PATH_MAX : nat) (off_t : Z -> Z) (ch : call_host).
Implicit Types (s : system) (c : ucontext).

Notation any := (fun _ _ _ => True).
Notation sound p := (ends any p sound_reply).

(** The context of a call and the memory it is made in hold words and bytes. *)
Definition holds_words s c : Prop := Forall is_u32 (uc_gpr c) /\ mem_wf (sys_bytes s).

(** What the host guarantees during a call: a new waiter is at an address of its
    own, [pipe] gives descriptors, and the handler of a signal only queues it. *)
Record host_sane s : Prop := {
  hs_waiter : ch_waiter ch ∉ fw_id <$> sys_waiters s;
  hs_pipe : pipe_ok (ph_wait (ch_poll ch));
  hs_during : forall t, queues t (ph_during (ch_poll ch) t) }.

Lemma sound_bind {A} (p : io A) (f : A -> io reply) : (forall a, sound (f a)) -> sound (bind p f).
Proof. intros Hf. apply ends_bind. by apply ends_true. Qed.
Lemma sound_call {B : Set} (call : host_call B) (k : B -> io reply) : (forall b, sound (k b)) -> sound (Call call k).
Proof. intros Hk b _. apply Hk. Qed.
Lemma sound_load {A} (o : option A) (f : A -> io reply) :
  (forall a, o = Some a -> sound (f a)) -> sound (bind (load_or_fault o) f).
Proof. intros Hf. destruct o as [a|]; [|done]. by apply Hf. Qed.

Lemma gpr_u32 s c i : holds_words s c -> is_u32 (gpr c i).
Proof.
  intros [Hc _]. unfold gpr. destruct (nth_in_or_default i (uc_gpr c) 0) as [Hin| ->]; [|done].
  rewrite List.Forall_forall in Hc. by apply Hc.
Qed.

Lemma after_fork_sound pid s t next p closed :
  system_sound s -> caller_sound t -> guest_thread_after_fork pid t (process_of s) = (p, closed) ->
  system_sound (with_process p next s).
Proof.
  intros Hs Ht [= <- _]. apply with_process_sound; [done|auto with whole| |done|apply u32_is_u32|by split; constructor].
  apply Forall_singleton. destruct t as [t|].
  - destruct (Ht t eq_refl). split; [apply main_thread_ok|done|done|done|done].
  - split; [apply main_thread_ok|apply words_ok_0|done|done|done].
Qed.

Lemma fork_sound s c stack : system_sound s -> sound (linux_fork_process s c stack).
Proof.
  intros Hs. unfold linux_fork_process. apply sound_call. intros [e|child]; [done|]. cond; [|done].
  apply sound_call. intros pid. destruct (guest_thread_after_fork _ _ _) as [p closed] eqn:Ef.
  apply sound_bind. intros _. eapply after_fork_sound; [done| |exact Ef]. by apply current_sound.
Qed.

Lemma clone_thread_sound s c : system_sound s -> sound (clone_thread ch s c).
Proof.
  intros Hs. unfold clone_thread. apply sound_load. intros parent Hp. pose proof (current_sound s Hs parent Hp) as Hps.
  apply sound_load. intros [[[v threads] next] m] Hc. cbn iota beta zeta.
  destruct (clone_threads_sound _ _ _ _ _ _ _ _ _ _ (sy_next _ Hs) (th_mask _ Hps) Hc) as [Hn Ht].
  apply with_process_sound; [done| | | |done|apply Hs].
  - apply with_patches_sound; [auto with whole|apply Hs].
  - destruct Ht as [->|(t & -> & Ht)]; [apply Hs|]. constructor; [done|apply Hs].
  - destruct Ht as [->|(t & -> & Ht)]; [apply Hs|done].
Qed.

Lemma clone_sound s c : system_sound s -> sound (linux_clone ch s c).
Proof.
  intros Hs. unfold linux_clone. cond; [done|]. repeat (cond; [by apply fork_sound|]). by apply clone_thread_sound.
Qed.

Lemma finish_sound host i t s p closed :
  system_sound s -> sys_threads s !! i = Some t -> is_main (process_of s) i = false ->
  finish_guest_thread host i t (process_of s) = Some (p, closed) -> system_sound (with_process p None s).
Proof.
  intros Hs Hi Hmain. pose proof (Forall_lookup_1 _ _ _ _ (sy_threads _ Hs) Hi) as Ht.
  assert (Hd : Forall thread_sound (delete i (sys_threads s))) by (apply Forall_delete, Hs).
  assert (Hne : delete i (sys_threads s) <> []).
  { intros E. apply (f_equal length) in E. rewrite length_delete in E by (by eexists).
    unfold is_main in Hmain. cbn [process_of pr_threads] in Hmain. apply Nat.eqb_neq in Hmain.
    apply lookup_lt_Some in Hi. cbn [length] in E. lia. }
  assert (Hsp : space_sound (deferred_unmap t (space_of s))).
  { unfold deferred_unmap. cond; [|auto with whole]. apply with_registry_sound; [auto with sound whole|].
    apply (run_op_wf (OpUnmap _ _)); [apply space_registry_wf; auto with sound whole|]. apply (th_deferred _ Ht). }
  unfold finish_guest_thread. cbn [process_of pr_space pr_threads pr_next_tid pr_waiters].
  cond; [intros [= <- _]; apply with_process_sound; try done; apply Hs|].
  destruct (load32 _ _); [|done].
  pose proof (wake_inv host (sys_waiters s) (t_clear_child_tid t) INT_MAX 0xffffffff (sy_waiters _ Hs)) as Hw.
  destruct (linux_futex_wake _ _ _ _ _) as [v waiters]. intros [= <- _].
  apply with_process_sound; try done; [|apply Hs]. apply with_patches_sound; [done|apply Hsp].
Qed.

Lemma exit_sound s status : system_sound s -> sound (linux_exit ch s status).
Proof.
  intros Hs. unfold linux_exit, guest_thread_exit. destruct (sys_self s) as [i|]; [|done].
  cbn [process_of pr_threads]. destruct (sys_threads s !! i) as [t|] eqn:Hi; [|done].
  destruct (is_main _ i) eqn:Em; [done|].
  destruct (finish_guest_thread _ _ _ _) as [[p closed]|] eqn:Ef; [|done]. apply sound_bind. intros _.
  by eapply finish_sound.
Qed.

Lemma execve_sound s c a b d : system_sound s -> sound (linux_execve PATH_MAX ch s c a b d).
Proof.
  intros Hs. unfold linux_execve. apply sound_bind. intros path. unfold with_path.
  destruct (guest_path_resolve _ _ _ _ _ _) as [[host_path|e]|]; [|done|done].
  cond; [done|]. do 2 (apply sound_bind; intros ?). apply sound_bind. by intros [e|arguments environment].
Qed.

Lemma futex_sound s c : system_sound s -> host_sane s -> sound (futex_call ch s c).
Proof.
  intros Hs Hh. unfold futex_call.
  pose proof (futex_calls_inv (ch_futex ch) (sys_bytes s) (sys_waiters s) (ch_waiter ch) (gpr c 0) (gpr c 1)
    (gpr c 2) (gpr c 3) (gpr c 4) (gpr c 5) (sy_waiters _ Hs) (hs_waiter _ Hh)) as Hl.
  destruct (linux_futex _ _ _ _ _ _ _ _ _ _) as [[result|deadline|] waiters]; cbn [snd] in Hl; [|  |done].
  - by apply waiters_sound.
  - assert (system_sound (with_waiters waiters s)) by (by apply waiters_sound).
    apply with_current_sound; [done|]. apply futex_begin_sound. by apply current_sound.
Qed.

(** ** Signal calls *)

Definition sound_result (out : Z * system) : Prop := system_sound out.2.

Lemma load_optional_sound {A} load m a (f : option A -> io (Z * system)) :
  ends any (f None) sound_result -> (forall x, load m a = Some x -> ends any (f (Some x)) sound_result) ->
  ends any (bind (load_optional load m a) f) sound_result.
Proof.
  intros Hn Hs. unfold load_optional. cond; [done|]. destruct (load m a) as [x|] eqn:El; [|done]. by apply Hs.
Qed.

Lemma load_sigwords_ok m a w : mem_wf m -> load_sigwords m a = Some w -> words_ok w.
Proof.
  intros Hm. unfold load_sigwords. destruct (load_words m a 2) as [[|w0 [|w1 [|]]]|] eqn:El; try done.
  apply load_words_u32 in El; [|done]. intros [= <-]. apply Forall_cons in El as [? El].
  by apply Forall_cons in El as [? _].
Qed.

Lemma load_sigaction_ok m a x : mem_wf m -> load_sigaction m a = Some x -> words_ok (sa_mask x).
Proof.
  intros Hm. unfold load_sigaction. destruct (load_words m a 5) as [[|? [|? [|? [|? [|? [|]]]]]]|] eqn:El; try done.
  apply load_words_u32 in El; [|done]. intros [= <-]. do 3 apply Forall_cons in El as [_ El].
  apply Forall_cons in El as [? El]. by apply Forall_cons in El as [? _].
Qed.

Lemma stored_words_wf s (store : bool) a ws :
  mem_wf (sys_bytes s) ->
  mem_wf (sys_bytes (if store then with_bytes (mem_store (sys_bytes s) a (concat_words ws)) s else s)).
Proof. intros Hm. destruct store; [|done]. apply mem_store_wf; [done|apply concat_words_byte]. Qed.

Lemma signal_action_sound s n a b size :
  system_sound s -> mem_wf (sys_bytes s) -> ends any (signal_action ch s n a b size) sound_result.
Proof.
  intros Hs Hm. unfold signal_action. cond; [done|]. cbn zeta.
  pose proof (stored_words_wf s (negb (b =? 0)) b (action_words (action_of (signals_of s) n)) Hm) as Hm1.
  set (s1 := if negb (b =? 0) then _ else s) in *.
  assert (Hs1 : system_sound s1) by (unfold s1; cond; auto with whole).
  assert (Hall : forall action, (forall x, action = Some x -> words_ok (sa_mask x)) ->
    ends any (let (result, st) := guest_signal_action (ch_sigaction ch) (signals_of s1) n action size in
      Ret (result, System.with_signals st s1)) sound_result).
  { intros action Ha. pose proof (action_sound (ch_sigaction ch) (signals_of s1) n action size
      (signals_sound_of s1 Hs1) Ha). destruct (guest_signal_action _ _ _ _ _) as [result st].
    by apply with_signals_sound. }
  apply load_optional_sound; [by apply Hall|]. intros x Hx. apply Hall. intros ? [= <-].
  by eapply load_sigaction_ok.
Qed.

Lemma signal_mask_sound s how a b size :
  system_sound s -> mem_wf (sys_bytes s) -> ends any (signal_mask ch s how a b size) sound_result.
Proof.
  intros Hs Hm. unfold signal_mask. cond; [done|]. cbn zeta.
  set (old := guest_thread_signal_mask_get (current s)).
  pose proof (stored_words_wf s (negb (b =? 0)) b [word0 old; word1 old] Hm) as Hm1.
  set (s1 := if negb (b =? 0) then _ else s) in *.
  assert (Hs1 : system_sound s1) by (unfold s1; cond; auto with whole).
  assert (Hall : forall set, (forall x, set = Some x -> words_ok x) ->
    ends any (let '(result, _, st) := guest_signal_mask (ch_sigmask ch) (signals_of s1) how set size in
      Ret (result, System.with_signals st s1)) sound_result).
  { intros set Ha. pose proof (mask_sound (ch_sigmask ch) (signals_of s1) how set size
      (signals_sound_of s1 Hs1) Ha). destruct (guest_signal_mask _ _ _ _ _) as [[result old'] st].
    by apply with_signals_sound. }
  apply load_optional_sound; [by apply Hall|]. intros x Hx. apply Hall. intros ? [= <-].
  by eapply load_sigwords_ok.
Qed.

Lemma signal_suspend_sound s a size :
  system_sound s -> mem_wf (sys_bytes s) -> ends any (signal_suspend ch s a size) sound_result.
Proof.
  intros Hs Hm. unfold signal_suspend. cond; [done|]. destruct (load_sigwords _ _) as [w|] eqn:El; [|done].
  cbn [load_or_fault bind]. pose proof (suspend_sound (ch_sigsuspend ch) (signals_of s) w size
    (signals_sound_of s Hs) (load_sigwords_ok _ _ _ Hm El)).
  destruct (guest_signal_suspend _ _ _ _) as [result st]. by apply with_signals_sound.
Qed.

Lemma signal_altstack_sound s c a b :
  system_sound s -> mem_wf (sys_bytes s) -> ends any (signal_altstack s c a b) sound_result.
Proof.
  intros Hs Hm. unfold signal_altstack. destruct (guest_signal_altstack _ _ _ _ _) as [[[result st] m]|] eqn:Ea; [|done].
  apply altstack_sound in Ea; [|done|by apply signals_sound_of]. apply with_signals_sound; [by apply bytes_sound|done].
Qed.

Lemma system_case_sound c p : ends any p sound_result -> sound (system_case c p).
Proof. intros Hp. apply ends_bind. eapply ends_mono; [exact Hp|]. by intros [result s]. Qed.

(** ** Memory and waiting calls *)

Lemma munmap_thread_sound sp t address len v sp' t' :
  caller_sound t -> is_u32 address ->
  linux_munmap_runtime (ch_mmap ch) t (ch_active_stack ch) sp address len = Some (v, sp', t') -> caller_sound t'.
Proof.
  intros Ht Ha. unfold linux_munmap_runtime. cond; [by intros [= _ _ <-]|].
  destruct (guest_memory_runtime_owned _ _ _) as [[]|]; [|by intros [= _ _ <-]|done].
  match goal with |- context [guest_thread_defer_active_stack_unmap t ?a ?b ?n] =>
    pose proof (defer_sound t a b n Ht Ha) as Hd end.
  destruct (guest_thread_defer_active_stack_unmap _ _ _ _) as [[] t1]; cbn [snd] in Hd; [by intros [= _ _ <-]|].
  by destruct (mh_munmap _ _ _); intros [= _ _ <-].
Qed.

Lemma munmap_case_sound s c :
  system_sound s -> holds_words s c ->
  sound (out <- load_or_fault (linux_munmap_runtime (ch_mmap ch) (current s) (ch_active_stack ch)
                                 (space_of s) (gpr c 0) (gpr c 1));;
         let '(result, sp, t) := out in value result (with_current t (with_space sp s)) c).
Proof.
  intros Hs Hw. apply sound_load. intros [[result sp] t] Hu.
  pose proof (gpr_u32 s c 0 Hw). pose proof (gpr_u32 s c 1 Hw).
  apply with_current_sound; [apply with_space_sound; [done|]|].
  - eapply munmap_sound; [by apply space_sound_of| | |exact Hu]; done.
  - eapply munmap_thread_sound; [by apply current_sound| |exact Hu]; done.
Qed.

Lemma space_case_sound s c out :
  system_sound s -> (forall v sp, out = Some (v, sp) -> space_sound sp) -> sound (space_case s c out).
Proof. intros Hs Ho. apply sound_load. intros [v sp] Hsp. apply with_space_sound; [done|by eapply Ho]. Qed.

Lemma brk_case_sound s c :
  system_sound s -> holds_words s c ->
  match guest_brk_set (ch_brk ch) (sys_memory s) (sys_bytes s) (gpr c 0) with
  | (result, memory, m) => sound (value (s32 result) (with_space (Space memory (sys_patches s) m (sys_log s)) s) c)
  end.
Proof.
  intros Hs Hw. pose proof (brk_sound (ch_brk ch) (sys_memory s) (sys_bytes s) (gpr c 0) (sy_memory _ Hs)
    (gpr_u32 s c 0 Hw)) as Hb. destruct (guest_brk_set _ _ _ _) as [[result memory] m].
  apply with_space_sound; [done|]. split; [done|apply Hs].
Qed.

Lemma poll_case_sound s c :
  system_sound s -> holds_words s c -> host_sane s ->
  sound (out <- load_or_fault (linux_poll_syscall (ch_poll ch)
                 (WaitState (current s) (ch_mask ch) (sys_bytes s)) (gpr c 7) (uc_gpr c));;
         value out.1 (with_current (ws_thread out.2) (with_bytes (ws_bytes out.2) s)) c).
Proof.
  intros Hs [_ Hm] Hh. apply sound_load. intros [v st] Hp. apply with_current_sound; [by apply bytes_sound|].
  eapply poll_sound; [apply Hh|apply Hh| | |exact Hp]; [done|by apply current_sound].
Qed.

(** ** Every case *)

Ltac sound_case :=
  first
    [ apply fork_sound; assumption
    | apply clone_sound; assumption
    | apply exit_sound; assumption
    | apply execve_sound; assumption
    | apply futex_sound; assumption
    | apply munmap_case_sound; assumption
    | apply poll_case_sound; assumption
    | apply system_case_sound;
      first [ apply signal_action_sound | apply signal_mask_sound | apply signal_suspend_sound
            | apply signal_altstack_sound ]; assumption
    | apply sound_call; intros pid; apply with_current_sound; [assumption|];
      apply (tid_address_sound pid), current_sound; assumption
    | apply space_case_sound; [assumption|]; intros ? ?;
      first [ apply mmap2_sound | apply mprotect_sound ]; first [ by apply space_sound_of | by eapply gpr_u32 ]
    | unfold fd_case, path_case, paths_case, done_case, value_case, number_case, bytes_case, chdir_case,
        fchdir_case, getcwd_case, on_fds;
      repeat first
        [ apply sound_bind; intros ?
        | apply sound_call; intros ?
        | match goal with |- ends _ (match ?x with _ => _ end) _ => destruct x end
        | exact I ];
      cbn [value ends sound_reply];
      repeat first [ assumption | apply fds_sound | apply bytes_sound | apply paths_sound
                   | apply with_current_sound | apply tls_sound | apply current_sound ] ].

Lemma case_sound nr s c p :
  system_sound s -> holds_words s c -> host_sane s -> p ∈ cases PATH_MAX off_t ch s c nr -> sound p.
Proof.
  intros Hs Hw Hh. destruct (cases_one PATH_MAX off_t ch s c nr) as [q Hq]. rewrite Hq.
  rewrite list_elem_of_singleton. intros ->. revert Hq. pose proof Hw as [_ Hm].
  destruct nr; unfold cases, stretches; cbn [omap list_omap id dispatch_io dispatch_paths dispatch_descriptors
    dispatch_process dispatch_sockets dispatch_status dispatch_signals dispatch_waits dispatch_threads].
  all: try (pose proof (brk_case_sound s c Hs Hw) as Hb;
    destruct (guest_brk_set _ _ _ _) as [[result memory] m]; cbn [omap list_omap id]; by intros [= <-]).
  all: intros Hq; injection Hq as <-; sound_case.
Qed.

(** The state after the dispatcher. *)
Definition sound_after (out : departure + system * ucontext) : Prop :=
  match out with
  | inr (s, _) | inl (ThreadExits s) | inl (Waits s _) => system_sound s
  | inl (ProcessExits _) | inl (Execs _ _) => True
  end.

Lemma dispatch_sound s c :
  system_sound s -> holds_words s c -> host_sane s ->
  ends any (linux_syscall_dispatch PATH_MAX off_t ch s c) sound_after.
Proof.
  intros Hs Hw Hh. unfold linux_syscall_dispatch. apply ends_bind, ends_true. intros _. apply ends_bind.
  apply ends_mono with sound_reply.
  - destruct (nr_of (gpr c 7)) as [nr|] eqn:Hnr; [|unfold linux_switch; by rewrite Hnr].
    destruct (cases_one PATH_MAX off_t ch s c nr) as [p Hp]. rewrite (switch_cases _ _ _ _ _ _ _ _ Hnr Hp).
    eapply case_sound; [done..|]. rewrite Hp. by apply list_elem_of_singleton.
  - intros [result s' c'|d] Hr; [|done]. apply ends_bind, ends_true. done.
Qed.
End calls_sound.
