(* ===== verification/Emulator.v ===== *)
(** * A running guest

    [trap_handler] ([src/src/trap.c]) around the dispatcher, on the whole state, the
    second half of a futex wait ([src/src/linux_futex.c]), and the guest between its
    traps: what can happen to the emulator from its entry by [main] ([src/src/linuxemu.c])
    on, and what holds in every state it then reaches. *)

From Stdlib Require Import Ascii String.
From S2P Require Import Prelude Errno Bytes Abi RuntimeRegistry GuestMemory ArmPatch GuestPath HostCalls.
From S2P Require Import Descriptors FileCalls Sockets ElfLoader InitialStack Process Termios Futex GuestThread GuestSignal.
From S2P Require Import Mmap ThreadLife Trap Time Poll SysCalls System Dispatch Confinement Integrity Boot.
Open Scope Z_scope.

Section emulator.
Context `{!HostErrno, !HostOpen, !HostSeek, !HostMode, !HostSocket, !HostLimits, !HostWait, !HostStatvfs}.
Context `{!HostSignals, !HostActions, !HostTermios, !HostProt, !HostMap, !HostPoll}.
Context (PATH_MAX : nat) (off_t : Z -> Z) (trampoline rt_trampoline : Z).
Implicit Types (s : system) (c : ucontext) (h : host).

(** [guest_thread_syscall_enter] and [guest_thread_syscall_leave]. *)
Definition syscall_active (active : bool) s : system :=
  with_current (set_syscall_active active (current s)) s.

(** The handler from [guest_thread_syscall_leave] on; [c] is the context of the
    call, [s'] and [c'] what the dispatcher left. *)
Definition leave_call c (out : departure + system * ucontext) : io (departure + system * ucontext) :=
  match out with
  | inl d => Ret (inl d)
  | inr (s', c') =>
    let s' := syscall_active false s' in
    delivered <- load_or_fault (guest_signal_deliver_pending trampoline rt_trampoline (signals_of s')
                                  (set_gpr 15 (u32 (gpr c 15 + 4)) c') (sys_bytes s') (gpr c 7) (gpr c 0));;
    let '(_, st, c', m, _) := delivered in Ret (inr (System.with_signals st (with_bytes m s'), c'))
  end.

(** The handler from [guest_thread_syscall_enter] to its return. *)
Definition guest_syscall (ch : call_host) s c : io (departure + system * ucontext) :=
  out <- linux_syscall_dispatch PATH_MAX off_t ch (syscall_active true s) c;; leave_call c out.

(** The rest of the dispatcher when the semaphore wait of a [futex] call ends, with
    its error; [w] is the waiter of the call as it is then. *)
Definition wait_ends (ch : call_host) s c (w : futex_waiter) (error : option errno)
  : io (departure + system * ucontext) :=
  let (interrupted, t) := guest_thread_futex_wait_end (current s) in
  let (result, waiters) := futex_wait_return (sys_waiters s) w error interrupted in
  _ <- trace_result (ch_trace ch) (u32 result);;
  Ret (inr (with_waiters waiters (with_current t s), set_gpr 0 (u32 result) c)).

(** And of the handler. *)
Definition guest_wakes (ch : call_host) s c (w : futex_waiter) (error : option errno)
  : io (departure + system * ucontext) := out <- wait_ends ch s c w error;; leave_call c out.

(** Another thread of the process runs. *)
Definition with_self (self : option nat) s : system :=
  System (sys_fds s) (sys_paths s) (sys_memory s) (sys_patches s) (sys_log s) (sys_threads s) (sys_next_tid s)
    (sys_waiters s) (sys_actions s) self.

(** The state the handler of [Trap] works on, as a part of the whole. *)
Definition world_of s : world := World (sys_patches s) (sys_memory s) (signals_of s) (sys_bytes s).
Definition with_world (w : world) s : system := System.with_signals (w_signals w) (with_bytes (w_bytes w) s).

(** [trap_handler] on the whole state: the branches of [Trap], or the call that is
    served. *)
Definition guest_trap (ch : call_host) s c (sig : Z) (info : siginfo) : io (departure + system * ucontext) :=
  match trap_branch trampoline rt_trampoline (world_of s) c sig info with
  | None => guest_syscall ch s c
  | Some (Resume w c) => Ret (inr (with_world w s, c))
  | Some (Fatal message) => _ <- write_message true message;; Ret (inl (ProcessExits 125))
  | Some TrapFault => Fault
  end.

(** The guest names none of the descriptors the emulator keeps for itself. *)
Definition names_its_own s c : Prop :=
  forall nr, nr_of (gpr c 7) = Some nr -> Forall (fun fd => ~ internal (sys_fds s) fd) (names nr c).

(** What is assumed of a guest that traps, and of the host: no descriptor of the
    pipes of signal waits is in the tables of the guest's descriptors, the guest
    names only descriptors of its own in a system call, its registers hold words and
    its memory bytes, and the host answers as it is documented to. *)
Record trap_premises (ch : call_host) s c (sig : Z) (info : siginfo) : Prop := {
  tp_pipes : pipes_private s;
  tp_names : trap_branch trampoline rt_trampoline (world_of s) c sig info = None -> names_its_own s c;
  tp_words : holds_words s c;
  tp_host : host_sane ch s }.

(** The 32-bit counters of the real-time queues have not overflowed. *)
Definition unwrapped (t : thread) : Prop :=
  Forall (fun q => 0 <= rq_head q /\ 0 <= rq_tail q) (t_realtime t).
Definition counters_unwrapped s : Prop := Forall unwrapped (sys_threads s).

(** What can happen to a guest: it runs, which changes its memory only; it traps,
    at a system call, a TLS read, a return from a signal or a fault, with whatever
    the host then answers, and resumes, ends its thread or waits for a futex; a wait
    ends; a signal arrives; another thread runs; a thread opens the pipe of a signal
    wait.  [host_files], [errno] and all other answers of the host may differ at each
    step.  Where a signal may be queued, the counters are still in their range
    afterwards: executions that add more than [INT_MAX] real-time signals of one
    number to the queue of a thread are not among them ([GuestThread] shows what the
    code does then). *)
Inductive guest_step : system * host -> system * host -> Prop :=
| step_run s h m : guest_step (s, h) (with_bytes m s, h)
| step_trap ch s c sig info h out h' s' :
    trap_premises ch s c sig info -> runs (guest_trap ch s c sig info) h out h' ->
    (exists c', out = inr (s', c')) \/ out = inl (ThreadExits s') \/ (exists d, out = inl (Waits s' d)) ->
    counters_unwrapped s' -> guest_step (s, h) (s', h')
| step_wake ch s c w error h s' c' h' :
    w ∈ sys_waiters s -> runs (guest_wakes ch s c w error) h (inr (s', c')) h' ->
    counters_unwrapped s' -> guest_step (s, h) (s', h')
| step_signal s c host_signal info h st' c' m' :
    host_signal_handler trampoline rt_trampoline (fun pc => guest_memory_is_executable (sys_memory s) pc 4)
      (signals_of s) c (sys_bytes s) host_signal info = Some (st', c', m') ->
    counters_unwrapped (System.with_signals st' (with_bytes m' s)) ->
    guest_step (s, h) (System.with_signals st' (with_bytes m' s), h)
| step_switch s h self : guest_step (s, h) (with_self self s, h)
| step_wait_pipe s h fd : free h fd -> guest_step (s, h) (s, <[fd := OOther]> h).

Context `{!HostErrnoOk}.

Lemma with_signals_fds st s :
  sys_fds (System.with_signals st s) = sys_fds s /\ sys_paths (System.with_signals st s) = sys_paths s.
Proof. unfold System.with_signals, with_current. by destruct (sys_self s), (ss_thread st). Qed.

Lemma syscall_active_fields active s :
  sys_fds (syscall_active active s) = sys_fds s /\ sys_paths (syscall_active active s) = sys_paths s /\
  flat_map open_descriptors (sys_threads (syscall_active active s)) =
    flat_map open_descriptors (sys_threads s).
Proof.
  unfold syscall_active, with_current, current. destruct (sys_self s) as [i|]; [|done].
  destruct (sys_threads s !! i) as [t|] eqn:Et; [|done]. split_and!; try done. simpl.
  rewrite <- (take_drop_middle _ _ _ Et) at 2.
  rewrite insert_take_drop by (by eapply lookup_lt_Some). rewrite !flat_map_app. done.
Qed.

Lemma active_private active s : pipes_private s -> pipes_private (syscall_active active s).
Proof.
  unfold pipes_private. destruct (syscall_active_fields active s) as (-> & _ & ->). done.
Qed.

Lemma leave_in_step root c out h :
  in_step_after root out h -> wp (leave_call c out) h (in_step_after root).
Proof.
  destruct out as [d|[s1 c1]]; [done|]. intros Hd. unfold leave_call. apply wp_bind.
  destruct (guest_signal_deliver_pending _ _ _ _ _ _ _) as [[[[[v st] c2] m] notes]|]; [|done].
  cbn [load_or_fault wp in_step_after]. apply signals_good, bytes_good.
  destruct (syscall_active_fields false s1) as (Hf1 & Hps1 & _). by apply (good_tables _ s1).
Qed.

Lemma guest_syscall_in_step root ch s c h :
  in_step root s h -> pipes_private s -> names_its_own s c ->
  wp (guest_syscall ch s c) h (in_step_after root).
Proof.
  intros Hg Hpp Hn. destruct (syscall_active_fields true s) as (Hf & Hps & _).
  unfold guest_syscall. apply wp_bind. eapply wp_mono; [|intros out h1; apply leave_in_step].
  apply (dispatch_good PATH_MAX off_t ch root); [|by apply active_private|by rewrite Hf].
  by apply (good_tables _ s).
Qed.

Lemma guest_wakes_in_step root ch s c w error h :
  in_step root s h -> wp (guest_wakes ch s c w error) h (in_step_after root).
Proof.
  intros Hg. unfold guest_wakes, wait_ends.
  destruct (guest_thread_futex_wait_end _) as [interrupted t], (futex_wait_return _ _ _ _) as [v waiters].
  apply wp_bind, trace_good. apply leave_in_step. cbn [in_step_after].
  apply (good_tables _ (with_current t s)); [by apply current_good|done|done].
Qed.

Lemma guest_trap_in_step root ch s c sig info h :
  in_step root s h -> pipes_private s ->
  (trap_branch trampoline rt_trampoline (world_of s) c sig info = None -> names_its_own s c) ->
  wp (guest_trap ch s c sig info) h (in_step_after root).
Proof.
  intros Hg Hpp Hn. unfold guest_trap. destruct (trap_branch _ _ _ _ _ _) as [[w c'|message|]|].
  - cbn [wp in_step_after]. by apply signals_good, bytes_good.
  - by apply trace_good.
  - done.
  - apply guest_syscall_in_step; [done|done|by apply Hn].
Qed.

Lemma guest_step_in_step root x y :
  guest_step x y -> in_step root x.1 x.2 -> in_step root y.1 y.2.
Proof.
  intros [s h m|ch s c sig info h out h' s' [Hpp Hn _ _] Hrun Hout _|ch s c w error h s' c' h' _ Hrun _
         |s c sig info h st' c' m' _ _|s h self|s h fd [_ Hfree]] Hg; simpl in *.
  - by apply bytes_good.
  - pose proof (wp_runs _ _ _ _ _ (guest_trap_in_step root ch s c sig info h Hg Hpp Hn) Hrun).
    by destruct Hout as [[c' ->]|[->|[d ->]]].
  - exact (wp_runs _ _ _ _ _ (guest_wakes_in_step root ch s c w error h Hg) Hrun).
  - by apply signals_good, bytes_good.
  - by apply (good_tables _ s).
  - destruct Hg as [Hwf Hr]. split; [|done]. by apply wf_fresh.
Qed.

(** ** The tables *)

#[local] Notation any := (fun _ _ _ => True).

Lemma active_system_sound active s : system_sound s -> system_sound (syscall_active active s).
Proof. intros Hs. by apply with_current_sound, active_sound, current_sound. Qed.

Lemma leave_sound c out : sound_after out -> ends any (leave_call c out) sound_after.
Proof.
  destruct out as [d|[s1 c1]]; [done|]. intros Hs. unfold leave_call. apply ends_bind.
  apply (active_system_sound false) in Hs.
  destruct (guest_signal_deliver_pending _ _ _ _ _ _ _) as [[[[[v st] c2] m] notes]|] eqn:Ed; [|done].
  apply deliver_pending_sound in Ed; [|by apply signals_sound_of].
  cbn [load_or_fault ends sound_after]. apply with_signals_sound; [by apply bytes_sound|done].
Qed.

Lemma active_words active s c : holds_words s c -> holds_words (syscall_active active s) c.
Proof. unfold holds_words, sys_bytes. by destruct (syscall_active_fields active s) as (-> & _). Qed.

Lemma active_sane active ch s : host_sane ch s -> host_sane ch (syscall_active active s).
Proof.
  intros [Hw Hp Hd]. split; [|done|done]. unfold syscall_active, with_current.
  destruct (sys_self s) as [i|]; [|done]. by destruct (set_syscall_active active (current s)).
Qed.

Lemma guest_wakes_sound ch s c w error : system_sound s -> ends any (guest_wakes ch s c w error) sound_after.
Proof.
  intros Hs. unfold guest_wakes, wait_ends. pose proof (futex_end_sound _ (current_sound s Hs)) as Ht.
  destruct (guest_thread_futex_wait_end _) as [interrupted t].
  destruct (futex_wait_return _ _ _ _) as [v waiters] eqn:Ew. injection Ew as _ <-.
  apply ends_bind, ends_bind, ends_true. intros _. apply leave_sound. cbn [sound_after].
  pose proof (with_current_sound t s Hs Ht) as Hs1. apply waiters_sound; [done|]. apply remove_waiter_inv, Hs.
Qed.

(** The signals the handler of [Trap] leaves are sound. *)
Definition trap_sound (out : trap_outcome) : Prop :=
  match out with Resume w _ => signals_sound (w_signals w) | Fatal _ | TrapFault => True end.

Lemma return_trap_sound w c sig info realtime :
  mem_wf (w_bytes w) -> signals_sound (w_signals w) -> trap_sound (return_or_fatal w c sig info realtime).
Proof.
  intros Hm Hs. unfold return_or_fatal. destruct (guest_signal_return _ _ _ _) as [[[v st] c']|] eqn:Er; [|done].
  apply return_sound in Er; [|done|done]. by cond.
Qed.

Lemma deliver_trap_sound w c sig n info :
  signals_sound (w_signals w) -> trap_sound (deliver_or_fatal trampoline rt_trampoline w c sig n info).
Proof.
  intros Hs. unfold deliver_or_fatal. cond; [|done].
  destruct (guest_signal_deliver _ _ _ _ _ _ _) as [[[[[v st] c'] m] notes]|] eqn:Ed; [|done].
  apply deliver_sound in Ed; [|done]. by cond.
Qed.

Lemma segv_trap_sound w c info :
  signals_sound (w_signals w) -> trap_sound (segv_trap trampoline rt_trampoline w c info).
Proof.
  intros Hs. unfold segv_trap. repeat (cond; [done|]). cond; [by destruct (load32 _ _)|].
  cond; [done|by apply deliver_trap_sound].
Qed.

Lemma trap_branch_sound w c sig info outcome :
  mem_wf (w_bytes w) -> signals_sound (w_signals w) ->
  trap_branch trampoline rt_trampoline w c sig info = Some outcome -> trap_sound outcome.
Proof.
  intros Hm Hs. unfold trap_branch. do 2 (cond; [intros [= <-]; by apply return_trap_sound|]).
  cond; [intros [= <-]; by apply segv_trap_sound|]. cond; [by intros [= <-]|].
  destruct (arm_patch_original _ _) as [original|]; [|intros [= <-]; by apply deliver_trap_sound].
  cond; [by intros [= <-]|]. cond; [|by intros [= <-]]. unfold syscall_branch.
  do 2 (cond; [intros [= <-]; by apply return_trap_sound|]). done.
Qed.

Lemma guest_trap_sound ch s c sig info :
  system_sound s -> holds_words s c -> host_sane ch s -> ends any (guest_trap ch s c sig info) sound_after.
Proof.
  intros Hs Hw Hh. unfold guest_trap. destruct (trap_branch _ _ _ _ _ _) as [outcome|] eqn:Eb.
  - destruct Hw as [_ Hm].
    pose proof (trap_branch_sound (world_of s) c sig info outcome Hm (signals_sound_of s Hs) Eb) as Ht.
    destruct outcome as [w c'|message|]; [| |done].
    + apply with_signals_sound; [by apply bytes_sound|done].
    + apply ends_bind, ends_true. done.
  - unfold guest_syscall. apply ends_bind. eapply ends_mono; [|apply leave_sound].
    apply dispatch_sound; [by apply active_system_sound|by apply active_words|by apply active_sane].
Qed.

Lemma guest_step_sound x y : guest_step x y -> system_sound x.1 -> system_sound y.1.
Proof.
  intros [s h m|ch s c sig info h out h' s' [_ _ Hw Hh] Hrun Hout _|ch s c w error h s' c' h' _ Hrun _
         |s c sig info h st' c' m' Hh _|s h self|s h fd _] Hs; simpl in *.
  - by apply bytes_sound.
  - pose proof (ends_runs _ _ _ _ _ (guest_trap_sound ch s c sig info Hs Hw Hh) Hrun).
    by destruct Hout as [[c' ->]|[->|[d ->]]].
  - exact (ends_runs _ _ _ _ _ (guest_wakes_sound ch s c w error Hs) Hrun).
  - apply handler_sound in Hh; [|by apply signals_sound_of]. apply with_signals_sound; [by apply bytes_sound|done].
  - by destruct Hs.
  - done.
Qed.

Lemma guest_step_unwrapped x y : guest_step x y -> counters_unwrapped x.1 -> counters_unwrapped y.1.
Proof. by intros []. Qed.

(** Counters that have not overflowed are those of queues in order. *)
Lemma unwrapped_wf t : thread_shape t -> unwrapped t -> thread_wf t.
Proof.
  intros [Hr Hp Hi Hq] Hu. split; try done. apply Forall_forall. intros q Hin.
  unfold unwrapped in Hu. rewrite Forall_forall in Hq, Hu. destruct (Hq q Hin) as [Hh Ht Hc Hl], (Hu q Hin) as [Uh Ut].
  unfold is_s32 in *. rewrite (s32_unique _ (rq_tail q - rq_head q)) in Hc by (done || (unfold is_s32, INT_MIN, INT_MAX in *; lia)).
  by split; try lia.
Qed.

(** Any number of steps. *)
Lemma steps_in_step root x y : rtc guest_step x y -> in_step root x.1 x.2 -> in_step root y.1 y.2.
Proof. intros Hxy. induction Hxy as [|x y z Hstep _ IH]; [done|]. intros Hx. by eapply IH, guest_step_in_step. Qed.

Lemma steps_sound x y : rtc guest_step x y -> system_sound x.1 -> system_sound y.1.
Proof. intros Hxy. induction Hxy as [|x y z Hstep _ IH]; [done|]. intros Hx. by eapply IH, guest_step_sound. Qed.

Lemma steps_unwrapped x y : rtc guest_step x y -> counters_unwrapped x.1 -> counters_unwrapped y.1.
Proof.
  intros Hxy. induction Hxy as [|x y z Hstep _ IH]; [done|]. intros Hx. by eapply IH, guest_step_unwrapped.
Qed.

Lemma steps_queues x y :
  rtc guest_step x y -> system_sound x.1 -> counters_unwrapped x.1 -> Forall thread_wf (sys_threads y.1).
Proof.
  intros Hxy Hs Hc. pose proof (sy_threads _ (steps_sound _ _ Hxy Hs)) as Ht.
  pose proof (steps_unwrapped _ _ Hxy Hc) as Hu. unfold counters_unwrapped in Hu.
  rewrite Forall_forall in Ht, Hu |- *. intros t Hin. apply unwrapped_wf; [|by apply Hu].
  by apply to_wf, th_ok, Ht.
Qed.

(** Empty tables agree with a host on which no directory is open. *)
Lemma empty_in_step s h :
  fd_paths (sys_fds s) = ∅ -> directory_streams (sys_fds s) = ∅ -> eventfd_write_peers (sys_fds s) = ∅ ->
  (forall fd p, h !! fd <> Some (ODirectory p)) -> in_step (root_path (sys_paths s)) s h.
Proof.
  intros Hp Hs He Hd. split; [|done]. destruct (sys_fds s) as [paths streams peers m]. simpl in *. subst.
  by apply start_wf.
Qed.

(** ** From [main] on *)

(** The state when [main] enters the guest: what the loader left in [st], the thread
    of [guest_thread_initialize], and the tables that start empty. *)
Definition start_system (pid : Z) (ps : path_state) (st : loader) : system :=
  System (FdState ∅ ∅ ∅ (ld_bytes st)) ps (ld_memory st) (ld_patches st) []
    [main_thread pid 0 (Words 0 0) 0 0] (u32 (initial_guest_tid pid + 1)) [] (replicate 65 zero_action) (Some 0%nat).

Lemma patches_table_sound p m : patches_wf p m -> table_sound p.
Proof.
  intros [Hr _ Hc]. split; [|done]. eapply Forall_impl; [exact Hr|]. by intros r (Ha & Hn & _).
Qed.

Lemma main_thread_sound pid : thread_sound (main_thread pid 0 (Words 0 0) 0 0).
Proof.
  pose proof (initial_tid_range pid). split; try done; simpl.
  split; [by apply thread_wf_shape, fresh_thread_wf|done|by left].
Qed.

Lemma zero_actions_sound : actions_sound (replicate 65 zero_action).
Proof. split; [done|]. apply Forall_replicate, words_ok_0. Qed.

Lemma main_unwrapped pid : unwrapped (main_thread pid 0 (Words 0 0) 0 0).
Proof. unfold unwrapped. simpl. repeat (apply Forall_cons_2; [done|]). apply Forall_nil_2. Qed.

Lemma start_unwrapped pid ps st : counters_unwrapped (start_system pid ps st).
Proof. apply Forall_singleton, main_unwrapped. Qed.

Lemma started_sound pid fs host (cm : command) ps registers image stack st1 st :
  guest_started PATH_MAX fs host cm ps registers image stack st1 st -> system_sound (start_system pid ps st).
Proof.
  intros [[[Hseg Hreg Hpat _ _ _] _ _ _ [Hbrk _] _] _ (Ep & [l Em] & Hl) _]. split; simpl.
  - rewrite Em in *. destruct Hseg, Hbrk. by split; split.
  - rewrite Ep. by eapply patches_table_sound.
  - apply Forall_singleton, main_thread_sound.
  - done.
  - apply u32_is_u32.
  - split; constructor.
  - apply zero_actions_sound.
Qed.
End emulator.

(** C5: The life of a guest.  From a start with empty tables, in any sequence of
    the guest's own computation, of traps and system calls of all kinds, of futex
    waits that end, of signals that arrive and of switches between threads, in which
    the guest never names a descriptor the emulator keeps for itself, the pipes of
    signal waits are not in the tables and no counter of a real-time queue overflows
    ([trap_premises] and [guest_step] assume so at each step), the root stays the one
    it was started with and the tables agree with the host's descriptors: every
    recorded path is the one its descriptor was opened with and lies inside the
    root, every eventfd is the read end of a pipe whose write end is kept for it
    alone, every directory stream belongs to the directory of its descriptor and no
    stream is leaked. *)
Theorem emulator_reachable_in_step
    `{!HostErrno, !HostErrnoOk, !HostOpen, !HostSeek, !HostMode, !HostSocket, !HostLimits, !HostWait}
    `{!HostStatvfs, !HostSignals, !HostActions, !HostTermios, !HostProt, !HostMap, !HostPoll}
    (PATH_MAX : nat) (off_t : Z -> Z) (trampoline rt_trampoline : Z) (s s' : system) (h h' : host) :
  fd_paths (sys_fds s) = ∅ -> directory_streams (sys_fds s) = ∅ -> eventfd_write_peers (sys_fds s) = ∅ ->
  (forall fd p, h !! fd <> Some (ODirectory p)) ->
  rtc (guest_step PATH_MAX off_t trampoline rt_trampoline) (s, h) (s', h') ->
  root_path (sys_paths s') = root_path (sys_paths s) /\
  tables_wf (root_path (sys_paths s)) None (sys_fds s') h'.
Proof.
  intros Hp Hs He Hd Hrun.
  by destruct (steps_in_step _ _ _ _ _ _ _ Hrun (empty_in_step s h Hp Hs He Hd)) as [Hwf Hr].
Qed.

(** C6: The tables of a running guest.  From a start in order, in every state that
    the steps of [guest_step] reach, whatever the guest has written to its memory
    and registers, the load segments are disjoint page ranges, the break lies between
    its minimum and the end of its mapping, the registry is sorted and disjoint, every
    patch record is of an aligned word with an instruction the handler can perform
    and there are no more than the table holds, every thread has an identifier in
    range, masks of words and a pipe that is open at both ends or at none, in each of
    its real-time queues the head is not ahead of the tail and the tail at most 64
    ahead of the head, the futex waiters are distinct, and there are 65 signal
    actions.  The steps are those of a guest that names only descriptors of its own in
    its calls, with registers and memory that hold words and bytes, of a host that
    answers as documented, while the pipes of signal waits are not in the guest's
    tables and the 32-bit counters of the real-time queues do not overflow. *)
Theorem emulator_reachable_sound
    `{!HostErrno, !HostErrnoOk, !HostOpen, !HostSeek, !HostMode, !HostSocket, !HostLimits, !HostWait}
    `{!HostStatvfs, !HostSignals, !HostActions, !HostTermios, !HostProt, !HostMap, !HostPoll}
    (PATH_MAX : nat) (off_t : Z -> Z) (trampoline rt_trampoline : Z) (s s' : system) (h h' : host) :
  system_sound s -> counters_unwrapped s ->
  rtc (guest_step PATH_MAX off_t trampoline rt_trampoline) (s, h) (s', h') ->
  system_sound s' /\ Forall thread_wf (sys_threads s').
Proof.
  intros Hs Hc Hrun. split; [exact (steps_sound _ _ _ _ _ _ Hrun Hs)|exact (steps_queues _ _ _ _ _ _ Hrun Hs Hc)].
Qed.

(** C7: From the command line on.  What [main] leaves when it enters the guest, with
    the thread it registers and its empty tables, is a start in order: in every state that the steps of [guest_step] reach from there the tables of the
    emulator are well formed, the root is the one of the command line, and the
    tables of descriptors agree with the host's.  The steps are those of a guest that never names the emulator's own descriptors, pipes of
    signal waits that are not in its tables, registers and memory of words and bytes,
    a host as documented, counters of real-time queues that do not overflow. *)
Theorem guest_life_from_main
    `{!HostErrno, !HostErrnoOk, !HostOpen, !HostSeek, !HostMode, !HostSocket, !HostLimits, !HostWait}
    `{!HostStatvfs, !HostSignals, !HostActions, !HostTermios, !HostProt, !HostMap, !HostPoll}
    (PATH_MAX : nat) (off_t : Z -> Z) (trampoline rt_trampoline pid : Z) (fs : host_fs) (host : boot_host)
    (argv : list (list ascii)) (c : command) (ps ps' : path_state) (st st' : loader) (registers registers' : list Z)
    (image : guest_image) (stack : Z) (s' : system) (h h' : HostCalls.host) :
  boot_host_ok PATH_MAX fs host -> fresh st -> length registers = 16%nat ->
  parse_command argv (bh_root host) = Some c -> boot_paths PATH_MAX fs c ps = Some (Some ps') ->
  main PATH_MAX fs host argv ps st registers = Some (Enters registers' image stack st') ->
  (forall fd p, h !! fd <> Some (ODirectory p)) ->
  rtc (guest_step PATH_MAX off_t trampoline rt_trampoline) (start_system pid ps' st', h) (s', h') ->
  system_sound s' /\ Forall thread_wf (sys_threads s') /\
  root_path (sys_paths s') = root_path ps' /\ tables_wf (root_path ps') None (sys_fds s') h'.
Proof.
  intros Hok Hst Hl Hc Hps Hmain Hd Hrun.
  pose proof (main_spec PATH_MAX fs host argv ps st registers Hok Hst Hl) as Hm.
  rewrite Hc, Hmain in Hm. destruct Hm as (ps1 & st1 & Hps1 & Hg). rewrite Hps in Hps1. injection Hps1 as <-.
  assert (Hs : system_sound (start_system pid ps' st')) by (by eapply started_sound).
  split; [exact (steps_sound _ _ _ _ _ _ Hrun Hs)|].
  split; [exact (steps_queues _ _ _ _ _ _ Hrun Hs (start_unwrapped pid ps' st'))|].
  by destruct (steps_in_step _ _ _ _ (root_path ps') _ _ Hrun
    (empty_in_step (start_system pid ps' st') h eq_refl eq_refl eq_refl Hd)) as [Hwf Hr].
Qed.

(** ** Restarted calls *)

(** Putting two registers back. *)
Lemma registers_restored (l : list Z) v w :
  length l = 16%nat ->
  <[15%nat := nth 15 l 0]> (<[0%nat := nth 0 l 0]> (<[15%nat := w]> (<[0%nat := v]> l))) = l.
Proof.
  intros Hl. apply (List.nth_ext _ _ 0 0); [by rewrite !length_insert|]. intros i _.
  destruct (decide (i = 15%nat)) as [->|]; [by rewrite nth_insert_eq by (rewrite !length_insert; lia)|].
  rewrite nth_insert_ne by done.
  destruct (decide (i = 0%nat)) as [->|]; [by rewrite nth_insert_eq by (rewrite !length_insert; lia)|].
  by rewrite !nth_insert_ne.
Qed.

Section restart.
Context `{!HostErrno, !HostOpen, !HostSeek, !HostMode, !HostSocket, !HostLimits, !HostWait, !HostStatvfs}.
Context `{!HostSignals, !HostActions, !HostTermios, !HostProt, !HostMap, !HostPoll}.
Context (PATH_MAX : nat) (off_t : Z -> Z).

Lemma clone_number n : nr_of n = Some NR_CLONE -> n = 120.
Proof.
  unfold nr_of, nr_table. cbn [find_nr]. repeat (cond; [try discriminate; intros _; by bprop|]). done.
Qed.

(** A call that can be restarted is not [clone]: it leaves register 0 only. *)
Lemma restartable_registers ch s c h s1 c1 h1 :
  restartable_syscall (gpr c 7) = true ->
  runs (linux_syscall_dispatch PATH_MAX off_t ch s c) h (inr (s1, c1)) h1 ->
  exists v, c1 = set_gpr 0 (u32 v) c.
Proof.
  intros Hr Hrun. destruct (nr_of (gpr c 7)) as [nr|] eqn:Hnr.
  - destruct (ends_runs _ _ _ _ _ (dispatch_resumes PATH_MAX off_t ch s c nr Hnr) Hrun) as [v [?|(_ & Hs & _)]];
      [by exists v|].
    destruct nr; try done. by rewrite (clone_number _ Hnr) in Hr.
  - pose proof (ends_runs _ _ _ _ _ (unknown_number PATH_MAX off_t ch s c Hnr) Hrun) as [= -> ->].
    by eexists.
Qed.

Lemma wait_registers ch s c w error h s1 c1 h1 :
  runs (wait_ends ch s c w error) h (inr (s1, c1)) h1 -> exists v, c1 = set_gpr 0 (u32 v) c.
Proof.
  unfold wait_ends. destruct (guest_thread_futex_wait_end _) as [interrupted t].
  destruct (futex_wait_return _ _ _ _) as [v waiters]. intros (u & h2 & _ & Hr)%runs_bind.
  inversion Hr. by exists v.
Qed.

(** The context with which an interrupted call is restarted is the one of the call. *)
Lemma restart_is_call st c v n :
  context_ok c -> u32 v = u32 (- errno_code EINTR) ->
  has (sa_flags (action_of st n)) LINUX_SA_RESTART = true -> restartable_syscall (gpr c 7) = true ->
  restart_context st (set_gpr 15 (u32 (gpr c 15 + 4)) (set_gpr 0 (u32 v) c)) n (gpr c 7) (gpr c 0) = c.
Proof.
  intros [Hl Hu _ _] Hv Hf Hr. unfold restart_context.
  rewrite gpr_set_ne, gpr_set_eq, Hv, Z.eqb_refl, Hf, Hr by (done || lia). cbn [andb].
  rewrite gpr_set_eq by (simpl; rewrite length_insert; lia). destruct c as [l spsr vfp mask]. simpl in *. f_equal.
  assert (Hpc : is_u32 (nth 15 l 0)).
  { rewrite Forall_forall in Hu. apply Hu, list_elem_of_In, nth_In. lia. }
  replace (u32 (u32 (gpr (Ucontext l spsr vfp mask) 15 + 4) - 4)) with (nth 15 l 0).
  { by apply registers_restored. }
  unfold gpr. simpl. unfold u32, U32_MOD, is_u32, UINTPTR_MAX in *.
  rewrite Zminus_mod_idemp_l. rewrite Z.mod_small; lia.
Qed.
End restart.

(** C9: An interrupted call is made again.  When a call that may be restarted,
    a futex wait included, ends with [EINTR] and the signal that is pending has a handler with
    [SA_RESTART], the handler's frame holds the context of the call itself: after
    the return from the handler the guest is at the same instruction with the same
    sixteen registers, status and floating point state, and the mask it had, so
    that it makes the same call again. *)
Theorem interrupted_call_restarts
    `{!HostErrno, !HostOpen, !HostSeek, !HostMode, !HostSocket, !HostLimits, !HostWait, !HostStatvfs}
    `{!HostSignals, !HostActions, !HostTermios, !HostProt, !HostMap, !HostPoll} (PATH_MAX : nat) (off_t : Z -> Z)
    (tr rt_tr : Z) (ch : call_host) (s s1 : system) (c c1 c2 c3 : ucontext) (h h1 : host) (n : Z)
    (info : siginfo) (has_info : bool) (t : thread) (st2 : signal_state) (m2 : gmap Z Z)
    (notes : list notification) :
  context_ok c -> restartable_syscall (gpr c 7) = true ->
  (runs (linux_syscall_dispatch PATH_MAX off_t ch (syscall_active true s) c) h (inr (s1, c1)) h1 \/
   exists w error, runs (wait_ends ch s c w error) h (inr (s1, c1)) h1) ->
  gpr c1 0 = u32 (- errno_code EINTR) ->
  guest_thread_take_pending (current (syscall_active false s1)) = (n, info, has_info, Some t) ->
  n <> 0 -> thread_signal_ok t ->
  has (sa_flags (action_of (signals_of (syscall_active false s1)) n)) LINUX_SA_RESTART = true ->
  guest_signal_deliver_pending tr rt_tr (signals_of (syscall_active false s1))
    (set_gpr 15 (u32 (gpr c 15 + 4)) c1) (sys_bytes (syscall_active false s1)) (gpr c 7) (gpr c 0) =
    Some (1, st2, c2, m2, notes) ->
  gpr c3 13 = gpr c2 13 ->
  exists st4 c4,
    guest_signal_return st2 c3 m2
      (has (sa_flags (action_of (signals_of (syscall_active false s1)) n)) LINUX_SA_SIGINFO) = Some (0, st4, c4) /\
    uc_gpr c4 = uc_gpr c /\ uc_spsr c4 = uc_spsr c /\ uc_vfp c4 = uc_vfp c /\
    guest_thread_signal_mask_get (ss_thread st4) = (guest_thread_signal_delivery_mask (Some t)).1.
Proof.
  intros Hc Hr Hrun Hv Ht Hn Hok Hf Hd Hsp.
  assert (exists v, c1 = set_gpr 0 (u32 v) c) as [v ->].
  { destruct Hrun as [Hrun|(w & error & Hrun)]; [by eapply restartable_registers|by eapply wait_registers]. }
  rewrite gpr_set_eq in Hv by (rewrite (co_gpr _ Hc); lia).
  set (s2 := syscall_active false s1) in *. unfold guest_signal_deliver_pending in Hd.
  cbn [signals_of ss_thread guest_actions] in Hd. rewrite Ht, (proj2 (Z.eqb_neq _ _) Hn) in Hd.
  rewrite restart_is_call in Hd by done.
  destruct (guest_signal_deliver _ _ _ _ _ _ _) as [[[[[v' st'] c'] m'] notes']|] eqn:Ed; [|done].
  destruct (v' =? 0) eqn:Ev; [|done]. bprop. subst v'. injection Hd as -> -> -> ->.
  destruct (deliver_return tr rt_tr (SignalState (sys_actions s2) (Some t)) t c _ n _ st2 c2 c3 m2 notes Hc eq_refl Hok Ed Hsp)
    as (st4 & c4 & Hret & Hg & Hs & Hfp & _ & Hm & _).
  exists st4, c4. split_and!; try done.
Qed.

(** ** Witnesses *)

Module EmulatorExamples.
Import DispatchExamples.
#[local] Existing Instance ExampleErrno.host_errno.
#[local] Existing Instance ExampleErrno.host_errno_ok.
#[local] Existing Instance example_open.
#[local] Existing Instance DescriptorExamples.example_seek.
#[local] Existing Instance FileCallExamples.example_mode.
#[local] Existing Instance SocketExamples.host_socket.
#[local] Existing Instance GuestSignalExamples.example_signals.
#[local] Existing Instance TermiosExamples.host_termios_h.
#[local] Existing Instance MmapExamples.example_prot.
#[local] Existing Instance MmapExamples.example_map.
#[local] Existing Instance PollExamples.example_poll.
#[local] Existing Instance example_limits.
#[local] Existing Instance example_wait.
#[local] Existing Instance example_actions.
#[local] Existing Instance example_statvfs.

(** The guest opens [/a]: the instruction at its program counter is a patched
    system call. *)
Definition patched : system :=
  System (sys_fds s0) (sys_paths s0) (GuestMemory [] 16 0x20000 0x20000 0x20000 []) [Patch 0x8000 ARM_LINUX_SVC_0]
    (sys_log s0) [main_thread 4242 0 (Words 0 0) 0 0] (u32 (initial_guest_tid 4242 + 1)) (sys_waiters s0)
    (replicate 65 zero_action) (sys_self s0).
Definition opening : option ((departure + system * ucontext) * host) :=
  execute DescriptorExamples.answer (guest_trap 64 (fun x => x) 0 0 ch0 patched c0 SIGILL zero_siginfo)
    DescriptorExamples.h0.
Definition s2 : system := match opening with Some (inr (s, _), _) => s | _ => s0 end.
Definition c2 : ucontext := match opening with Some (inr (_, c), _) => c | _ => c0 end.
Definition h2 : host := match opening with Some (_, h) => h | _ => ∅ end.

Example opening_resumes : gpr c2 0 = 3 /\ gpr c2 15 = 0x8004 /\ fd_paths (sys_fds s2) !! 3 = Some (chars "/r/a").
Proof. vm_compute. done. Qed.

Lemma patched_sound : system_sound patched.
Proof.
  split; cbn [patched sys_memory sys_patches sys_threads sys_next_tid sys_waiters sys_actions].
  - split; split; cbn [load_segments page_size current_break minimum_break break_mapping_end runtime_mappings].
    + exact is_page_16.
    + constructor.
    + constructor.
    + vm_compute. lia.
    + exact is_page_16.
    + split; [split|]; vm_compute; done.
    + reflexivity.
    + apply registry_wf_nil.
  - split; [|vm_compute; lia]. apply Forall_singleton. by split.
  - apply Forall_singleton, main_thread_sound.
  - done.
  - apply u32_is_u32.
  - split; constructor.
  - apply zero_actions_sound.
Qed.

Lemma patched_premises : trap_premises 0 0 ch0 patched c0 SIGILL zero_siginfo.
Proof.
  split.
  - intros fd Hfd. by apply elem_of_nil in Hfd.
  - intros _ nr [= <-]. apply Forall_nil_2.
  - split; [|apply mem_store_wf; [apply map_Forall_empty|repeat constructor; vm_compute; done]].
    repeat (apply Forall_cons_2; [split; vm_compute; discriminate|]). apply Forall_nil_2.
  - split; [apply not_elem_of_nil|by intros r w [= <- <-]|]. intros t. apply rtc_refl.
Qed.

Lemma no_directory fd p : DescriptorExamples.h0 !! fd <> Some (ODirectory p).
Proof.
  intros E. unfold DescriptorExamples.h0 in E.
  repeat (apply lookup_insert_Some in E as [[_ ?]|[_ E]]; [discriminate|]). by rewrite lookup_empty in E.
Qed.

(** The call, and the guest running on. *)
Lemma patched_runs :
  rtc (guest_step 64 (fun x => x) 0 0) (patched, DescriptorExamples.h0) (s2, h2).
Proof.
  eapply rtc_l; [|apply rtc_refl].
  apply (step_trap 64 (fun x => x) 0 0 ch0 patched c0 SIGILL zero_siginfo DescriptorExamples.h0 (inr (s2, c2)) h2).
  - apply patched_premises.
  - apply (execute_runs DescriptorExamples.answer); [apply DescriptorExamples.answer_law|].
    fold opening. vm_compute. reflexivity.
  - left. exists c2. reflexivity.
  - unfold counters_unwrapped, unwrapped. apply (bool_decide_unpack _). vm_compute. exact I.
Qed.

Lemma emulator_reachable_sound_witness : system_sound s2 /\ Forall thread_wf (sys_threads s2).
Proof.
  apply (emulator_reachable_sound 64 (fun x => x) 0 0 patched s2 DescriptorExamples.h0 h2);
    [apply patched_sound|apply Forall_singleton, main_unwrapped|apply patched_runs].
Defined.

Lemma emulator_reachable_in_step_witness :
  root_path (sys_paths s2) = chars "/r" /\ tables_wf (chars "/r") None (sys_fds s2) h2.
Proof.
  apply (emulator_reachable_in_step 64 (fun x => x) 0 0 patched s2 DescriptorExamples.h0 h2); try reflexivity.
  - exact no_directory.
  - exact patched_runs.
Defined.

(** A terminal whose [tcgetattr] is interrupted, and a thread for which signal 12,
    whose handler asks for restarts, is pending. *)
Definition interrupted_host : call_host := {|
  ch_errno := 0; ch_stale := EIO; ch_fs := GuestPathExamples.fs0; ch_trace := false;
  ch_tty := fun _ => TtyHost (inl EINTR) None (inl ENOTTY) None (inr 0) (inr 2) None (inr 7) None;
  ch_brk := ch_brk ch0; ch_mmap := ch_mmap ch0; ch_active_stack := 0; ch_exec := ch_exec ch0;
  ch_emulator := []; ch_clone := ch_clone ch0; ch_sigaction := ch_sigaction ch0; ch_sigmask := ch_sigmask ch0;
  ch_sigsuspend := ch_sigsuspend ch0; ch_pthread_kill := ch_pthread_kill ch0; ch_time := ch_time ch0;
  ch_poll := ch_poll ch0; ch_mask := ∅; ch_futex := ch_futex ch0; ch_waiter := 1 |}.
Definition pending_thread : thread := set_pending (Words 0x800 0) (replicate 31 zero_siginfo) zero_thread.
Definition reading : system :=
  System (FdState ∅ ∅ ∅ GuestSignalExamples.m0) GuestPathExamples.st0 (GuestMemory [] 16 0 0 0 []) [] []
    [pending_thread] 2 []
    (replicate 12 zero_action ++
     [Sigaction 0x20000 (LINUX_SA_SIGINFO .| LINUX_SA_RESTART) 0 (Words 2 0)] ++ replicate 52 zero_action)
    (Some 0%nat).
(** [ioctl (0, TCGETS, 0x1000)] *)
Definition call : ucontext :=
  Ucontext ([0; 0x5401; 0x1000; 5; 5; 5; 5; 54] ++ replicate 5 5 ++ [0x40000; 0x10004; 0x10008]) 0x10
    GuestSignalExamples.vfp0 ∅.

Lemma call_ok : context_ok call.
Proof.
  split; [reflexivity| |split; vm_compute; discriminate|apply GuestSignalExamples.c0_ok].
  repeat (apply Forall_cons_2; [split; vm_compute; discriminate|]). apply Forall_nil_2.
Qed.

Definition interrupted : option ((departure + system * ucontext) * host) :=
  execute DescriptorExamples.answer
    (linux_syscall_dispatch 64 (fun x => x) interrupted_host (syscall_active true reading) call) ∅.
Definition si : system := match interrupted with Some (inr (s, _), _) => s | _ => s0 end.
Definition ci : ucontext := match interrupted with Some (inr (_, c), _) => c | _ => c0 end.

Definition handled :=
  guest_signal_deliver_pending 0x70001000 0x70001004 (signals_of (syscall_active false si))
    (set_gpr 15 (u32 (gpr call 15 + 4)) ci) (sys_bytes (syscall_active false si)) (gpr call 7) (gpr call 0).

Lemma interrupted_call_restarts_witness :
  match handled with
  | Some (v, st, c, m, _) => v = 1 /\
      exists st4 c4, guest_signal_return st c m true = Some (0, st4, c4) /\ uc_gpr c4 = uc_gpr call
  | None => False
  end.
Proof.
  destruct handled as [[[[[v st] c] m] notes]|] eqn:E.
  - assert (Hv : v = 1).
    { apply (f_equal (fun o => match o with Some (v, _, _, _, _) => v | None => 0 end)) in E.
      vm_compute in E. symmetry. exact E. }
    subst v. split; [reflexivity|].
    destruct (interrupted_call_restarts 64 (fun x => x) 0x70001000 0x70001004 interrupted_host reading si call ci c c
      ∅ ∅ 12 zero_siginfo true (set_pending (Words 0 0) (replicate 31 zero_siginfo) zero_thread) st m notes)
      as (st4 & c4 & Hr & Hg & _).
    + apply call_ok.
    + vm_compute. reflexivity.
    + left. apply (execute_runs DescriptorExamples.answer); [apply DescriptorExamples.answer_law|].
      fold interrupted. vm_compute. reflexivity.
    + vm_compute. reflexivity.
    + vm_compute. reflexivity.
    + discriminate.
    + apply GuestSignalExamples.zero_thread_signal_ok.
    + vm_compute. reflexivity.
    + exact E.
    + reflexivity.
    + exists st4, c4. split; [exact Hr|exact Hg].
  - apply (f_equal (fun o => match o with Some _ => true | None => false end)) in E. vm_compute in E. discriminate.
Defined.

(** The program of the loader's example, started from the command line; it runs,
    changes its memory, and another of its threads goes on. *)
#[local] Existing Instance ElfLoaderExamples.example_prot.
Definition running (st : loader) : system :=
  with_self None (with_bytes ∅ (start_system 4242 BootExamples.ps1 st)).

Lemma guest_life_from_main_witness : exists registers image stack st',
  main 4096 BootExamples.fs BootExamples.boot1 BootExamples.argv (PathState [] (chars "/")) BootExamples.start
    (replicate 16 5) = Some (Enters registers image stack st') /\
  system_sound (running st') /\ tables_wf (chars "/r") None (sys_fds (running st')) DescriptorExamples.h0.
Proof.
  destruct BootExamples.guest_enters as (registers & image & st' & E).
  exists registers, image, 0x400fff50, st'. split; [exact E|].
  destruct (guest_life_from_main 4096 (fun x => x) 0 0 4242 BootExamples.fs BootExamples.boot1 BootExamples.argv
    BootExamples.command1 (PathState [] (chars "/")) BootExamples.ps1 BootExamples.start st' (replicate 16 5) registers
    image 0x400fff50 (running st') DescriptorExamples.h0 DescriptorExamples.h0) as (Hs & _ & _ & Ht).
  - exact BootExamples.boot1_ok.
  - exact BootExamples.start_fresh.
  - reflexivity.
  - exact BootExamples.command_parsed.
  - exact BootExamples.paths_start.
  - exact E.
  - exact no_directory.
  - eapply rtc_l; [apply step_run|]. eapply rtc_l; [apply step_switch|]. apply rtc_refl.
  - split; [exact Hs|exact Ht].
Defined.
End EmulatorExamples.
